(* ===== verification/_CoqProject ===== *)
-Q . S2P
Prelude.v
DataConvert.v
Numbers.v
Containers.v
Utilities.v
FixedBytes.v
SecureBytes.v
Recorder.v
JonString.v
ScaleStream.v
ScaleTypes.v
Storage.v
StateStorage.v
StorageLayers.v
TableStorage.v
Merkle.v
Protobuf.v
Transaction.v
Signatures.v
Receipt.v
BlockHeader.v
Block.v
PBBlock.v
Json.v
Ledger.v
NodeConfig.v
Logging.v
Multigroup.v
Records.v
Sync.v
Fixtures.v
ObjectFixtures.v
BlockFixture.v
HeaderTest.v
FakeLedger.v
FakeFront.v
SyncNetwork.v
Amop.v
Callbacks.v
Pools.v
ConcurrentQueue.v
Worker.v
Timer.v
Sealer.v
SealerLifecycle.v
Abi.v
AbiType.v
