(* ===== verification/Prelude.v ===== *)
(** * bcos-framework: a verification development

    bcos-framework is the C++ library the services of the FISCO BCOS blockchain
    share: byte and number conversions, the SCALE and contract-ABI codecs, the
    state storage of a block, transactions, receipts and blocks with their headers
    and Merkle roots, the sealer that turns pooled transactions into proposals, the
    configuration of nodes, groups and ledgers, the messages of synchronisation and
    of AMOP, worker threads, pools, queues and timers, the log, and, for the tests of
    the services, fixtures, signature schemes, a ledger and a gateway.  This library models those
    parts as executable Rocq definitions, translated function by function from the sources
    under src/, and proves what makes them correct.

    ** How C++ is modelled

    - A function returns [Ok], throws ([Throw], with an exception type of its
      component) or does something the language leaves undefined or that aborts
      ([Undefined], with a [fault]): type [outcome] below, a monad.
    - Integers are [Z]; [u8], [u16], [u32], [u64] wrap as the unsigned types do and
      [swrap] as conversions to signed ones.  Bytes are [Byte.byte], byte strings
      [list byte], [len] their size in [Z].
    - Objects are records and methods take and return them.  Where the code reads
      through pointers (RefDataContainer, SecureFixedBytes) there is a memory; a storage in front of
      another holds its state; objects that several owners point to are in a store
      ([Multigroup]); the threads of the sealer, of a worker, of the fetcher of the
      ledger's configuration, of the synchronisation, of the blocking queue and of a
      thread pool are interleavings of steps.
    - What is not in src/ (hash and signature algorithms, protobuf's serialisers,
      jsoncpp, boost's conversions, property trees and [split], asio's timers, the
      order in which tbb runs the bodies of a parallel loop, the allocator's limits)
      is a parameter, mostly the operations of a class; what a theorem needs of it
      is a hypothesis of that theorem, mostly a class of laws, and an instance shows
      that the laws can hold ([PBMessage]/[PBLaw], [CryptoSuite]/[CryptoLaw],
      [JsonLib]/[JsonLaw], [BoostText]/[BoostTextLaw], [CppInt]/[CppIntLaw],
      [Base64Iterators]/[Base64Law], [Wedpr]/[WedprLaw], [BoostHex]/[BoostHexLaw],
      [Archive]/[ArchiveLaw], [LogCore]/[LogCoreLaw], [AsioAddress]/[AsioAddressLaw]).

    ** Files

    - Prelude: outcomes, machine integers, bytes, [le_value]/[be_value], the hint
      databases and tactics the other files use.
    - DataConvert: libutilities/DataConvertUtility and the [string32] conversions:
      modules [BigEndian], [Hex], [String32].
    - Numbers: the text of integers that the standard library prints.  Containers:
      the templates of DataConvertUtility.h over Boost's hexadecimal algorithms and
      over containers.
    - Utilities: libutilities/Common ([Numeric], [Chars], [QueueSet]) and
      RefDataContainer over a byte memory ([Memory], [RefData]).
    - FixedBytes: libutilities/FixedBytes ([FixedBytes], [SecureFixedBytes]).
      SecureBytes: its constructors, operators and streams over all sizes
      ([FixedBytesObjects]), and secure arrays as objects in memory
      ([SecureObjects]) with the programs over them ([SecureMachine]).
    - Recorder: the clocks, time records and sequence numbers of libutilities/Common.
    - JonString: libutilities/JsonDataConvertUtility.h ([JonString]) and Base64
      ([Base64]).
    - ScaleStream: libcodec/scale, the streams, integers and compact integers
      ([Encoder], [Decoder]).  ScaleTypes: the operators of the streams for
      compound types; class [ScaleEncode]/[ScaleDecode] is an overload, class
      [ScaleLaw] what an overload promises, one instance for each C++ type.
    - Storage: interfaces/storage: [Entry], [Condition], [TableInfo], the class
      [StorageInterface] of the operations a storage offers and the class
      [StorageReads] of what its clients rely on.
    - StateStorage: libstorage/StateStorage, the cache with its change log, over
      any storage; it implements the class.  StorageLayers: the layer a state
      storage is to its clients, against a specification of two plain views of the
      rows ([Spec], [conforms]).
    - TableStorage: libstorage/StorageInterface.cpp and Table.cpp ([Tables]),
      KVStorageHelper ([KVStorage]), BatchStorageHelper ([Batch]).
    - Merkle: libprotocol/ParallelMerkleProof ([Merkle]), with the reference tree
      it is compared with ([MerkleTree]).
    - Protobuf: encodePBObject and decodePBObject over a generated message.
    - Transaction: libprotocol/protobuf/PBTransaction with interfaces/protocol/
      Transaction.h.  Signatures: testutils/crypto, the keys, the two signature
      schemes and the hashes over the wedpr library, and the suites made of them;
      the class [SignatureLaw] is what both schemes promise.  Receipt: PBTransactionReceipt and the status codes.
    - BlockHeader: interfaces/protocol/BlockHeader.h and PBBlockHeader, the fields,
      the cached encoding, the wire format and the signature check.
    - Block: the methods interfaces/protocol/Block.h implements.  PBBlock:
      libprotocol/protobuf/PBBlock, with its caches.
    - Json: jsoncpp as a class.  Multigroup: interfaces/multigroup, groups that
      share node descriptions, and the end points of the gateway.
    - Ledger: interfaces/ledger/LedgerConfig.h and libtool/LedgerConfigFetcher.
      NodeConfig: libtool/NodeConfig and interfaces/protocol/ServiceDesc.h.
    - Logging: libutilities/BoostLogInitializer and BoostLog over Boost's logging
      core, and FileUtility.  Records: what only stores values, as records with
      fields (class [Fielded], laws [FieldedLaw]): execution messages
      (libexecutor/NativeExecutionMessage.h), results of submitted transactions,
      errors (libutilities/Error.h), peers and gateways
      (interfaces/gateway/GatewayTypeDef.h), the paths of certificates.
    - Sync: libsync, the messages ([TxsSyncMsg]) and the configuration
      ([SyncConfig]).  Amop: libprotocol/amop.
    - Fixtures, ObjectFixtures, BlockFixture, HeaderTest: testutils/protocol and
      testutils/sync, the functions of the tests that make headers, transactions,
      receipts, messages and blocks, encode, decode and compare them; a check is an
      element of a list of booleans.
    - FakeLedger: testutils/faker/FakeLedger.h and FakeScheduler.h, and the fetcher of
      Ledger run over that ledger ([FetcherOverLedger]).  FakeFront:
      testutils/faker/FakeFrontService.h, the gateway and the front services.
      SyncNetwork: the messages of Sync over that gateway.
    - Callbacks: libutilities/CallbackCollectionHandler.h.  ConcurrentQueue:
      libutilities/ConcurrentQueue.h.  Worker: libutilities/Worker.  Timer: libutilities/Timer.
      Pools: libutilities/ThreadPool.h, and testutils/faker/FakeTxPool.h and FakeSealer.h.
    - Sealer: libsealer, [SealingManager], [Sealer] and the state machine of both
      ([SealerMachine]).  SealerLifecycle: its start and stop over the worker thread.
    - Abi: libcodec/abi/ContractABICodec.  AbiType: ContractABIType.

    Modules named [..Facts] hold the theorems of a component, modules named
    [..Witnesses] concrete inputs at which their hypotheses hold.

    ** What is proved

    - Codecs: SCALE decodes what it encodes, for every type built from the
      supported ones and whatever follows ([scale_roundtrip]); encodings are
      prefix-free; compact integers and fixed-width integers round-trip; decoding
      untrusted bytes is safe for the types whose decoder checks its input
      ([decode_untrusted]) and not for byte vectors ([truncated_input_unchecked]).
      The ABI codec round-trips every pack of types ([abi_roundtrip]) outside
      three defects, each with its own theorem; type names and signatures are
      parsed as written.
    - Storage: [rollback_restores], [write_then_read] and [primaryKeys_exact] are
      the contract of the state storage, for any storage behind it; a layer refines
      plain views of the rows, checkpoints and rollbacks included
      ([layer_refines_views]), and what it exports as changed brings the storage
      behind it up to date ([layer_commits]); tables can be
      opened once created; key-value and batch helpers do what they say; the state
      hash does not depend on the order of the rows, nor on their keys.
    - Chain: the Merkle root is the root of the reference tree for every schedule,
      the proof map leads from every leaf to it, and the transaction root commits
      to the transactions ([transaction_root_binding]); a header's hash is that of
      its present fields, headers round-trip, and the signature check accepts
      exactly what it says.  Transactions, receipts and blocks round-trip through
      their caches and protobuf ([transaction_roundtrip], [receipt_roundtrip],
      [block_roundtrip]); a transaction that verifies binds its sender to its fields
      ([verified_transaction_binding]), and with both suites a transaction signed
      with a generated pair of keys is accepted ([suites_accept_transactions]).
    - Configuration: accepted files have their values in range
      ([accepted_config_bounds], [accepted_genesis_bounds]); equal genesis data mean
      equal genesis ([genesis_data_binding]); the fetcher ends, gets what the ledger
      holds and is consistent when its requests do not overlap ([fetch_terminates],
      [useful_answers_finish], [serial_block_info_consistent]); groups round-trip
      through JSON and keep every node under its name ([group_json_roundtrip],
      [groups_stay_sound]).
    - Tests: the checks of the fixtures hold for every object they can be given, not
      only for the values of the tests ([block_fixture_passes],
      [header_fixture_passes], [transaction_fixture_passes], [header_test_passes]);
      sealers' signatures are accepted, also after a round trip
      ([sealed_header_verifies]); the ledger of the tests is a chain of signed blocks
      ([init_builds_chain]) that grows in sequence when commits wait for one another
      ([commits_in_sequence]), and the fetcher reads a consistent number and hash
      from it ([fetcher_over_ledger]); the gateway calls each waiting callback once,
      for its own response ([gateway_answers]), and can lose one when two threads
      send at once ([concurrent_sends_share_id]).
    - Messages: synchronisation and AMOP messages round-trip; what a hostile sender
      can do with a length ([amop_decode_untrusted], [short_sync_hash_undefined]);
      over the gateway a message reaches the pool of the addressed node and its answer
      the callback of the sender, once each and unchanged ([sync_exchange]).
    - Threads: calls of a worker keep their promise and return
      ([worker_calls_keep_promise], [worker_calls_return]) with a single user, and
      need not with two; a timer's handler runs at most once per start and never too
      early ([runs_at_most_starts], [never_too_early]), a destroyed timer is silent;
      the blocking queue delivers in order, each element once, and loses no wake-up
      ([queue_delivers], [queue_completes]);
      a thread pool executes what it is given once, in order, comes to rest, and does
      nothing after a stop ([pool_runs_once], [pool_completes], [stop_is_final]);
      a notification reaches the registered callbacks in order ([notify_calls]);
      setters of the synchronisation configuration that overlap can leave it stale.
    - Sealer: no transaction is lost or duplicated in any interleaving
      ([sealer_conserves_transactions]); nothing is sealed on top of uncommitted
      system transactions ([system_transactions_barrier]); proposals are filled in
      order; the worker completes its turn when left alone, and three ways in
      which it does not make progress; start and stop keep their promise and return
      ([sealer_start_stop], [sealer_calls_return]), and an exception ends the sealing
      until stop is called ([exception_ends_sealing]).
    - Utilities: hexadecimal and fixed-width conversions, comparison of fixed
      bytes as numbers, the duplicate-free queue, JSON text of numbers, Base64,
      time records that add up, sequence numbers that differ.  The operators of fixed
      bytes are those of integers at every size ([operators_as_integers]) and arrays
      are read back from streams ([stream_roundtrip]); secure arrays behave as values
      and leave only zeroes behind ([secure_arrays_wiped]).  The sinks of the log are
      those of the core, each is stopped once, and a record reaches the sinks of its
      channel and level ([log_sinks_sound], [records_filtered]); messages keep what
      was set last ([message_members]).

    ** Bounds and fuel

    Loops that are not structural take fuel and report [OutOfFuel]; each is given
    enough, and the theorems say so: one step per bit or byte of the number
    ([byteFuel], [countLoop]), one per element of the level for the Merkle loops
    (a level is shorter than the one below), one per character for the brackets of
    a type name, five for the padding of Base64.  Sizes are bounded where the code would wrap: 2^31 leaves of a
    Merkle tree (its counters are 32-bit), 2^62 bytes of ABI data, 2^63 of SCALE.

    ** What is not modelled

    Locks, atomics and the concurrent containers: a section under a lock is one
    step, and races are modelled only where theorems speak of them (the sealer's
    worker, worker threads, the blocking queue, the fetcher, the setters of the
    synchronisation, two sends of the gateway, the order of parallel loops); calls of
    a timer do not overlap.  The text of the log lines, and what Boost's logging core
    and the file system do with them.  The state after an exception has been thrown out
    of a decoder.  Wrappers that only hold memory (owning_bytes_ref,
    HolderForDestructor), the factory of the sealer, which only allocates, pure
    interfaces, symmetric encryption, which is an interface without code here, and the
    storage of the tests whose code is commented out. *)

From Stdlib Require Import ZArith Lia List.
From Stdlib Require Import Strings.String Strings.Byte.
From stdpp Require Import base tactics decidable list option countable relations.

(* ------------------------------------------------------------------ *)
(** ** Outcomes of C++ code *)

(** A C++ function returns, throws an exception the program declares, or runs
    into something the language leaves undefined (or that aborts the process). *)
Inductive fault : Type :=
| OutOfRange      (** read or write outside an object, or a checked view aborting *)
| SignedOverflow  (** signed integer arithmetic out of its range *)
| NullDeref       (** dereference of a null pointer *)
| OverlappingCopy (** [memcpy] between overlapping regions *)
| Uninitialised   (** read of a member no constructor or assignment has set *)
| UseAfterFree    (** an object used, or freed again, after it has been freed *)
| OutOfFuel.      (** the model stopped before the loop did *)

Inductive outcome (E A : Type) : Type :=
| Ok (a : A)
| Throw (e : E)
| Undefined (f : fault).

Global Arguments Ok {E A} a.
Global Arguments Throw {E A} e.
Global Arguments Undefined {E A} f.

#[export] Instance outcome_ret E : MRet (outcome E) := fun A => Ok.
#[export] Instance outcome_bind E : MBind (outcome E) :=
  fun A B k m =>
    match m with
    | Ok a => k a
    | Throw e => Throw e
    | Undefined f => Undefined f
    end.
#[export] Instance outcome_fmap E : FMap (outcome E) :=
  fun A B g m =>
    match m with
    | Ok a => Ok (g a)
    | Throw e => Throw e
    | Undefined f => Undefined f
    end.

#[export] Instance fault_eq_dec : EqDecision fault.
Proof. solve_decision. Defined.

#[export] Instance outcome_eq_dec E A `{EqDecision E, EqDecision A} :
  EqDecision (outcome E A).
Proof. solve_decision. Defined.

#[export] Instance Ok_inj {E A} : Inj (=) (=) (@Ok E A).
Proof. by intros a b [= ->]. Qed.

Definition is_ok {E A} (m : outcome E A) : bool :=
  match m with Ok _ => true | _ => false end.

Lemma bind_ok {E A B} (a : A) (k : A -> outcome E B) : (Ok a ≫= k) = k a.
Proof. reflexivity. Qed.

Lemma bind_ok_inv {E A B} (m : outcome E A) (k : A -> outcome E B) (b : B) :
  (m ≫= k) = Ok b -> exists a, m = Ok a /\ k a = Ok b.
Proof. destruct m; simpl; [eauto | discriminate..]. Qed.

Lemma bind_assoc {E A B C} (m : outcome E A) (k : A -> outcome E B)
    (h : B -> outcome E C) :
  ((m ≫= k) ≫= h) = (m ≫= fun a => k a ≫= h).
Proof. by destruct m. Qed.

(** Takes a chain of calls that succeeded apart. *)
Ltac inv_ok H :=
  lazymatch type of H with
  | (_ ≫= _) = Ok _ =>
      let a := fresh "a" in let Ha := fresh "Ha" in
      apply bind_ok_inv in H as (a & Ha & H); inv_ok H
  | _ => idtac
  end.

(** An exception passes through a caller whose own type of exceptions is wider. *)
Definition mapThrow {E F A} (g : E -> F) (m : outcome E A) : outcome F A :=
  match m with
  | Ok a => Ok a
  | Throw e => Throw (g e)
  | Undefined f => Undefined f
  end.

Lemma mapThrow_ok {E F A} (g : E -> F) (m : outcome E A) (a : A) :
  mapThrow g m = Ok a <-> m = Ok a.
Proof. destruct m; simpl; split; intros H; simplify_eq; done. Qed.

(** A filter every element passes, and one none does. *)
Lemma filter_true {A} (P : A -> Prop) `{forall x, Decision (P x)} (l : list A) :
  (forall x, x ∈ l -> P x) -> filter P l = l.
Proof.
  induction l as [| x l IH]; intros Hl; [done |].
  rewrite filter_cons_True by (apply Hl; by left). f_equal. apply IH. intros y Hy. apply Hl. by right.
Qed.

Lemma filter_false {A} (P : A -> Prop) `{forall x, Decision (P x)} (l : list A) :
  (forall x, x ∈ l -> ~ P x) -> filter P l = [].
Proof.
  induction l as [| x l IH]; intros Hl; [done |].
  rewrite filter_cons_False by (apply Hl; by left). apply IH. intros y Hy. apply Hl. by right.
Qed.

(** An invariant of a transition system holds in every state it reaches. *)
Lemma rtc_invariant {A} (R : A -> A -> Prop) (P : A -> Prop) (x y : A) :
  (forall a b, P a -> R a b -> P b) -> P x -> rtc R x y -> P y.
Proof. intros Hstep Hx Hxy. induction Hxy as [| a b c Hab _ IH]; eauto. Qed.

(** Two texts with a separator are equal when what is before its first occurrence
    and what is after are. *)
Lemma app_sep_inj {A} (d : A) (a b x y : list A) :
  ~ In d a -> ~ In d b -> a ++ d :: x = b ++ d :: y -> a = b /\ x = y.
Proof.
  revert b. induction a as [| c a IH]; intros [| e b] Ha Hb; simpl in *.
  - by intros [= ->].
  - intros [= <- _]. tauto.
  - intros [= -> _]. tauto.
  - intros [= <- E]. destruct (IH b) as [-> ->]; tauto.
Qed.

(* ------------------------------------------------------------------ *)
(** ** Machine integers *)

Declare Scope bcos_scope.
Delimit Scope bcos_scope with bcos.
Open Scope Z_scope.

(** Conversion of an integer to a [w]-bit unsigned, resp. two's complement
    signed, type. *)
Definition uwrap (w : Z) (z : Z) : Z := z mod 2 ^ w.
Definition swrap (w : Z) (z : Z) : Z := (z + 2 ^ (w - 1)) mod 2 ^ w - 2 ^ (w - 1).

Abbreviation u8 := (uwrap 8).
Abbreviation u16 := (uwrap 16).
Abbreviation u32 := (uwrap 32).
Abbreviation u64 := (uwrap 64).

Lemma pow2_pos (w : Z) : 0 <= w -> 0 < 2 ^ w.
Proof. intros. apply Z.pow_pos_nonneg; lia. Qed.

Lemma uwrap_range (w z : Z) : 0 <= w -> 0 <= uwrap w z < 2 ^ w.
Proof. intros. apply Z.mod_pos_bound. by apply pow2_pos. Qed.

Lemma uwrap_small (w z : Z) : 0 <= z < 2 ^ w -> uwrap w z = z.
Proof. apply Z.mod_small. Qed.

Lemma uwrap_add_l (w a b : Z) : 0 <= w -> uwrap w (uwrap w a + b) = uwrap w (a + b).
Proof. intros Hw. unfold uwrap. apply Z.add_mod_idemp_l. pose proof (pow2_pos w Hw). lia. Qed.

Lemma swrap_small (w z : Z) :
  0 < w -> - 2 ^ (w - 1) <= z < 2 ^ (w - 1) -> swrap w z = z.
Proof.
  intros Hw Hz. unfold swrap.
  assert (2 ^ w = 2 * 2 ^ (w - 1)) as E
    by (rewrite <- Z.pow_succ_r by lia; f_equal; lia).
  rewrite Z.mod_small by lia. lia.
Qed.

Lemma swrap_range (w z : Z) : 0 < w -> - 2 ^ (w - 1) <= swrap w z < 2 ^ (w - 1).
Proof.
  intros Hw. unfold swrap.
  assert (2 ^ w = 2 * 2 ^ (w - 1)) as E
    by (rewrite <- Z.pow_succ_r by lia; f_equal; lia).
  pose proof (Z.mod_pos_bound (z + 2 ^ (w - 1)) (2 ^ w)). pose proof (pow2_pos (w - 1)). lia.
Qed.

Lemma swrap_uwrap (w z : Z) : 0 < w -> swrap w (uwrap w z) = swrap w z.
Proof.
  intros Hw. unfold swrap, uwrap. f_equal. rewrite Z.add_mod_idemp_l; [done|].
  pose proof (pow2_pos w). lia.
Qed.

(* ------------------------------------------------------------------ *)
(** ** Bytes *)

Abbreviation byte := Byte.byte.
Abbreviation bytes := (list Byte.byte).

#[export] Instance byte_eq_dec : EqDecision byte := Byte.byte_eq_dec.

#[export] Instance byte_countable : Countable byte.
Proof.
  refine (inj_countable' Byte.to_N (fun n => default Byte.x00 (Byte.of_N n)) _).
  intros b. rewrite Byte.of_to_N. reflexivity.
Defined.

(** [b2z] reads a [uint8_t]; [z2b] is the conversion to [uint8_t]. *)
Definition b2z (b : byte) : Z := Z.of_N (Byte.to_N b).
Definition z2b (z : Z) : byte :=
  match Byte.of_N (Z.to_N (z mod 256)) with
  | Some b => b
  | None => Byte.x00
  end.

Lemma b2z_range (b : byte) : 0 <= b2z b < 256.
Proof. unfold b2z. pose proof (Byte.to_N_bounded b). lia. Qed.

Lemma z2b_b2z (b : byte) : z2b (b2z b) = b.
Proof.
  unfold z2b. rewrite Z.mod_small by apply b2z_range.
  unfold b2z. rewrite N2Z.id, Byte.of_to_N. done.
Qed.

Lemma b2z_z2b (z : Z) : b2z (z2b z) = z mod 256.
Proof.
  unfold z2b. pose proof (Z.mod_pos_bound z 256) as Hz.
  destruct (Byte.of_N _) as [b|] eqn:E.
  - apply Byte.to_of_N in E. unfold b2z. rewrite E, Z2N.id; lia.
  - apply Byte.of_N_None_iff in E. lia.
Qed.

Lemma b2z_inj (a b : byte) : b2z a = b2z b -> a = b.
Proof. intros H. by rewrite <- (z2b_b2z a), H, z2b_b2z. Qed.

Lemma z2b_mod (z : Z) : z2b (z mod 256) = z2b z.
Proof. apply b2z_inj. rewrite !b2z_z2b. apply Z.mod_mod. lia. Qed.

Lemma b2z_z2b_small (z : Z) : 0 <= z < 256 -> b2z (z2b z) = z.
Proof. intros. rewrite b2z_z2b. by apply Z.mod_small. Qed.

(** The length of a container, as the [size_t] the code reads. *)
Definition len {A} (l : list A) : Z := Z.of_nat (length l).

Lemma len_nonneg {A} (l : list A) : 0 <= len l.
Proof. unfold len. lia. Qed.

Lemma len_app {A} (l k : list A) : len (l ++ k) = len l + len k.
Proof. unfold len. rewrite length_app. lia. Qed.

Lemma len_cons {A} (x : A) (l : list A) : len (x :: l) = 1 + len l.
Proof. unfold len. simpl length. lia. Qed.

Lemma len_nil {A} : len (@nil A) = 0.
Proof. reflexivity. Qed.

Create Rewrite HintDb len.
#[export] Hint Rewrite @len_app @len_cons @len_nil : len.

(** Normalises the lengths of concatenations everywhere. *)
Ltac simpl_len := autorewrite with len in *.

(* ------------------------------------------------------------------ *)
(** ** Little-endian and big-endian values of byte sequences *)

Fixpoint le_value (bs : bytes) : Z :=
  match bs with
  | [] => 0
  | b :: bs' => b2z b + 256 * le_value bs'
  end.

Fixpoint le_bytes (n : nat) (z : Z) : bytes :=
  match n with
  | O => []
  | S n' => z2b z :: le_bytes n' (z / 256)
  end.

Lemma length_le_bytes n z : length (le_bytes n z) = n.
Proof. revert z; induction n; intros; simpl; auto. Qed.

Lemma pow256_succ (n : nat) : 256 ^ Z.of_nat (S n) = 256 * 256 ^ Z.of_nat n.
Proof. rewrite Nat2Z.inj_succ, Z.pow_succ_r; lia. Qed.

Lemma pow256_pos (n : nat) : 0 < 256 ^ Z.of_nat n.
Proof. apply Z.pow_pos_nonneg; lia. Qed.

Lemma le_value_range (bs : bytes) : 0 <= le_value bs < 256 ^ len bs.
Proof.
  unfold len. induction bs as [|b bs IH]; simpl le_value; [simpl; lia|].
  simpl length. rewrite pow256_succ. pose proof (b2z_range b). lia.
Qed.

Lemma le_value_le_bytes (n : nat) (z : Z) :
  le_value (le_bytes n z) = z mod 256 ^ Z.of_nat n.
Proof.
  revert z; induction n as [|n IH]; intros z; simpl le_bytes; simpl le_value.
  - by rewrite Z.mod_1_r.
  - rewrite IH, b2z_z2b, pow256_succ.
    rewrite Z.rem_mul_r by (pose proof (pow256_pos n); lia). done.
Qed.

Lemma le_bytes_le_value (bs : bytes) : le_bytes (length bs) (le_value bs) = bs.
Proof.
  induction bs as [|b bs IH]; [done|]. simpl. f_equal.
  - apply b2z_inj. rewrite b2z_z2b, (Z.mul_comm 256), Z_mod_plus_full.
    apply Z.mod_small, b2z_range.
  - replace ((b2z b + 256 * le_value bs) / 256) with (le_value bs); [done|].
    pose proof (b2z_range b).
    rewrite (Z.mul_comm 256), Z_div_plus_full by lia.
    rewrite (Z.div_small (b2z b)) by lia. lia.
Qed.

Lemma le_value_app (b1 b2 : bytes) :
  le_value (b1 ++ b2) = le_value b1 + 256 ^ len b1 * le_value b2.
Proof.
  unfold len. induction b1 as [|b b1 IH]; simpl app; simpl le_value.
  - simpl. lia.
  - rewrite IH. simpl length. rewrite pow256_succ. lia.
Qed.

Definition be_value (bs : bytes) : Z := le_value (rev bs).
Definition be_bytes (n : nat) (z : Z) : bytes := rev (le_bytes n z).

Lemma be_value_be_bytes (n : nat) (z : Z) :
  be_value (be_bytes n z) = z mod 256 ^ Z.of_nat n.
Proof. unfold be_value, be_bytes. by rewrite rev_involutive, le_value_le_bytes. Qed.

Lemma be_bytes_be_value (bs : bytes) : be_bytes (length bs) (be_value bs) = bs.
Proof.
  unfold be_value, be_bytes. rewrite <- (length_rev bs), le_bytes_le_value.
  apply rev_involutive.
Qed.

Lemma be_value_range (bs : bytes) : 0 <= be_value bs < 256 ^ len bs.
Proof. unfold be_value, len. rewrite <- length_rev. apply le_value_range. Qed.

Lemma be_value_snoc (bs : bytes) (b : byte) :
  be_value (bs ++ [b]) = 256 * be_value bs + b2z b.
Proof. unfold be_value. rewrite rev_app_distr. simpl. lia. Qed.

Lemma length_be_bytes n z : length (be_bytes n z) = n.
Proof. unfold be_bytes. by rewrite length_rev, length_le_bytes. Qed.

Lemma le_bytes_mod (n : nat) (z : Z) : le_bytes n (z mod 256 ^ Z.of_nat n) = le_bytes n z.
Proof.
  rewrite <- le_value_le_bytes. rewrite <- (length_le_bytes n z) at 1.
  apply le_bytes_le_value.
Qed.

Lemma pow256_pow2 (n : Z) : 0 <= n -> 256 ^ n = 2 ^ (8 * n).
Proof. intros. by rewrite Z.pow_mul_r by lia. Qed.

