(* ===== verification/DataConvert.v ===== *)
(** * Data conversion utilities

    Model of libutilities/DataConvertUtility.h and DataConvertUtility.cpp: big-endian
    encoding of unsigned integers, hexadecimal strings and fixed strings of 32
    characters.  Integers of the Boost types [u256], [u160] and of the built-in
    unsigned types are values of [Z] with the width of the type as an argument. *)

From Stdlib Require Import ZArith Lia List.
From Stdlib Require Import Strings.String Strings.Byte.
From stdpp Require Import base tactics decidable list option.
From S2P Require Import Prelude.

Module BigEndian.

(** [toBigEndian(_val, o_out)] for an output container of [n] bytes: the loop
    writes the low byte of [_val] at index [i - 1] and shifts, for [i] from [n]
    down to 1. *)
Fixpoint toBigEndian (n : nat) (val : Z) : bytes :=
  match n with
  | O => []
  | S n' => toBigEndian n' (Z.shiftr val 8) ++ [z2b (Z.land val 255)]
  end.

(** [fromBigEndian<T>(_bytes)] for an unsigned type [T] of [w] bits. *)
Definition fromBigEndian (w : Z) (bs : bytes) : Z :=
  fold_left (fun ret i => uwrap w (Z.lor (Z.shiftl ret 8) (b2z i))) bs 0.

(** [toBigEndian(u256)] and [toBigEndian(u160)]. *)
Definition toBigEndian_u256 (val : Z) : bytes := toBigEndian 32 val.
Definition toBigEndian_u160 (val : Z) : bytes := toBigEndian 20 val.

(** The counting loop [for (T v = _val; v; ++i, v >>= 8)] of
    [toCompactBigEndian], with fuel. *)
Fixpoint byteCount (fuel : nat) (v : Z) : outcome Empty_set nat :=
  if bool_decide (v = 0) then Ok O
  else match fuel with
       | O => Undefined OutOfFuel
       | S fuel' => S <$> byteCount fuel' (Z.shiftr v 8)
       end.

(** Iterations that the counting loop is given: one per bit is enough. *)
Definition byteFuel (v : Z) : nat := S (Z.to_nat (Z.log2 v)).

Definition toCompactBigEndian (val : Z) (min : nat) : outcome Empty_set bytes :=
  i ← byteCount (byteFuel val) val;
  Ok (toBigEndian (Nat.max min i) val).

(** [toCompactBigEndian(byte, unsigned)]. *)
Definition toCompactBigEndian_byte (val : byte) (min : Z) : bytes :=
  if bool_decide (min ≠ 0 \/ b2z val ≠ 0) then [val] else [].

Lemma toBigEndian_be_bytes (n : nat) (val : Z) : toBigEndian n val = be_bytes n val.
Proof.
  unfold be_bytes. revert val; induction n as [|n IH]; intros val; [done|].
  simpl. rewrite IH, Z.shiftr_div_pow2 by lia. do 2 f_equal.
  change 255 with (Z.ones 8). rewrite Z.land_ones by lia.
  apply z2b_mod.
Qed.

Lemma length_toBigEndian (n : nat) (val : Z) : length (toBigEndian n val) = n.
Proof. by rewrite toBigEndian_be_bytes, length_be_bytes. Qed.

Lemma lor_byte (a b : Z) : 0 <= b < 256 -> Z.lor (Z.shiftl a 8) b = 256 * a + b.
Proof.
  intros Hb. rewrite Z.shiftl_mul_pow2 by lia. change (2 ^ 8) with 256.
  pose proof (Z.add_lor_land (a * 256) b) as E.
  enough (Z.land (a * 256) b = 0) as Hl by lia.
  apply Z.bits_inj'. intros i Hi. rewrite Z.land_spec, Z.bits_0.
  change 256 with (2 ^ 8). rewrite Z.mul_pow2_bits by lia.
  destruct (decide (i < 8)) as [Hlt|Hge].
  - by rewrite (Z.testbit_neg_r a) by lia.
  - rewrite <- (Z.mod_small b (2 ^ 8)) by (simpl; lia).
    rewrite Z.mod_pow2_bits_high by lia. apply andb_false_r.
Qed.

Lemma fromBigEndian_be_value (w : Z) (bs : bytes) :
  8 * len bs <= w -> fromBigEndian w bs = be_value bs.
Proof.
  unfold fromBigEndian.
  induction bs as [|b bs IH] using rev_ind; intros Hw; [done|].
  simpl_len.
  rewrite fold_left_app, IH by lia. simpl. rewrite lor_byte by apply b2z_range.
  rewrite be_value_snoc. apply uwrap_small.
  pose proof (be_value_range (bs ++ [b])) as Hr.
  rewrite be_value_snoc in Hr. simpl_len.
  split; [lia|]. eapply Z.lt_le_trans; [apply Hr|].
  rewrite pow256_pow2 by (pose proof (len_nonneg bs); lia).
  apply Z.pow_le_mono_r; lia.
Qed.

Lemma byteCount_spec (fuel : nat) (v : Z) (m : Z) :
  0 <= v < 2 ^ m -> 0 <= m <= Z.of_nat fuel ->
  exists n, byteCount fuel v = Ok n /\ v < 256 ^ Z.of_nat n /\
    (0 < v -> 256 ^ (Z.of_nat n - 1) <= v) /\ (v = 0 -> n = O).
Proof.
  revert v m; induction fuel as [|fuel IH]; intros v m Hv Hm.
  - assert (m = 0) as -> by lia. assert (v = 0) as -> by (simpl in Hv; lia).
    exists O. simpl. auto with lia.
  - simpl. case_bool_decide as H0; [subst; exists O; simpl; auto with lia|].
    assert (1 <= m) by (destruct (decide (m = 0)) as [->|]; [simpl in Hv|]; lia).
    destruct (IH (Z.shiftr v 8) (m - 1)) as (n & E & H1 & H2 & H3).
    { rewrite Z.shiftr_div_pow2 by lia. split; [apply Z.div_pos; lia|].
      apply Z.div_lt_upper_bound; [lia|].
      replace (2 ^ m) with (2 * 2 ^ (m - 1)) in Hv
        by (rewrite <- Z.pow_succ_r by lia; f_equal; lia). lia. }
    { lia. }
    rewrite E. exists (S n). rewrite Z.shiftr_div_pow2 in * by lia.
    change (2 ^ 8) with 256 in *. rewrite pow256_succ.
    pose proof (Z.div_mod v 256) as Hdm. pose proof (Z.mod_pos_bound v 256).
    split; [done|]. split; [nia|]. split; [|lia]. intros _.
    destruct (decide (v / 256 = 0)) as [Hz|Hnz].
    + rewrite (H3 Hz). simpl. lia.
    + replace (Z.of_nat (S n) - 1) with (Z.succ (Z.of_nat n - 1)) by lia.
      destruct n as [|n]; [simpl in H1; assert (0 <= v / 256) by (apply Z.div_pos; lia); lia|].
      rewrite Z.pow_succ_r by lia.
      assert (0 <= v / 256) by (apply Z.div_pos; lia).
      specialize (H2 ltac:(lia)). nia.
Qed.

Lemma byteCount_enough (v : Z) :
  0 <= v ->
  exists n, byteCount (byteFuel v) v = Ok n /\ v < 256 ^ Z.of_nat n /\
    (0 < v -> 256 ^ (Z.of_nat n - 1) <= v) /\ (v = 0 -> n = O).
Proof.
  intros Hv. destruct (decide (v = 0)) as [->|].
  - exists O. repeat split; auto with lia.
  - apply (byteCount_spec _ _ (Z.succ (Z.log2 v))).
    + split; [done|]. apply Z.log2_spec. lia.
    + unfold byteFuel. pose proof (Z.log2_nonneg v). lia.
Qed.

(** Big-endian encoding into [n] bytes and back is the identity on the values
    of [n] bytes, and back and forth on the byte sequences that fit the type. *)
Theorem bigEndian_roundtrip (w : Z) (n : nat) (v : Z) (bs : bytes)
    (Hv : 0 <= v < 256 ^ Z.of_nat n) (Hw : 8 * Z.of_nat n <= w) (Hbs : length bs = n) :
  fromBigEndian w (toBigEndian n v) = v /\ toBigEndian n (fromBigEndian w bs) = bs.
Proof.
  rewrite !fromBigEndian_be_value, !toBigEndian_be_bytes
    by (unfold len; rewrite ?length_toBigEndian, ?Hbs; lia).
  rewrite be_value_be_bytes, Z.mod_small by done. subst n.
  split; [done|]. apply be_bytes_be_value.
Qed.

(** [toCompactBigEndian] terminates, pads to [min] bytes, otherwise uses the
    fewest bytes that hold the value, and decodes to the value. *)
Theorem toCompactBigEndian_spec (v : Z) (min : nat) (Hv : 0 <= v) :
  exists bs, toCompactBigEndian v min = Ok bs /\
    (forall w, 8 * len bs <= w -> fromBigEndian w bs = v) /\
    (min <= length bs)%nat /\
    (forall n, v < 256 ^ Z.of_nat n -> (length bs <= Nat.max min n)%nat).
Proof.
  destruct (byteCount_enough v Hv) as (i & E & Hlt & Hge & H0).
  exists (toBigEndian (Nat.max min i) v). unfold toCompactBigEndian.
  rewrite E, length_toBigEndian. split; [done|]. split; [|split; [lia|]].
  - intros w Hw. rewrite fromBigEndian_be_value by done.
    rewrite toBigEndian_be_bytes, be_value_be_bytes. apply Z.mod_small.
    split; [done|]. eapply Z.lt_le_trans; [apply Hlt|]. apply Z.pow_le_mono_r; lia.
  - intros n Hn. apply Nat.max_le_compat_l.
    destruct (decide (v = 0)) as [Hz|]; [rewrite (H0 Hz); lia|].
    specialize (Hge ltac:(lia)).
    assert (256 ^ (Z.of_nat i - 1) < 256 ^ Z.of_nat n) as Hp by lia.
    apply Z.pow_lt_mono_r_iff in Hp; lia.
Qed.

Lemma toCompactBigEndian_spec_witness :
  exists bs, toCompactBigEndian 258 1 = Ok bs /\
    (forall w, 8 * len bs <= w -> fromBigEndian w bs = 258) /\
    (1 <= length bs)%nat /\
    (forall n, 258 < 256 ^ Z.of_nat n -> (length bs <= Nat.max 1 n)%nat).
Proof. apply (toCompactBigEndian_spec 258 1). lia. Defined.

End BigEndian.

(* ------------------------------------------------------------------ *)
(** ** Hexadecimal strings *)

Module Hex.

Inductive hex_exn : Type := BadHexCharacter.

(** [convertCharToHexNumber]. *)
Definition convertCharToHexNumber (c : byte) : Z :=
  let c := b2z c in
  if (b2z "0" <=? c) && (c <=? b2z "9") then c - b2z "0"
  else if (b2z "a" <=? c) && (c <=? b2z "f") then c - b2z "a" + 10
  else if (b2z "A" <=? c) && (c <=? b2z "F") then c - b2z "A" + 10
  else -1.

Definition hexCharsCollection : bytes := list_byte_of_string "0123456789abcdef".

Definition hexChar (n : Z) : byte := nth (Z.to_nat n) hexCharsCollection "0"%byte.

(** [toHexString(_begin, _end, _prefix)]. *)
Definition toHexString (data : bytes) (prefix : bytes) : bytes :=
  prefix ++ flat_map (fun b => [hexChar (Z.land (Z.shiftr (b2z b) 4) 15);
                                hexChar (Z.land (b2z b) 15)]) data.

Definition prefix0x : bytes := list_byte_of_string "0x".

Definition toHexStringWithPrefix (data : bytes) : bytes := toHexString data prefix0x.

(** The position after a leading 0x, when there is one. *)
Definition skip0x (s : bytes) : bytes :=
  if bool_decide (take 2 s = prefix0x) then drop 2 s else s.

(** [isHexString]: an optional leading 0x, then hex digits only. *)
Definition isHexString (s : bytes) : bool :=
  forallb (fun c => negb (convertCharToHexNumber c =? -1))
    (skip0x s).

(** The loop of [fromHexString] over pairs of characters; a lone last character
    does not occur, the caller consumes it first. *)
Fixpoint fromHexPairs (s : bytes) : outcome hex_exn bytes :=
  match s with
  | [] => Ok []
  | hi :: lo :: s' =>
      let highValue := convertCharToHexNumber hi in
      let lowValue := convertCharToHexNumber lo in
      if (highValue =? -1) || (lowValue =? -1) then Throw BadHexCharacter
      else rest ← fromHexPairs s';
           Ok (z2b (u8 (Z.shiftl highValue 4) + lowValue) :: rest)
  | [_] => Undefined OutOfRange
  end.

(** [fromHexString]: skips a leading 0x, reads a lone digit first when the
    length is odd. *)
Definition fromHexString (s : bytes) : outcome hex_exn bytes :=
  let s' := skip0x s in
  if Nat.odd (length s) then
    match s' with
    | [] => Undefined OutOfRange
    | c :: s'' =>
        let h := convertCharToHexNumber c in
        if h =? -1 then Throw BadHexCharacter
        else rest ← fromHexPairs s''; Ok (z2b h :: rest)
    end
  else fromHexPairs s'.

Definition hexHigh (b : byte) : byte := hexChar (Z.land (Z.shiftr (b2z b) 4) 15).
Definition hexLow (b : byte) : byte := hexChar (Z.land (b2z b) 15).

Lemma toHexString_cons (b : byte) (data : bytes) :
  toHexString (b :: data) [] = hexHigh b :: hexLow b :: toHexString data [].
Proof. reflexivity. Qed.

Lemma convert_hexHigh (b : byte) : convertCharToHexNumber (hexHigh b) = b2z b / 16.
Proof. by destruct b. Qed.

Lemma convert_hexLow (b : byte) : convertCharToHexNumber (hexLow b) = b2z b mod 16.
Proof. by destruct b. Qed.

Lemma convert_range (c : byte) :
  convertCharToHexNumber c = -1 \/ 0 <= convertCharToHexNumber c < 16.
Proof. destruct c; first [by left | by right]. Qed.

Lemma length_toHexString (data p : bytes) :
  length (toHexString data p) = (length p + 2 * length data)%nat.
Proof.
  unfold toHexString. rewrite length_app. f_equal.
  induction data as [|b data IH]; simpl in *; lia.
Qed.

Lemma fromHexPairs_toHexString (data : bytes) :
  fromHexPairs (toHexString data []) = Ok data.
Proof.
  induction data as [|b data IH]; [done|]. rewrite toHexString_cons. simpl.
  rewrite convert_hexHigh, convert_hexLow, IH. simpl.
  pose proof (b2z_range b) as Hb.
  assert (0 <= b2z b / 16 < 16)
    by (split; [apply Z.div_pos | apply Z.div_lt_upper_bound]; lia).
  pose proof (Z.mod_pos_bound (b2z b) 16).
  case_match eqn:E; [lia|]. do 2 f_equal.
  rewrite Z.shiftl_mul_pow2, uwrap_small by lia.
  replace (b2z b / 16 * 2 ^ 4 + b2z b mod 16) with (b2z b)
    by (pose proof (Z.div_mod (b2z b) 16); lia).
  apply z2b_b2z.
Qed.

Lemma toHexString_no_prefix (data : bytes) : take 2 (toHexString data []) ≠ prefix0x.
Proof. destruct data as [|b data]; [done|]. rewrite toHexString_cons. by destruct b. Qed.

(** Reads of pairs of digits succeed exactly when every character is a digit. *)
Lemma fromHexPairs_ok (n : nat) (s : bytes) :
  length s = (2 * n)%nat ->
  is_ok (fromHexPairs s) = forallb (fun c => negb (convertCharToHexNumber c =? -1)) s /\
  forall r, fromHexPairs s = Ok r -> length r = n.
Proof.
  revert s; induction n as [|n IH]; intros s Hs.
  - destruct s; [|discriminate]. split; [done|]. intros r [= <-]. done.
  - destruct s as [|hi [|lo s]]; try (simpl in Hs; lia).
    destruct (IH s) as [H1 H2]; [simpl in Hs; lia|]. simpl.
    destruct (convertCharToHexNumber hi =? -1); [done|].
    destruct (convertCharToHexNumber lo =? -1); [done|]. simpl.
    destruct (fromHexPairs s) as [r| |]; simpl in *; split; try done.
    intros r' [= <-]. simpl. f_equal. by apply H2.
Qed.

Lemma length_skip0x (s : bytes) :
  exists k, length s = (2 * k + length (skip0x s))%nat.
Proof.
  unfold skip0x. case_bool_decide as H; [|by exists O].
  exists 1%nat. rewrite length_drop. apply (f_equal length) in H.
  rewrite length_take in H. change (length prefix0x) with 2%nat in H. lia.
Qed.

Lemma odd_skip0x (s : bytes) : Nat.odd (length s) = Nat.odd (length (skip0x s)).
Proof.
  destruct (length_skip0x s) as [k ->]. rewrite Nat.odd_add, Nat.odd_mul. simpl.
  by destruct (Nat.odd _).
Qed.

(** A failed read of pairs is always the exception. *)
Lemma fromHexPairs_throw (n : nat) (s : bytes) :
  length s = (2 * n)%nat -> is_ok (fromHexPairs s) = false ->
  fromHexPairs s = Throw BadHexCharacter.
Proof.
  revert s; induction n as [|n IH]; intros s Hs.
  - destruct s; [done|discriminate].
  - destruct s as [|hi [|lo s]]; try (simpl in Hs; lia). simpl.
    case_match; [done|]. intros H'. rewrite IH; [done|simpl in Hs; lia|].
    by destruct (fromHexPairs s).
Qed.

Lemma fromHexString_toHexString (data : bytes) : fromHexString (toHexString data []) = Ok data.
Proof.
  unfold fromHexString. rewrite length_toHexString. unfold skip0x.
  rewrite bool_decide_eq_false_2 by apply toHexString_no_prefix.
  rewrite Nat.add_0_l, Nat.odd_mul. apply fromHexPairs_toHexString.
Qed.

Lemma toHexString_inj (a b : bytes) : toHexString a [] = toHexString b [] -> a = b.
Proof.
  intros E. apply (inj (@Ok hex_exn bytes)). by rewrite <- !fromHexPairs_toHexString, E.
Qed.

(** The text has digits and lower-case letters only. *)
Lemma toHexString_chars (P : byte -> Prop) (data : bytes) :
  Forall P hexCharsCollection -> Forall P (toHexString data []).
Proof.
  intros HP. induction data as [| b data IH]; [apply Forall_nil_2 |].
  rewrite toHexString_cons. rewrite List.Forall_forall in HP.
  repeat apply Forall_cons_2; [apply HP.. | exact IH]; destruct b; simpl; tauto.
Qed.

(** Hexadecimal printing and parsing: the bytes come back, with and without the
    0x prefix. *)
Theorem hex_roundtrip (data : bytes) :
  fromHexString (toHexString data []) = Ok data /\
  fromHexString (toHexStringWithPrefix data) = Ok data.
Proof.
  split; [apply fromHexString_toHexString |].
  unfold fromHexString, toHexStringWithPrefix. rewrite length_toHexString.
  unfold skip0x. rewrite bool_decide_eq_true_2 by done.
  rewrite Nat.odd_add, Nat.odd_mul. apply fromHexPairs_toHexString.
Qed.

(** [fromHexString] accepts exactly the strings [isHexString] accepts, never
    reads outside the string, and yields half as many bytes as digits, rounded
    up. *)
Theorem fromHexString_isHexString (s : bytes) :
  is_ok (fromHexString s) = isHexString s /\
  (isHexString s = false -> fromHexString s = Throw BadHexCharacter) /\
  forall r, fromHexString s = Ok r -> length r = ((length (skip0x s) + 1) / 2)%nat.
Proof.
  unfold fromHexString, isHexString. rewrite odd_skip0x. set (t := skip0x s).
  destruct (Nat.odd (length t)) eqn:Ho.
  - apply Nat.odd_spec in Ho as [k Hk]. destruct t as [|c t]; [simpl in Hk; lia|].
    destruct (fromHexPairs_ok k t) as [H1 H2]; [simpl in Hk; lia|].
    pose proof (fromHexPairs_throw k t ltac:(simpl in Hk; lia)) as H3.
    replace ((length (c :: t) + 1) / 2)%nat with (S k)
      by (apply Nat.div_unique with (r := O); simpl in *; lia).
    simpl forallb. destruct (convertCharToHexNumber c =? -1); [done|].
    simpl negb. rewrite andb_true_l, <- H1.
    destruct (fromHexPairs t) as [r| |]; simpl in *;
      [|specialize (H3 eq_refl); simplify_eq; naive_solver..]. split; [done|]. split; [done|].
    intros r' [= <-]. simpl length. by rewrite (H2 r).
  - assert (Nat.even (length t)) as He by (rewrite <- Nat.negb_odd, Ho; done).
    apply Is_true_true, Nat.even_spec in He as [k Hk].
    destruct (fromHexPairs_ok k t Hk) as [H1 H2]. rewrite <- H1.
    split; [done|]. split; [by apply (fromHexPairs_throw k)|].
    intros r Hr. rewrite (H2 r Hr), Hk. apply Nat.div_unique with (r := 1%nat); lia.
Qed.

End Hex.

(* ------------------------------------------------------------------ *)
(** ** Fixed strings of 32 characters *)

Module String32.

(** [toString32(std::string)]: the first 32 characters, padded with zeroes. *)
Definition toString32 (s : bytes) : bytes :=
  map (fun i => nth i s Byte.x00) (seq 0 32).

(** [toString(string32)]: the characters before the first zero. *)
Fixpoint takeNonZero (s : bytes) : bytes :=
  match s with
  | [] => []
  | c :: s' => if bool_decide (c = Byte.x00) then [] else c :: takeNonZero s'
  end.

Definition toString (s : bytes) : bytes := takeNonZero (take 32 s).

Lemma toString32_resize (s : bytes) : toString32 s = resize 32 Byte.x00 s.
Proof.
  apply list_eq. intros i. unfold toString32. rewrite list_lookup_fmap.
  destruct (decide (i < 32)%nat).
  - rewrite lookup_seq_lt by done. simpl.
    destruct (decide (i < length s)%nat) as [Hl|Hl].
    + rewrite lookup_resize by done.
      destruct (lookup_lt_is_Some_2 s i Hl) as [c Hc]. rewrite Hc.
      by rewrite (nth_lookup_Some _ _ _ _ Hc).
    + rewrite lookup_resize_new by lia. by rewrite nth_overflow by lia.
  - rewrite lookup_seq_ge by lia. rewrite lookup_resize_old by lia. done.
Qed.

Lemma takeNonZero_app (s : bytes) (n : nat) :
  Forall (fun c => c ≠ Byte.x00) s -> takeNonZero (s ++ replicate n Byte.x00) = s.
Proof.
  induction 1 as [|c s Hc _ IH]; simpl; [by destruct n|].
  rewrite bool_decide_eq_false_2 by done. by rewrite IH.
Qed.

(** A string of at most 32 characters none of which is zero survives the
    conversion to [string32] and back; a longer one keeps its first 32. *)
Theorem string32_roundtrip (s : bytes) (Hs : Forall (fun c => c ≠ Byte.x00) s) :
  toString (toString32 s) = take 32 s /\ ((length s <= 32)%nat -> toString (toString32 s) = s).
Proof.
  assert (toString (toString32 s) = take 32 s) as E.
  { unfold toString. rewrite toString32_resize, resize_spec.
    rewrite take_ge by (rewrite length_app, length_take, length_replicate; lia).
    apply takeNonZero_app. by apply Forall_take. }
  split; [done|]. intros Hl. rewrite E. by apply take_ge.
Qed.

Lemma string32_roundtrip_witness :
  toString (toString32 [Byte.x61; Byte.x62]) = [Byte.x61; Byte.x62] /\
  ((2 <= 32)%nat -> toString (toString32 [Byte.x61; Byte.x62]) = [Byte.x61; Byte.x62]).
Proof. apply (string32_roundtrip [Byte.x61; Byte.x62]). repeat constructor; done. Defined.

End String32.
