(* ===== verification/Numbers.v ===== *)
(** * Numbers as text

    What the standard library prints for integers ([std::to_string], [operator<<]
    of a stream, with and without [std::hex]): the digits of a number in a base,
    without leading zeroes, and the facts the users of such text need. *)

From Stdlib Require Import ZArith Lia List.
From Stdlib Require Import Strings.String Strings.Byte.
From stdpp Require Import base tactics decidable list option.
From S2P Require Import Prelude DataConvert.

Module Numbers.

(** The digits of [n] in front of [acc]; the fuel is one step per digit. *)
Fixpoint digits (fuel : nat) (b n : Z) (acc : bytes) : bytes :=
  match fuel with
  | O => acc
  | S fuel => let acc := Hex.hexChar (n mod b) :: acc in
              if n <? b then acc else digits fuel b (n / b) acc
  end.

Definition show (b n : Z) : bytes := digits (S (Z.to_nat (Z.log2 n))) b n [].

(** [std::to_string] of a signed number, and a number in hexadecimal as an [int]
    is printed: through its unsigned representation. *)
Definition to_string (n : Z) : bytes :=
  if n <? 0 then "-"%byte :: show 10 (- n) else show 10 n.
Definition hexInt (n : Z) : bytes := show 16 (u32 n).

(** The number a text of digits stands for. *)
Definition digitsValue (b : Z) (s : bytes) : Z :=
  fold_left (fun v c => v * b + Hex.convertCharToHexNumber c) s 0.

Lemma digitsValue_acc (b v : Z) (s : bytes) :
  fold_left (fun v c => v * b + Hex.convertCharToHexNumber c) s v =
  v * b ^ len s + digitsValue b s.
Proof.
  unfold digitsValue. revert v. induction s as [| c s IH]; intros v; [rewrite len_nil, Z.pow_0_r; cbn [fold_left]; lia |].
  cbn [fold_left]. rewrite (IH (v * b + _)), (IH (0 * b + _)), len_cons.
  rewrite (Z.pow_add_r b 1) by (try lia; apply len_nonneg). lia.
Qed.

Lemma convert_hexChar (d : Z) : 0 <= d < 16 -> Hex.convertCharToHexNumber (Hex.hexChar d) = d.
Proof.
  intros Hd. assert (d = 0 \/ d = 1 \/ d = 2 \/ d = 3 \/ d = 4 \/ d = 5 \/ d = 6 \/ d = 7 \/ d = 8 \/
    d = 9 \/ d = 10 \/ d = 11 \/ d = 12 \/ d = 13 \/ d = 14 \/ d = 15) as Hc by lia.
  by repeat destruct Hc as [-> | Hc]; subst.
Qed.

Section Base.
Variable b : Z.
Hypothesis Hb : 2 <= b <= 16.

Lemma log2_div (n : Z) : b <= n -> Z.log2 (n / b) < Z.log2 n.
Proof using Hb.
  intros Hn. assert (n / b <= n / 2) as Hle by (apply Z.div_le_compat_l; lia).
  apply Z.log2_le_mono in Hle. change 2 with (2 ^ 1) in Hle. rewrite <- Z.shiftr_div_pow2 in Hle by lia.
  rewrite Z.log2_shiftr in Hle by lia. assert (1 <= Z.log2 n) by (apply Z.log2_le_pow2; lia). lia.
Qed.

Lemma digits_value (fuel : nat) (n : Z) (acc : bytes) :
  0 <= n -> (Z.to_nat (Z.log2 n) < fuel)%nat ->
  digitsValue b (digits fuel b n acc) = n * b ^ len acc + digitsValue b acc.
Proof using Hb.
  revert n acc. induction fuel as [| fuel IH]; intros n acc Hn Hf; [lia |]. cbn [digits].
  pose proof (Z.mod_pos_bound n b). pose proof (len_nonneg acc).
  assert (digitsValue b (Hex.hexChar (n mod b) :: acc) = (n mod b) * b ^ len acc + digitsValue b acc) as Hc.
  { unfold digitsValue at 1. cbn [fold_left]. rewrite digitsValue_acc, convert_hexChar by lia. lia. }
  destruct (Z.ltb_spec n b) as [Hlt | Hge].
  - rewrite Hc, Z.mod_small by lia. done.
  - rewrite IH, Hc, len_cons.
    + rewrite Z.pow_add_r, Z.pow_1_r by lia. rewrite (Z.div_mod n b) at 3 by lia. lia.
    + apply Z.div_pos; lia.
    + pose proof (log2_div n Hge). pose proof (Z.log2_nonneg (n / b)). lia.
Qed.

Lemma show_value (n : Z) : 0 <= n -> digitsValue b (show b n) = n.
Proof using Hb. intros Hn. unfold show. rewrite digits_value, len_nil, Z.pow_0_r by lia.
  change (digitsValue b []) with 0. lia. Qed.

Lemma show_inj (m n : Z) : 0 <= m -> 0 <= n -> show b m = show b n -> m = n.
Proof using Hb. intros Hm Hn He. by rewrite <- (show_value m), He, show_value. Qed.

Lemma digits_nonempty (fuel : nat) (n : Z) (acc : bytes) : digits (S fuel) b n acc ≠ [].
Proof using.
  assert (forall fuel n acc, acc ≠ [] -> digits fuel b n acc ≠ []) as Hacc.
  { induction fuel0 as [| f IH]; intros m a Ha; [done |]. cbn [digits].
    destruct (m <? b); [done |]. by apply IH. }
  cbn [digits]. destruct (n <? b); [done |]. by apply Hacc.
Qed.

Lemma show_nonempty (n : Z) : show b n ≠ [].
Proof using. apply digits_nonempty. Qed.

Lemma digits_forall (P : byte -> Prop) (fuel : nat) (n : Z) (acc : bytes) :
  (forall d, 0 <= d < b -> P (Hex.hexChar d)) -> Forall P acc -> Forall P (digits fuel b n acc).
Proof using Hb.
  intros HP. revert n acc. induction fuel as [| fuel IH]; intros n acc Ha; [done |]. cbn [digits].
  assert (Forall P (Hex.hexChar (n mod b) :: acc)) by (constructor; [apply HP, Z.mod_pos_bound; lia | done]).
  destruct (n <? b); auto.
Qed.
End Base.

(** Decimal digits, as text shows them. *)
Definition isDecimal (c : byte) : bool := (48 <=? b2z c) && (b2z c <=? 57).

Lemma show_decimal (n : Z) : Forall (fun c => isDecimal c = true) (show 10 n).
Proof.
  apply digits_forall; [lia | | constructor]. intros d Hd.
  assert (d = 0 \/ d = 1 \/ d = 2 \/ d = 3 \/ d = 4 \/ d = 5 \/ d = 6 \/ d = 7 \/ d = 8 \/ d = 9)
    as Hc by lia.
  by repeat destruct Hc as [-> | Hc]; subst.
Qed.

Lemma to_string_nonneg (n : Z) : 0 <= n -> to_string n = show 10 n.
Proof. intros Hn. unfold to_string. by rewrite (proj2 (Z.ltb_ge _ _) Hn). Qed.

Lemma to_string_inj (m n : Z) : 0 <= m -> 0 <= n -> to_string m = to_string n -> m = n.
Proof. intros Hm Hn. rewrite !to_string_nonneg by done. apply show_inj; [lia | done..]. Qed.

Lemma hexInt_inj (m n : Z) : hexInt m = hexInt n -> u32 m = u32 n.
Proof. apply show_inj; [lia | apply uwrap_range; lia..]. Qed.
End Numbers.
