(* ===== verification/Containers.v ===== *)
(** * Hexadecimal text over Boost and the operators of containers

    Model of the templates of libutilities/DataConvertUtility.h that the other
    components use as plain notation: [toHex] and [fromHex], which call Boost's
    algorithms, the operators [+=] and [+] of vectors and sets, and the text of a
    vector.  Boost's algorithms are a class with their documented behaviour as laws. *)

From Stdlib Require Import ZArith Lia List.
From Stdlib Require Import Strings.Byte.
From stdpp Require Import base tactics decidable list option gmap.
From S2P Require Import Prelude DataConvert.

Module Containers.

(** [boost::algorithm::hex_lower] and [unhex]. *)
Inductive boost_exn : Type := not_enough_input | non_hex_input.
Class BoostHex : Type :=
  { hex_lower : bytes -> bytes
  ; unhex : bytes -> outcome boost_exn bytes }.

Class BoostHexLaw (H : BoostHex) : Prop :=
  { hex_lower_length : forall b, len (hex_lower b) = 2 * len b
  ; unhex_hex_lower : forall b, unhex (hex_lower b) = Ok b }.

(** The errors of [fromHex]: those it makes, and Boost's. *)
Inductive hex_error : Type := EmptyInput | InvalidSize | BoostError (e : boost_exn).

Section Hex.
Context `{BoostHex}.

Definition toHex (binary prefix : bytes) : bytes :=
  match binary with [] => prefix | _ => prefix ++ hex_lower binary end.

Definition fromHex (hex prefix : bytes) : outcome hex_error bytes :=
  match hex with
  | [] => Throw EmptyInput
  | _ => if (len hex <? len prefix + 2) || negb (len hex mod 2 =? 0) then Throw InvalidSize
         else mapThrow BoostError (unhex (drop (length prefix) hex))
  end.
End Hex.

(** What stands on the right of [+=]: another vector, or the vector itself. *)
Inductive operand (A : Type) : Type := Other (v : list A) | Itself.
Arguments Other {A} v.
Arguments Itself {A}.

Definition contents {A} (a : list A) (b : operand A) : list A :=
  match b with Other v => v | Itself => a end.

(** [+=] for plain data: the vector is resized and the bytes copied, and the sizes are
    read again after the resizing. *)
Definition appendPod {A E} (zero : A) (a : list A) (b : operand A) : outcome E (list A) :=
  let s := length a in
  let a := resize (s + length (contents a b)) zero a in
  let source := contents a b in
  if decide (s + length source <= length a)%nat then Ok (take s a ++ source)
  else Undefined OutOfRange.

(** [+=] by [push_back], of another container; [+] on a copy. *)
Definition appendEach {A} (a b : list A) : list A := fold_left (fun v x => v ++ [x]) b a.
Definition concatenated {A E} (zero : A) (a b : list A) : outcome E (list A) :=
  appendPod zero a (Other b).

(** [+=] of a set and any container. *)
Definition insertEach `{Countable A} (a : gset A) (b : list A) : gset A :=
  fold_left (fun s x => {[x]} ∪ s) b a.

(** The text of a vector, given that of its elements. *)
Fixpoint printElements {A} (print : A -> bytes) (e : list A) : bytes :=
  match e with [] => [] | element :: e => ","%byte :: print element ++ printElements print e end.
Definition printVector {A} (print : A -> bytes) (e : list A) : bytes :=
  ["["%byte] ++ printElements print e ++ ["]"%byte].
End Containers.

Module ContainersFacts.
Import Containers.

Lemma appendEach_app {A} (a b : list A) : appendEach a b = a ++ b.
Proof.
  revert a. induction b as [| x b IH]; intros a; [by rewrite app_nil_r |].
  change (appendEach (a ++ [x]) b = a ++ x :: b). by rewrite IH, <- app_assoc.
Qed.

Lemma insertEach_union `{Countable A} (a : gset A) (b : list A) :
  insertEach a b = a ∪ list_to_set b.
Proof.
  revert a. induction b as [| x b IH]; intros a; [cbn; set_solver |].
  change (insertEach ({[x]} ∪ a) b = a ∪ list_to_set (x :: b)). rewrite IH. set_solver.
Qed.

(** Text made with a prefix is read back with it exactly when there is something to
    write and the prefix has an even size; otherwise [fromHex] refuses the text
    [toHex] made.  Any other prefix of the same size is read as well. *)
Theorem boost_hex_roundtrip `{BoostHexLaw} (b p q : bytes) :
  length q = length p ->
  fromHex (toHex b q) p =
    match b with
    | [] => match p with [] => Throw EmptyInput | _ => Throw InvalidSize end
    | _ => if len p mod 2 =? 0 then Ok b else Throw InvalidSize
    end.
Proof.
  intros Hq. destruct b as [| x b].
  - cbn [toHex]. destruct q as [| y q]; destruct p as [| z p]; try done.
    unfold fromHex. by rewrite (proj2 (Z.ltb_lt _ _)) by (unfold len; rewrite Hq; lia).
  - unfold toHex, fromHex. pose proof (hex_lower_length (x :: b)) as Hl.
    rewrite len_cons in Hl. pose proof (len_nonneg b).
    assert (len (q ++ hex_lower (x :: b)) = len p + (1 + len b) * 2) as Hlen
      by (rewrite len_app, Hl; unfold len; rewrite Hq; lia).
    rewrite Hlen, Z_mod_plus_full, (proj2 (Z.ltb_ge _ _)) by lia.
    destruct (q ++ hex_lower (x :: b)) as [| y r] eqn:E.
    + unfold len in Hlen; cbn in Hlen. pose proof (len_nonneg p). unfold len in *. lia.
    + rewrite <- E, <- Hq, drop_app_length, unhex_hex_lower. by destruct (len p mod 2 =? 0).
Qed.

(** The operators of vectors: both forms append; a vector of plain data appended to
    itself writes behind its end, unless it is empty. *)
Theorem vector_append {A E} (zero : A) (a b : list A) :
  appendPod (E := E) zero a (Other b) = Ok (appendEach a b) /\
  concatenated (E := E) zero a b = Ok (a ++ b) /\
  appendPod (E := E) zero a Itself = match a with [] => Ok [] | _ => Undefined OutOfRange end.
Proof.
  assert (appendPod (E := E) zero a (Other b) = Ok (a ++ b)) as Ha.
  { unfold appendPod. cbn [contents]. rewrite decide_True by (rewrite length_resize; lia).
    rewrite take_resize_le by lia. by rewrite resize_all. }
  rewrite appendEach_app. split_and!; [done.. |]. unfold appendPod. cbn [contents].
  destruct a as [| x a]; [done |]. rewrite decide_False; [done |].
  rewrite length_resize. cbn. lia.
Qed.

(** The text of a vector shows its elements when theirs hold no comma and differ. *)
Theorem vector_text_faithful {A} (print : A -> bytes) `{!Inj (=) (=) print} (l m : list A) :
  (forall x, ~ In ","%byte (print x)) -> printVector print l = printVector print m -> l = m.
Proof.
  intros Hc E. unfold printVector in E. apply (inj (app _)) in E. apply app_inj_2 in E as [E _]; [| done].
  revert m E. induction l as [| x l IH]; intros [| y m] E; try done. cbn [printElements] in E.
  injection E as E.
  assert (forall k : list A, printElements print k = [] \/
            exists r, printElements print k = ","%byte :: r) as Hk
    by (intros [| z k]; [by left | right; cbn; eauto]).
  assert (print x = print y /\ printElements print l = printElements print m) as [Hxy Hlm].
  { destruct (Hk l) as [El | [r El]], (Hk m) as [Em | [r' Em]]; rewrite El, Em in E |- *;
      rewrite ?app_nil_r in E.
    - by split.
    - exfalso. apply (Hc x). rewrite E. apply in_app_iff. right. by left.
    - exfalso. apply (Hc y). rewrite <- E. apply in_app_iff. right. by left.
    - apply app_sep_inj in E as [-> ->]; auto. }
  apply (inj print) in Hxy as ->. f_equal. by apply IH.
Qed.
End ContainersFacts.

(** Samples: Boost's algorithms as the printing and parsing of this library. *)
Module ContainersWitnesses.
Import Containers ContainersFacts.

#[export] Instance sampleHex : BoostHex :=
  {| hex_lower b := Hex.toHexString b []
   ; unhex s := mapThrow (fun _ => non_hex_input) (Hex.fromHexPairs s) |}.
#[export] Instance sampleHex_law : BoostHexLaw sampleHex.
Proof.
  split; intros b; cbn [hex_lower unhex sampleHex].
  - unfold len. rewrite Hex.length_toHexString, length_nil. lia.
  - by rewrite Hex.fromHexPairs_toHexString.
Qed.

Lemma boost_hex_roundtrip_witness :
  fromHex (toHex ["a"%byte; "b"%byte] Hex.prefix0x) Hex.prefix0x = Ok ["a"%byte; "b"%byte] /\
  fromHex (toHex [] Hex.prefix0x) Hex.prefix0x = Throw InvalidSize.
Proof.
  split.
  - exact (boost_hex_roundtrip ["a"%byte; "b"%byte] Hex.prefix0x Hex.prefix0x eq_refl).
  - exact (boost_hex_roundtrip [] Hex.prefix0x Hex.prefix0x eq_refl).
Defined.

Definition printBit (b : bool) : bytes := if b then ["1"%byte] else ["0"%byte].
#[export] Instance printBit_inj : Inj (=) (=) printBit.
Proof. by intros [] []. Qed.

Lemma vector_text_faithful_witness : printVector printBit [true; false] <> printVector printBit [false].
Proof.
  intros E. apply (vector_text_faithful printBit) in E; [done |]. by intros [] [? | []].
Defined.
End ContainersWitnesses.
