(* ===== verification/Utilities.v ===== *)
(** * General utilities

    Model of libutilities/Common.h ([exp10], [u2s], [s2u], [isalNumStr],
    [QueueSet]) and of libutilities/RefDataContainer.h
    (a pointer and a count over a byte-addressed memory). *)

From Stdlib Require Import ZArith Lia List.
From Stdlib Require Import Strings.String Strings.Byte.
From stdpp Require Import base tactics decidable list option gmap sets.
From S2P Require Import Prelude.

(* ------------------------------------------------------------------ *)
(** ** 256-bit integers *)

Module Numeric.

(** [exp10<n>()]: multiplication in [u256]. *)
Fixpoint exp10 (n : nat) : Z :=
  match n with
  | O => uwrap 256 1
  | S n' => uwrap 256 (exp10 n' * 10)
  end.

(** Conversion of an integer to [s256]: sign and a magnitude of 256 bits. *)
Definition toS256 (z : Z) : Z := Z.sgn z * (Z.abs z mod 2 ^ 256).

Definition c_end : Z := Z.shiftl 1 256.

Definition u2s (u : Z) : Z :=
  if Z.testbit u 255 then toS256 (- (c_end - u)) else toS256 u.

Definition s2u (s : Z) : Z :=
  if 0 <=? s then uwrap 256 s else uwrap 256 (c_end + s).

Lemma c_end_eq : c_end = 2 ^ 256.
Proof. reflexivity. Qed.

Lemma testbit_top (w u : Z) :
  0 < w -> 0 <= u < 2 ^ w -> Z.testbit u (w - 1) = (2 ^ (w - 1) <=? u).
Proof.
  intros Hw Hu.
  assert (2 ^ w = 2 * 2 ^ (w - 1)) as E
    by (rewrite <- Z.pow_succ_r by lia; f_equal; lia).
  pose proof (pow2_pos (w - 1)).
  rewrite Z.testbit_eqb by lia.
  destruct (2 ^ (w - 1) <=? u) eqn:Hc.
  - apply Z.leb_le in Hc. replace (u / 2 ^ (w - 1)) with 1; [done|].
    apply Z.div_unique with (r := u - 2 ^ (w - 1)); lia.
  - apply Z.leb_gt in Hc. rewrite Z.div_small by lia. done.
Qed.

Lemma toS256_small (z : Z) : - 2 ^ 256 < z < 2 ^ 256 -> toS256 z = z.
Proof. intros Hz. unfold toS256. rewrite Z.mod_small by lia. lia. Qed.

(** Computed powers of two for [lia]. *)
Ltac pow256 := change (2 ^ 256) with (2 * 2 ^ 255) in *;
  change (2 ^ (256 - 1)) with (2 ^ 255) in *;
  pose proof (pow2_pos 255 ltac:(lia)); generalize dependent (2 ^ 255); intros.

Lemma u2s_swrap (u : Z) : 0 <= u < 2 ^ 256 -> u2s u = swrap 256 u.
Proof.
  intros Hu. unfold u2s. change 255 with (256 - 1). rewrite testbit_top by lia.
  rewrite c_end_eq. unfold swrap. destruct (Z.leb_spec (2 ^ (256 - 1)) u).
  - rewrite toS256_small by (pow256; lia).
    replace (u + 2 ^ (256 - 1)) with (u - 2 ^ (256 - 1) + 1 * 2 ^ 256) by (pow256; lia).
    rewrite Z.mod_add, Z.mod_small by (pow256; lia). pow256; lia.
  - rewrite toS256_small, Z.mod_small by (pow256; lia). lia.
Qed.

Lemma s2u_range (s : Z) : 0 <= s2u s < 2 ^ 256.
Proof. unfold s2u. destruct (0 <=? s); apply uwrap_range; lia. Qed.

Lemma u2s_s2u (s : Z) : - 2 ^ 255 <= s < 2 ^ 255 -> u2s (s2u s) = s.
Proof.
  intros Hs. rewrite u2s_swrap by apply s2u_range. unfold s2u. rewrite c_end_eq.
  destruct (Z.leb_spec 0 s); rewrite swrap_uwrap by lia.
  - apply swrap_small; [lia|]. change (256 - 1) with 255. lia.
  - unfold swrap. replace (2 ^ 256 + s + 2 ^ (256 - 1))
      with (s + 2 ^ (256 - 1) + 1 * 2 ^ 256) by lia.
    rewrite Z.mod_add by lia. apply (swrap_small 256); [lia|].
    change (256 - 1) with 255. lia.
Qed.

Lemma s2u_u2s (u : Z) : 0 <= u < 2 ^ 256 -> s2u (u2s u) = u.
Proof.
  intros Hu. rewrite u2s_swrap by done. unfold s2u, swrap. rewrite c_end_eq.
  pose proof (Z.mod_pos_bound (u + 2 ^ (256 - 1)) (2 ^ 256) ltac:(lia)).
  destruct (Z.leb_spec 0 ((u + 2 ^ (256 - 1)) mod 2 ^ 256 - 2 ^ (256 - 1)));
    unfold uwrap; [|rewrite <- (Z.mul_1_l (2 ^ 256)) at 1];
    [|rewrite Z.add_comm, Z.mod_add by lia];
    (rewrite Zminus_mod_idemp_l; rewrite Z.add_simpl_r; by apply Z.mod_small).
Qed.

(** [u2s] reads a 256-bit word as a two's complement number and [s2u] writes it
    back: the two are inverse between the words and the signed range
    [-2^255 .. 2^255). *)
Theorem u2s_s2u_inverse (u s : Z) :
  0 <= u < 2 ^ 256 -> - 2 ^ 255 <= s < 2 ^ 255 ->
  u2s u = swrap 256 u /\ s2u (u2s u) = u /\ u2s (s2u s) = s.
Proof. intros Hu Hs. split_and!; [by apply u2s_swrap|by apply s2u_u2s|by apply u2s_s2u]. Qed.

Lemma u2s_s2u_inverse_witness :
  u2s (2 ^ 256 - 1) = swrap 256 (2 ^ 256 - 1) /\
  s2u (u2s (2 ^ 256 - 1)) = 2 ^ 256 - 1 /\ u2s (s2u (-7)) = -7.
Proof. apply (u2s_s2u_inverse (2 ^ 256 - 1) (-7)); vm_compute; intuition discriminate. Defined.

(** The powers of ten of the code are exact as long as they fit in 256 bits,
    that is up to [10^77], and wrap around beyond. *)
Theorem exp10_exact (n : nat) :
  exp10 n = 10 ^ Z.of_nat n mod 2 ^ 256 /\
  ((n <= 77)%nat -> exp10 n = 10 ^ Z.of_nat n).
Proof.
  assert (forall k, exp10 k = 10 ^ Z.of_nat k mod 2 ^ 256) as Hm.
  { intros k. induction k as [|k IH]; [done|]. change (exp10 (S k)) with (uwrap 256 (exp10 k * 10)).
    unfold uwrap. rewrite IH, Z.mul_mod_idemp_l by lia. rewrite Nat2Z.inj_succ, Z.pow_succ_r by lia.
    f_equal. lia. }
  split; [apply Hm|]. intros Hn. rewrite Hm, Z.mod_small; [done|]. split; [lia|].
  apply Z.le_lt_trans with (10 ^ 77); [apply Z.pow_le_mono_r; lia | by vm_compute].
Qed.

End Numeric.

(* ------------------------------------------------------------------ *)
(** ** Byte-addressed memory and the C memory functions *)

Module Memory.

(** The allocated bytes, by address. *)
Abbreviation memory := (gmap Z byte).

Fixpoint read (m : memory) (a : Z) (n : nat) : outcome Empty_set bytes :=
  match n with
  | O => Ok []
  | S n' =>
      match m !! a with
      | Some b => bs ← read m (a + 1) n'; Ok (b :: bs)
      | None => Undefined OutOfRange
      end
  end.

Fixpoint write (m : memory) (a : Z) (bs : bytes) : outcome Empty_set memory :=
  match bs with
  | [] => Ok m
  | b :: bs' =>
      match m !! a with
      | Some _ => write (<[a := b]> m) (a + 1) bs'
      | None => Undefined OutOfRange
      end
  end.

Definition memmove (m : memory) (dst src : Z) (n : Z) : outcome Empty_set memory :=
  bs ← read m src (Z.to_nat n); write m dst bs.

Definition memcpy (m : memory) (dst src : Z) (n : Z) : outcome Empty_set memory :=
  if (dst <? src + n) && (src <? dst + n) then Undefined OverlappingCopy
  else memmove m dst src n.

Definition memset (m : memory) (dst : Z) (c : byte) (n : Z) : outcome Empty_set memory :=
  write m dst (replicate (Z.to_nat n) c).

(** Position of the first occurrence of a byte, as [memchr] finds it. *)
Fixpoint memchr_in (bs : bytes) (c : byte) (a : Z) : option Z :=
  match bs with
  | [] => None
  | b :: bs' => if bool_decide (b = c) then Some a else memchr_in bs' c (a + 1)
  end.

Definition memchr (m : memory) (a : Z) (c : byte) (n : Z) : outcome Empty_set (option Z) :=
  bs ← read m a (Z.to_nat n); Ok (memchr_in bs c a).

(** Bytes [a .. a + n) are allocated. *)
Definition allocated (m : memory) (a : Z) (n : nat) : Prop :=
  forall i, a <= i < a + Z.of_nat n -> is_Some (m !! i).

Lemma allocated_read (m : memory) (a : Z) (n : nat) :
  allocated m a n -> exists bs, read m a n = Ok bs /\ length bs = n.
Proof.
  revert a; induction n as [|n IH]; intros a Ha; [by exists []|].
  destruct (Ha a) as [b Hb]; [lia|]. destruct (IH (a + 1)) as (bs & Hbs & Hl).
  { intros i Hi. apply Ha. lia. }
  exists (b :: bs). simpl. rewrite Hb, Hbs. simpl. by rewrite Hl.
Qed.

Lemma read_lookup (m : memory) (a : Z) (n : nat) (bs : bytes) :
  read m a n = Ok bs ->
  length bs = n /\ forall i, (i < n)%nat -> m !! (a + Z.of_nat i) = bs !! i.
Proof.
  revert a bs; induction n as [|n IH]; intros a bs; simpl.
  - intros [= <-]. split; [done|]. intros; lia.
  - destruct (m !! a) as [b|] eqn:Hb; [|done]. intros H.
    apply bind_ok_inv in H as (r & Hr & [= <-]). destruct (IH _ _ Hr) as [Hl Hi].
    split; [simpl; lia|]. intros [|i] Hin; simpl.
    + by rewrite Z.add_0_r.
    + rewrite <- Hi by lia. f_equal. lia.
Qed.

Lemma read_intro (m : memory) (a : Z) (bs : bytes) :
  (forall i, (i < length bs)%nat -> m !! (a + Z.of_nat i) = bs !! i) ->
  read m a (length bs) = Ok bs.
Proof.
  revert a; induction bs as [|b bs IH]; intros a H; [done|].
  simpl. specialize (H O) as H0. rewrite Z.add_0_r in H0. rewrite H0 by (simpl; lia).
  simpl. rewrite IH; [done|]. intros i Hi. specialize (H (S i) ltac:(simpl; lia)).
  simpl in H. rewrite <- H. f_equal. lia.
Qed.

(** A write inside an allocated region succeeds and changes that region only. *)
Lemma write_spec (m : memory) (a : Z) (bs : bytes) :
  allocated m a (length bs) ->
  exists m', write m a bs = Ok m' /\
    (forall i, (i < length bs)%nat -> m' !! (a + Z.of_nat i) = bs !! i) /\
    (forall i, ~ a <= i < a + len bs -> m' !! i = m !! i).
Proof.
  unfold len. revert m a; induction bs as [|b bs IH]; intros m a Ha; simpl.
  - exists m. split; [done|]. split; [intros; lia|done].
  - destruct (Ha a) as [b0 Hb0]; [simpl; lia|]. rewrite Hb0.
    destruct (IH (<[a:=b]> m) (a + 1)) as (m' & Hw & Hin & Hout).
    { intros i Hi. destruct (decide (i = a)) as [->|Hne].
      - rewrite lookup_insert_eq. eauto.
      - rewrite lookup_insert_ne by done. apply Ha. simpl. lia. }
    exists m'. split; [done|]. split.
    + intros [|i] Hi; simpl.
      * rewrite Z.add_0_r, Hout by lia. by rewrite lookup_insert_eq.
      * rewrite <- Hin by lia. f_equal. lia.
    + intros i Hi. rewrite Hout by lia. rewrite lookup_insert_ne; [done|lia].
Qed.

Lemma memmove_spec (m : memory) (dst src : Z) (bs : bytes) :
  read m src (length bs) = Ok bs -> allocated m dst (length bs) ->
  exists m', memmove m dst src (len bs) = Ok m' /\
    (forall i, (i < length bs)%nat -> m' !! (dst + Z.of_nat i) = bs !! i) /\
    (forall i, ~ dst <= i < dst + len bs -> m' !! i = m !! i).
Proof.
  intros Hr Ha. unfold memmove, len at 1. rewrite Nat2Z.id, Hr. by apply write_spec.
Qed.

Lemma memset_spec (m : memory) (dst : Z) (c : byte) (n : nat) :
  allocated m dst n ->
  exists m', memset m dst c (Z.of_nat n) = Ok m' /\
    (forall i, dst <= i < dst + Z.of_nat n -> m' !! i = Some c) /\
    (forall i, ~ dst <= i < dst + Z.of_nat n -> m' !! i = m !! i).
Proof.
  intros Ha. unfold memset. rewrite Nat2Z.id.
  destruct (write_spec m dst (replicate n c)) as (m' & Hw & Hin & Hout);
    [by rewrite length_replicate|]. exists m'. split; [done|].
  unfold len in Hout. rewrite length_replicate in *. split; [|done]. intros i Hi.
  replace i with (dst + Z.of_nat (Z.to_nat (i - dst))) by lia.
  rewrite Hin by lia. apply lookup_replicate_2. lia.
Qed.

End Memory.

(* ------------------------------------------------------------------ *)
(** ** RefDataContainer *)

Module RefData.
Import Memory.

Record RefDataContainer : Type := mkRef
  { m_dataPointer : Z  (** 0 is the null pointer *)
  ; m_dataCount : Z }.

#[export] Instance RefDataContainer_eq_dec : EqDecision RefDataContainer.
Proof. solve_decision. Defined.

Section RefDataContainer.
(** [sizeof(T)]. *)
Context (sizeofT : Z).

(** [RefDataContainer()], also the effect of [reset]. *)
Definition emptyRef : RefDataContainer := mkRef 0 0.

Definition begin (c : RefDataContainer) : Z := m_dataPointer c.
Definition end_ (c : RefDataContainer) : Z := m_dataPointer c + m_dataCount c * sizeofT.
Definition toBool (c : RefDataContainer) : bool :=
  negb (m_dataPointer c =? 0) && negb (m_dataCount c =? 0).

Definition toBytes (m : memory) (c : RefDataContainer) : outcome Empty_set bytes :=
  read m (m_dataPointer c) (Z.to_nat (m_dataCount c * sizeofT)).

Definition getCroppedData (c : RefDataContainer) (startIndex count : Z) : RefDataContainer :=
  if negb (m_dataPointer c =? 0) && (startIndex <=? m_dataCount c) &&
     (count <=? m_dataCount c) && (u64 (startIndex + count) <=? m_dataCount c)
  then mkRef (m_dataPointer c + startIndex * sizeofT) count
  else emptyRef.

Definition getCroppedData1 (c : RefDataContainer) (startIndex : Z) : RefDataContainer :=
  if negb (m_dataPointer c =? 0) && (startIndex <=? m_dataCount c)
  then getCroppedData c startIndex (u64 (m_dataCount c - startIndex))
  else emptyRef.

Definition dataOverlap (c d : RefDataContainer) : bool :=
  (begin c <? end_ d) && (begin d <? end_ c).

(** [populate]: copies the elements of [c] to [d] and clears what remains of
    [d].  The clearing starts [count() * sizeof(T)] elements after the start. *)
Definition populate (m : memory) (c d : RefDataContainer) : outcome Empty_set memory :=
  let n := u64 (Z.min (m_dataCount d) (m_dataCount c) * sizeofT) in
  m1 ← (if dataOverlap c d
        then memmove m (m_dataPointer d) (m_dataPointer c) n
        else memcpy m (m_dataPointer d) (m_dataPointer c) n);
  if m_dataCount c <? m_dataCount d
  then memset m1 (m_dataPointer d + (m_dataCount c * sizeofT) * sizeofT) Byte.x00
         (u64 ((m_dataCount d - m_dataCount c) * sizeofT))
  else Ok m1.

(** The first loop of [cleanMemory]: [loop] bytes of a pattern from [p]. *)
Fixpoint cleanLoop (loop : nat) (m : memory) (p count : Z) : outcome Empty_set (memory * Z) :=
  match loop with
  | O => Ok (m, count)
  | S loop' =>
      m' ← write m p [z2b count];
      cleanLoop loop' m' (p + 1) (u64 (count + (17 + Z.land (p + 1) 15)))
  end.

Definition cleanMemory (m : memory) (s_cleanCounter : Z) (c : RefDataContainer) :
    outcome Empty_set (memory * Z) :=
  let n := end_ c - begin c in
  '(m1, count) ← cleanLoop (Z.to_nat n) m (begin c) s_cleanCounter;
  p ← memchr m1 (begin c) (z2b count) n;
  let count' := match p with Some p => u64 (count + (63 + p)) | None => count end in
  m2 ← memset m1 (begin c) Byte.x00 n;
  Ok (m2, count' mod 256).

End RefDataContainer.

(** The view a container has of its buffer: [n] elements from a non-null
    address.  Half of the address space bounds the size of every object. *)
Definition valid_ref (sizeofT : Z) (m : memory) (c : RefDataContainer) : Prop :=
  m_dataPointer c ≠ 0 /\ 0 <= m_dataCount c /\ m_dataCount c * sizeofT < 2 ^ 63 /\
  allocated m (m_dataPointer c) (Z.to_nat (m_dataCount c * sizeofT)).

Lemma allocated_mono (m : memory) (a b : Z) (n k : nat) :
  allocated m a n -> a <= b -> b + Z.of_nat k <= a + Z.of_nat n -> allocated m b k.
Proof. intros H ? ? i Hi. apply H. lia. Qed.

Lemma allocated_outside (m m' : memory) (a n b : Z) (k : nat) :
  (forall i, ~ a <= i < a + n -> m' !! i = m !! i) ->
  (forall i, a <= i < a + n -> is_Some (m' !! i)) ->
  allocated m b k -> allocated m' b k.
Proof.
  intros Ho Hi Hb i Hin. destruct (decide (a <= i < a + n)); [by apply Hi|].
  rewrite Ho by done. by apply Hb.
Qed.

Lemma read_prefix (m : memory) (a : Z) (n k : nat) (s : bytes) :
  read m a n = Ok s -> (k <= n)%nat -> read m a k = Ok (take k s).
Proof.
  intros Hr Hk. apply read_lookup in Hr as [Hl Hi].
  replace k with (length (take k s)) at 1 by (rewrite length_take; lia).
  apply read_intro. intros i. rewrite length_take. intros Hi'.
  rewrite Hi by lia. symmetry. apply lookup_take_lt. lia.
Qed.

(** The branch on [dataOverlap] keeps [memcpy] away from overlapping regions. *)
Lemma populate_copy (m : memory) (c d : RefDataContainer) (n : Z) :
  0 <= n <= Z.min (m_dataCount d) (m_dataCount c) ->
  (if dataOverlap 1 c d
   then memmove m (m_dataPointer d) (m_dataPointer c) n
   else memcpy m (m_dataPointer d) (m_dataPointer c) n) =
  memmove m (m_dataPointer d) (m_dataPointer c) n.
Proof.
  intros Hn. destruct (dataOverlap 1 c d) eqn:Ho; [done|]. unfold memcpy.
  unfold dataOverlap, begin, end_ in Ho. case_match eqn:E; [|done]. lia.
Qed.

(** [populate] between byte containers, overlapping or not, is defined, writes
    the bytes of the source to the destination, truncated or padded with zeroes
    to its length, and changes no other byte of memory. *)
Theorem populate_bytes (m : memory) (c d : RefDataContainer) (s : bytes) :
  valid_ref 1 m c -> valid_ref 1 m d -> toBytes 1 m c = Ok s ->
  exists m', populate 1 m c d = Ok m' /\
    toBytes 1 m' d = Ok (resize (Z.to_nat (m_dataCount d)) Byte.x00 s) /\
    forall i, ~ m_dataPointer d <= i < m_dataPointer d + m_dataCount d -> m' !! i = m !! i.
Proof.
  destruct c as [src n1], d as [dst n2].
  unfold valid_ref, toBytes, populate; simpl. rewrite !Z.mul_1_r.
  intros (_ & Hn1 & Hb1 & _) (_ & Hn2 & Hb2 & Ha2) Hs.
  set (k := Z.min n2 n1). rewrite (uwrap_small 64 k) by lia.
  rewrite (populate_copy m (mkRef src n1) (mkRef dst n2)) by (simpl; lia). simpl.
  pose proof (read_lookup _ _ _ _ Hs) as [Hls Hgs].
  pose proof (read_prefix _ _ _ (Z.to_nat k) _ Hs ltac:(lia)) as Hrk.
  destruct (memmove_spec m dst src (take (Z.to_nat k) s)) as (m1 & Hm1 & Hin1 & Hout1).
  { rewrite length_take. by replace (_ `min` _)%nat with (Z.to_nat k) by lia. }
  { rewrite length_take. eapply allocated_mono; [exact Ha2|lia|lia]. }
  unfold len in *. rewrite length_take in *.
  replace (Z.of_nat _) with k in * by lia. rewrite Hm1. simpl.
  assert (forall i, (i < Z.to_nat k)%nat -> m1 !! (dst + Z.of_nat i) = s !! i) as Hcp.
  { intros i Hi. rewrite Hin1 by lia. apply lookup_take_lt. lia. }
  assert (forall m', (forall i, (i < Z.to_nat n2)%nat ->
            m' !! (dst + Z.of_nat i) = resize (Z.to_nat n2) Byte.x00 s !! i) ->
          read m' dst (Z.to_nat n2) = Ok (resize (Z.to_nat n2) Byte.x00 s)) as Hfin.
  { intros m' H'. rewrite <- (length_resize s (Z.to_nat n2) Byte.x00) at 1.
    apply read_intro. intros i. rewrite length_resize. apply H'. }
  destruct (Z.ltb_spec n1 n2).
  - rewrite uwrap_small by lia.
    destruct (memset_spec m1 (dst + n1) Byte.x00 (Z.to_nat (n2 - n1)))
      as (m2 & Hm2 & Hin2 & Hout2).
    { eapply allocated_mono; [|shelve..]. eapply (allocated_outside m m1 dst k dst); [exact Hout1| |exact Ha2].
      intros i Hi. replace i with (dst + Z.of_nat (Z.to_nat (i - dst))) by lia.
      rewrite Hcp by lia. apply lookup_lt_is_Some_2. lia.
      Unshelve. all: lia. }
    rewrite Z2Nat.id in Hm2 by lia. exists m2. split; [done|]. split.
    + apply Hfin. intros i Hi. destruct (decide (i < length s)%nat).
      * rewrite Hout2, Hcp, lookup_resize by lia. done.
      * rewrite Hin2 by lia. by rewrite lookup_resize_new by lia.
    + intros i Hi. rewrite Hout2, Hout1 by lia. done.
  - exists m1. split; [done|]. split.
    + apply Hfin. intros i Hi. rewrite Hcp, lookup_resize by lia. done.
    + intros i Hi. apply Hout1. lia.
Qed.

(** Sixteen bytes from address 100, numbered. *)
Definition sample_memory : memory :=
  list_to_map (imap (fun i b => (100 + Z.of_nat i, b)) (map (fun i => z2b (Z.of_nat i)) (seq 1 16))).

Lemma allocated_check (m : memory) (a : Z) (n : nat) :
  forallb (fun i => bool_decide (is_Some (m !! (a + Z.of_nat i)))) (seq 0 n) = true ->
  allocated m a n.
Proof.
  rewrite forallb_forall. intros H i Hi.
  specialize (H (Z.to_nat (i - a))). rewrite bool_decide_eq_true in H.
  replace i with (a + Z.of_nat (Z.to_nat (i - a))) by lia. apply H.
  apply in_seq. lia.
Qed.

Lemma populate_bytes_witness :
  exists m', populate 1 sample_memory (mkRef 102 3) (mkRef 104 5) = Ok m' /\
    toBytes 1 m' (mkRef 104 5) = Ok (resize 5 Byte.x00 [Byte.x03; Byte.x04; Byte.x05]) /\
    forall i, ~ 104 <= i < 104 + 5 -> m' !! i = sample_memory !! i.
Proof.
  apply (populate_bytes sample_memory (mkRef 102 3) (mkRef 104 5) [Byte.x03; Byte.x04; Byte.x05]);
    [split_and!; [done|done|done|by apply allocated_check]..|reflexivity].
Defined.

(** For elements of two bytes the clearing of [populate] starts at the wrong
    address: of a destination of four elements, the third keeps its old value
    and two bytes after the destination are cleared. *)
Theorem populate_wide_misplaced :
  exists m', populate 2 sample_memory (mkRef 100 1) (mkRef 104 4) = Ok m' /\
    toBytes 2 m' (mkRef 104 4) =
      Ok [Byte.x01; Byte.x02; Byte.x07; Byte.x08; Byte.x00; Byte.x00; Byte.x00; Byte.x00] /\
    sample_memory !! 113 = Some (Byte.x0e) /\ m' !! 113 = Some Byte.x00.
Proof. eexists. by vm_compute. Qed.

(** A crop inside the container views exactly that slice of its bytes; any other
    crop is the empty container, also when the sum of start and count wraps
    around. *)
Theorem getCroppedData_slice (sz : Z) (m : memory) (c : RefDataContainer) (s : bytes)
    (start count : Z) :
  0 < sz -> valid_ref sz m c -> toBytes sz m c = Ok s ->
  0 <= start < 2 ^ 64 -> 0 <= count < 2 ^ 64 ->
  if start + count <=? m_dataCount c
  then toBytes sz m (getCroppedData sz c start count) =
         Ok (take (Z.to_nat (count * sz)) (drop (Z.to_nat (start * sz)) s))
  else getCroppedData sz c start count = emptyRef.
Proof.
  intros Hsz (Hp & Hn & Hb & Ha) Hs Hst Hc. unfold getCroppedData.
  apply Z.eqb_neq in Hp as ->. simpl.
  destruct (Z.leb_spec (start + count) (m_dataCount c)) as [Hle|Hgt].
  - rewrite uwrap_small by nia. destruct (Z.leb_spec start (m_dataCount c)); [|lia].
    destruct (Z.leb_spec count (m_dataCount c)); [|lia].
    destruct (Z.leb_spec (start + count) (m_dataCount c)); [|lia]. simpl.
    unfold toBytes in *. simpl. apply read_lookup in Hs as [Hl Hg].
    set (r := take _ _). assert (length r = Z.to_nat (count * sz)) as Hr
      by (unfold r; rewrite length_take, length_drop; nia).
    rewrite <- Hr. apply read_intro. intros i Hi. rewrite Hr in Hi.
    unfold r. rewrite lookup_take_lt, lookup_drop by lia. rewrite <- Hg by nia.
    f_equal. nia.
  - destruct (Z.leb_spec start (m_dataCount c)); [|done].
    destruct (Z.leb_spec count (m_dataCount c)); [|done].
    rewrite uwrap_small by nia.
    destruct (Z.leb_spec (start + count) (m_dataCount c)); [lia|done].
Qed.

Lemma getCroppedData_slice_witness :
  toBytes 2 sample_memory (getCroppedData 2 (mkRef 100 4) 1 2) =
    Ok [Byte.x03; Byte.x04; Byte.x05; Byte.x06].
Proof.
  apply (getCroppedData_slice 2 sample_memory (mkRef 100 4)
    (map (fun i => z2b (Z.of_nat i)) (seq 1 8)) 1 2);
    [done|split_and!; [done|done|done|by apply allocated_check]|reflexivity|done|done].
Defined.

Lemma cleanLoop_spec (loop : nat) (m : memory) (p count : Z) :
  allocated m p loop ->
  exists m' count', cleanLoop loop m p count = Ok (m', count') /\
    allocated m' p loop /\ (forall i, ~ p <= i < p + Z.of_nat loop -> m' !! i = m !! i).
Proof.
  revert m p count; induction loop as [|loop IH]; intros m p count Ha.
  - by exists m, count.
  - cbn [cleanLoop]. destruct (write_spec m p [z2b count]) as (m1 & Hw & Hin & Hout).
    { eapply allocated_mono; [exact Ha|lia|simpl; lia]. }
    rewrite Hw. cbn [mbind outcome_bind]. specialize (Hin O ltac:(simpl; lia)).
    rewrite Z.add_0_r in Hin. change (len [z2b count]) with 1 in Hout.
    set (count1 := u64 _). destruct (IH m1 (p + 1) count1) as (m2 & c2 & H2 & Ha2 & Ho2).
    { intros i Hi. rewrite Hout by lia. apply Ha. lia. }
    exists m2, c2. split; [done|]. split.
    + intros i Hi. destruct (decide (i = p)) as [->|]; [|apply Ha2; lia].
      rewrite Ho2, Hin by lia. by eexists.
    + intros i Hi. rewrite Ho2, Hout by lia. done.
Qed.

(** [cleanMemory] zeroes the bytes of its container, and only those, whatever
    the pattern and the shared counter were. *)
Theorem cleanMemory_zeroes (sz : Z) (m : memory) (counter : Z) (c : RefDataContainer) :
  0 < sz -> valid_ref sz m c ->
  exists m' counter', cleanMemory sz m counter c = Ok (m', counter') /\
    (forall i, begin c <= i < end_ sz c -> m' !! i = Some Byte.x00) /\
    (forall i, ~ begin c <= i < end_ sz c -> m' !! i = m !! i) /\ 0 <= counter' < 256.
Proof.
  intros Hsz (Hp & Hn & Hb & Ha). unfold cleanMemory, begin, end_.
  rewrite Z.add_simpl_l. set (n := m_dataCount c * sz) in *.
  assert (0 <= n) by (unfold n; nia).
  destruct (cleanLoop_spec (Z.to_nat n) m (m_dataPointer c) counter Ha)
    as (m1 & c1 & H1 & Ha1 & Ho1). rewrite H1. simpl.
  destruct (allocated_read _ _ _ Ha1) as (bs & Hbs & _). unfold memchr. rewrite Hbs. simpl.
  destruct (memset_spec m1 (m_dataPointer c) Byte.x00 (Z.to_nat n) Ha1)
    as (m2 & H2 & Hi2 & Ho2). rewrite Z2Nat.id in * by lia. rewrite H2. simpl.
  eexists _, _. split; [reflexivity|]. split; [done|]. split.
  - intros i Hi. rewrite Ho2, Ho1 by lia. done.
  - apply Z.mod_pos_bound. lia.
Qed.

Lemma cleanMemory_zeroes_witness :
  exists m' counter', cleanMemory 1 sample_memory 0 (mkRef 100 4) = Ok (m', counter') /\
    (forall i, 100 <= i < end_ 1 (mkRef 100 4) -> m' !! i = Some Byte.x00) /\
    (forall i, ~ 100 <= i < end_ 1 (mkRef 100 4) -> m' !! i = sample_memory !! i) /\
    0 <= counter' < 256.
Proof.
  apply (cleanMemory_zeroes 1 sample_memory 0 (mkRef 100 4));
    [done|split_and!; [done|done|done|by apply allocated_check]].
Defined.

End RefData.

(* ------------------------------------------------------------------ *)
(** ** Character classes *)

Module Chars.

(** [isalnum] of the C locale. *)
Definition isalnum (ch : byte) : bool :=
  let c := b2z ch in
  ((48 <=? c) && (c <=? 57)) || ((65 <=? c) && (c <=? 90)) || ((97 <=? c) && (c <=? 122)).

Fixpoint isalNumStr (s : bytes) : bool :=
  match s with
  | [] => true
  | ch :: s' => if isalnum ch then isalNumStr s' else false
  end.

Lemma isalNumStr_forallb (s : bytes) : isalNumStr s = forallb isalnum s.
Proof. induction s as [|c s IH]; simpl; [done|]. by destruct (isalnum c). Qed.

End Chars.

(* ------------------------------------------------------------------ *)
(** ** QueueSet *)

Module QueueSet.
Section QueueSet.
Context {T : Type} `{Countable T}.

Record QueueSet : Type := mkQueueSet { m_set : gset T; m_queue : list T }.

Definition empty_queue : QueueSet := mkQueueSet ∅ [].

Definition exist (q : QueueSet) (t : T) : bool := bool_decide (t ∈ m_set q).

Definition push (q : QueueSet) (t : T) : bool * QueueSet :=
  if exist q t then (false, q)
  else (true, mkQueueSet ({[t]} ∪ m_set q) (m_queue q ++ [t])).

Definition pop (q : QueueSet) : bool * QueueSet :=
  match m_queue q with
  | [] => (false, q)
  | t :: rest => (true, mkQueueSet (m_set q ∖ {[t]}) rest)
  end.

Definition insert (q : QueueSet) (t : T) : QueueSet := (push q t).2.
Definition count (q : QueueSet) (t : T) : Z := if exist q t then 1 else 0.
Definition size (q : QueueSet) : Z := Z.of_nat (base.size (m_set q)).

Definition clear (q : QueueSet) : QueueSet := mkQueueSet ∅ [].

(** The queue a [QueueSet] stands for: a duplicate-free list in arrival order. *)
Inductive op : Type := Push (t : T) | Pop | Clear | Exist (t : T) | Size.
Inductive answer : Type := ABool (b : bool) | AUnit | ANum (n : Z).

Definition run (q : QueueSet) (o : op) : answer * QueueSet :=
  match o with
  | Push t => let '(b, q') := push q t in (ABool b, q')
  | Pop => let '(b, q') := pop q in (ABool b, q')
  | Clear => (AUnit, clear q)
  | Exist t => (ABool (exist q t), q)
  | Size => (ANum (size q), q)
  end.

Definition spec (l : list T) (o : op) : answer * list T :=
  match o with
  | Push t => if bool_decide (t ∈ l) then (ABool false, l) else (ABool true, l ++ [t])
  | Pop => match l with [] => (ABool false, []) | _ :: l' => (ABool true, l') end
  | Clear => (AUnit, [])
  | Exist t => (ABool (bool_decide (t ∈ l)), l)
  | Size => (ANum (len l), l)
  end.

Fixpoint run_all (q : QueueSet) (os : list op) : list answer :=
  match os with
  | [] => []
  | o :: os' => let '(a, q') := run q o in a :: run_all q' os'
  end.

Fixpoint spec_all (l : list T) (os : list op) : list answer :=
  match os with
  | [] => []
  | o :: os' => let '(a, l') := spec l o in a :: spec_all l' os'
  end.

(** The set holds exactly the queued elements, each queued once. *)
Definition represents (q : QueueSet) (l : list T) : Prop :=
  m_queue q = l /\ NoDup l /\ m_set q = list_to_set l.

Lemma represents_exist (q : QueueSet) (l : list T) (t : T) :
  represents q l -> exist q t = bool_decide (t ∈ l).
Proof.
  intros (_ & _ & Hs). unfold exist. rewrite Hs. apply bool_decide_ext. set_solver.
Qed.

Lemma run_simulates (q : QueueSet) (l : list T) (o : op) :
  represents q l ->
  (run q o).1 = (spec l o).1 /\ represents (run q o).2 (spec l o).2.
Proof.
  intros Hr. pose proof Hr as (Hq & Hd & Hs). destruct o as [t| | |t|]; simpl.
  - unfold push. rewrite (represents_exist q l t Hr). case_bool_decide as Hin; [done|].
    split; [done|]. split_and!; simpl; [by rewrite Hq| |set_solver].
    apply NoDup_app. split_and!; [done| |apply NoDup_singleton]. set_solver.
  - unfold pop. rewrite Hq. destruct l as [|t l]; [done|]. split; [done|].
    apply NoDup_cons in Hd as [Hn Hd]. split_and!; simpl; [done|done|].
    rewrite Hs. simpl. rewrite difference_union_distr_l_L, difference_diag_L.
    rewrite union_empty_l_L. apply difference_disjoint_L. set_solver.
  - split; [done|]. split_and!; [done|apply NoDup_nil_2|done].
  - by rewrite (represents_exist q l t Hr).
  - split; [|done]. do 2 f_equal. unfold size. rewrite Hs. by rewrite size_list_to_set.
Qed.

(** Every sequence of calls on a fresh [QueueSet] answers as a duplicate-free
    first-in first-out list does: the hash set and the queue never disagree. *)
Theorem queueSet_refines_list (os : list op) :
  run_all empty_queue os = spec_all [] os.
Proof.
  assert (forall q l, represents q l -> run_all q os = spec_all l os) as Hg.
  { induction os as [|o os IH]; intros q l Hr; [done|]. simpl.
    pose proof (run_simulates q l o Hr) as [Ha Hn].
    destruct (run q o), (spec l o). simpl in *. by rewrite Ha, (IH _ _ Hn). }
  apply Hg. split_and!; [done|apply NoDup_nil_2|done].
Qed.

End QueueSet.
End QueueSet.
