(* ===== verification/FixedBytes.v ===== *)
(** * Fixed-size byte arrays

    Model of libutilities/FixedBytes.h: [FixedBytes<N>] is its array [m_data],
    a list of [N] bytes; [SecureFixedBytes<N>] and the conversions between
    hashes, addresses and integers.  The template parameter [N] is an argument
    of the definitions that need it. *)

From Stdlib Require Import ZArith Lia List.
From Stdlib Require Import Strings.String Strings.Byte.
From stdpp Require Import base tactics decidable list option.
From S2P Require Import Prelude DataConvert.

(* ------------------------------------------------------------------ *)
(** ** Bits of a byte sequence *)

Lemma testbit_byte_cons (b v k : Z) :
  0 <= b < 256 -> 0 <= k ->
  Z.testbit (b + 256 * v) k = if k <? 8 then Z.testbit b k else Z.testbit v (k - 8).
Proof.
  intros Hb Hk. rewrite Z.add_comm, <- BigEndian.lor_byte by done.
  rewrite Z.lor_spec, Z.shiftl_spec by done.
  destruct (Z.ltb_spec k 8) as [Hlt|Hge].
  - by rewrite (Z.testbit_neg_r v) by lia.
  - rewrite <- (Z.mod_small b (2 ^ 8)) by (simpl; lia).
    rewrite Z.mod_pow2_bits_high by lia. apply orb_false_r.
Qed.

Lemma testbit_le_value (bs : bytes) (k : Z) :
  0 <= k ->
  Z.testbit (le_value bs) k =
  Z.testbit (b2z (nth (Z.to_nat (k / 8)) bs Byte.x00)) (k mod 8).
Proof.
  revert k; induction bs as [|b bs IH]; intros k Hk; simpl le_value.
  - rewrite Z.bits_0. destruct (Z.to_nat _); by rewrite Z.bits_0.
  - rewrite testbit_byte_cons by (try apply b2z_range; done).
    pose proof (Z.div_mod k 8 ltac:(lia)). pose proof (Z.mod_pos_bound k 8 ltac:(lia)).
    destruct (Z.ltb_spec k 8).
    + rewrite Z.div_small, Z.mod_small by lia. done.
    + rewrite IH by lia. replace k with (k - 8 + 1 * 8) at 3 4 by lia.
      rewrite Z.div_add, Z.mod_add by lia.
      assert (0 <= (k - 8) / 8) by (apply Z.div_pos; lia).
      replace (Z.to_nat ((k - 8) / 8 + 1)) with (S (Z.to_nat ((k - 8) / 8))) by lia. done.
Qed.

Lemma be_value_cons (b : byte) (bs : bytes) :
  be_value (b :: bs) = 256 ^ len bs * b2z b + be_value bs.
Proof.
  unfold be_value. simpl. rewrite le_value_app. unfold len. rewrite length_rev. simpl. lia.
Qed.

Module FixedBytes.

Inductive exn : Type :=
| BadHexCharacter
| ConstructFixedBytesFailed
| InvalidAddress.

Inductive StringDataType : Type := FromHex | FromBinary.
Inductive DataAlignType : Type := AlignLeft | AlignRight | AcquireEqual.

(** The array of [N] bytes of the class. *)
Definition wf (N : nat) (m_data : bytes) : Prop := length m_data = N.

(** [FixedBytes()] and [clear()]. *)
Definition zeroed (N : nat) : bytes := replicate N Byte.x00.

(** [memcpy(m_data.data() + pos, src, src.size())]. *)
Definition copyInto (m_data : bytes) (pos : nat) (src : bytes) : bytes :=
  take pos m_data ++ src ++ drop (pos + length src) m_data.

(** [constructFixedBytes(_bytesData, _alignType)]: the size is cut to 32 bits
    before the comparison with [N]. *)
Definition constructFixedBytes (N : nat) (bytesData : bytes) (alignType : DataAlignType) :
    outcome exn bytes :=
  let m_data := zeroed N in
  let copyDataSize := Z.to_nat (Z.min (u32 (len bytesData)) (Z.of_nat N)) in
  match alignType with
  | AlignLeft => Ok (copyInto m_data 0 (take copyDataSize bytesData))
  | AlignRight =>
      let startIndex := (N - copyDataSize)%nat in
      Ok (copyInto m_data startIndex (take copyDataSize bytesData))
  | AcquireEqual =>
      if negb (len bytesData =? Z.of_nat N) then Throw ConstructFixedBytesFailed
      else Ok (copyInto m_data 0 (take N bytesData))
  end.

(** [FixedBytes(byte const* _data, size_t _dataSize)]. *)
Definition fromPointer (N : nat) (data : bytes) : bytes :=
  copyInto (zeroed N) 0 (take (Nat.min (length data) N) data).

(** [FixedBytes(ArithType)], [operator ArithType()]. *)
Definition fromArith (N : nat) (n : Z) : bytes := BigEndian.toBigEndian N n.
Definition toArith (N : nat) (m_data : bytes) : Z :=
  BigEndian.fromBigEndian (8 * Z.of_nat N) m_data.

(** [FixedBytes(std::string, StringDataType, DataAlignType)]. *)
Definition fromString (N : nat) (s : bytes) (t : StringDataType) (a : DataAlignType) :
    outcome exn bytes :=
  match t with
  | FromBinary => constructFixedBytes N s a
  | FromHex =>
      match Hex.fromHexString s with
      | Ok bs => constructFixedBytes N bs a
      | Throw _ => Throw BadHexCharacter
      | Undefined f => Undefined f
      end
  end.

Definition toBool (m_data : bytes) : bool := existsb (fun b => negb (b2z b =? 0)) m_data.

Definition eqb (a b : bytes) : bool := bool_decide (a = b).

(** The loop of [operator<] over the indices. *)
Fixpoint ltb (a b : bytes) : bool :=
  match a, b with
  | x :: a', y :: b' =>
      if b2z x <? b2z y then true else if b2z y <? b2z x then false else ltb a' b'
  | _, _ => false
  end.

Definition geb (a b : bytes) : bool := negb (ltb a b).
Definition leb (a b : bytes) : bool := eqb a b || ltb a b.
Definition gtb (a b : bytes) : bool := negb (leb a b).

(** The compound assignments, byte by byte. *)
Definition xor_assign (a b : bytes) : bytes :=
  zip_with (fun x y => z2b (Z.lxor (b2z x) (b2z y))) a b.
Definition or_assign (a b : bytes) : bytes :=
  zip_with (fun x y => z2b (Z.lor (b2z x) (b2z y))) a b.
Definition and_assign (a b : bytes) : bytes :=
  zip_with (fun x y => z2b (Z.land (b2z x) (b2z y))) a b.
Definition bnot (a : bytes) : bytes := map (fun x => z2b (Z.lnot (b2z x))) a.

Definition hex (m_data : bytes) : bytes := Hex.toHexString m_data [].
Definition hexPrefixed (m_data : bytes) : bytes := Hex.toHexStringWithPrefix m_data.
Definition abridged (m_data : bytes) : bytes :=
  Hex.toHexString (if (4 <=? length m_data)%nat then take 4 m_data else []) [] ++ list_byte_of_string "...".

(** The inner loop of [firstBitSet]: shifts [d] left until its top bit is set. *)
Fixpoint firstBitOf (fuel : nat) (ret d : Z) : outcome exn Z :=
  match fuel with
  | O => Undefined OutOfFuel
  | S fuel' =>
      if negb (Z.land d 128 =? 0) then Ok ret
      else firstBitOf fuel' (u32 (ret + 1)) (u8 (Z.shiftl d 1))
  end.

Fixpoint firstBitSet_from (ret : Z) (m_data : bytes) : outcome exn Z :=
  match m_data with
  | [] => Ok ret
  | d :: rest =>
      if negb (b2z d =? 0) then firstBitOf 8 ret (b2z d)
      else firstBitSet_from (u32 (ret + 8)) rest
  end.

Definition firstBitSet (m_data : bytes) : outcome exn Z := firstBitSet_from 0 m_data.

(** [StaticLog2<N>]: each instance asks the one of [N / 2]. *)
Fixpoint StaticLog2 (N : positive) : Z :=
  match N with xH => 0 | xO half | xI half => 1 + StaticLog2 half end.

(** [bloomPart<P, M>]: [P] indices of [c_bloomBytes] bytes each are read from
    the array, and the bit of each is set in an array of [M] bytes. *)
Definition c_bloomBits (M : nat) : Z := Z.of_nat M * 8.
Definition c_mask (M : nat) : Z := c_bloomBits M - 1.
Definition c_bloomBytes (M : nat) : nat :=
  Z.to_nat ((StaticLog2 (Z.to_pos (c_bloomBits M)) + 7) / 8).

Definition bloomIndex (M : nat) (chunk : bytes) : Z :=
  Z.land (fold_left (fun index p => u32 (Z.lor (Z.shiftl index 8) (b2z p))) chunk 0) (c_mask M).

Definition setBit (M : nat) (ret : bytes) (index : Z) : bytes :=
  let pos := Z.to_nat (Z.of_nat M - 1 - index / 8) in
  match ret !! pos with
  | Some b => <[pos := z2b (Z.lor (b2z b) (Z.shiftl 1 (index mod 8)))]> ret
  | None => ret
  end.

Fixpoint bloomLoop (P M : nat) (p ret : bytes) : bytes :=
  match P with
  | O => ret
  | S P' =>
      bloomLoop P' M (drop (c_bloomBytes M) p)
        (setBit M ret (bloomIndex M (take (c_bloomBytes M) p)))
  end.

Definition bloomPart (P M : nat) (m_data : bytes) : bytes := bloomLoop P M m_data (zeroed M).

(** [this->shiftBloom<P>(_fixedBytes)] on an array of [N] bytes. *)
Definition shiftBloom (P N : nat) (this fixedBytes : bytes) : bytes :=
  or_assign this (bloomPart P N fixedBytes).

(** [FixedBytes<32>::operator==]: four 64-bit words. *)
Definition word64 (m_data : bytes) (i : nat) : Z := le_value (take 8 (drop (8 * i) m_data)).
Definition eqb32 (a b : bytes) : bool :=
  (word64 a 0 =? word64 b 0) && (word64 a 1 =? word64 b 1) &&
  (word64 a 2 =? word64 b 2) && (word64 a 3 =? word64 b 3).

Definition right160 (t : bytes) : bytes := copyInto (zeroed 20) 0 (take 20 (drop 12 t)).
Definition left160 (t : bytes) : bytes := copyInto (zeroed 20) 0 (take 20 t).
Definition asAddress (item : Z) : bytes := right160 (fromArith 32 item).
Definition fromAddress (a : bytes) : Z := uwrap 256 (toArith 20 a).

Definition toAddress (address : bytes) : outcome exn bytes :=
  match Hex.fromHexString address with
  | Ok bs => if len bs =? 20 then constructFixedBytes 20 bs AlignRight else Throw InvalidAddress
  | Throw _ => Throw BadHexCharacter
  | Undefined f => Undefined f
  end.

End FixedBytes.

(** [SecureFixedBytes<N>]: the same array; its assignment operators call those of
    [FixedBytes]. *)
Module SecureFixedBytes.
Import FixedBytes.

Definition secure_xor_assign (this c : bytes) : bytes := xor_assign this c.
Definition secure_or_assign (this c : bytes) : bytes := xor_assign this c.
Definition secure_and_assign (this c : bytes) : bytes := xor_assign this c.

(** The binary operators: a copy, then the compound assignment. *)
Definition secure_xor (this c : bytes) : bytes := secure_xor_assign this c.
Definition secure_or (this c : bytes) : bytes := secure_or_assign this c.
Definition secure_and (this c : bytes) : bytes := secure_and_assign this c.
Definition secure_not (this : bytes) : bytes := bnot this.

End SecureFixedBytes.

Module FixedBytesFacts.
Import FixedBytes SecureFixedBytes.

Lemma length_copyInto (m : bytes) (pos : nat) (src : bytes) :
  (pos + length src <= length m)%nat -> length (copyInto m pos src) = length m.
Proof. intros. unfold copyInto. rewrite !length_app, length_take, length_drop. lia. Qed.

Lemma toArith_be_value (N : nat) (a : bytes) : wf N a -> toArith N a = be_value a.
Proof. intros H. apply BigEndian.fromBigEndian_be_value. unfold len. rewrite H. lia. Qed.

Lemma be_value_replicate (n : nat) : be_value (replicate n Byte.x00) = 0.
Proof.
  induction n as [|n IH]; [done|]. simpl. rewrite be_value_cons, IH.
  change (b2z Byte.x00) with 0. lia.
Qed.

Lemma be_value_app (a b : bytes) : be_value (a ++ b) = 256 ^ len b * be_value a + be_value b.
Proof.
  induction a as [|x a IH]; simpl; [change (be_value []) with 0; lia|].
  rewrite !be_value_cons, IH, len_app, Z.pow_add_r by apply len_nonneg. lia.
Qed.

Lemma be_value_inj (a b : bytes) : length a = length b -> be_value a = be_value b -> a = b.
Proof. intros Hl Hv. by rewrite <- (be_bytes_be_value a), Hl, Hv, be_bytes_be_value. Qed.

(** The class invariant: each way to build a [FixedBytes<N>] yields [N] bytes. *)
Lemma constructFixedBytes_wf (N : nat) (bs r : bytes) (a : DataAlignType) :
  constructFixedBytes N bs a = Ok r -> wf N r.
Proof.
  unfold constructFixedBytes, wf.
  assert (length (zeroed N) = N) as Hz by apply length_replicate.
  pose proof (uwrap_range 32 (len bs) ltac:(lia)).
  destruct a; [| |destruct (Z.eqb_spec (len bs) (Z.of_nat N)); simpl; [|done]];
    intros [= <-]; (rewrite length_copyInto; [done|]); rewrite length_take, Hz; lia.
Qed.

(** Construction from bytes no longer than the array: left alignment keeps the
    bytes in front and fills with zeroes, right alignment keeps the big-endian
    value, and exact construction accepts the right length only. *)
Theorem constructFixedBytes_spec (N : nat) (bs : bytes)
    (HN : Z.of_nat N < 2 ^ 32) (Hbs : (length bs <= N)%nat) :
  constructFixedBytes N bs AlignLeft = Ok (bs ++ zeroed (N - length bs)) /\
  constructFixedBytes N bs AlignRight = Ok (zeroed (N - length bs) ++ bs) /\
  (forall r, constructFixedBytes N bs AlignRight = Ok r -> toArith N r = be_value bs) /\
  constructFixedBytes N bs AcquireEqual =
    (if bool_decide (length bs = N) then Ok bs else Throw ConstructFixedBytesFailed).
Proof.
  assert (Z.to_nat (Z.min (u32 (len bs)) (Z.of_nat N)) = length bs) as E
    by (unfold len; rewrite uwrap_small by lia; lia).
  assert (constructFixedBytes N bs AlignRight = Ok (zeroed (N - length bs) ++ bs)) as Hr.
  { unfold constructFixedBytes, copyInto, zeroed. rewrite E, (take_ge bs) by lia.
    rewrite take_replicate, drop_ge, app_nil_r by (rewrite length_replicate; lia).
    by rewrite Nat.min_l by lia. }
  split_and!; [|done| |].
  - unfold constructFixedBytes, copyInto, zeroed. rewrite E, (take_ge bs) by lia. simpl.
    by rewrite drop_replicate.
  - intros r Hr'. rewrite toArith_be_value by (by eapply constructFixedBytes_wf).
    rewrite Hr in Hr'. injection Hr' as <-. rewrite be_value_app. unfold zeroed.
    rewrite be_value_replicate. lia.
  - unfold constructFixedBytes. case_bool_decide as Hl.
    + rewrite (proj2 (Z.eqb_eq _ _)) by (unfold len; lia). simpl.
      unfold copyInto, zeroed. rewrite (take_ge bs) by lia.
      rewrite drop_ge, app_nil_r by (rewrite length_replicate; lia). done.
    + rewrite (proj2 (Z.eqb_neq _ _)) by (unfold len; lia). done.
Qed.

Lemma constructFixedBytes_spec_witness :
  constructFixedBytes 4 [Byte.x01; Byte.x02] AlignRight =
    Ok [Byte.x00; Byte.x00; Byte.x01; Byte.x02].
Proof. apply (constructFixedBytes_spec 4 [Byte.x01; Byte.x02]); simpl; lia. Defined.

Lemma ltb_be_value (a b : bytes) :
  length a = length b -> ltb a b = (be_value a <? be_value b).
Proof.
  revert b; induction a as [|x a IH]; intros [|y b] Hl; try done. simpl in *.
  rewrite !be_value_cons. replace (len b) with (len a) by (unfold len; lia).
  pose proof (be_value_range a) as Ha. pose proof (be_value_range b) as Hb.
  replace (len b) with (len a) in Hb by (unfold len; lia).
  destruct (Z.ltb_spec (b2z x) (b2z y)); [symmetry; apply Z.ltb_lt; nia|].
  destruct (Z.ltb_spec (b2z y) (b2z x)); [symmetry; apply Z.ltb_ge; nia|].
  rewrite IH by lia. replace (b2z y) with (b2z x) by lia.
  destruct (Z.ltb_spec (be_value a) (be_value b)), (Z.ltb_spec (256 ^ len a * b2z x + be_value a)
    (256 ^ len a * b2z x + be_value b)); lia.
Qed.

(** The comparison operators of [FixedBytes<N>] order the arrays as the unsigned
    integers they convert to, and the conversions are inverse to each other. *)
Theorem compare_as_integers (N : nat) (a b : bytes) (n : Z) (Ha : wf N a) (Hb : wf N b)
    (Hn : 0 <= n < 256 ^ Z.of_nat N) :
  ltb a b = (toArith N a <? toArith N b) /\
  leb a b = (toArith N a <=? toArith N b) /\
  geb a b = (toArith N b <=? toArith N a) /\
  gtb a b = (toArith N b <? toArith N a) /\
  eqb a b = (toArith N a =? toArith N b) /\
  fromArith N (toArith N a) = a /\ toArith N (fromArith N n) = n.
Proof.
  rewrite !toArith_be_value by (try done; apply BigEndian.length_toBigEndian).
  assert (length a = length b) as Hl by congruence.
  assert (eqb a b = (be_value a =? be_value b)) as He.
  { unfold eqb. case_bool_decide as H; [by rewrite H, Z.eqb_refl|].
    symmetry. apply Z.eqb_neq. intros H'. by apply H, be_value_inj. }
  unfold gtb, geb, leb. rewrite He, ltb_be_value by done.
  split_and!; try lia.
  - unfold fromArith. rewrite BigEndian.toBigEndian_be_bytes, <- Ha. apply be_bytes_be_value.
  - unfold fromArith. rewrite BigEndian.toBigEndian_be_bytes, be_value_be_bytes.
    by apply Z.mod_small.
Qed.

Lemma compare_as_integers_witness :
  ltb [Byte.x01; Byte.xff] [Byte.x02; Byte.x00] =
    (toArith 2 [Byte.x01; Byte.xff] <? toArith 2 [Byte.x02; Byte.x00]).
Proof.
  apply (compare_as_integers 2 [Byte.x01; Byte.xff] [Byte.x02; Byte.x00] 7);
    [reflexivity|reflexivity|simpl; lia].
Defined.

(** The four-word comparison of [FixedBytes<32>] is equality of the arrays. *)
Lemma word64_inj (a b : bytes) (i : nat) :
  length a = 32%nat -> length b = 32%nat -> (i < 4)%nat ->
  word64 a i = word64 b i -> take 8 (drop (8 * i) a) = take 8 (drop (8 * i) b).
Proof.
  unfold word64. intros Ha Hb Hi Hw.
  rewrite <- (le_bytes_le_value (take 8 (drop (8 * i) a))), Hw.
  rewrite <- (le_bytes_le_value (take 8 (drop (8 * i) b))) at 2. f_equal.
  rewrite !length_take, !length_drop. lia.
Qed.

Lemma split_32 (a : bytes) :
  length a = 32%nat ->
  a = take 8 (drop (8 * 0) a) ++ take 8 (drop (8 * 1) a) ++ take 8 (drop (8 * 2) a) ++
      take 8 (drop (8 * 3) a).
Proof.
  intros Ha. change a with (drop (8 * 0) a) at 1.
  rewrite <- (take_drop 8 (drop (8 * 0) a)) at 1. f_equal. rewrite drop_drop.
  rewrite <- (take_drop 8 (drop (8 * 0 + 8) a)) at 1. f_equal. rewrite drop_drop.
  rewrite <- (take_drop 8 (drop _ a)) at 1. f_equal. rewrite drop_drop.
  symmetry. apply take_ge. rewrite length_drop. simpl. lia.
Qed.

(** The specialised equality of 32-byte hashes, four 64-bit words at a time,
    agrees with the byte-wise equality it replaces. *)
Theorem eqb32_eqb (a b : bytes) (Ha : wf 32 a) (Hb : wf 32 b) : eqb32 a b = eqb a b.
Proof.
  unfold eqb, wf in *. case_bool_decide as H.
  - subst. unfold eqb32. by rewrite !Z.eqb_refl.
  - unfold eqb32. apply not_true_is_false. rewrite !andb_true_iff, !Z.eqb_eq.
    intros [[[H0 H1] H2] H3]. apply H. rewrite (split_32 a Ha), (split_32 b Hb).
    by rewrite (word64_inj a b 0), (word64_inj a b 1), (word64_inj a b 2), (word64_inj a b 3)
      by (done || lia).
Qed.

Lemma eqb32_eqb_witness : eqb32 (zeroed 32) (fromArith 32 1) = eqb (zeroed 32) (fromArith 32 1).
Proof. apply eqb32_eqb; reflexivity. Defined.

Lemma testbit_be_value (bs : bytes) (k : Z) :
  0 <= k < 8 * len bs ->
  Z.testbit (be_value bs) k =
  Z.testbit (b2z (nth (length bs - 1 - Z.to_nat (k / 8)) bs Byte.x00)) (k mod 8).
Proof.
  unfold len. intros Hk. unfold be_value. rewrite testbit_le_value by lia.
  rewrite rev_nth; [do 3 f_equal; lia|].
  assert (k / 8 < Z.of_nat (length bs)) by (apply Z.div_lt_upper_bound; lia).
  assert (0 <= k / 8) by (apply Z.div_pos; lia). lia.
Qed.

Lemma testbit_be_value_high (bs : bytes) (k : Z) :
  8 * len bs <= k -> Z.testbit (be_value bs) k = false.
Proof.
  intros Hk. pose proof (len_nonneg bs). rewrite <- (Z.mod_small (be_value bs) (2 ^ (8 * len bs))).
  - apply Z.mod_pow2_bits_high. lia.
  - rewrite <- pow256_pow2 by done. apply be_value_range.
Qed.

Lemma nth_zip_with (f : byte -> byte -> byte) (a b : bytes) (i : nat) :
  length a = length b -> (i < length a)%nat ->
  nth i (zip_with f a b) Byte.x00 = f (nth i a Byte.x00) (nth i b Byte.x00).
Proof.
  revert b i; induction a as [|x a IH]; intros [|y b] [|i] Hl Hi; simpl in *; try done; try lia.
  apply IH; lia.
Qed.

Lemma testbit_z2b (z k : Z) : 0 <= k < 8 -> Z.testbit (b2z (z2b z)) k = Z.testbit z k.
Proof.
  intros Hk. rewrite b2z_z2b. change 256 with (2 ^ 8). rewrite Z.mod_pow2_bits_low by lia. done.
Qed.

(** A byte-wise operation acts on the integers bit by bit. *)
Lemma testbit_zip_with (f : bool -> bool -> bool) (g : Z -> Z -> Z) (a b : bytes) (k : Z) :
  (forall x y i, Z.testbit (g x y) i = f (Z.testbit x i) (Z.testbit y i)) ->
  length a = length b -> 0 <= k < 8 * len a ->
  Z.testbit (be_value (zip_with (fun x y => z2b (g (b2z x) (b2z y))) a b)) k =
  f (Z.testbit (be_value a) k) (Z.testbit (be_value b) k).
Proof.
  intros Hg Hl Hk. set (r := zip_with _ a b).
  assert (length r = length a) as Hr by (unfold r; rewrite length_zip_with; lia).
  assert (0 <= k / 8 < len a) by (split; [apply Z.div_pos|apply Z.div_lt_upper_bound]; lia).
  pose proof (Z.mod_pos_bound k 8 ltac:(lia)). unfold len in *.
  rewrite !testbit_be_value by (unfold len; lia). rewrite Hr, <- Hl.
  unfold r. rewrite nth_zip_with by lia. rewrite testbit_z2b, Hg by lia. done.
Qed.

Lemma be_value_zip_with (f : bool -> bool -> bool) (g : Z -> Z -> Z) (a b : bytes) :
  (forall x y i, Z.testbit (g x y) i = f (Z.testbit x i) (Z.testbit y i)) ->
  length a = length b -> f false false = false ->
  be_value (zip_with (fun x y => z2b (g (b2z x) (b2z y))) a b) = g (be_value a) (be_value b).
Proof.
  intros Hg Hl Hf. apply Z.bits_inj'. intros k Hk. rewrite Hg.
  destruct (decide (k < 8 * len a)); [by apply (testbit_zip_with f)|].
  assert (len b = len a) by (unfold len; lia).
  rewrite !testbit_be_value_high; [done|lia|lia|].
  unfold len in *. rewrite length_zip_with. lia.
Qed.

(** The operators ^, | and & of [FixedBytes<N>] are those of the integers the
    arrays convert to. *)
Theorem bitwise_as_integers (N : nat) (a b : bytes) (Ha : wf N a) (Hb : wf N b) :
  toArith N (xor_assign a b) = Z.lxor (toArith N a) (toArith N b) /\
  toArith N (or_assign a b) = Z.lor (toArith N a) (toArith N b) /\
  toArith N (and_assign a b) = Z.land (toArith N a) (toArith N b).
Proof.
  unfold wf in *.
  rewrite !toArith_be_value by (try done; unfold wf, xor_assign, or_assign, and_assign;
    rewrite length_zip_with; lia).
  assert (length a = length b) by congruence. split_and!.
  - apply (be_value_zip_with xorb); [apply Z.lxor_spec|done|done].
  - apply (be_value_zip_with orb); [apply Z.lor_spec|done|done].
  - apply (be_value_zip_with andb); [apply Z.land_spec|done|done].
Qed.

Lemma bitwise_as_integers_witness :
  toArith 1 (or_assign [Byte.x05] [Byte.x03]) = Z.lor (toArith 1 [Byte.x05]) (toArith 1 [Byte.x03]).
Proof. apply (bitwise_as_integers 1 [Byte.x05] [Byte.x03]); reflexivity. Defined.

(** The | and & of [SecureFixedBytes] compute the exclusive or: a value or-ed or
    and-ed with itself becomes zero, unlike for [FixedBytes]. *)
Theorem secure_or_and_is_xor (N : nat) (a : bytes) :
  wf N a ->
  secure_or a a = zeroed N /\ secure_and a a = zeroed N /\
  or_assign a a = a /\ and_assign a a = a.
Proof.
  intros <-. unfold secure_or, secure_and, secure_or_assign, secure_and_assign,
    xor_assign, or_assign, and_assign, zeroed.
  induction a as [|x a (H1 & H2 & H3 & H4)]; [done|]. simpl.
  rewrite H1, H3, H4, Z.lxor_nilpotent, Z.lor_diag, Z.land_diag, z2b_b2z. done.
Qed.

Lemma secure_or_and_is_xor_witness :
  secure_or [Byte.x05] [Byte.x05] = zeroed 1 /\ secure_and [Byte.x05] [Byte.x05] = zeroed 1 /\
  or_assign [Byte.x05] [Byte.x05] = [Byte.x05] /\ and_assign [Byte.x05] [Byte.x05] = [Byte.x05].
Proof. by apply (secure_or_and_is_xor 1 [Byte.x05]). Defined.

(** [firstBitSet]: the leading zero bits of one byte. *)
Lemma firstBitOf_spec (d : byte) (ret : Z) :
  b2z d ≠ 0 -> 0 <= ret < 2 ^ 32 - 8 ->
  firstBitOf 8 ret (b2z d) = Ok (ret + 7 - Z.log2 (b2z d)).
Proof.
  intros Hd Hr.
  assert (forall n r, 0 <= n -> 0 <= r -> r + n < 2 ^ 32 -> uwrap 32 (r + n) = r + n) as Hw
    by (intros; apply uwrap_small; lia).
  destruct d; try (exfalso; by apply Hd); cbn -[uwrap Z.add Z.log2 Z.sub Z.pow];
    rewrite ?Hw by lia; cbn -[Z.add Z.sub Z.pow]; f_equal; lia.
Qed.

Lemma log2_be_cons (d : byte) (bs : bytes) :
  b2z d ≠ 0 -> Z.log2 (be_value (d :: bs)) = 8 * len bs + Z.log2 (b2z d).
Proof.
  intros Hd. rewrite be_value_cons, pow256_pow2 by apply len_nonneg.
  pose proof (b2z_range d). pose proof (be_value_range bs) as Hr.
  rewrite pow256_pow2 in Hr by apply len_nonneg. pose proof (len_nonneg bs).
  set (n := 8 * len bs) in *.
  apply Z.log2_unique; [pose proof (Z.log2_nonneg (b2z d)); lia|].
  pose proof (Z.log2_spec (b2z d) ltac:(lia)) as [Hl Hu]. pose proof (Z.log2_nonneg (b2z d)).
  rewrite <- Z.add_succ_r, !Z.pow_add_r by lia. pose proof (pow2_pos n). nia.
Qed.

Lemma firstBitSet_from_spec (ret : Z) (bs : bytes) :
  0 <= ret -> ret + 8 * len bs < 2 ^ 32 - 8 ->
  firstBitSet_from ret bs =
    Ok (ret + (if be_value bs =? 0 then 8 * len bs else 8 * len bs - 1 - Z.log2 (be_value bs))).
Proof.
  revert ret; induction bs as [|d bs IH]; intros ret H0 Hr; cbn [firstBitSet_from].
  - by rewrite Z.add_0_r.
  - rewrite len_cons in Hr. pose proof (len_nonneg bs).
    destruct (Z.eqb_spec (b2z d) 0) as [Hd|Hd]; cbn [negb].
    + rewrite uwrap_small by lia. rewrite IH by lia. rewrite be_value_cons, Hd, Z.mul_0_r, Z.add_0_l.
      rewrite len_cons. f_equal. case_match; lia.
    + rewrite firstBitOf_spec by (done || lia). rewrite log2_be_cons, len_cons by done.
      rewrite (proj2 (Z.eqb_neq _ _)); [f_equal; lia|]. rewrite be_value_cons.
      pose proof (b2z_range d). pose proof (be_value_range bs).
      pose proof (Z.pow_pos_nonneg 256 (len bs)). nia.
Qed.

(** [firstBitSet] terminates and is the number of leading zero bits of the
    integer: all [8 * N] of them for zero. *)
Theorem firstBitSet_leading_zeroes (N : nat) (a : bytes) (Ha : wf N a)
    (HN : 8 * Z.of_nat N < 2 ^ 32 - 8) :
  firstBitSet a =
    Ok (if toArith N a =? 0 then 8 * Z.of_nat N
        else 8 * Z.of_nat N - 1 - Z.log2 (toArith N a)).
Proof.
  rewrite toArith_be_value by done. unfold firstBitSet, wf in *.
  rewrite firstBitSet_from_spec by (unfold len; rewrite ?Ha; lia). unfold len. by rewrite Ha.
Qed.

Lemma firstBitSet_leading_zeroes_witness : firstBitSet [Byte.x00; Byte.x13] = Ok 11.
Proof. by apply (firstBitSet_leading_zeroes 2 [Byte.x00; Byte.x13]). Defined.

(** ** Bloom filters *)

Lemma length_setBit (M : nat) (ret : bytes) (i : Z) : length (setBit M ret i) = length ret.
Proof. unfold setBit. case_match; [apply length_insert|done]. Qed.

Lemma testbit_setBit (M : nat) (ret : bytes) (i k : Z) :
  length ret = M -> 0 <= i < 8 * Z.of_nat M -> 0 <= k < 8 * Z.of_nat M ->
  Z.testbit (be_value (setBit M ret i)) k = (k =? i) || Z.testbit (be_value ret) k.
Proof.
  intros Hl Hi Hk.
  assert (0 <= i / 8 < Z.of_nat M) by (split; [apply Z.div_pos|apply Z.div_lt_upper_bound]; lia).
  assert (0 <= k / 8 < Z.of_nat M) by (split; [apply Z.div_pos|apply Z.div_lt_upper_bound]; lia).
  pose proof (Z.div_mod i 8 ltac:(lia)). pose proof (Z.div_mod k 8 ltac:(lia)).
  pose proof (Z.mod_pos_bound i 8 ltac:(lia)). pose proof (Z.mod_pos_bound k 8 ltac:(lia)).
  rewrite !testbit_be_value by (unfold len; rewrite ?length_setBit; lia).
  rewrite length_setBit, Hl. unfold setBit. set (p := Z.to_nat (Z.of_nat M - 1 - i / 8)).
  destruct (lookup_lt_is_Some_2 ret p ltac:(lia)) as [b Hb]. rewrite Hb.
  set (q := (M - 1 - Z.to_nat (k / 8))%nat). rewrite !nth_lookup.
  destruct (decide (q = p)) as [E|E].
  - rewrite E, list_lookup_insert_eq by lia. simpl. rewrite testbit_z2b, Z.lor_spec by lia.
    rewrite Hb. simpl. rewrite orb_comm. f_equal. rewrite Z.shiftl_1_l, Z.pow2_bits_eqb by lia.
    assert (k / 8 = i / 8) by lia. lia.
  - rewrite list_lookup_insert_ne by done. rewrite (proj2 (Z.eqb_neq k i)); [done|].
    intros ->. lia.
Qed.

(** The bits [bloomPart] sets: the index read from each of the first [P] chunks. *)
Fixpoint bloomIndices (P M : nat) (p : bytes) : list Z :=
  match P with
  | O => []
  | S P' => bloomIndex M (take (c_bloomBytes M) p) :: bloomIndices P' M (drop (c_bloomBytes M) p)
  end.

Lemma bloomIndex_range (m : nat) (chunk : bytes) :
  0 <= bloomIndex (2 ^ m) chunk < 8 * Z.of_nat (2 ^ m).
Proof.
  unfold bloomIndex, c_mask, c_bloomBits. rewrite Nat2Z.inj_pow.
  replace (Z.of_nat 2 ^ Z.of_nat m * 8 - 1) with (Z.ones (Z.of_nat m + 3))
    by (rewrite Z.ones_equiv, Z.pow_add_r by lia; change (Z.of_nat 2) with 2; lia).
  rewrite Z.land_ones by lia. rewrite Z.pow_add_r by lia. change (Z.of_nat 2) with 2.
  rewrite (Z.mul_comm 8). apply Z.mod_pos_bound. pose proof (pow2_pos (Z.of_nat m)). lia.
Qed.

Lemma bloomLoop_bits (P m : nat) (p ret : bytes) (k : Z) :
  length ret = (2 ^ m)%nat -> 0 <= k < 8 * Z.of_nat (2 ^ m) ->
  length (bloomLoop P (2 ^ m) p ret) = (2 ^ m)%nat /\
  Z.testbit (be_value (bloomLoop P (2 ^ m) p ret)) k =
    existsb (Z.eqb k) (bloomIndices P (2 ^ m) p) || Z.testbit (be_value ret) k.
Proof.
  revert p ret; induction P as [|P IH]; intros p ret Hl Hk; [done|].
  cbn [bloomLoop bloomIndices existsb].
  set (i := bloomIndex _ _). destruct (IH (drop (c_bloomBytes (2 ^ m)) p) (setBit (2 ^ m) ret i))
    as [IH1 IH2]; [by rewrite length_setBit|done|].
  split; [done|]. rewrite IH2, testbit_setBit by (done || apply bloomIndex_range).
  by rewrite orb_assoc, (orb_comm (existsb _ _)).
Qed.

Lemma length_bloomPart (P m : nat) (a : bytes) :
  length (bloomPart P (2 ^ m) a) = (2 ^ m)%nat.
Proof.
  apply (bloomLoop_bits P m a (zeroed (2 ^ m)) 0); [apply length_replicate|].
  rewrite Nat2Z.inj_pow. pose proof (pow2_pos (Z.of_nat m)). change (Z.of_nat 2) with 2. lia.
Qed.

(** [shiftBloom] sets in a filter of [2^m] bytes exactly the bits whose indices
    the hash gives, and clears none: membership tests have no false negatives. *)
Theorem shiftBloom_bits (P m : nat) (this h : bytes) (k : Z)
    (Hthis : wf (2 ^ m) this) (Hk : 0 <= k < 8 * Z.of_nat (2 ^ m)) :
  Z.testbit (toArith (2 ^ m) (shiftBloom P (2 ^ m) this h)) k =
    Z.testbit (toArith (2 ^ m) this) k || existsb (Z.eqb k) (bloomIndices P (2 ^ m) h).
Proof.
  unfold shiftBloom. pose proof (length_bloomPart P m h) as Hb.
  rewrite (toArith_be_value _ (or_assign _ _)), toArith_be_value
    by (unfold wf, or_assign in *; rewrite ?length_zip_with; lia || done).
  unfold or_assign. rewrite (be_value_zip_with orb) by (apply Z.lor_spec || congruence || done).
  rewrite Z.lor_spec. f_equal. unfold bloomPart.
  destruct (bloomLoop_bits P m h (zeroed (2 ^ m)) k) as [_ ->]; [apply length_replicate|done|].
  unfold zeroed. by rewrite be_value_replicate, Z.bits_0, orb_false_r.
Qed.

Lemma shiftBloom_bits_witness :
  Z.testbit (toArith 4 (shiftBloom 2 4 (zeroed 4) [Byte.x07; Byte.x11])) 17 =
    Z.testbit (toArith 4 (zeroed 4)) 17 || existsb (Z.eqb 17) (bloomIndices 2 4 [Byte.x07; Byte.x11]).
Proof. apply (shiftBloom_bits 2 2 (zeroed 4) [Byte.x07; Byte.x11] 17); [done|simpl; lia]. Defined.

(** ** Addresses *)

Lemma right160_drop (t : bytes) : length t = 32%nat -> right160 t = drop 12 t.
Proof.
  intros Ht. unfold right160, copyInto, zeroed. rewrite take_0.
  rewrite (take_ge (drop 12 t)) by (rewrite length_drop; lia).
  rewrite (drop_ge (replicate _ _)), app_nil_r
    by (rewrite length_replicate, length_drop; lia). done.
Qed.

(** An address taken from a 256-bit word keeps its low 160 bits, and an address
    survives the conversion to an integer and back. *)
Theorem address_roundtrip (item : Z) (a : bytes) :
  0 <= item < 2 ^ 256 -> wf 20 a ->
  fromAddress (asAddress item) = item mod 2 ^ 160 /\ asAddress (fromAddress a) = a.
Proof.
  intros Hi Ha. unfold asAddress, fromAddress, fromArith.
  assert (forall z, right160 (BigEndian.toBigEndian 32 z) = be_bytes 20 z) as Hr.
  { intros z. rewrite right160_drop by apply BigEndian.length_toBigEndian.
    rewrite BigEndian.toBigEndian_be_bytes. reflexivity. }
  rewrite !Hr, !toArith_be_value by (done || apply length_be_bytes).
  rewrite be_value_be_bytes. change (256 ^ Z.of_nat 20) with (2 ^ 160).
  assert (forall z, 0 <= z < 2 ^ 160 -> uwrap 256 z = z) as Hw.
  { intros z Hz. apply uwrap_small. assert (2 ^ 160 < 2 ^ 256) by done. lia. }
  split; [apply Hw, Z.mod_pos_bound; lia|].
  pose proof (be_value_range a) as Hv. unfold len in Hv. rewrite Ha in Hv.
  rewrite Hw by done. rewrite <- Ha. apply be_bytes_be_value.
Qed.

Lemma address_roundtrip_witness :
  fromAddress (asAddress (2 ^ 200 + 5)) = (2 ^ 200 + 5) mod 2 ^ 160 /\
  asAddress (fromAddress (zeroed 20)) = zeroed 20.
Proof. apply (address_roundtrip (2 ^ 200 + 5) (zeroed 20)); [by vm_compute|done]. Defined.

Lemma constructRight_exact (N : nat) (bs : bytes) :
  Z.of_nat N < 2 ^ 32 -> length bs = N -> constructFixedBytes N bs AlignRight = Ok bs.
Proof.
  intros HN Hl. unfold constructFixedBytes, copyInto, zeroed, len.
  rewrite uwrap_small, Z.min_l, Nat2Z.id, (take_ge bs), Hl, Nat.sub_diag by lia. simpl.
  by rewrite drop_ge, app_nil_r by (rewrite length_replicate; lia).
Qed.

(** The logarithm computed at compile time is the logarithm rounded down, so that the
    indices of a bloom filter are read from as many bytes as they have. *)
Lemma StaticLog2_log2 (N : positive) : StaticLog2 N = Z.log2 (Zpos N).
Proof.
  induction N as [N IH | N IH |]; cbn [StaticLog2]; [| | done]; rewrite IH.
  - rewrite Pos2Z.inj_xI, Z.log2_succ_double by lia. lia.
  - rewrite Pos2Z.inj_xO, Z.log2_double by lia. lia.
Qed.

(** [toAddress] reads back the hexadecimal form of an address, and rejects
    every string whose digits are not 20 bytes. *)
Theorem toAddress_spec (s : bytes) :
  match toAddress s with
  | Ok a => wf 20 a /\ Hex.fromHexString s = Ok a
  | Throw e => e = BadHexCharacter /\ Hex.isHexString s = false \/
               e = InvalidAddress /\ exists bs, Hex.fromHexString s = Ok bs /\ length bs ≠ 20%nat
  | Undefined _ => False
  end.
Proof.
  unfold toAddress. destruct (Hex.fromHexString_isHexString s) as (H1 & H2 & _).
  destruct (Hex.fromHexString s) as [bs|e|f]; simpl in H1; [|by left|by specialize (H2 (eq_sym H1))].
  destruct (Z.eqb_spec (len bs) 20) as [Hl|Hl]; unfold len in Hl.
  - rewrite constructRight_exact by lia. split; [unfold wf; lia|done].
  - right. split; [done|]. exists bs. split; [done|lia].
Qed.

End FixedBytesFacts.
