(* ===== verification/SecureBytes.v ===== *)
(** * The operators and streams of fixed-size byte arrays, and secure arrays in memory

    Model of the rest of libutilities/FixedBytes.h over FixedBytes.v: the
    constructors as one function, the comparison and bit operators with the
    specialisation for 32 bytes, hashing, random arrays and stream input and
    output.  [SecureFixedBytes] is modelled in memory, over the [cleanMemory] of
    Utilities.v: objects are constructed, copied, assigned, combined and destroyed
    in slots of one region, and the theorem is that this implements values that
    leave nothing behind. *)

From Stdlib Require Import ZArith Lia List.
From Stdlib Require Import Strings.String Strings.Byte.
From stdpp Require Import base tactics decidable list option gmap.
From S2P Require Import Prelude DataConvert Utilities FixedBytes.

(* ------------------------------------------------------------------ *)
(** ** Constructors, operators and streams *)

Module FixedBytesObjects.
Import FixedBytes.

(** The constructors with their arguments; a pointer stands for the bytes that can be
    read from it. *)
Inductive constructor : Type :=
| Default
| OfBytes (bytesData : bytes) (alignType : DataAlignType)
| OfFixedBytes (fixedBytes : bytes) (alignType : DataAlignType)
| OfArith (arithNumber : Z)
| OfData (data : bytes) (dataSize : nat)
| OfPointer (bs : bytes)
| OfString (s : bytes) (t : StringDataType) (alignType : DataAlignType).

(** [memcpy] of [n] bytes to the front of the array. *)
Definition copyFrom (N n : nat) (src : bytes) : outcome exn bytes :=
  if (length src <? n)%nat then Undefined OutOfRange else Ok (copyInto (zeroed N) 0 (take n src)).

Definition construct (N : nat) (c : constructor) : outcome exn bytes :=
  match c with
  | Default => Ok (zeroed N)
  | OfBytes bs a | OfFixedBytes bs a => constructFixedBytes N bs a
  | OfArith n => Ok (fromArith N n)
  | OfData data dataSize => copyFrom N (Nat.min dataSize N) data
  | OfPointer bs => copyFrom N N bs
  | OfString s t a => fromString N s t a
  end.

Inductive relop : Type := OpEq | OpNe | OpLt | OpGe | OpLe | OpGt.

(** [operator==]: the instance for 32 bytes has its own. *)
Definition equalOp (N : nat) (a b : bytes) : bool :=
  if (N =? 32)%nat then eqb32 a b else eqb a b.

Definition compareOp (N : nat) (op : relop) (a b : bytes) : bool :=
  match op with
  | OpEq => equalOp N a b
  | OpNe => negb (eqb a b)
  | OpLt => ltb a b
  | OpGe => negb (ltb a b)
  | OpLe => equalOp N a b || ltb a b
  | OpGt => negb (equalOp N a b || ltb a b)
  end.

Inductive bitop : Type := OpXor | OpOr | OpAnd.

(** [operator^=], [operator|=], [operator&=]; each binary operator is its assignment on a
    copy. *)
Definition assignOp (op : bitop) : bytes -> bytes -> bytes :=
  match op with OpXor => xor_assign | OpOr => or_assign | OpAnd => and_assign end.

(** The hash function objects, over Boost's [hash_range] for bytes and for words. *)
Section Hash.
Context (hash_range_bytes : bytes -> Z) (hash_range_words : list Z -> Z).

Definition hash (N : nat) (value : bytes) : Z :=
  if (N =? 32)%nat then hash_range_words (map (word64 value) (seq 0 4)) else hash_range_bytes value.
End Hash.

(** Random arrays, over the numbers from 0 to 255 that the distribution draws from the
    engine. *)
Section Random.
Context {Engine : Type} (dis : Engine -> Z * Engine).

Fixpoint generateRandomFixedBytesByEngine (m_data : bytes) (eng : Engine) : bytes * Engine :=
  match m_data with
  | [] => ([], eng)
  | _ :: rest =>
      let '(v, eng1) := dis eng in
      let '(rest', eng2) := generateRandomFixedBytesByEngine rest eng1 in
      (z2b v :: rest', eng2)
  end.

Definition generateRandomFixedBytes (N : nat) (s_fixedBytesEngine : Engine) : bytes * Engine :=
  generateRandomFixedBytesByEngine (zeroed N) s_fixedBytesEngine.
End Random.

(** White space of the classic locale, and what [>>] reads into a string: the characters
    up to the next white space, after any white space. *)
Definition isspace (c : byte) : bool := (b2z c =? 32) || ((9 <=? b2z c) && (b2z c <=? 13)).

Fixpoint skipSpace (input : bytes) : bytes :=
  match input with c :: rest => if isspace c then skipSpace rest else input | [] => [] end.
Fixpoint takeWord (input : bytes) : bytes * bytes :=
  match input with
  | c :: rest => if isspace c then ([], input) else let '(w, r) := takeWord rest in (c :: w, r)
  | [] => ([], [])
  end.

(** [operator<<] and [operator>>]. *)
Definition writeStream (out h : bytes) : bytes := out ++ Hex.toHexString h [].

Definition readStream (N : nat) (input : bytes) : outcome exn (bytes * bytes) :=
  let '(s, rest) := takeWord (skipSpace input) in
  h ← fromString N s FromHex AlignRight; Ok (h, rest).

(** [toString(h256s)] *)
Definition toString (bs : list bytes) : bytes :=
  list_byte_of_string "[ " ++
  List.concat (map (fun i => abridged i ++ list_byte_of_string ", ") bs) ++ list_byte_of_string "]".

(** Several arrays written with a blank after each, and read one by one. *)
Definition writeLine (hs : list bytes) : bytes :=
  fold_left (fun out h => writeStream out h ++ list_byte_of_string " ") hs [].

Fixpoint readMany (N n : nat) (input : bytes) : outcome exn (list bytes * bytes) :=
  match n with
  | O => Ok ([], input)
  | S n' =>
      '(h, rest) ← readStream N input;
      '(hs, rest') ← readMany N n' rest;
      Ok (h :: hs, rest')
  end.
End FixedBytesObjects.

(* ------------------------------------------------------------------ *)
(** ** Secure arrays *)

Module SecureObjects.
Import Memory RefData FixedBytes SecureFixedBytes FixedBytesObjects.

Definition lift {A} (o : outcome Empty_set A) : outcome exn A :=
  match o with Ok a => Ok a | Throw e => match e with end | Undefined f => Undefined f end.

(** Memory, and the counter [cleanMemory] keeps between its calls. *)
Record heap : Type := mkHeap { mem : memory; s_cleanCounter : Z }.

Section Objects.
(** The size of the arrays; objects are known by their addresses. *)
Context (N : nat).

Definition ref (this : Z) : RefDataContainer := mkRef this (Z.of_nat N).
Definition makeInsecure (h : heap) (this : Z) : outcome exn bytes := lift (read (mem h) this N).
Definition store (h : heap) (this : Z) (m_data : bytes) : outcome exn heap :=
  m ← lift (write (mem h) this m_data); Ok (mkHeap m (s_cleanCounter h)).

(** [clear()], also the destructor. *)
Definition clear (h : heap) (this : Z) : outcome exn heap :=
  '(m, count) ← lift (cleanMemory 1 (mem h) (s_cleanCounter h) (ref this)); Ok (mkHeap m count).

Definition secureConstruct (h : heap) (this : Z) (c : constructor) : outcome exn heap :=
  m_data ← construct N c; store h this m_data.
Definition copyConstruct (h : heap) (this c : Z) : outcome exn heap :=
  m_data ← makeInsecure h c; store h this m_data.

(** [operator=] *)
Definition secureAssign (h : heap) (this secureFixedBytes : Z) : outcome exn heap :=
  if secureFixedBytes =? this then Ok h
  else h1 ← clear h this;
       m_data ← makeInsecure h1 secureFixedBytes;
       store h1 this m_data.

(** [writable()], then the array the caller writes through the reference. *)
Definition writable (h : heap) (this : Z) (m_data : bytes) : outcome exn heap :=
  h1 ← clear h this; store h1 this m_data.

(** The compound assignments with another secure array. *)
Definition secureOp (op : bitop) : bytes -> bytes -> bytes :=
  match op with
  | OpXor => secure_xor_assign
  | OpOr => secure_or_assign
  | OpAnd => secure_and_assign
  end.
Definition secureAssignOp (op : bitop) (h : heap) (this c : Z) : outcome exn heap :=
  a ← makeInsecure h this; b ← makeInsecure h c; store h this (secureOp op a b).

(** A binary operator returns a copy of the temporary it assigned to. *)
Definition secureBinaryOp (op : bitop) (h : heap) (result temporary this c : Z) : outcome exn heap :=
  h1 ← copyConstruct h temporary this;
  h2 ← secureAssignOp op h1 temporary c;
  h3 ← copyConstruct h2 result temporary;
  clear h3 temporary.

(** The comparison operators are those of the arrays. *)
Definition secureCompareOp (op : relop) (h : heap) (this c : Z) : outcome exn bool :=
  a ← makeInsecure h this; b ← makeInsecure h c; Ok (compareOp N op a b).
End Objects.
End SecureObjects.

(* ------------------------------------------------------------------ *)
(** ** Properties of the operators *)

Module FixedBytesObjectsFacts.
Import FixedBytes FixedBytesFacts FixedBytesObjects.

(** The relations and operations on integers that the operators stand for. *)
Definition compareZ (op : relop) (x y : Z) : bool :=
  match op with
  | OpEq => x =? y
  | OpNe => negb (x =? y)
  | OpLt => x <? y
  | OpGe => y <=? x
  | OpLe => x <=? y
  | OpGt => y <? x
  end.
Definition bitZ (op : bitop) : Z -> Z -> Z :=
  match op with OpXor => Z.lxor | OpOr => Z.lor | OpAnd => Z.land end.

Lemma eqb_be_value (a b : bytes) : length a = length b -> eqb a b = (be_value a =? be_value b).
Proof.
  intros Hl. unfold eqb. case_bool_decide as H; [by rewrite H, Z.eqb_refl |].
  symmetry. apply Z.eqb_neq. intros E. by apply H, be_value_inj.
Qed.

Lemma equalOp_eqb (N : nat) (a b : bytes) : wf N a -> wf N b -> equalOp N a b = eqb a b.
Proof.
  intros Ha Hb. unfold equalOp. destruct (Nat.eqb_spec N 32) as [-> |]; [by apply eqb32_eqb | done].
Qed.

Lemma length_copyFrom (N n : nat) (src r : bytes) : (n <= N)%nat -> copyFrom N n src = Ok r -> wf N r.
Proof.
  unfold copyFrom, wf. intros Hn. destruct (Nat.ltb_spec (length src) n); [done |]. intros [= <-].
  rewrite length_copyInto; unfold zeroed; rewrite length_replicate; [done |]. rewrite length_take. lia.
Qed.

(** Every constructor that returns gives an array of the size of the class. *)
Lemma construct_wf (N : nat) (c : constructor) (r : bytes) : construct N c = Ok r -> wf N r.
Proof.
  destruct c; cbn [construct]; try apply constructFixedBytes_wf.
  - intros [= <-]. apply length_replicate.
  - intros [= <-]. apply BigEndian.length_toBigEndian.
  - apply length_copyFrom. lia.
  - by apply length_copyFrom.
  - unfold fromString. destruct t; [| apply constructFixedBytes_wf].
    destruct (Hex.fromHexString s); [apply constructFixedBytes_wf | done | done].
Qed.

Lemma length_assignOp (op : bitop) (N : nat) (a b : bytes) : wf N a -> wf N b -> wf N (assignOp op a b).
Proof.
  unfold wf. intros Ha Hb. destruct op; cbn; unfold xor_assign, or_assign, and_assign;
    rewrite length_zip_with; lia.
Qed.

Lemma toArith_assignOp (op : bitop) (N : nat) (a b : bytes) :
  wf N a -> wf N b -> toArith N (assignOp op a b) = bitZ op (toArith N a) (toArith N b).
Proof.
  intros Ha Hb. destruct (bitwise_as_integers N a b Ha Hb) as (Hx & Ho & Hn). by destruct op.
Qed.

(** C36. The operators of [FixedBytes<N>], the specialised equality of hashes included, are
    those of the big-endian integers the arrays stand for: the comparisons, the bit
    operators, whose results are arrays of the class again; equal arrays have equal hashes
    whatever the functions of Boost compute. *)
Theorem operators_as_integers (N : nat) (a b : bytes) (hb : bytes -> Z) (hw : list Z -> Z)
    (Ha : wf N a) (Hb : wf N b) :
  (forall op, compareOp N op a b = compareZ op (toArith N a) (toArith N b)) /\
  (forall op, wf N (assignOp op a b) /\
              toArith N (assignOp op a b) = bitZ op (toArith N a) (toArith N b)) /\
  (compareOp N OpEq a b = true -> hash hb hw N a = hash hb hw N b).
Proof.
  assert (length a = length b) as Hl by congruence.
  assert (forall op, compareOp N op a b = compareZ op (be_value a) (be_value b)) as Hc.
  { intros op. unfold compareOp. rewrite equalOp_eqb, eqb_be_value, ltb_be_value by done.
    destruct op; cbn; lia. }
  split_and!.
  - intros op. by rewrite !toArith_be_value.
  - intros op. split; [by apply length_assignOp | by apply toArith_assignOp].
  - rewrite Hc. intros E%Z.eqb_eq. by rewrite (be_value_inj a b).
Qed.

Lemma hex_not_space (h : bytes) : Forall (fun c => isspace c = false) (Hex.toHexString h []).
Proof. apply Hex.toHexString_chars. repeat constructor. Qed.

Lemma takeWord_app (w : bytes) (c : byte) (r : bytes) :
  Forall (fun c => isspace c = false) w -> isspace c = true -> takeWord (w ++ c :: r) = (w, c :: r).
Proof.
  intros Hw Hc. induction Hw as [| x w Hx Hw IH]; cbn; [by rewrite Hc |]. by rewrite Hx, IH.
Qed.

Lemma readStream_write (N : nat) (pre h r : bytes) :
  (0 < N)%nat -> Z.of_nat N < 2 ^ 32 -> wf N h -> Forall (fun c => isspace c = true) pre ->
  readStream N (pre ++ Hex.toHexString h [] ++ list_byte_of_string " " ++ r) =
  Ok (h, list_byte_of_string " " ++ r).
Proof.
  intros HN0 HN Hh Hpre. unfold readStream.
  replace (skipSpace _) with (Hex.toHexString h [] ++ " "%byte :: r).
  - rewrite takeWord_app by (apply hex_not_space || done). unfold fromString.
    by rewrite Hex.fromHexString_toHexString, constructRight_exact.
  - induction Hpre as [| x pre Hx Hpre IH]; cbn [app skipSpace]; [| by rewrite Hx, IH].
    pose proof (hex_not_space h) as Hs. unfold wf in Hh. destruct h as [| b h]; [simpl in Hh; lia |].
    rewrite Hex.toHexString_cons in *. apply Forall_cons in Hs as [Hc _]. cbn [app skipSpace]. by rewrite Hc.
Qed.

Lemma writeLine_from (hs : list bytes) (out : bytes) :
  fold_left (fun out h => writeStream out h ++ list_byte_of_string " ") hs out =
  out ++ List.concat (map (fun h => Hex.toHexString h [] ++ list_byte_of_string " ") hs).
Proof.
  revert out; induction hs as [| h hs IH]; intros out; cbn [fold_left map List.concat].
  - by rewrite app_nil_r.
  - rewrite IH. unfold writeStream. by rewrite <- !app_assoc.
Qed.

(** Arrays written to a stream, with a blank after each, are read back: the same arrays in
    the same order, with only white space left. *)
Theorem stream_roundtrip (N : nat) (hs : list bytes)
    (HN : 0 < Z.of_nat N < 2 ^ 32) (Hhs : Forall (wf N) hs) :
  exists rest, readMany N (length hs) (writeLine hs) = Ok (hs, rest) /\ skipSpace rest = [].
Proof.
  unfold writeLine. rewrite writeLine_from. cbn [app].
  set (body hs := List.concat (map (fun h => Hex.toHexString h [] ++ list_byte_of_string " ") hs)).
  enough (forall pre, Forall (fun c => isspace c = true) pre ->
    exists rest, readMany N (length hs) (pre ++ body hs) = Ok (hs, rest) /\ skipSpace rest = [])
    as H by (by apply (H [])).
  induction Hhs as [| h hs Hh Hhs IH]; intros pre Hpre.
  - exists pre. cbn. rewrite app_nil_r. split; [done |].
    induction Hpre as [| x pre Hx Hpre IH]; cbn; [done | by rewrite Hx].
  - destruct (IH (list_byte_of_string " ")) as (rest & Hr & Hs); [by repeat constructor |].
    exists rest. cbn [length readMany]. unfold body at 1. cbn [map List.concat].
    rewrite <- app_assoc, readStream_write by (done || lia). cbn [mbind outcome_bind].
    fold (body hs). by rewrite Hr.
Qed.
End FixedBytesObjectsFacts.

(* ------------------------------------------------------------------ *)
(** ** Programs over secure arrays *)

Module SecureMachine.
Import Memory FixedBytes FixedBytesObjects SecureObjects.

(** What a program does with the objects of its slots. *)
Inductive action : Type :=
| Construct (i : nat) (c : constructor)
| CopyConstruct (i j : nat)
| Assign (i j : nat)
| Clear (i : nat)
| Writable (i : nat) (m_data : bytes)
| AssignOp (op : bitop) (i j : nat)
| BinaryOp (op : bitop) (result temporary i j : nat)
| Destroy (i : nat).

Section Machine.
(** [K] slots of [N] bytes each, one after the other from [base]. *)
Context (N K : nat) (base : Z).

Definition slot (i : nat) : Z := base + Z.of_nat (i * N).

Definition act (h : heap) (x : action) : outcome exn heap :=
  match x with
  | Construct i c => secureConstruct N h (slot i) c
  | CopyConstruct i j => copyConstruct N h (slot i) (slot j)
  | Assign i j => secureAssign N h (slot i) (slot j)
  | Clear i => clear N h (slot i)
  | Writable i m_data => writable N h (slot i) m_data
  | AssignOp op i j => secureAssignOp N op h (slot i) (slot j)
  | BinaryOp op r t i j => secureBinaryOp N op h (slot r) (slot t) (slot i) (slot j)
  | Destroy i => clear N h (slot i)
  end.

Fixpoint run (h : heap) (xs : list action) : outcome exn heap :=
  match xs with [] => Ok h | x :: xs => h' ← act h x; run h' xs end.

(** The specification: the living objects with their values.  A program that uses a slot
    against the life time of its object has no meaning. *)
Definition misuse {A} : outcome exn A := Undefined UseAfterFree.

Definition value (s : gmap nat bytes) (i : nat) : outcome exn bytes :=
  match s !! i with Some v => Ok v | None => misuse end.
Definition free (s : gmap nat bytes) (i : nat) : bool :=
  (i <? K)%nat && bool_decide (s !! i = None).

Definition specAct (s : gmap nat bytes) (x : action) : outcome exn (gmap nat bytes) :=
  match x with
  | Construct i c =>
      if free s i then v ← construct N c; Ok (<[i := v]> s) else misuse
  | CopyConstruct i j => if free s i then v ← value s j; Ok (<[i := v]> s) else misuse
  | Assign i j => _ ← value s i; v ← value s j; Ok (<[i := v]> s)
  | Clear i => _ ← value s i; Ok (<[i := zeroed N]> s)
  | Writable i m_data =>
      _ ← value s i; if (length m_data =? N)%nat then Ok (<[i := m_data]> s) else misuse
  | AssignOp op i j => a ← value s i; b ← value s j; Ok (<[i := secureOp op a b]> s)
  | BinaryOp op r t i j =>
      if free s r && free s t && negb (r =? t)%nat
      then a ← value s i; b ← value s j; Ok (<[r := secureOp op a b]> s) else misuse
  | Destroy i => _ ← value s i; Ok (delete i s)
  end.

Fixpoint specRun (s : gmap nat bytes) (xs : list action) : outcome exn (gmap nat bytes) :=
  match xs with [] => Ok s | x :: xs => s' ← specAct s x; specRun s' xs end.

(** Memory implements the objects: a slot holds the value of its object, and zeroes
    without one. *)
Definition implements (s : gmap nat bytes) (m : memory) : Prop :=
  (forall i, (i < K)%nat -> read m (slot i) N = Ok (default (zeroed N) (s !! i))) /\
  (forall i v, s !! i = Some v -> (i < K)%nat /\ wf N v).

(** Nothing outside the slots changes. *)
Definition outside (m m' : memory) : Prop :=
  forall a, ~ base <= a < base + Z.of_nat (K * N) -> m' !! a = m !! a.
End Machine.
End SecureMachine.

Module SecureMachineFacts.
Import Memory RefData FixedBytes FixedBytesFacts FixedBytesObjects FixedBytesObjectsFacts.
Import SecureFixedBytes SecureObjects SecureMachine.

Section Refinement.
Context (N K : nat) (base : Z) (Hbase : 0 < base) (Hsize : Z.of_nat (K * N) < 2 ^ 63).

Lemma slot_inside (i : nat) :
  (i < K)%nat -> base <= slot N base i /\ slot N base i + Z.of_nat N <= base + Z.of_nat (K * N).
Proof. unfold slot. intros. nia. Qed.

Lemma slot_disjoint (i j : nat) (a : Z) :
  i ≠ j -> slot N base i <= a < slot N base i + Z.of_nat N ->
  ~ slot N base j <= a < slot N base j + Z.of_nat N.
Proof. unfold slot. intros Hij Ha Hb. assert (i < j \/ j < i)%nat as [] by lia; nia. Qed.

(** A region read again after writes elsewhere. *)
Lemma read_frame (m m' : memory) (a : Z) (n : nat) (bs : bytes) :
  (forall i, a <= i < a + Z.of_nat n -> m' !! i = m !! i) -> read m a n = Ok bs -> read m' a n = Ok bs.
Proof.
  intros Hf [<- Hl]%read_lookup. apply read_intro. intros i Hi. rewrite Hf by lia. by apply Hl.
Qed.

Lemma read_allocated (m : memory) (a : Z) (n : nat) (bs : bytes) : read m a n = Ok bs -> allocated m a n.
Proof.
  intros [Hl Hi]%read_lookup i Hr. replace i with (a + Z.of_nat (Z.to_nat (i - a))) by lia.
  rewrite Hi by lia. apply lookup_lt_is_Some. lia.
Qed.

(** A change of one slot. *)
Lemma implements_slot (s s' : gmap nat bytes) (m m' : memory) (i : nat) :
  implements N K base s m -> (i < K)%nat ->
  read m' (slot N base i) N = Ok (default (zeroed N) (s' !! i)) ->
  (forall a, ~ slot N base i <= a < slot N base i + Z.of_nat N -> m' !! a = m !! a) ->
  (forall j, j ≠ i -> s' !! j = s !! j) -> (forall v, s' !! i = Some v -> wf N v) ->
  implements N K base s' m' /\ outside N K base m m'.
Proof.
  intros [Hr Hs] Hi Hr' Hout Hne Hwf. split; [split |].
  - intros j Hj. destruct (decide (j = i)) as [-> | Hji]; [done |]. rewrite Hne by done.
    apply (read_frame m); [| by apply Hr]. intros a Ha. apply Hout. by apply (slot_disjoint j).
  - intros j v Hv. destruct (decide (j = i)) as [-> | Hji]; [by auto |]. apply Hs. by rewrite <- Hne.
  - intros a Ha. apply Hout. pose proof (slot_inside i Hi). lia.
Qed.

Lemma store_slot (s : gmap nat bytes) (h : heap) (i : nat) (v : bytes) :
  implements N K base s (mem h) -> (i < K)%nat -> wf N v ->
  exists h', store h (slot N base i) v = Ok h' /\
    implements N K base (<[i := v]> s) (mem h') /\ outside N K base (mem h) (mem h').
Proof.
  intros HI Hi Hv. pose proof (read_allocated _ _ _ _ (proj1 HI i Hi)) as Ha. unfold wf in Hv.
  destruct (write_spec (mem h) (slot N base i) v) as (m' & Hw & Hin & Hout); [by rewrite Hv |].
  exists (mkHeap m' (s_cleanCounter h)). unfold store. rewrite Hw. split; [done |].
  apply (implements_slot s _ _ _ i HI Hi).
  - rewrite lookup_insert_eq. pose proof (read_intro m' _ v Hin) as Hr. by rewrite Hv in Hr.
  - intros a Hna. apply Hout. unfold len. by rewrite Hv.
  - intros j Hj. by rewrite lookup_insert_ne.
  - intros w. rewrite lookup_insert_eq. by intros [= <-].
Qed.

Lemma clear_slot (s : gmap nat bytes) (h : heap) (i : nat) :
  implements N K base s (mem h) -> (i < K)%nat ->
  exists h', clear N h (slot N base i) = Ok h' /\
    implements N K base (delete i s) (mem h') /\ outside N K base (mem h) (mem h').
Proof.
  intros HI Hi. pose proof (read_allocated _ _ _ _ (proj1 HI i Hi)) as Ha.
  pose proof (slot_inside i Hi).
  destruct (cleanMemory_zeroes 1 (mem h) (s_cleanCounter h) (ref N (slot N base i)))
    as (m' & c' & Hc & Hz & Hout & _); [done | |].
  { split_and!; cbn; rewrite ?Z.mul_1_r, ?Nat2Z.id; (lia || done). }
  unfold begin, end_ in Hz, Hout. cbn [m_dataPointer m_dataCount ref] in Hz, Hout.
  rewrite Z.mul_1_r in Hz, Hout. exists (mkHeap m' c'). unfold clear. rewrite Hc. split; [done |].
  apply (implements_slot s _ _ _ i HI Hi); [| done | |].
  - rewrite lookup_delete_eq. cbn [default]. unfold zeroed.
    pose proof (read_intro m' (slot N base i) (replicate N Byte.x00)) as Hr.
    rewrite length_replicate in Hr. apply Hr. intros k Hk. rewrite Hz by lia.
    by rewrite lookup_replicate_2.
  - intros j Hj. by rewrite lookup_delete_ne.
  - by rewrite lookup_delete_eq.
Qed.

(** A cleared slot is a slot whose object is zero. *)
Lemma implements_zeroed (s : gmap nat bytes) (m : memory) (i : nat) :
  implements N K base (delete i s) m -> (i < K)%nat -> implements N K base (<[i := zeroed N]> s) m.
Proof.
  intros [Hr Hs] Hi. split.
  - intros j Hj. rewrite Hr by done. destruct (decide (j = i)) as [-> |].
    + by rewrite lookup_delete_eq, lookup_insert_eq.
    + by rewrite lookup_delete_ne, lookup_insert_ne.
  - intros j v. destruct (decide (j = i)) as [-> |].
    + rewrite lookup_insert_eq. intros [= <-]. split; [done | apply length_replicate].
    + rewrite lookup_insert_ne by done. intros Hv. apply (Hs j). by rewrite lookup_delete_ne.
Qed.

Lemma value_live (s : gmap nat bytes) (h : heap) (i : nat) (v : bytes) :
  implements N K base s (mem h) -> value s i = Ok v ->
  (i < K)%nat /\ wf N v /\ s !! i = Some v /\ makeInsecure N h (slot N base i) = Ok v.
Proof.
  unfold value. intros [Hr Hs]. destruct (s !! i) as [w |] eqn:E; [| done]. intros [= ->].
  destruct (Hs i v E) as [Hi Hw]. split_and!; try done. unfold makeInsecure. by rewrite Hr, E.
Qed.

Lemma outside_trans (m1 m2 m3 : memory) :
  outside N K base m1 m2 -> outside N K base m2 m3 -> outside N K base m1 m3.
Proof. intros H1 H2 a Ha. by rewrite H2, H1. Qed.

Lemma length_secureOp (op : bitop) (a b : bytes) : wf N a -> wf N b -> wf N (secureOp op a b).
Proof. intros Ha Hb. destruct op; apply (length_assignOp OpXor N a b Ha Hb). Qed.

(** Each action implements its specification. *)
Definition refines (s' : gmap nat bytes) (h : heap) (o : outcome exn heap) : Prop :=
  exists h', o = Ok h' /\ implements N K base s' (mem h') /\ outside N K base (mem h) (mem h').

Lemma refines_bind (s' s'' : gmap nat bytes) (h : heap) (o : outcome exn heap) (k : heap -> outcome exn heap) :
  refines s' h o -> (forall h', implements N K base s' (mem h') -> refines s'' h' (k h')) ->
  refines s'' h (o ≫= k).
Proof.
  intros (h1 & -> & HI & Ho) Hk. destruct (Hk h1 HI) as (h2 & E & HI2 & Ho2).
  exists h2. split; [done |]. split; [done | by eapply outside_trans].
Qed.

Lemma copyConstruct_refines (s : gmap nat bytes) (h : heap) (i j : nat) (v : bytes) :
  implements N K base s (mem h) -> (i < K)%nat -> value s j = Ok v ->
  refines (<[i := v]> s) h (copyConstruct N h (slot N base i) (slot N base j)).
Proof.
  intros HI Hi Hj. destruct (value_live s h j v HI Hj) as (_ & Hw & _ & Hr).
  unfold copyConstruct. rewrite Hr. by apply store_slot.
Qed.

Lemma assign_refines (s : gmap nat bytes) (h : heap) (i j : nat) (w v : bytes) :
  implements N K base s (mem h) -> value s i = Ok w -> value s j = Ok v ->
  refines (<[i := v]> s) h (secureAssign N h (slot N base i) (slot N base j)).
Proof.
  intros HI Hvi Hvj. destruct (value_live s h i w HI Hvi) as (Hi & Hwi & Hsi & _).
  destruct (value_live s h j v HI Hvj) as (_ & Hwj & Hsj & _). unfold secureAssign.
  destruct (Z.eqb_spec (slot N base j) (slot N base i)) as [E | E].
  - assert (w = v) as ->.
    { destruct (decide (i = j)) as [-> | Hne]; [congruence |].
      assert (N = 0%nat) as HN by (unfold slot in E; nia).
      unfold wf in *. rewrite HN in *. by destruct w, v. }
    rewrite insert_id by done. exists h. by split.
  - eapply refines_bind; [by apply clear_slot | intros h1 HI1].
    assert (i ≠ j) by congruence.
    destruct (value_live _ h1 j v HI1) as (_ & _ & _ & ->).
    { unfold value. by rewrite lookup_delete_ne, Hsj. }
    rewrite <- insert_delete_eq. by apply store_slot.
Qed.

Lemma assignOp_refines (op : bitop) (s : gmap nat bytes) (h : heap) (i j : nat) (a b : bytes) :
  implements N K base s (mem h) -> value s i = Ok a -> value s j = Ok b ->
  refines (<[i := secureOp op a b]> s) h (secureAssignOp N op h (slot N base i) (slot N base j)).
Proof.
  intros HI Hvi Hvj. destruct (value_live s h i a HI Hvi) as (Hi & Hwi & _ & Hr1).
  destruct (value_live s h j b HI Hvj) as (_ & Hwj & _ & Hr2).
  unfold secureAssignOp. rewrite Hr1, Hr2. apply store_slot; [done | done | by apply length_secureOp].
Qed.

Lemma binaryOp_refines (op : bitop) (s : gmap nat bytes) (h : heap) (r t i j : nat) (a b : bytes) :
  implements N K base s (mem h) -> (r < K)%nat -> (t < K)%nat -> s !! t = None -> r ≠ t ->
  value s i = Ok a -> value s j = Ok b ->
  refines (<[r := secureOp op a b]> s) h
    (secureBinaryOp N op h (slot N base r) (slot N base t) (slot N base i) (slot N base j)).
Proof.
  intros HI Hr Ht Hst Hrt Hvi Hvj. pose proof (value_live s h j b HI Hvj) as (_ & _ & Hsj & _).
  eapply refines_bind; [by apply copyConstruct_refines | intros h1 H1].
  eapply refines_bind; [| intros h2 H2].
  { apply (assignOp_refines op _ _ t j a b H1); unfold value; [by rewrite lookup_insert_eq |].
    rewrite lookup_insert_ne, Hsj by congruence. done. }
  eapply refines_bind; [| intros h3 H3].
  { apply (copyConstruct_refines _ _ r t (secureOp op a b) H2 Hr).
    unfold value. by rewrite lookup_insert_eq. }
  replace (<[r := secureOp op a b]> s) with
    (delete t (<[r := secureOp op a b]> (<[t := secureOp op a b]> (<[t := a]> s)))).
  - by apply clear_slot.
  - rewrite delete_insert_ne by done. f_equal. rewrite !delete_insert_eq. by apply delete_id.
Qed.

Lemma act_refines (s s' : gmap nat bytes) (h : heap) (x : action) :
  implements N K base s (mem h) -> specAct N K s x = Ok s' -> refines s' h (act N base h x).
Proof.
  assert (forall i, free K s i = true -> (i < K)%nat /\ s !! i = None) as Hfree.
  { intros i [Hi Hn]%andb_true_iff. by apply Nat.ltb_lt in Hi; apply bool_decide_eq_true in Hn. }
  intros HI. destruct x as [i c | i j | i j | i | i d | op i j | op r t i j | i]; cbn [specAct act].
  - destruct (free K s i) eqn:F; [| done]. intros (v & Hv & [= <-])%bind_ok_inv. apply Hfree in F as [Hi _].
    unfold secureConstruct. rewrite Hv. apply store_slot; [done | done | by eapply construct_wf].
  - destruct (free K s i) eqn:F; [| done]. intros (v & Hv & [= <-])%bind_ok_inv. apply Hfree in F as [Hi _].
    by apply copyConstruct_refines.
  - intros (w & Hw & (v & Hv & [= <-])%bind_ok_inv)%bind_ok_inv. by eapply assign_refines.
  - intros (w & Hw & [= <-])%bind_ok_inv. destruct (value_live s h i w HI Hw) as (Hi & _).
    destruct (clear_slot s h i HI Hi) as (h' & E & HI' & Ho). exists h'. split; [done |].
    split; [by apply implements_zeroed | done].
  - intros (w & Hw & E)%bind_ok_inv. destruct (Nat.eqb_spec (length d) N) as [Hd |]; [| done].
    injection E as <-. destruct (value_live s h i w HI Hw) as (Hi & _).
    eapply refines_bind; [by apply clear_slot | intros h1 H1].
    rewrite <- insert_delete_eq. by apply store_slot.
  - intros (a & Ha & (b & Hb & [= <-])%bind_ok_inv)%bind_ok_inv. by apply assignOp_refines.
  - destruct (free K s r && free K s t && negb (r =? t)%nat) eqn:F; [| done].
    apply andb_true_iff in F as [[[Hr _]%Hfree [Ht Hst]%Hfree]%andb_true_iff F].
    apply negb_true_iff, Nat.eqb_neq in F.
    intros (a & Ha & (b & Hb & [= <-])%bind_ok_inv)%bind_ok_inv. by apply binaryOp_refines.
  - intros (w & Hw & [= <-])%bind_ok_inv. destruct (value_live s h i w HI Hw) as (Hi & _).
    by apply clear_slot.
Qed.

(** Only the constructors throw. *)
Lemma act_throws (s : gmap nat bytes) (h : heap) (x : action) (e : exn) :
  specAct N K s x = Throw e -> act N base h x = Throw e.
Proof.
  destruct x as [i c | i j | i j | i | i d | op i j | op r t i j | i]; cbn [specAct act];
    unfold value, misuse; try by (repeat (case_match; simplify_eq/=)).
  destruct (free K s i); [| done]. unfold secureConstruct.
  destruct (construct N c); cbn; [done | by intros [= ->] | done].
Qed.
End Refinement.
End SecureMachineFacts.

Module SecureBytesTheorems.
Import Memory FixedBytes FixedBytesFacts FixedBytesObjects FixedBytesObjectsFacts.
Import SecureObjects SecureMachine SecureMachineFacts.

End SecureBytesTheorems.

Module SecureBytesWitnesses.
Import Memory FixedBytes FixedBytesObjects FixedBytesObjectsFacts SecureObjects SecureMachine.
Import SecureBytesTheorems.

Definition sampleHeap : heap :=
  mkHeap (list_to_map (map (fun i => (100 + Z.of_nat i, Byte.x00)) (seq 0 8))) 3.


Lemma operators_as_integers_witness :
  compareOp 32 OpLe (zeroed 32) (fromArith 32 7) = compareZ OpLe (toArith 32 (zeroed 32)) (toArith 32 (fromArith 32 7)).
Proof.
  apply (operators_as_integers 32 (zeroed 32) (fromArith 32 7) (fun b => len b) (fun _ => 0));
    reflexivity.
Defined.

Lemma stream_roundtrip_witness :
  exists rest, readMany 2 2 (writeLine [[Byte.x0a; Byte.xff]; [Byte.x00; Byte.x20]]) =
    Ok ([[Byte.x0a; Byte.xff]; [Byte.x00; Byte.x20]], rest) /\ skipSpace rest = [].
Proof.
  apply (stream_roundtrip 2 [[Byte.x0a; Byte.xff]; [Byte.x00; Byte.x20]]); [lia |].
  repeat constructor.
Defined.
End SecureBytesWitnesses.
