(* ===== verification/Recorder.v ===== *)
(** * Clocks, time records and sequence numbers

    Model of the clocks, of the thread-local time records and of [newSeq] of
    libutilities/Common.{h,cpp}.  What [gettimeofday] stored is an argument; readings
    of the steady clock are nanoseconds, and the time point of a default construction
    is 0. *)

From Stdlib Require Import ZArith Lia List Sorted.
From Stdlib Require Import Strings.String Strings.Byte.
From stdpp Require Import base tactics decidable list option.
From S2P Require Import Prelude DataConvert Numbers.

Module Clocks.

Record timeval : Type := mkTimeval { tv_sec : Z; tv_usec : Z }.

Definition utcTime (tv : timeval) : Z := u64 (tv_sec tv * 1000 + Z.quot (tv_usec tv) 1000).
Definition utcTimeUs (tv : timeval) : Z := u64 (tv_sec tv * 1000000 + tv_usec tv).
Definition utcSteadyTime (count : Z) : Z := u64 (Z.quot count 1000000).
Definition utcSteadyTimeUs (count : Z) : Z := u64 (Z.quot count 1000).

(** What [gettimeofday] stores after 1970, for another 200000 years. *)
Definition proper (tv : timeval) : bool :=
  (0 <=? tv_sec tv) && (tv_sec tv <? 2 ^ 43) && (0 <=? tv_usec tv) && (tv_usec tv <? 1000000).

Definition before (a b : timeval) : bool :=
  (tv_sec a <? tv_sec b) || ((tv_sec a =? tv_sec b) && (tv_usec a <=? tv_usec b)).
End Clocks.

Module TimeRecorder.

(** The members that all recorders of a thread share. *)
Record Shared : Type := mkShared
  { m_name : bytes
  ; m_timePoint : Z
  ; m_heapCount : Z
  ; m_record : list (bytes * Z) }.

Definition initial : Shared := mkShared [] 0 0 [].

(** What the last destructor logs: the total and the part of each name. *)
Record report : Type := mkReport { total : Z; parts : list (bytes * Z) }.

(** The constructor. *)
Definition construct (name : bytes) (now : Z) (s : Shared) : Shared :=
  mkShared name now (u64 (m_heapCount s + 1))
    (if m_timePoint s =? 0 then m_record s else m_record s ++ [(m_name s, m_timePoint s)]).

(** The loop over the records from the last one to the first, each of which lasts
    until the one behind it began. *)
Fixpoint elapseds (record : list (bytes * Z)) (now : Z) : list (bytes * Z) :=
  match record with
  | [] => []
  | [(name, start)] => [(name, now - start)]
  | (name, start) :: ((_, next) :: _) as rest => (name, next - start) :: elapseds rest now
  end.

(** The destructor. *)
Definition destruct_ (now : Z) (s : Shared) : option report * Shared :=
  let count := u64 (m_heapCount s - 1) in
  if (count =? 0) && negb (m_timePoint s =? 0) then
    let record := m_record s ++ [(m_name s, m_timePoint s)] in
    (Some (mkReport (now - default 0 (snd <$> head record)) (elapseds record now)), mkShared [] 0 0 [])
  else (None, mkShared (m_name s) (m_timePoint s) count (m_record s)).

Inductive event : Type := Construct (name : bytes) (now : Z) | Destruct (now : Z).

Definition timeOf (e : event) : Z := match e with Construct _ now => now | Destruct now => now end.

Fixpoint run (es : list event) (s : Shared) : list report * Shared :=
  match es with
  | [] => ([], s)
  | Construct name now :: es => run es (construct name now s)
  | Destruct now :: es =>
      let '(r, s) := destruct_ now s in
      let '(rs, s) := run es s in
      (match r with Some r => r :: rs | None => rs end, s)
  end.
End TimeRecorder.

Module Sequence.
Import Numbers.

(** [newSeq]: the number padded with zeroes to 32 characters. *)
Definition padTo (n : nat) (s : bytes) : bytes := replicate (n - length s) "0"%byte ++ s.

Definition newSeq (seq : Z) : bytes * Z :=
  let seqTmp := u64 (seq + 1) in (padTo 32 (show 10 seqTmp), seqTmp).

Fixpoint newSeqs (n : nat) (seq : Z) : list bytes :=
  match n with O => [] | S n => let '(s, seq) := newSeq seq in s :: newSeqs n seq end.
End Sequence.

(* ------------------------------------------------------------------ *)
(** ** Properties *)

Module RecorderFacts.
Import TimeRecorder.

(** The recorders that are alive, and the calls of a well-nested scope: [open] more
    destructions than constructions are left. *)
Fixpoint nested (open : nat) (es : list event) : bool :=
  match es with
  | [] => (open =? 0)%nat
  | Construct _ _ :: es => nested (S open) es
  | Destruct _ :: es =>
      match open with
      | O => false
      | S O => match es with [] => true | _ => false end
      | S open => nested open es
      end
  end.

(** The names and times of the constructions. *)
Fixpoint begun (es : list event) : list (bytes * Z) :=
  match es with
  | [] => []
  | Construct name now :: es => (name, now) :: begun es
  | Destruct _ :: es => begun es
  end.

Fixpoint sum (l : list (bytes * Z)) : Z :=
  match l with [] => 0 | (_, d) :: l => d + sum l end.

Lemma elapseds_sum (name : bytes) (start : Z) (l : list (bytes * Z)) (now : Z) :
  sum (elapseds ((name, start) :: l) now) = now - start.
Proof.
  revert name start. induction l as [| [name' start'] l IH]; intros name start; [cbn; lia |].
  specialize (IH name' start'). cbn [elapseds sum] in *. lia.
Qed.

Lemma elapseds_names (l : list (bytes * Z)) (now : Z) : map fst (elapseds l now) = map fst l.
Proof.
  induction l as [| [name start] [| [name' start'] l] IH]; [done.. |].
  cbn [elapseds map fst] in *. by rewrite IH.
Qed.

Lemma elapseds_nonneg (l : list (bytes * Z)) (now : Z) :
  Sorted Z.le (map snd l ++ [now]) -> Forall (fun p => 0 <= p.2) (elapseds l now).
Proof.
  induction l as [| [name start] [| [name' start'] l] IH]; intros Hs; [constructor | |].
  - cbn in *. inversion Hs as [| ? ? _ Hh]; subst. inversion Hh; subst. repeat constructor. cbn. lia.
  - cbn [elapseds map app fst snd] in *. inversion Hs as [| ? ? Hs' Hh]; subst. inversion Hh; subst.
    constructor; [cbn; lia | by apply IH].
Qed.

(** The scope of [open] live recorders from a state that has recorded [past]. *)
Lemma run_nested (es : list event) (open : nat) (s : Shared) :
  nested (S open) es = true -> Forall (fun e => 0 < timeOf e) es -> m_timePoint s ≠ 0 ->
  m_heapCount s = Z.of_nat (S open) -> Z.of_nat (S open) + len es < 2 ^ 64 ->
  let record := m_record s ++ (m_name s, m_timePoint s) :: begun es in
  run es s = ([mkReport (timeOf (List.last es (Destruct 0)) - default 0 (snd <$> head record))
                 (elapseds record (timeOf (List.last es (Destruct 0))))], initial).
Proof.
  revert open s. induction es as [| e es IH]; intros open s Hn Ht Hp Hc Hl; [done |].
  inversion Ht as [| ? ? Ht1 Htes]; subst. rewrite len_cons in Hl. pose proof (len_nonneg es).
  destruct e as [name now | now]; cbn [timeOf] in *.
  - cbn [run begun]. cbn [nested] in Hn. assert (es ≠ []) as Hne by (by intros ->).
    replace (List.last (Construct name now :: es) (Destruct 0)) with (List.last es (Destruct 0))
      by (by destruct es).
    unfold construct. rewrite (proj2 (Z.eqb_neq _ _) Hp).
    rewrite (IH (S open)); cbn [m_record m_name m_timePoint m_heapCount]; try done; try lia.
    + by rewrite <- app_assoc.
    + rewrite Hc, uwrap_small; lia.
  - cbn [run begun]. unfold destruct_. rewrite Hc. destruct open as [| open].
    + change (u64 (Z.of_nat 1 - 1) =? 0) with true. rewrite (proj2 (Z.eqb_neq _ _) Hp). cbn [andb negb].
      by destruct es.
    + cbn [nested] in Hn. assert (es ≠ []) as Hne by (by intros ->).
      replace (List.last (Destruct now :: es) (Destruct 0)) with (List.last es (Destruct 0))
        by (by destruct es).
      replace (u64 (Z.of_nat (S (S open)) - 1)) with (Z.of_nat (S open)) by (rewrite uwrap_small; lia).
      rewrite (proj2 (Z.eqb_neq (Z.of_nat (S open)) 0)) by lia. cbn [andb].
      rewrite (IH open); cbn [m_record m_name m_timePoint m_heapCount]; done || lia.
Qed.

(** The times of the constructions and of the end come in order. *)
Lemma begun_sorted (es : list event) (open : nat) :
  nested (S open) es = true -> StronglySorted Z.le (map timeOf es) ->
  let times := map snd (begun es) ++ [timeOf (List.last es (Destruct 0))] in
  StronglySorted Z.le times /\ incl times (map timeOf es).
Proof.
  revert open. induction es as [| e es IH]; intros open Hn Hs; [done |]. cbn [map] in Hs.
  inversion Hs as [| ? ? Hs' Hmin]; subst. destruct es as [| e' es].
  - destruct e; [done |]. cbn. split; [repeat constructor | apply incl_refl].
  - assert (exists open', nested (S open') (e' :: es) = true) as [open' Hn'].
    { destruct e; cbn [nested] in Hn; [by exists (S open) |]. destruct open; [done |]. by exists open. }
    destruct (IH open' Hn' Hs') as [IHs IHi].
    change (List.last (e :: e' :: es) (Destruct 0)) with (List.last (e' :: es) (Destruct 0)).
    destruct e as [name now | now]; (split; [| intros x Hx]).
    + cbn [begun map app snd]. constructor; [done |]. rewrite List.Forall_forall in *. intros x Hx.
      by apply Hmin, IHi.
    + destruct Hx as [<- | Hx]; [by left | right]. by apply IHi.
    + done.
    + right. by apply IHi.
Qed.

(** When a thread's recorders have all been destroyed, exactly one report has been
    made: it has the recorders in the order of their construction, each with the
    time until the next one was constructed or, for the last one, until the end; the
    parts are not negative and add up to the total, and the records are empty. *)
Theorem time_report_adds_up (name : bytes) (now : Z) (es : list event)
    (Hn : nested 0 (Construct name now :: es) = true)
    (Hclock : Sorted Z.le (map timeOf (Construct name now :: es))) (Hpos : 0 < now)
    (Hl : len es < 2 ^ 63) :
  exists r, run (Construct name now :: es) initial = ([r], initial) /\
    total r = timeOf (List.last es (Destruct 0)) - now /\
    sum (parts r) = total r /\
    map fst (parts r) = map fst (begun (Construct name now :: es)) /\
    Forall (fun p => 0 <= p.2) (parts r).
Proof.
  apply Sorted_StronglySorted in Hclock; [| intros a b c; lia]. cbn [map timeOf] in Hclock.
  inversion Hclock as [| ? ? Hs Hmin]; subst.
  assert (es ≠ []) as Hne by (by intros ->). cbn [run nested begun] in *.
  rewrite (run_nested es 0); try done; cbn [m_timePoint m_heapCount m_record m_name construct initial app] in *; try lia.
  - change (0 =? 0) with true. cbv iota. cbn [app head fmap option_fmap option_map snd default]. eexists.
    split; [reflexivity |]. cbn [total parts].
    split; [done |]. split; [apply elapseds_sum |]. split; [apply elapseds_names |].
    apply elapseds_nonneg, StronglySorted_Sorted.
    destruct (begun_sorted es 0 Hn Hs) as [Hbs Hbi]. cbn [map snd app]. constructor; [done |].
    rewrite List.Forall_forall in *. intros x Hx. by apply Hmin, Hbi.
  - apply List.Forall_forall. intros e He. rewrite List.Forall_forall in Hmin.
    specialize (Hmin (timeOf e)). rewrite in_map_iff in Hmin. specialize (Hmin ltac:(eauto)). lia.
Qed.
End RecorderFacts.

Module ClocksFacts.
Import Clocks.

(** The two clocks agree and do not go back while the time of day does not. *)
Theorem clocks_agree (a b : timeval) (Ha : proper a = true) (Hb : proper b = true)
    (Hab : before a b = true) :
  utcTime a = utcTimeUs a / 1000 /\ utcTime a <= utcTime b /\ utcTimeUs a <= utcTimeUs b.
Proof.
  unfold proper, before in *. apply orb_true_iff in Hab. rewrite !andb_true_iff, ?Z.leb_le, ?Z.ltb_lt, ?Z.eqb_eq in *.
  unfold utcTime, utcTimeUs.
  assert (forall tv, 0 <= tv_sec tv < 2 ^ 43 -> 0 <= tv_usec tv < 1000000 ->
    0 <= tv_usec tv / 1000 < 1000) as Hd by (intros tv _ Ht; split; [apply Z.div_pos; lia | apply Z.div_lt_upper_bound; lia]).
  rewrite !Z.quot_div_nonneg by lia.
  pose proof (Hd a ltac:(lia) ltac:(lia)). pose proof (Hd b ltac:(lia) ltac:(lia)).
  rewrite !uwrap_small by lia. split_and!.
  - replace (tv_sec a * 1000000 + tv_usec a) with (tv_usec a + tv_sec a * 1000 * 1000) by lia.
    rewrite Z.div_add by lia. lia.
  - destruct Hab as [? | [-> Hu]]; [lia |]. apply Z.add_le_mono_l, Z.div_le_mono; lia.
  - lia.
Qed.
End ClocksFacts.

Module SequenceFacts.
Import Numbers Sequence.

Lemma digits_length (b : Z) (k fuel : nat) (n : Z) (acc : bytes) :
  2 <= b -> 0 <= n < b ^ Z.of_nat (S k) -> (length (digits fuel b n acc) <= S k + length acc)%nat.
Proof.
  intros Hb. revert fuel n acc. induction k as [| k IH]; intros [| fuel] n acc Hn; cbn [digits]; try lia.
  - rewrite (proj2 (Z.ltb_lt n b)) by (cbn in Hn; lia). cbn [length]. lia.
  - destruct (Z.ltb_spec n b); [cbn [length]; lia |].
    etransitivity; [apply IH | cbn [length]; lia]. rewrite (Nat2Z.inj_succ (S k)), Z.pow_succ_r in Hn by lia.
    split; [apply Z.div_pos; lia | apply Z.div_lt_upper_bound; lia].
Qed.

Lemma padTo_value (n : nat) (s : bytes) : digitsValue 10 (padTo n s) = digitsValue 10 s.
Proof.
  unfold padTo, digitsValue. rewrite fold_left_app.
  assert (forall k, fold_left (fun v c => v * 10 + Hex.convertCharToHexNumber c) (replicate k "0"%byte) 0 = 0)
    as ->; [| done]. induction k as [| k IH]; [done |]. cbn [replicate fold_left]. exact IH.
Qed.

Lemma newSeq_text (v : Z) :
  0 <= v < 2 ^ 64 ->
  digitsValue 10 (padTo 32 (show 10 v)) = v /\ length (padTo 32 (show 10 v)) = 32%nat.
Proof.
  intros Hv. split; [rewrite padTo_value, show_value; lia |].
  unfold padTo. rewrite length_app, length_replicate.
  assert (length (show 10 v) <= 32)%nat; [| lia].
  etransitivity; [apply (digits_length 10 31); [lia |] | cbn [length]; lia].
  change (10 ^ Z.of_nat 32) with 100000000000000000000000000000000. lia.
Qed.

(** Before the counter wraps, the sequence numbers are 32 characters long and no two
    are the same. *)
Theorem sequence_numbers_unique (n : nat) (Hn : Z.of_nat n < 2 ^ 64) :
  NoDup (newSeqs n 0) /\ Forall (fun s => length s = 32%nat) (newSeqs n 0).
Proof.
  assert (forall n seq, 0 <= seq -> seq + Z.of_nat n < 2 ^ 64 ->
    NoDup (newSeqs n seq) /\
    Forall (fun s => length s = 32%nat /\ seq < digitsValue 10 s) (newSeqs n seq)) as Hgen.
  { clear. induction n as [| n IH]; intros seq Hs Hn; [split; constructor |].
    cbn [newSeqs]. unfold newSeq. rewrite uwrap_small by lia.
    destruct (IH (seq + 1)) as [Hd Hf]; [lia.. |]. destruct (newSeq_text (seq + 1)) as [Hv Hl]; [lia |].
    split; constructor; try done.
    - intros Hin. rewrite List.Forall_forall in Hf. apply list_elem_of_In in Hin.
      specialize (Hf _ Hin) as [_ Hf]. lia.
    - split; [done | lia].
    - eapply List.Forall_impl; [| exact Hf]. cbn. intros s [? ?]. split; [done | lia]. }
  destruct (Hgen n 0) as [Hd Hf]; [lia.. |]. split; [done |].
  eapply List.Forall_impl; [| exact Hf]. by intros s [? _].
Qed.
End SequenceFacts.

(* ------------------------------------------------------------------ *)
(** ** The hypotheses can be met *)

Module RecorderWitnesses.
Import TimeRecorder RecorderFacts Sequence SequenceFacts.

Definition scope : list event :=
  [Construct (list_byte_of_string "inner") 30; Destruct 40; Construct (list_byte_of_string "last") 70;
   Destruct 75; Destruct 100].

Lemma time_report_adds_up_witness :
  exists r, run (Construct (list_byte_of_string "outer") 10 :: scope) initial = ([r], initial) /\
    total r = 90 /\ sum (parts r) = total r /\
    map fst (parts r) = map list_byte_of_string ["outer"; "inner"; "last"]%string /\
    Forall (fun p => 0 <= p.2) (parts r).
Proof.
  apply (time_report_adds_up (list_byte_of_string "outer") 10 scope); [done | | lia | done].
  repeat constructor; cbn; lia.
Defined.

Lemma sequence_numbers_unique_witness : NoDup (newSeqs 3 0).
Proof. apply (sequence_numbers_unique 3). done. Defined.

Import Clocks ClocksFacts.

Lemma clocks_agree_witness :
  utcTime (mkTimeval 5 999) = utcTimeUs (mkTimeval 5 999) / 1000 /\
  utcTime (mkTimeval 5 999) <= utcTime (mkTimeval 6 1) /\
  utcTimeUs (mkTimeval 5 999) <= utcTimeUs (mkTimeval 6 1).
Proof. apply (clocks_agree (mkTimeval 5 999) (mkTimeval 6 1)); reflexivity. Defined.
End RecorderWitnesses.
