(* ===== verification/JonString.v ===== *)
(** * Numbers and bytes as JSON text, and Base64

    Model of libutilities/JsonDataConvertUtility.h, the text that numbers, bytes
    and hashes have in JSON documents, and of libutilities/Base64.cpp.  The
    multiprecision numbers and the iterators of boost are parameters, with the
    documented behaviour the functions rely on as laws. *)

From Stdlib Require Import ZArith Lia List.
From Stdlib Require Import Strings.String Strings.Byte.
From stdpp Require Import base tactics decidable list option.
From S2P Require Import Prelude DataConvert Numbers FixedBytes.

Module JonString.
Import Numbers.

Inductive jon_exn : Type := BadHexCharacter | BadCast | out_of_range | runtime_error.

(** The construction of a boost number of [w] bits from text, and its conversion
    to [int64_t]. *)
Class CppInt : Type :=
  { numberOfText : Z -> bytes -> outcome jon_exn Z
  ; int64Of : Z -> Z }.

Definition isOctal (c : byte) : bool := (48 <=? b2z c) && (b2z c <=? 55).

(** Text of digits is a decimal number, or an octal one when it has a leading
    zero; numbers are cut to the width of their type. *)
Class CppIntLaw (L : CppInt) : Prop :=
  { decimal_text (w : Z) (s : bytes) :
      forallb isDecimal s = true -> s ≠ [] -> head s ≠ Some "0"%byte ->
      numberOfText w s = Ok (uwrap w (digitsValue 10 s))
  ; octal_text (w : Z) (s : bytes) :
      forallb isOctal s = true ->
      numberOfText w ("0"%byte :: s) = Ok (uwrap w (digitsValue 8 s))
  ; int64_small (v : Z) : 0 <= v < 2 ^ 63 -> int64Of v = v }.

Definition hexOr (o : outcome Hex.hex_exn bytes) : outcome jon_exn bytes :=
  mapThrow (fun _ => BadHexCharacter) o.

(** [toJonString]: of a byte, of bytes, of an unsigned number of boost, of a
    fixed array, secure or not, and of a built-in unsigned number. *)
Definition toJonString_byte (data : byte) : bytes := Hex.prefix0x ++ to_string (b2z data).

Definition toJonString_bytes (bytesData : bytes) : bytes := Hex.toHexStringWithPrefix bytesData.

Definition toJonString_number (arithNumber : Z) : outcome Empty_set bytes :=
  bs ← BigEndian.toCompactBigEndian arithNumber 1;
  let hexString := Hex.toHexString bs [] in
  match hexString with
  | c :: rest => Ok (Hex.prefix0x ++ (if bool_decide (c = "0"%byte) then rest else hexString))
  | [] => Undefined OutOfRange
  end.

Definition toJonString_secure (i : bytes) : bytes := Hex.prefix0x ++ FixedBytes.hex i.
Definition toJonString_fixed (i : bytes) : bytes := Hex.prefix0x ++ Hex.toHexString i [].
Definition toJonString_unsigned (i : Z) : bytes := Hex.prefix0x ++ show 16 i.

Definition jonStringToBytes (stringData : bytes) : outcome jon_exn bytes :=
  hexOr (Hex.fromHexString stringData).

(** The texts that the readers take for hexadecimal. *)
Definition is0x (s : bytes) : bool := bool_decide (take 2 s = Hex.prefix0x).

Section Readers.
Context `{CppInt}.

(** [jonStringToFixedBytes<N>]: the position of the first digit that is read is
    computed with 32 bits. *)
Definition jonStringToFixedBytes (N : nat) (s : bytes) : outcome jon_exn bytes :=
  if is0x s then
    let pos := u32 (u32 (2 + Z.max (u32 (Z.of_nat N * 2)) (u32 (len s - 2))) - Z.of_nat N * 2) in
    if len s <? pos then Throw out_of_range
    else
      bs ← hexOr (Hex.fromHexString (drop (Z.to_nat pos) s));
      mapThrow (fun _ => BadCast) (FixedBytes.constructFixedBytes N bs FixedBytes.AlignRight)
  else if forallb isDecimal s then
    v ← numberOfText (8 * Z.of_nat N) s; Ok (FixedBytes.fromArith N v)
  else Ok (FixedBytes.zeroed N).

(** [jsonStringToInt<N>]. *)
Definition jsonStringToInt (N : nat) (s : bytes) : outcome jon_exn Z :=
  if is0x s then
    bs ← hexOr (Hex.fromHexString (drop 2 s));
    Ok (BigEndian.fromBigEndian (8 * Z.of_nat N) bs)
  else if forallb isDecimal s then numberOfText (8 * Z.of_nat N) s
  else Throw BadCast.

Definition jonStringToU256 (s : bytes) : outcome jon_exn Z := jsonStringToInt 32 s.
Definition jsonStringToInt64 (s : bytes) : outcome jon_exn Z :=
  v ← jsonStringToInt 8 s; Ok (int64Of v).
End Readers.

Definition jsonStringToAddress (s : bytes) : outcome FixedBytes.exn bytes := FixedBytes.toAddress s.
End JonString.

(* ------------------------------------------------------------------ *)
(** ** Base64 *)

Module Base64.

Inductive base64_exn : Type := dataflow_exception | length_error.

(** The iterators of boost: bytes to Base64 characters without padding, and
    characters, the padding included, to bytes. *)
Class Base64Iterators : Type :=
  { fromBinary : bytes -> bytes
  ; toBinary : bytes -> outcome base64_exn bytes }.

Definition padding (n : Z) : Z := (3 - n mod 3) mod 3.
Definition equals (k : Z) : bytes := replicate (Z.to_nat k) "="%byte.

(** Three bytes are four characters, none of them the padding; a padded text has
    zero bytes for the padding. *)
Class Base64Law (L : Base64Iterators) : Prop :=
  { fromBinary_chars (d : bytes) : Forall (fun c => c ≠ "="%byte) (fromBinary d)
  ; fromBinary_length (d : bytes) : len (fromBinary d) = (4 * len d + 2) / 3
  ; toBinary_fromBinary (d : bytes) :
      toBinary (fromBinary d ++ equals (padding (len d))) =
      Ok (d ++ replicate (Z.to_nat (padding (len d))) Byte.x00) }.

Section Base64.
Context `{Base64Iterators}.

Definition base64Encode (data : bytes) : bytes := fromBinary data ++ equals (padding (len data)).

(** The loop of [base64Decode] that counts the padding, from index [i] down; the
    index and its bound are 64 bits wide. *)
Fixpoint countSuffix (fuel : nat) (data : bytes) (i suffix : Z) : outcome base64_exn Z :=
  match fuel with
  | O => Undefined OutOfFuel
  | S fuel =>
      if u64 (len data - 3) <=? i then
        if len data <? i then Undefined OutOfRange
        else if bool_decide (data !! Z.to_nat i = Some "="%byte)
             then countSuffix fuel data (u64 (i - 1)) (suffix + 1)
             else Ok suffix
      else Ok suffix
  end.

Definition base64Decode (data : bytes) : outcome base64_exn bytes :=
  suffix ← countSuffix 5 data (u64 (len data - 1)) 0;
  ret ← toBinary data;
  if len ret <? suffix then Throw length_error
  else Ok (take (Z.to_nat (len ret - suffix)) ret).

Definition base64DecodeBytes (data : bytes) : outcome base64_exn bytes := base64Decode data.
End Base64.
End Base64.

(* ------------------------------------------------------------------ *)
(** ** Properties *)

Module JonFacts.
Import Numbers JonString.

Definition isHexDigit (c : byte) : bool := negb (Hex.convertCharToHexNumber c =? -1).

Lemma digit_range (c : byte) : isHexDigit c = true -> 0 <= Hex.convertCharToHexNumber c < 16.
Proof. unfold isHexDigit. destruct (Hex.convert_range c) as [-> |]; [done | lia]. Qed.

Lemma digitsValue_app (b : Z) (s t : bytes) :
  digitsValue b (s ++ t) = digitsValue b s * b ^ len t + digitsValue b t.
Proof. unfold digitsValue at 1. rewrite fold_left_app. apply digitsValue_acc. Qed.

Lemma digitsValue_cons (b : Z) (c : byte) (s : bytes) :
  digitsValue b (c :: s) = Hex.convertCharToHexNumber c * b ^ len s + digitsValue b s.
Proof. exact (digitsValue_app b [c] s). Qed.

Lemma digitsValue_range (s : bytes) :
  forallb isHexDigit s = true -> 0 <= digitsValue 16 s < 16 ^ len s.
Proof.
  induction s as [| c s IH]; [done |]. cbn [forallb]. rewrite andb_true_iff. intros [Hc Hs].
  specialize (IH Hs). apply digit_range in Hc. rewrite digitsValue_cons, len_cons.
  pose proof (len_nonneg s). rewrite Z.pow_add_r, Z.pow_1_r by lia. nia.
Qed.

(** A text of hex digits does not begin like a prefixed one. *)
Lemma hex_not_0x (s : bytes) : forallb isHexDigit s = true -> is0x s = false.
Proof.
  intros Hs. unfold is0x. apply bool_decide_eq_false_2. destruct s as [| a [| c s]]; [done.. |].
  cbn [take]. intros [= -> ->]. done.
Qed.

Lemma pow16_double (n : nat) : 16 ^ Z.of_nat (2 * n) = 256 ^ Z.of_nat n.
Proof. rewrite Nat2Z.inj_mul, Z.pow_mul_r by lia. done. Qed.

Lemma fromHexPairs_value (n : nat) (s r : bytes) :
  length s = (2 * n)%nat -> Hex.fromHexPairs s = Ok r -> be_value r = digitsValue 16 s /\ length r = n.
Proof.
  revert s r. induction n as [| n IH]; intros s r Hl Hr.
  - destruct s; [| done]. by injection Hr as <-.
  - destruct s as [| hi [| lo s]]; try (cbn in Hl; lia). cbn [Hex.fromHexPairs] in Hr.
    destruct (Hex.convert_range hi) as [E | Hh]; [by rewrite E in Hr |].
    destruct (Hex.convert_range lo) as [E | Hlo]; [rewrite E, orb_true_r in Hr; done |].
    case_match; [lia |]. apply bind_ok_inv in Hr as (r' & Hr' & [= <-]).
    destruct (IH s r') as [Hv Hn]; [cbn in Hl; lia | done |]. split; [| cbn [length]; lia].
    rewrite be_value_cons, Hv, !digitsValue_cons, len_cons.
    rewrite Z.shiftl_mul_pow2, uwrap_small, b2z_z2b_small by lia. unfold len. rewrite Hn.
    replace (length s) with (2 * n)%nat by (cbn in Hl; lia).
    rewrite Z.pow_add_r, pow16_double by lia. lia.
Qed.

(** Hex digits always read, as the number they stand for. *)
Lemma fromHexString_digits (s : bytes) :
  forallb isHexDigit s = true ->
  exists r, Hex.fromHexString s = Ok r /\ be_value r = digitsValue 16 s /\
            length r = ((length s + 1) / 2)%nat.
Proof.
  intros Hs. pose proof (hex_not_0x s Hs) as Hx. unfold Hex.fromHexString, Hex.skip0x.
  change (bool_decide (take 2 s = Hex.prefix0x)) with (is0x s). rewrite Hx.
  assert (forall t n, forallb isHexDigit t = true -> length t = (2 * n)%nat ->
            exists r, Hex.fromHexPairs t = Ok r /\ be_value r = digitsValue 16 t /\ length r = n) as Hpairs.
  { intros t n Ht Hn. destruct (Hex.fromHexPairs_ok n t Hn) as [Hok _].
    change (forallb isHexDigit t) with (forallb (fun c => negb (Hex.convertCharToHexNumber c =? -1)) t) in Ht.
    rewrite Ht in Hok. destruct (Hex.fromHexPairs t) as [r | |] eqn:E; try done.
    exists r. split; [done |]. by apply fromHexPairs_value. }
  destruct (Nat.odd (length s)) eqn:Ho.
  - apply Nat.odd_spec in Ho as [k Hk]. destruct s as [| c s]; [cbn in Hk; lia |].
    cbn [forallb] in Hs. apply andb_true_iff in Hs as [Hc Hs].
    destruct (Hpairs s k Hs) as (r & Hr & Hv & Hn); [cbn in Hk; lia |]. pose proof (digit_range c Hc).
    rewrite (proj2 (Z.eqb_neq _ _)) by lia. rewrite Hr, bind_ok.
    exists (z2b (Hex.convertCharToHexNumber c) :: r).
    split; [done |]. split.
    + rewrite be_value_cons, digitsValue_cons, Hv, b2z_z2b_small by lia. unfold len. rewrite Hn.
      replace (length s) with (2 * k)%nat by (cbn in Hk; lia).
      rewrite pow16_double. lia.
    + apply (Nat.div_unique _ _ _ 0); cbn in *; lia.
  - rewrite <- Nat.negb_even in Ho. apply negb_false_iff, Nat.even_spec in Ho as [k Hk].
    destruct (Hpairs s k Hs Hk) as (r & Hr & Hv & Hn). exists r. repeat split; try done.
    rewrite Hn. apply (Nat.div_unique _ _ _ 1); lia.
Qed.

Lemma fromBigEndian_mod (w : Z) (bs : bytes) :
  0 <= w -> BigEndian.fromBigEndian w bs = uwrap w (be_value bs).
Proof.
  intros Hw. unfold BigEndian.fromBigEndian. induction bs as [| b bs IH] using rev_ind; [done |].
  rewrite fold_left_app, IH. cbn [fold_left]. rewrite BigEndian.lor_byte, be_value_snoc by apply b2z_range.
  unfold uwrap. rewrite Zplus_mod, Zmult_mod_idemp_r, <- Zplus_mod. done.
Qed.

Lemma forallb_Forall (f : byte -> bool) (s : bytes) :
  Forall (fun c => f c = true) s -> forallb f s = true.
Proof. induction 1 as [| c s Hc _ IH]; cbn [forallb]; [done | by rewrite Hc]. Qed.

Lemma is0x_prefix (s : bytes) : is0x (Hex.prefix0x ++ s) = true.
Proof. done. Qed.

Lemma toHexString_digits (bs : bytes) : forallb isHexDigit (Hex.toHexString bs []) = true.
Proof.
  apply forallb_Forall, (Hex.toHexString_chars (fun c => isHexDigit c = true)). by repeat constructor.
Qed.

Lemma digitsValue_toHexString (bs : bytes) : digitsValue 16 (Hex.toHexString bs []) = be_value bs.
Proof.
  symmetry. apply (fromHexPairs_value (length bs)); [apply Hex.length_toHexString |].
  apply Hex.fromHexPairs_toHexString.
Qed.

Lemma show_hexDigits (n : Z) : forallb isHexDigit (show 16 n) = true.
Proof.
  apply forallb_Forall, (digits_forall 16); [lia | | constructor]. intros d Hd. unfold isHexDigit.
  rewrite convert_hexChar by lia. apply negb_true_iff, Z.eqb_neq. lia.
Qed.

(** The first digit of a number that is not zero is not zero. *)
Lemma show_head (b n : Z) : 2 <= b <= 16 -> 0 < n -> head (show b n) ≠ Some "0"%byte.
Proof.
  intros Hb Hn. unfold show. set (fuel := Z.to_nat (Z.log2 n)).
  assert (Z.to_nat (Z.log2 n) <= fuel)%nat as Hf by lia. clearbody fuel.
  generalize (@nil byte) as acc. revert n Hn Hf. induction fuel as [| fuel IH]; intros n Hn Hf acc;
    cbn [digits]; destruct (Z.ltb_spec n b) as [Hlt | Hge].
  1, 3: cbn [head]; intros [= E]; apply (f_equal Hex.convertCharToHexNumber) in E;
        rewrite Z.mod_small, convert_hexChar in E by lia; change (n = 0) in E; lia.
  - pose proof (log2_div b Hb n Hge). pose proof (Z.log2_nonneg (n / b)). lia.
  - apply IH; [apply Z.div_str_pos; lia |]. pose proof (log2_div b Hb n Hge).
    pose proof (Z.log2_nonneg (n / b)). lia.
Qed.

Lemma decimal_not_0x (s : bytes) : forallb isDecimal s = true -> is0x s = false.
Proof.
  intros Hs. unfold is0x. apply bool_decide_eq_false_2. destruct s as [| a [| c s]]; [done.. |].
  cbn [take]. intros [= -> ->]. done.
Qed.

Section Readers.
Context `{CppInt}.

Lemma read_hex (N : nat) (s : bytes) :
  forallb isHexDigit s = true ->
  jsonStringToInt N (Hex.prefix0x ++ s) = Ok (uwrap (8 * Z.of_nat N) (digitsValue 16 s)).
Proof.
  intros Hs. unfold jsonStringToInt. rewrite is0x_prefix.
  change (drop 2 (Hex.prefix0x ++ s)) with s.
  destruct (fromHexString_digits s Hs) as (r & -> & <- & _). unfold hexOr. cbn [mapThrow].
  rewrite bind_ok, fromBigEndian_mod by lia. done.
Qed.

Lemma read_decimal `{!CppIntLaw _} (N : nat) (v : Z) :
  0 <= v -> jsonStringToInt N (to_string v) = Ok (uwrap (8 * Z.of_nat N) v).
Proof.
  intros Hv. rewrite to_string_nonneg by done. unfold jsonStringToInt.
  assert (forallb isDecimal (show 10 v) = true) as Hd.
  { apply forallb_Forall, show_decimal. }
  rewrite decimal_not_0x, Hd by done. destruct (decide (v = 0)) as [-> | Hnz].
  - apply (octal_text _ []). done.
  - rewrite decimal_text, show_value; [done | lia | done | done | apply show_nonempty | apply show_head; lia].
Qed.

(** The text of a number in JSON, whichever function writes it, hexadecimal or
    decimal, reads back as the number. *)
Theorem number_text_roundtrip `{!CppIntLaw _} (N : nat) (v : Z) (Hv : 0 <= v < 2 ^ (8 * Z.of_nat N)) :
  (exists t, toJonString_number v = Ok t /\ jsonStringToInt N t = Ok v) /\
  jsonStringToInt N (toJonString_unsigned v) = Ok v /\
  jsonStringToInt N (to_string v) = Ok v /\
  (N = 8%nat -> v < 2 ^ 63 -> jsonStringToInt64 (toJonString_unsigned v) = Ok v).
Proof.
  assert (jsonStringToInt N (toJonString_unsigned v) = Ok v) as Hu.
  { unfold toJonString_unsigned. rewrite read_hex by apply show_hexDigits.
    by rewrite show_value, uwrap_small by lia. }
  split; [| split; [exact Hu | split]].
  - destruct (BigEndian.toCompactBigEndian_spec v 1) as (bs & Hbs & Hval & Hlen & _); [lia |].
    unfold toJonString_number. rewrite Hbs, bind_ok.
    specialize (Hval _ (Z.le_refl _)). rewrite BigEndian.fromBigEndian_be_value in Hval by lia.
    pose proof (digitsValue_toHexString bs) as Hd. pose proof (toHexString_digits bs) as Hh.
    pose proof (Hex.length_toHexString bs []) as Hl.
    destruct (Hex.toHexString bs []) as [| c rest]; [cbn in Hl; lia |].
    eexists. split; [done |]. rewrite read_hex.
    + case_bool_decide as Hc; [| by rewrite Hd, Hval, uwrap_small].
      subst c. change (digitsValue 16 rest = be_value bs) in Hd. by rewrite Hd, Hval, uwrap_small.
    + case_bool_decide; [| done]. by apply andb_true_iff in Hh as [_ ?].
  - rewrite read_decimal by lia. by rewrite uwrap_small by lia.
  - intros -> Hs. unfold jsonStringToInt64. rewrite Hu, bind_ok. by rewrite int64_small by lia.
Qed.

(** A byte is written in decimal behind the prefix of hexadecimal numbers: it reads
    back as itself exactly when it has one digit. *)
Theorem byte_text_misread (N : nat) (b : byte) (HN : (2 <= N)%nat) :
  jsonStringToInt N (toJonString_byte b) = Ok (b2z b) <-> b2z b < 10.
Proof.
  unfold toJonString_byte. rewrite read_hex by (by destruct b).
  assert (0 <= digitsValue 16 (to_string (b2z b)) < 2 ^ 16 /\
          (digitsValue 16 (to_string (b2z b)) = b2z b <-> b2z b < 10)) as [Hr <-]
    by (destruct b; vm_compute; repeat split; intros; congruence).
  rewrite uwrap_small; [split; [by intros [= ?] | by intros ->] |].
  pose proof (Z.pow_le_mono_r 2 16 (8 * Z.of_nat N)). lia.
Qed.

(** Text that is neither hexadecimal with a lower-case prefix nor decimal: a number
    is refused, a fixed array is zero without notice; a leading zero makes digits
    octal. *)
Theorem other_texts `{!CppIntLaw _} (N : nat) (s : bytes) :
  (is0x s = false -> forallb isDecimal s = false ->
     jsonStringToInt N s = Throw BadCast /\ jonStringToFixedBytes N s = Ok (FixedBytes.zeroed N)) /\
  (forallb isOctal s = true ->
     jsonStringToInt N ("0"%byte :: s) = Ok (uwrap (8 * Z.of_nat N) (digitsValue 8 s))).
Proof.
  split.
  - intros Hx Hd. unfold jsonStringToInt, jonStringToFixedBytes. by rewrite Hx, Hd.
  - intros Ho. unfold jsonStringToInt.
    assert (forallb isDecimal ("0"%byte :: s) = true) as Hd.
    { cbn [forallb]. apply andb_true_iff. split; [done |]. rewrite forallb_forall in *.
      intros c Hc. specialize (Ho c Hc). unfold isDecimal, isOctal in *. lia. }
    rewrite decimal_not_0x, Hd by done. by apply octal_text.
Qed.

Lemma constructRight_value (N : nat) (bs : bytes) :
  (length bs <= N)%nat -> Z.of_nat N < 2 ^ 32 ->
  exists r, FixedBytes.constructFixedBytes N bs FixedBytes.AlignRight = Ok r /\
    length r = N /\ be_value r = be_value bs.
Proof.
  intros Hl HN. unfold FixedBytes.constructFixedBytes, FixedBytes.copyInto, FixedBytes.zeroed.
  rewrite uwrap_small by (unfold len; lia). rewrite Z.min_l by (unfold len; lia).
  unfold len. rewrite Nat2Z.id, (take_ge bs) by lia. eexists. split; [done |].
  rewrite drop_ge, app_nil_r by (rewrite length_replicate; lia).
  rewrite take_replicate, length_app, length_replicate. split; [lia |].
  rewrite FixedBytesFacts.be_value_app, FixedBytesFacts.be_value_replicate. lia.
Qed.

(** The last digits of a text are its value modulo a power of 16. *)
Lemma digitsValue_drop (k : nat) (s : bytes) :
  forallb isHexDigit s = true -> (k <= length s)%nat ->
  digitsValue 16 (drop (length s - k) s) = digitsValue 16 s mod 16 ^ Z.of_nat k.
Proof.
  intros Hs Hk.
  transitivity (digitsValue 16 (take (length s - k) s ++ drop (length s - k) s) mod 16 ^ Z.of_nat k);
    [| by rewrite take_drop]. rewrite digitsValue_app.
  unfold len at 1. rewrite length_drop. replace (length s - (length s - k))%nat with k by lia.
  rewrite Z.add_comm, Z.mod_add by lia. symmetry. apply Z.mod_small.
  replace (Z.of_nat k) with (len (drop (length s - k) s)) by (unfold len; rewrite length_drop; lia).
  apply digitsValue_range. rewrite <- (take_drop (length s - k) s), forallb_app in Hs.
  by apply andb_true_iff in Hs as [_ ?].
Qed.

(** The reader takes the last digits that fit. *)
Lemma read_fixed_hex (N : nat) (s : bytes) :
  forallb isHexDigit s = true -> 2 * Z.of_nat N < 2 ^ 31 -> len s < 2 ^ 31 ->
  exists r, jonStringToFixedBytes N (Hex.prefix0x ++ s) = Ok r /\ FixedBytes.wf N r /\
    FixedBytes.toArith N r = digitsValue 16 s mod 256 ^ Z.of_nat N.
Proof.
  intros Hs HN Hl. unfold jonStringToFixedBytes. rewrite is0x_prefix, len_app.
  change (len Hex.prefix0x) with 2. pose proof (len_nonneg s).
  set (k := Nat.min (length s) (2 * N)).
  replace (u32 (u32 (2 + Z.max (u32 (Z.of_nat N * 2)) (u32 (2 + len s - 2))) - Z.of_nat N * 2))
    with (Z.of_nat (2 + (length s - k)))
    by (rewrite (uwrap_small 32 (Z.of_nat N * 2)), (uwrap_small 32 (2 + len s - 2)) by lia;
        rewrite (uwrap_small 32 (2 + Z.max _ _)) by lia; rewrite uwrap_small; unfold len in *; lia).
  rewrite (proj2 (Z.ltb_ge _ _)) by (unfold len; lia). rewrite Nat2Z.id.
  change (drop (2 + (length s - k)) (Hex.prefix0x ++ s)) with (drop (length s - k) s).
  assert (forallb isHexDigit (drop (length s - k) s) = true) as Hd.
  { rewrite <- (take_drop (length s - k) s), forallb_app in Hs. by apply andb_true_iff in Hs as [_ ?]. }
  destruct (fromHexString_digits _ Hd) as (bs & -> & Hv & Hlen). cbn [hexOr mapThrow]. rewrite bind_ok.
  rewrite length_drop in Hlen. assert (length bs <= N)%nat as HbN.
  { rewrite Hlen. apply Nat.lt_succ_r, Nat.Div0.div_lt_upper_bound. lia. }
  destruct (constructRight_value N bs HbN) as (r & -> & Hr & Hrv); [lia |].
  exists r. split; [done |]. split; [done |].
  rewrite FixedBytesFacts.toArith_be_value, Hrv, Hv, digitsValue_drop by (done || lia).
  rewrite <- pow16_double. unfold k. destruct (Nat.min_spec (length s) (2 * N)) as [[Hlt ->] | [_ ->]]; [| done].
  pose proof (digitsValue_range s Hs) as Hrange. unfold len in Hrange.
  rewrite !Z.mod_small; [done | | done]. split; [lia |].
  eapply Z.lt_le_trans; [apply Hrange |]. apply Z.pow_le_mono_r; lia.
Qed.

(** Hexadecimal text of any length reads as a fixed array whose integer is the
    value of the text modulo the size of the array; the text of an array reads
    back as the array. *)
Theorem fixed_text_read (N : nat) (s i : bytes) (Hs : forallb isHexDigit s = true)
    (Hsize : 2 * Z.of_nat N < 2 ^ 31 /\ len s < 2 ^ 31) (Hi : FixedBytes.wf N i) :
  (exists r, jonStringToFixedBytes N (Hex.prefix0x ++ s) = Ok r /\ FixedBytes.wf N r /\
     FixedBytes.toArith N r = digitsValue 16 s mod 256 ^ Z.of_nat N) /\
  jonStringToFixedBytes N (toJonString_fixed i) = Ok i.
Proof.
  split; [apply read_fixed_hex; [done | lia..] |]. unfold toJonString_fixed.
  destruct (read_fixed_hex N (Hex.toHexString i [])) as (r & -> & Hr & Hv).
  - apply toHexString_digits.
  - lia.
  - unfold len. rewrite Hex.length_toHexString, Hi. cbn [length]. lia.
  - f_equal. apply FixedBytesFacts.be_value_inj; [by rewrite Hr, Hi |].
    rewrite <- (FixedBytesFacts.toArith_be_value N r Hr), Hv, digitsValue_toHexString.
    apply Z.mod_small. pose proof (be_value_range i) as Hb. unfold len in Hb. by rewrite Hi in Hb.
Qed.
End Readers.
End JonFacts.

Module Base64Facts.
Import Base64.

Section Facts.
Context `{Base64Iterators}.

(** The loop stops at the last character that is not padding, when there is one
    among the last three. *)
Lemma countSuffix_padding (f : bytes) (c : byte) (k j : nat) (fuel : nat) (s : Z) :
  let data := f ++ c :: replicate k "="%byte in
  c ≠ "="%byte -> (k <= 2)%nat -> (j <= k)%nat -> (j < fuel)%nat -> 3 <= len data < 2 ^ 63 ->
  countSuffix fuel data (len f + Z.of_nat j) s = Ok (s + Z.of_nat j).
Proof.
  intros data Hc Hk. revert fuel s. induction j as [| j IH]; intros [| fuel] s Hj Hf Hl; try lia.
  all: assert (len data = len f + 1 + Z.of_nat k) as Hdl
         by (unfold data, len; rewrite length_app; cbn [length]; rewrite length_replicate; lia);
    cbn [countSuffix]; pose proof (len_nonneg f);
    rewrite uwrap_small, (proj2 (Z.leb_le _ _)), (proj2 (Z.ltb_ge _ _)) by lia;
    rewrite bool_decide_decide; unfold data.
  - rewrite lookup_app_r by (unfold len in *; lia).
    replace (Z.to_nat (len f + Z.of_nat 0) - length f)%nat with 0%nat by (unfold len in *; lia).
    cbn [lookup list_lookup]. rewrite decide_False by congruence. f_equal. lia.
  - rewrite lookup_app_r by (unfold len in *; lia).
    replace (Z.to_nat (len f + Z.of_nat (S j)) - length f)%nat with (S j) by (unfold len in *; lia).
    change ((c :: replicate k "="%byte) !! S j) with (replicate k "="%byte !! j).
    rewrite (lookup_replicate_2 k _ j), decide_True by (done || lia).
    fold data. rewrite uwrap_small by lia.
    replace (len f + Z.of_nat (S j) - 1) with (len f + Z.of_nat j) by lia.
    rewrite IH by lia. f_equal. lia.
Qed.

Lemma countSuffix_safe (fuel : nat) (data : bytes) (i s : Z) :
  4 <= len data < 2 ^ 63 -> len data - 4 <= i <= len data - 1 -> i - (len data - 4) < Z.of_nat fuel ->
  exists k, countSuffix fuel data i s = Ok k.
Proof.
  intros Hl. revert i s. induction fuel as [| fuel IH]; intros i s Hi Hf; [lia |]. cbn [countSuffix].
  rewrite uwrap_small by lia. destruct (Z.leb_spec (len data - 3) i); [| by eexists].
  rewrite (proj2 (Z.ltb_ge _ _)) by lia. case_bool_decide; [| by eexists].
  rewrite uwrap_small by lia. apply IH; lia.
Qed.

(** The loop over the padding reads outside the text exactly for the empty text
    and for three padding characters; otherwise it ends. *)
Theorem suffix_loop_bounds (data : bytes) (Hl : len data < 2 ^ 63) :
  match countSuffix 5 data (u64 (len data - 1)) 0 with
  | Ok _ => data ≠ [] /\ data ≠ equals 3
  | Undefined e => e = OutOfRange /\ (data = [] \/ data = equals 3)
  | Throw _ => False
  end.
Proof.
  destruct (Z.leb_spec 4 (len data)) as [Hge | Hlt].
  - destruct (countSuffix_safe 5 data (u64 (len data - 1)) 0) as [k ->];
      [lia | rewrite uwrap_small by lia; lia.. |].
    split; intros ->; done.
  - destruct data as [| a [| b [| c [| d data]]]]; [by vm_compute; auto.. | |].
    + change (u64 (len [a; b; c] - 1)) with 2. cbn [countSuffix].
      change (u64 (len [a; b; c] - 3)) with 0.
      change (u64 (2 - 1)) with 1. change (u64 (1 - 1)) with 0. change (u64 (0 - 1)) with (2 ^ 64 - 1).
      change (0 <=? 2) with true. change (0 <=? 1) with true. change (0 <=? 0) with true.
      change (0 <=? 2 ^ 64 - 1) with true. change (len [a; b; c] <? 2 ^ 64 - 1) with true.
      change (len [a; b; c] <? 2) with false. change (len [a; b; c] <? 1) with false.
      change (len [a; b; c] <? 0) with false. cbv beta iota.
      change (equals 3) with (replicate 3 "="%byte).
      change ([a; b; c] !! Z.to_nat 2) with (Some c). change ([a; b; c] !! Z.to_nat 1) with (Some b).
      change ([a; b; c] !! Z.to_nat 0) with (Some a).
      repeat case_bool_decide; simplify_eq; cbn; naive_solver.
    + unfold len in Hlt. cbn [length] in Hlt. lia.
Qed.

(** What is encoded decodes to itself, unless it is empty: then the decoder reads
    outside the text. *)
Theorem base64_roundtrip `{!Base64Law _} (d : bytes) (Hd : len d < 2 ^ 60) :
  base64DecodeBytes (base64Encode d) = (if bool_decide (d = []) then Undefined OutOfRange else Ok d).
Proof.
  unfold base64DecodeBytes, base64Decode, base64Encode.
  pose proof (fromBinary_length d) as Hlen. pose proof (fromBinary_chars d) as Hch.
  pose proof (toBinary_fromBinary d) as Hback. pose proof (len_nonneg d).
  case_bool_decide as He.
  - subst d. change (len (@nil byte)) with 0 in *. destruct (fromBinary []) as [| x l]; [done |].
    rewrite len_cons in Hlen. pose proof (len_nonneg l). change ((4 * 0 + 2) / 3) with 0 in Hlen. lia.
  - assert (1 <= len d) by (destruct d; [done |]; rewrite len_cons; pose proof (len_nonneg d); lia).
    rewrite Hback. destruct (fromBinary d) as [| c f _] eqn:E using rev_ind.
    { change (len []) with 0 in Hlen. pose proof (Z.div_le_lower_bound (4 * len d + 2) 3 1). lia. }
    rewrite len_app in Hlen. change (len [c]) with 1 in Hlen.
    apply Forall_app in Hch as [_ Hc]. inversion Hc; subst.
    assert (0 <= padding (len d) <= 2 /\ len f + 1 + padding (len d) >= 4 /\ len f < 2 ^ 62) as (Hp & Hp4 & Hf).
    { unfold padding. Z.to_euclidean_division_equations. lia. }
    rewrite <- app_assoc. unfold equals. cbn [app].
    set (k := Z.to_nat (padding (len d))) in *.
    replace (u64 (len (f ++ c :: replicate k "="%byte) - 1)) with (len f + Z.of_nat k).
    + rewrite (countSuffix_padding f c k k); try lia; [| done |].
      * rewrite !bind_ok, len_app. unfold len at 1 2 3 4. rewrite length_replicate.
        rewrite (proj2 (Z.ltb_ge _ _)) by lia. f_equal.
        replace (Z.to_nat _) with (length d) by lia. by rewrite take_app_length.
      * unfold len. rewrite length_app. cbn [length]. rewrite length_replicate. unfold len in *. lia.
    + unfold len. rewrite length_app. cbn [length]. rewrite length_replicate, uwrap_small; unfold len in *; lia.
Qed.
End Facts.
End Base64Facts.

(* ------------------------------------------------------------------ *)
(** ** Instances that meet the laws *)

Module SampleBoostText.
Import Numbers JonString Base64.

(** Numbers: digits as they stand, a leading zero for octal. *)
#[export] Instance sampleCppInt : CppInt :=
  {| numberOfText w s :=
       match s with
       | "0"%byte :: r => if forallb isOctal r then Ok (uwrap w (digitsValue 8 r)) else Throw runtime_error
       | _ => Ok (uwrap w (digitsValue 10 s))
       end
   ; int64Of v := Z.min v (2 ^ 63 - 1) |}.

#[export] Instance sampleCppInt_law : CppIntLaw sampleCppInt.
Proof.
  split; cbn [numberOfText int64Of sampleCppInt].
  - intros w s _ Hne Hh. destruct s as [| c s]; [done |]. destruct c; done.
  - intros w s ->. done.
  - intros v Hv. lia.
Qed.

(** The alphabet of RFC 4648. *)
Definition alphabet : bytes :=
  list_byte_of_string "ABCDEFGHIJKLMNOPQRSTUVWXYZabcdefghijklmnopqrstuvwxyz0123456789+/".
Definition enc (z : Z) : byte := nth (Z.to_nat z) alphabet "A"%byte.
Definition dec (c : byte) : option Z :=
  if bool_decide (c = "="%byte) then Some 0
  else (fun p => Z.of_nat p.1) <$> list_find (fun x => x = c) alphabet.

Fixpoint encodeAll (d : bytes) : bytes :=
  match d with
  | a :: b :: c :: d =>
      enc (b2z a / 4) :: enc (b2z a mod 4 * 16 + b2z b / 16) ::
      enc (b2z b mod 16 * 4 + b2z c / 64) :: enc (b2z c mod 64) :: encodeAll d
  | [a; b] => [enc (b2z a / 4); enc (b2z a mod 4 * 16 + b2z b / 16); enc (b2z b mod 16 * 4)]
  | [a] => [enc (b2z a / 4); enc (b2z a mod 4 * 16)]
  | [] => []
  end.

Fixpoint decodeAll (s : bytes) : outcome base64_exn bytes :=
  match s with
  | w :: x :: y :: z :: s =>
      match dec w, dec x, dec y, dec z with
      | Some w, Some x, Some y, Some z =>
          r ← decodeAll s;
          Ok (z2b (w * 4 + x / 16) :: z2b (x mod 16 * 16 + y / 4) :: z2b (y mod 4 * 64 + z) :: r)
      | _, _, _, _ => Throw dataflow_exception
      end
  | [] => Ok []
  | _ => Throw dataflow_exception
  end.

#[export] Instance sampleBase64 : Base64Iterators := {| fromBinary := encodeAll; toBinary := decodeAll |}.

Lemma enc_dec (z : Z) : 0 <= z < 64 -> dec (enc z) = Some z /\ enc z ≠ "="%byte.
Proof.
  intros Hz.
  assert (forallb (fun n => bool_decide (dec (enc (Z.of_nat n)) = Some (Z.of_nat n)) &&
                            negb (bool_decide (enc (Z.of_nat n) = "="%byte))) (seq 0 64) = true) as Hall
    by (vm_compute; reflexivity).
  rewrite forallb_forall in Hall. specialize (Hall (Z.to_nat z)).
  rewrite Z2Nat.id in Hall by lia. rewrite andb_true_iff, negb_true_iff in Hall.
  rewrite bool_decide_eq_true, bool_decide_eq_false in Hall. apply Hall, in_seq. lia.
Qed.

(** Induction three bytes at a time. *)
Lemma three_bytes_ind (P : bytes -> Prop) :
  P [] -> (forall a, P [a]) -> (forall a b, P [a; b]) ->
  (forall a b c d, P d -> P (a :: b :: c :: d)) -> forall d, P d.
Proof.
  intros H0 H1 H2 H3 d. assert (P d /\ (forall a, P (a :: d)) /\ (forall a b, P (a :: b :: d))) as [Hd _];
    [| exact Hd]. induction d as [| x d (I0 & I1 & I2)]; repeat split; auto.
Qed.

Ltac six := Z.to_euclidean_division_equations; lia.

Lemma decode_group (w x y z a b c : byte) (w' x' y' z' : Z) (s : bytes) :
  dec w = Some w' -> dec x = Some x' -> dec y = Some y' -> dec z = Some z' ->
  b2z a = w' * 4 + x' / 16 -> b2z b = x' mod 16 * 16 + y' / 4 -> b2z c = y' mod 4 * 64 + z' ->
  decodeAll (w :: x :: y :: z :: s) = (r ← decodeAll s; Ok (a :: b :: c :: r)).
Proof.
  intros Hw Hx Hy Hz Ha Hb Hc. cbn [decodeAll]. rewrite Hw, Hx, Hy, Hz, <- Ha, <- Hb, <- Hc.
  by rewrite !z2b_b2z.
Qed.

Lemma dec_enc (z : Z) : 0 <= z < 64 -> dec (enc z) = Some z.
Proof. apply enc_dec. Qed.

#[export] Instance sampleBase64_law : Base64Law sampleBase64.
Proof.
  split; cbn [fromBinary toBinary sampleBase64]; intros d; induction d as [| a | a b | a b c d IH] using three_bytes_ind;
    try done; try (pose proof (b2z_range a)); try (pose proof (b2z_range b)); try (pose proof (b2z_range c)).
  1-3: cbn [encodeAll]; repeat constructor; try done; apply enc_dec; six.
  - cbn [encodeAll]. rewrite !len_cons, IH. six.
  - eapply (decode_group _ _ _ _ a Byte.x00 Byte.x00 _ _ 0 0 []); [(apply dec_enc; six).. | done | done | six | | done].
    change (b2z Byte.x00) with 0. six.
  - eapply (decode_group _ _ _ _ a b Byte.x00 _ _ _ 0 []); [(apply dec_enc; six).. | done | six | six |].
    change (b2z Byte.x00) with 0. six.
  - replace (padding (len (a :: b :: c :: d))) with (padding (len d))
      by (unfold padding; rewrite !len_cons; six).
    cbn [encodeAll app]. erewrite decode_group; [by rewrite IH | (apply dec_enc; six).. | six | six | six].
Qed.
End SampleBoostText.

(* ------------------------------------------------------------------ *)
(** ** The hypotheses can be met *)

Module JonWitnesses.
Import Numbers JonString Base64 SampleBoostText JonFacts Base64Facts.

Lemma number_text_roundtrip_witness : jsonStringToInt 32 (toJonString_unsigned 43981) = Ok 43981.
Proof. apply (number_text_roundtrip 32 43981). vm_compute. split; congruence. Defined.

Lemma byte_text_misread_witness : ~ jsonStringToInt 32 (toJonString_byte Byte.x10) = Ok 16.
Proof. rewrite (byte_text_misread 32 Byte.x10) by lia. vm_compute. discriminate. Defined.

Lemma other_texts_witness : jsonStringToInt 8 (list_byte_of_string "015224446") = Ok 3483942.
Proof.
  exact (proj2 (other_texts 8 (list_byte_of_string "15224446")) ltac:(vm_compute; reflexivity)).
Defined.

Lemma fixed_text_read_witness :
  jonStringToFixedBytes 4 (toJonString_fixed [Byte.x01; Byte.x02; Byte.x03; Byte.x04]) =
  Ok [Byte.x01; Byte.x02; Byte.x03; Byte.x04].
Proof.
  apply (fixed_text_read 4 [] [Byte.x01; Byte.x02; Byte.x03; Byte.x04]); [done | | done].
  vm_compute. by split.
Defined.

Lemma suffix_loop_bounds_witness :
  match countSuffix 5 (equals 3) (u64 (len (equals 3) - 1)) 0 with Undefined _ => True | _ => False end.
Proof.
  pose proof (suffix_loop_bounds (equals 3) ltac:(vm_compute; reflexivity)) as H.
  destruct (countSuffix _ _ _ _); [by destruct H | done | done].
Defined.

Lemma base64_roundtrip_witness :
  base64Encode (list_byte_of_string "block") = list_byte_of_string "YmxvY2s=" /\
  base64DecodeBytes (base64Encode (list_byte_of_string "block")) = Ok (list_byte_of_string "block").
Proof.
  split; [by vm_compute |].
  exact (base64_roundtrip (list_byte_of_string "block") ltac:(vm_compute; reflexivity)).
Defined.
End JonWitnesses.
