(* ===== verification/ScaleStream.v ===== *)
(** * SCALE streams

    Model of libcodec/scale: the encoder stream of ScaleEncoderStream.h and .cpp,
    the decoder stream of ScaleDecoderStream.h and .cpp, fixed-width integers
    (FixedWidthIntegerCodec.h), compact integers and the length functions of
    Common.h.  The types built on top of them are in ScaleTypes. *)

From Stdlib Require Import ZArith Lia List.
From Stdlib Require Import Strings.String Strings.Byte.
From stdpp Require Import base tactics decidable list option.
From S2P Require Import Prelude DataConvert Utilities.

(** The exceptions of the codec, and [std::length_error] of [std::vector]. *)
Inductive scale_exn : Type :=
| ScaleEncodeException
| ScaleDecodeException
| length_error.

#[export] Instance scale_exn_eq_dec : EqDecision scale_exn.
Proof. solve_decision. Defined.

(* ------------------------------------------------------------------ *)
(** ** The encoder stream *)

Module Encoder.

(** [m_stream] of [ScaleEncoderStream]. *)
Abbreviation stream := bytes.

Definition putByte (v : Z) (s : stream) : outcome scale_exn stream := Ok (s ++ [z2b v]).

(** [data()]. *)
Definition data (s : stream) : bytes := s.

(** [for (c : result) out << c]. *)
Fixpoint putBytes (bs : bytes) (s : stream) : outcome scale_exn stream :=
  match bs with
  | [] => Ok s
  | c :: bs' => s' ← putByte (b2z c) s; putBytes bs' s'
  end.

(** [encodeInteger] for an integer type of [size] bytes: the little-endian
    buffer of the value, byte by byte. *)
Definition encodeInteger (size : nat) (value : Z) (s : stream) : outcome scale_exn stream :=
  putBytes (le_bytes size (uwrap (8 * Z.of_nat size) value)) s.

(** [operator<<] for integral types of [size] bytes other than [bool]. *)
Definition encodeIntegral (size : nat) (v : Z) (s : stream) : outcome scale_exn stream :=
  if (size =? 1)%nat then putByte (u8 v) s else encodeInteger size v s.

Definition encodeBool (v : bool) (s : stream) : outcome scale_exn stream :=
  putByte (if v then 1 else 0) s.

Definition kMinUint16 : Z := Z.shiftl 1 6.
Definition kMinUint32 : Z := Z.shiftl 1 14.
Definition kMinBigInteger : Z := Z.shiftl 1 30.

(** The do-while loop of [countBytes], with fuel. *)
Fixpoint countLoop (fuel : nat) (counter v : Z) : outcome scale_exn Z :=
  match fuel with
  | O => Undefined OutOfFuel
  | S fuel' =>
      let counter := u64 (counter + 1) in
      let v := Z.shiftr v 8 in
      if bool_decide (v ≠ 0) then countLoop fuel' counter v else Ok counter
  end.

Definition countBytes (v : Z) : outcome scale_exn Z :=
  countLoop (S (Z.to_nat (Z.log2 v))) 0 v.

(** [compactLen] for an unsigned type. *)
Definition compactLen (val : Z) : outcome scale_exn Z :=
  if val <? kMinUint16 then Ok 1
  else if val <? kMinUint32 then Ok 2
  else if val <? kMinBigInteger then Ok 4
  else u32 <$> countBytes val.

Definition encodeFirstCategory (value : Z) (s : stream) : outcome scale_exn stream :=
  putByte (u8 (Z.shiftl value 2)) s.

Definition encodeSecondCategory (value : Z) (s : stream) : outcome scale_exn stream :=
  let v := u16 (Z.shiftl value 2) in
  let v := u16 (v + 1) in
  let minor_byte := Z.land v 255 in
  let v := Z.shiftr v 8 in
  let major_byte := Z.land v 255 in
  s' ← putByte minor_byte s; putByte major_byte s'.

Definition encodeThirdCategory (value : Z) (s : stream) : outcome scale_exn stream :=
  let v := u32 (u32 (Z.shiftl value 2) + 2) in
  encodeInteger 4 v s.

(** The loop that pushes the bytes of a big integer, lowest first. *)
Fixpoint bigBytes (n : nat) (v : Z) : bytes :=
  match n with
  | O => []
  | S n' => z2b (Z.land v 255) :: bigBytes n' (Z.shiftr v 8)
  end.

Definition encodeCompactInteger (value : Z) (s : stream) : outcome scale_exn stream :=
  if value <? 0 then Throw ScaleEncodeException
  else if value <? kMinUint16 then encodeFirstCategory (u8 value) s
  else if value <? kMinUint32 then encodeSecondCategory (u16 value) s
  else if value <? kMinBigInteger then encodeThirdCategory (u32 value) s
  else
    bigIntLength ← countBytes value;
    if 67 <? bigIntLength then Throw ScaleEncodeException
    else
      let header := u8 (u64 ((bigIntLength - 4) * 4 + 3)) in
      putBytes (z2b header :: bigBytes (Z.to_nat bigIntLength) value) s.

(** [operator<<(u256)]: 32 bytes, most significant first. *)
Definition encodeU256 (v : Z) (s : stream) : outcome scale_exn stream :=
  Ok (s ++ BigEndian.toBigEndian_u256 v).

Definition encodeS256 (v : Z) (s : stream) : outcome scale_exn stream :=
  encodeU256 (Numeric.s2u v) s.

(** The values of the enumeration [OptionalBool]. *)
Definition OptionalBool_NoneValue : Z := 0.
Definition OptionalBool_TrueValue : Z := 1.
Definition OptionalBool_FalseValue : Z := 2.

Definition encodeOptionalBool (v : option bool) (s : stream) : outcome scale_exn stream :=
  putByte
    match v with
    | None => OptionalBool_NoneValue
    | Some b => if negb b then OptionalBool_FalseValue else OptionalBool_TrueValue
    end s.

(** [encodeCollection], given how an element is encoded. *)
Fixpoint encodeElements {T} (enc : T -> stream -> outcome scale_exn stream) (l : list T)
    (s : stream) : outcome scale_exn stream :=
  match l with
  | [] => Ok s
  | x :: l' => s' ← enc x s; encodeElements enc l' s'
  end.

Definition encodeCollection {T} (enc : T -> stream -> outcome scale_exn stream)
    (size : Z) (l : list T) (s : stream) : outcome scale_exn stream :=
  s' ← encodeCompactInteger size s; encodeElements enc l s'.

End Encoder.

(* ------------------------------------------------------------------ *)
(** ** The decoder stream *)

Module Decoder.

(** [ScaleDecoderStream]: the span, the iterator (its offset in the span) and
    the index. *)
Record stream : Type := mkStream
  { m_span : bytes
  ; m_currentIterator : Z
  ; m_currentIndex : Z }.

Definition init (span : bytes) : stream := mkStream span 0 0.

Definition hasMore (n : Z) (s : stream) : bool :=
  u64 (m_currentIndex s + n) <=? len (m_span s).

(** [*m_currentIterator]: the iterator of a span aborts outside of it. *)
Definition deref (s : stream) : outcome scale_exn byte :=
  match (if 0 <=? m_currentIterator s then m_span s !! Z.to_nat (m_currentIterator s) else None) with
  | Some b => Ok b
  | None => Undefined OutOfRange
  end.

Definition nextByte (s : stream) : outcome scale_exn (byte * stream) :=
  if negb (hasMore 1 s) then Throw ScaleDecodeException
  else
    b ← deref s;
    Ok (b, mkStream (m_span s) (m_currentIterator s + 1) (u64 (m_currentIndex s + 1))).

(** Reads [n] bytes with [nextByte], as the loops over digits do. *)
Fixpoint nextBytes (n : nat) (s : stream) : outcome scale_exn (bytes * stream) :=
  match n with
  | O => Ok ([], s)
  | S n' =>
      '(b, s1) ← nextByte s;
      '(bs, s2) ← nextBytes n' s1;
      Ok (b :: bs, s2)
  end.

(** [assign(m_currentIterator, m_currentIterator + count)] and the two
    advances, as [operator>>] for byte vectors and for [u256] do; there is no
    check but the one of the iterators. *)
Definition takeRaw (count : Z) (s : stream) : outcome scale_exn (bytes * stream) :=
  let i := m_currentIterator s in
  if (0 <=? i) && (i + count <=? len (m_span s)) then
    Ok (take (Z.to_nat count) (drop (Z.to_nat i) (m_span s)),
        mkStream (m_span s) (i + count) (u64 (m_currentIndex s + count)))
  else Undefined OutOfRange.

Definition sign_bit (size : nat) : Z := 2 ^ (8 * Z.of_nat size - 1).
Definition multiplier (i : nat) : Z := 2 ^ (8 * Z.of_nat i).

(** [v += multiplier[i] * nextByte()] for [i] from [i0]. *)
Fixpoint sumBytes (i0 : nat) (v : Z) (bs : bytes) : Z :=
  match bs with
  | [] => v
  | b :: bs' => sumBytes (S i0) (u64 (v + u64 (multiplier i0 * b2z b))) bs'
  end.

(** [T sv = -static_cast<I>((~v) + 1)] for a signed type of [size] bytes: types
    narrower than [int] are promoted to it before the negation. *)
Definition negateSigned (size : nat) (v : Z) : outcome scale_exn Z :=
  let x := swrap (8 * Z.of_nat size) (u64 (u64 (Z.lnot v) + 1)) in
  let width := Z.max 32 (8 * Z.of_nat size) in
  if x =? - 2 ^ (width - 1) then Undefined SignedOverflow
  else Ok (swrap (8 * Z.of_nat size) (- x)).

(** [decodeInteger] for a type of [size] bytes, signed or not. *)
Definition decodeInteger (signed : bool) (size : nat) (s : stream) :
    outcome scale_exn (Z * stream) :=
  if negb (hasMore (Z.of_nat size) s) then Throw ScaleDecodeException
  else
    '(bs, s') ← nextBytes size s;
    let v := sumBytes 0 0 bs in
    if negb signed then Ok (uwrap (8 * Z.of_nat size) v, s')
    else if v <? sign_bit size then Ok (swrap (8 * Z.of_nat size) v, s')
    else sv ← negateSigned size v; Ok (sv, s').

(** [operator>>] for integral types of [size] bytes other than [bool]. *)
Definition decodeIntegral (signed : bool) (size : nat) (s : stream) :
    outcome scale_exn (Z * stream) :=
  if (size =? 1)%nat then
    '(b, s') ← nextByte s;
    Ok ((if signed then swrap 8 (b2z b) else b2z b), s')
  else decodeInteger signed size s.

Definition decodeBool (s : stream) : outcome scale_exn (bool * stream) :=
  '(b, s') ← nextByte s;
  if b2z b =? 0 then Ok (false, s')
  else if b2z b =? 1 then Ok (true, s')
  else Throw ScaleDecodeException.

Definition decodeOptionalBool (s : stream) : outcome scale_exn (option bool * stream) :=
  '(b, s') ← nextByte s;
  if b2z b =? Encoder.OptionalBool_NoneValue then Ok (None, s')
  else if b2z b =? Encoder.OptionalBool_FalseValue then Ok (Some false, s')
  else if b2z b =? Encoder.OptionalBool_TrueValue then Ok (Some true, s')
  else Throw ScaleDecodeException.

(** [number += nextByte() * multiplier; multiplier <<= 8] in [size_t]. *)
Fixpoint sumDigits (number mult : Z) (bs : bytes) : Z :=
  match bs with
  | [] => number
  | b :: bs' => sumDigits (u64 (number + u64 (b2z b * mult))) (u64 (Z.shiftl mult 8)) bs'
  end.

(** [value += nextByte() * multiplier; multiplier *= 256] without a bound. *)
Fixpoint sumBig (value mult : Z) (bs : bytes) : Z :=
  match bs with
  | [] => value
  | b :: bs' => sumBig (value + b2z b * mult) (mult * 256) bs'
  end.

Definition decodeCompactInteger (s : stream) : outcome scale_exn (Z * stream) :=
  '(first, s1) ← nextByte s;
  let first_byte := b2z first in
  let flag := Z.land first_byte 3 in
  if flag =? 0 then Ok (Z.shiftr first_byte 2, s1)
  else if flag =? 1 then
    '(second, s2) ← nextByte s1;
    Ok (Z.shiftr (u64 (Z.land first_byte 252 + u64 (b2z second * 256))) 2, s2)
  else if flag =? 2 then
    if negb (hasMore 3 s1) then Throw ScaleDecodeException
    else
      '(bs, s2) ← nextBytes 3 s1;
      Ok (Z.shiftr (sumDigits first_byte 256 bs) 2, s2)
  else
    let bytes_count := Z.shiftr first_byte 2 + 4 in
    if negb (hasMore bytes_count s1) then Throw ScaleDecodeException
    else
      '(bs, s2) ← nextBytes (Z.to_nat bytes_count) s1;
      Ok (sumBig 0 1 bs, s2).

Definition decodeU256 (s : stream) : outcome scale_exn (Z * stream) :=
  '(bs, s') ← takeRaw 32 s;
  Ok (BigEndian.fromBigEndian 256 bs, s').

Definition decodeS256 (s : stream) : outcome scale_exn (Z * stream) :=
  '(u, s') ← decodeU256 s; Ok (Numeric.u2s u, s').

End Decoder.

(* ------------------------------------------------------------------ *)
(** ** Facts on streams *)

Module StreamFacts.
Import Encoder Decoder.

(** A decoder that has consumed [pre] and has [post] left. *)
Definition stream_at (pre post : bytes) : stream := mkStream (pre ++ post) (len pre) (len pre).

(** Sizes of spans: half of the address space bounds every object. *)
Definition fits (bs : bytes) : Prop := len bs < 2 ^ 63.

(** An encoding step appends [bs], whatever the stream held. *)
Definition emits (enc : Encoder.stream -> outcome scale_exn Encoder.stream) (bs : bytes) : Prop :=
  forall s, enc s = Ok (s ++ bs).

(** A decoding step reads [bs] as [v] and leaves what follows. *)
Definition absorbs {T} (dec : stream -> outcome scale_exn (T * stream)) (bs : bytes) (v : T) : Prop :=
  forall pre post, fits (pre ++ bs ++ post) ->
    dec (stream_at pre (bs ++ post)) = Ok (v, stream_at (pre ++ bs) post).

Lemma hasMore_at (n : Z) (pre post : bytes) :
  fits (pre ++ post) -> 0 <= n < 2 ^ 63 ->
  hasMore n (stream_at pre post) = (n <=? len post).
Proof.
  unfold fits, hasMore, stream_at; simpl. intros Hf Hn. simpl_len.
  pose proof (len_nonneg pre). pose proof (len_nonneg post).
  rewrite uwrap_small by lia. lia.
Qed.

Lemma deref_at (pre post : bytes) (b : byte) : deref (stream_at pre (b :: post)) = Ok b.
Proof.
  unfold deref, stream_at; simpl. pose proof (len_nonneg pre).
  rewrite (proj2 (Z.leb_le _ _)) by done. unfold len. rewrite Nat2Z.id.
  by rewrite list_lookup_middle.
Qed.

Lemma stream_at_snoc (pre post : bytes) (b : byte) :
  fits (pre ++ b :: post) ->
  mkStream (pre ++ b :: post) (len pre + 1) (u64 (len pre + 1)) = stream_at (pre ++ [b]) post.
Proof.
  unfold fits, stream_at. intros Hf. simpl_len. pose proof (len_nonneg pre).
  pose proof (len_nonneg post). rewrite uwrap_small by lia.
  rewrite <- app_assoc. f_equal; lia.
Qed.

Lemma nextByte_at (pre post : bytes) (b : byte) :
  fits (pre ++ b :: post) ->
  nextByte (stream_at pre (b :: post)) = Ok (b, stream_at (pre ++ [b]) post).
Proof.
  intros Hf. unfold nextByte. rewrite hasMore_at by (done || lia). rewrite len_cons.
  pose proof (len_nonneg post). rewrite (proj2 (Z.leb_le _ _)) by lia. simpl negb. cbn iota.
  rewrite deref_at. simpl. by rewrite stream_at_snoc.
Qed.

Lemma nextByte_at_nil (pre : bytes) :
  fits pre -> nextByte (stream_at pre []) = Throw ScaleDecodeException.
Proof.
  intros Hf. unfold nextByte. rewrite hasMore_at by (rewrite ?app_nil_r; done || lia). done.
Qed.

Lemma nextBytes_at (bs pre post : bytes) :
  fits (pre ++ bs ++ post) ->
  nextBytes (length bs) (stream_at pre (bs ++ post)) = Ok (bs, stream_at (pre ++ bs) post).
Proof.
  revert pre; induction bs as [|b bs IH]; intros pre Hf; simpl.
  - by rewrite app_nil_r.
  - rewrite nextByte_at by done. simpl. replace (pre ++ b :: bs) with ((pre ++ [b]) ++ bs)
      by (by rewrite <- app_assoc).
    rewrite IH; [done|]. by rewrite <- app_assoc.
Qed.

Lemma takeRaw_at (bs pre post : bytes) :
  fits (pre ++ bs ++ post) ->
  takeRaw (len bs) (stream_at pre (bs ++ post)) = Ok (bs, stream_at (pre ++ bs) post).
Proof.
  unfold takeRaw, stream_at, fits; simpl. intros Hf. simpl_len.
  pose proof (len_nonneg pre). pose proof (len_nonneg bs). pose proof (len_nonneg post).
  rewrite (proj2 (Z.leb_le 0 _)), (proj2 (Z.leb_le _ (_ + _))) by lia. simpl.
  rewrite uwrap_small by lia. unfold len. rewrite !Nat2Z.id, drop_app_length, take_app_length.
  by rewrite <- app_assoc.
Qed.

Lemma putBytes_emits (bs : bytes) : emits (putBytes bs) bs.
Proof.
  induction bs as [|b bs IH]; intros s; simpl; [by rewrite app_nil_r|].
  unfold putByte. rewrite z2b_b2z. simpl. rewrite IH. by rewrite <- app_assoc.
Qed.

Lemma putByte_emits (v : Z) : emits (putByte v) [z2b v].
Proof. intros s. done. Qed.

Lemma emits_bind (f g : Encoder.stream -> outcome scale_exn Encoder.stream) (b1 b2 : bytes) :
  emits f b1 -> emits g b2 -> emits (fun s => s' ← f s; g s') (b1 ++ b2).
Proof. intros Hf Hg s. rewrite Hf. simpl. rewrite Hg. by rewrite app_assoc. Qed.

Lemma absorbs_bind {A B} (f : stream -> outcome scale_exn (A * stream))
    (g : A -> stream -> outcome scale_exn (B * stream)) (b1 b2 : bytes) (a : A) (b : B) :
  absorbs f b1 a -> absorbs (g a) b2 b ->
  absorbs (fun s => '(x, s1) ← f s; g x s1) (b1 ++ b2) b.
Proof.
  intros Hf Hg pre post Hfit. rewrite <- app_assoc in *. rewrite Hf by done. simpl.
  rewrite Hg by (by rewrite <- app_assoc). by rewrite app_assoc.
Qed.

Lemma absorbs_nextByte (b : byte) : absorbs nextByte [b] b.
Proof. intros pre post Hf. by apply nextByte_at. Qed.

Lemma absorbs_ret {A} (a : A) : absorbs (fun s => Ok (a, s)) [] a.
Proof. intros pre post Hf. by rewrite app_nil_r. Qed.

Lemma absorbs_map {A B} (f : stream -> outcome scale_exn (A * stream)) (h : A -> B) bs a :
  absorbs f bs a -> absorbs (fun s => '(x, s1) ← f s; Ok (h x, s1)) bs (h a).
Proof.
  intros Hf. rewrite <- (app_nil_r bs). apply absorbs_bind with (a := a); [done|].
  apply absorbs_ret.
Qed.

(** ** Sums of digits *)

Lemma sumBytes_le_value (bs : bytes) (i0 : nat) (v : Z) :
  (i0 + length bs <= 8)%nat -> 0 <= v < 256 ^ Z.of_nat i0 ->
  sumBytes i0 v bs = v + 256 ^ Z.of_nat i0 * le_value bs.
Proof.
  revert i0 v; induction bs as [|b bs IH]; intros i0 v Hl Hv; simpl in *; [lia|].
  unfold multiplier. rewrite <- pow256_pow2 by lia. pose proof (b2z_range b).
  assert (256 ^ Z.of_nat (S i0) <= 2 ^ 64) as Hp.
  { change (2 ^ 64) with (256 ^ 8). apply Z.pow_le_mono_r; lia. }
  pose proof (pow256_succ i0) as Hs. pose proof (pow256_pos i0).
  set (P := 256 ^ Z.of_nat i0) in *. rewrite Hs in *.
  assert (0 <= P * b2z b <= P * 255) by nia.
  rewrite (uwrap_small 64 (P * b2z b)), uwrap_small by lia.
  rewrite IH by (rewrite ?Hs; lia). rewrite Hs. lia.
Qed.

Lemma sumBytes_le (bs : bytes) : (length bs <= 8)%nat -> sumBytes 0 0 bs = le_value bs.
Proof.
  intros. rewrite (sumBytes_le_value bs 0 0) by (simpl; lia). simpl Z.of_nat.
  rewrite Z.pow_0_r. lia.
Qed.

Lemma sumBig_le_value (bs : bytes) (v m : Z) : sumBig v m bs = v + m * le_value bs.
Proof. revert v m; induction bs as [|b bs IH]; intros; simpl; [lia|]. rewrite IH. lia. Qed.

Lemma sumDigits3 (bs : bytes) (b0 : Z) :
  length bs = 3%nat -> 0 <= b0 < 256 -> sumDigits b0 256 bs = b0 + 256 * le_value bs.
Proof.
  intros Hl Hb. destruct bs as [|x [|y [|z [|? ?]]]]; try done.
  pose proof (b2z_range x). pose proof (b2z_range y). pose proof (b2z_range z).
  cbn [sumDigits le_value]. rewrite !Z.shiftl_mul_pow2 by lia.
  rewrite (uwrap_small 64 (256 * 2 ^ 8)) by lia.
  rewrite (uwrap_small 64 (256 * 2 ^ 8 * 2 ^ 8)) by lia.
  rewrite (uwrap_small 64 (b2z x * 256)), (uwrap_small 64 (b2z y * _)),
    (uwrap_small 64 (b2z z * _)) by lia.
  rewrite (uwrap_small 64 (b0 + _)), (uwrap_small 64 (b0 + _ + _)), uwrap_small by lia. lia.
Qed.

Lemma bigBytes_le_bytes (n : nat) (v : Z) : bigBytes n v = le_bytes n v.
Proof.
  revert v; induction n as [|n IH]; intros v; [done|]. simpl.
  rewrite IH, Z.shiftr_div_pow2 by lia. f_equal.
  change 255 with (Z.ones 8). rewrite Z.land_ones by lia. apply z2b_mod.
Qed.

(** ** Compact integers *)

Lemma countLoop_log2 (fuel : nat) (c v : Z) :
  0 <= v -> Z.log2 v < Z.of_nat fuel -> 0 <= c -> c + Z.of_nat fuel < 2 ^ 64 ->
  countLoop fuel c v = Ok (c + Z.log2 v / 8 + 1).
Proof.
  revert c v; induction fuel as [|fuel IH]; intros c v Hv Hf Hc Hcf.
  - pose proof (Z.log2_nonneg v). lia.
  - cbn [countLoop]. rewrite (uwrap_small 64 (c + 1)) by lia.
    assert (0 <= Z.shiftr v 8) by (by apply Z.shiftr_nonneg).
    assert (Z.shiftr v 8 = v / 256) as E by (by rewrite Z.shiftr_div_pow2).
    case_bool_decide as Hz.
    + assert (256 <= v) by (apply Z.nlt_ge; intros Hlt; apply Hz; rewrite E, Z.div_small; lia).
      pose proof (Z.log2_le_mono 256 v) as Hm. change (Z.log2 256) with 8 in Hm.
      rewrite IH by (rewrite ?Z.log2_shiftr by lia; lia).
      rewrite Z.log2_shiftr, Z.max_r by lia. replace (Z.log2 v) with (Z.log2 v - 8 + 1 * 8) at 2 by lia.
      rewrite Z.div_add by lia. f_equal. lia.
    + assert (v < 256).
      { apply Z.nle_gt. intros Hge. rewrite E in Hz.
        pose proof (Z.div_str_pos v 256). lia. }
      pose proof (Z.log2_nonneg v). pose proof (Z.log2_le_mono v 255) as Hm.
      change (Z.log2 255) with 7 in Hm. rewrite Z.div_small by lia. f_equal. lia.
Qed.

Lemma countBytes_log2 (v : Z) :
  0 <= v -> Z.log2 v < 2 ^ 63 -> countBytes v = Ok (Z.log2 v / 8 + 1).
Proof.
  intros Hv Hl. unfold countBytes. pose proof (Z.log2_nonneg v).
  rewrite countLoop_log2 by lia. done.
Qed.

Lemma log2_lt_pow256 (v : Z) (n : Z) :
  0 < v -> 0 <= n -> (v < 256 ^ n <-> Z.log2 v / 8 + 1 <= n).
Proof.
  intros Hv Hn. rewrite pow256_pow2 by done. rewrite Z.log2_lt_pow2 by done.
  pose proof (Z.div_mod (Z.log2 v) 8 ltac:(lia)). pose proof (Z.mod_pos_bound (Z.log2 v) 8 ltac:(lia)).
  lia.
Qed.

(** What the compact encoding of a natural number is. *)
Definition compact_bytes (v : Z) : bytes :=
  if v <? 2 ^ 6 then le_bytes 1 (4 * v)
  else if v <? 2 ^ 14 then le_bytes 2 (4 * v + 1)
  else if v <? 2 ^ 30 then le_bytes 4 (4 * v + 2)
  else
    let n := Z.log2 v / 8 + 1 in
    z2b (4 * (n - 4) + 3) :: le_bytes (Z.to_nat n) v.

Lemma encodeInteger_emits (size : nat) (v : Z) :
  emits (encodeInteger size v) (le_bytes size v).
Proof.
  unfold encodeInteger, uwrap. rewrite <- pow256_pow2, le_bytes_mod by lia. apply putBytes_emits.
Qed.

Lemma big_length_range (v : Z) :
  2 ^ 30 <= v -> v < 256 ^ 67 -> 4 <= Z.log2 v / 8 + 1 <= 67.
Proof.
  intros H1 H2. apply log2_lt_pow256 in H2; [|lia..]. split; [|done].
  pose proof (Z.log2_le_mono _ _ H1) as Hm. rewrite Z.log2_pow2 in Hm by lia.
  pose proof (Z.div_le_mono 30 (Z.log2 v) 8 ltac:(lia) Hm). change (30 / 8) with 3 in *. lia.
Qed.

Lemma encodeCompact_emits (v : Z) :
  0 <= v < 256 ^ 67 -> emits (encodeCompactInteger v) (compact_bytes v).
Proof.
  intros Hv. unfold encodeCompactInteger, compact_bytes.
  change kMinUint16 with (2 ^ 6). change kMinUint32 with (2 ^ 14). change kMinBigInteger with (2 ^ 30).
  rewrite (proj2 (Z.ltb_ge v 0)) by lia.
  destruct (Z.ltb_spec v (2 ^ 6)).
  { intros s. unfold encodeFirstCategory. rewrite Z.shiftl_mul_pow2 by lia.
    rewrite (uwrap_small 8 v), uwrap_small by lia.
    unfold putByte. simpl. do 3 f_equal. f_equal. lia. }
  destruct (Z.ltb_spec v (2 ^ 14)).
  { intros s. unfold encodeSecondCategory. rewrite Z.shiftl_mul_pow2 by lia.
    rewrite (uwrap_small 16 v), (uwrap_small 16 (v * 2 ^ 2)), uwrap_small by lia.
    rewrite Z.shiftr_div_pow2 by lia. change 255 with (Z.ones 8). rewrite !Z.land_ones by lia.
    unfold putByte. simpl. rewrite <- app_assoc. simpl. change (2 ^ 8) with 256.
    rewrite !z2b_mod. by replace (v * 2 ^ 2 + 1) with (4 * v + 1) by lia. }
  destruct (Z.ltb_spec v (2 ^ 30)).
  { unfold encodeThirdCategory. rewrite Z.shiftl_mul_pow2 by lia.
    rewrite (uwrap_small 32 v), (uwrap_small 32 (v * 2 ^ 2)), uwrap_small by lia.
    replace (v * 2 ^ 2 + 2) with (4 * v + 2) by lia. apply encodeInteger_emits. }
  pose proof (big_length_range v ltac:(lia) ltac:(lia)) as Hn. set (n := Z.log2 v / 8 + 1) in *.
  assert (Z.log2 v < 2 ^ 63).
  { pose proof (Z.div_mod (Z.log2 v) 8 ltac:(lia)).
    pose proof (Z.mod_pos_bound (Z.log2 v) 8 ltac:(lia)). lia. }
  intros s. rewrite countBytes_log2 by lia. fold n. cbn [mbind outcome_bind].
  rewrite (proj2 (Z.ltb_ge 67 n)) by lia. rewrite bigBytes_le_bytes.
  rewrite (uwrap_small 64) by lia. rewrite (uwrap_small 8) by lia.
  replace ((n - 4) * 4 + 3) with (4 * (n - 4) + 3) by lia. apply putBytes_emits.
Qed.

Lemma land_3 (b : byte) : Z.land (b2z b) 3 = b2z b mod 4.
Proof. by destruct b. Qed.
Lemma land_252 (b : byte) : Z.land (b2z b) 252 = b2z b - b2z b mod 4.
Proof. by destruct b. Qed.

Lemma mod_256_4 (x : Z) : (x mod 256) mod 4 = x mod 4.
Proof. apply Z.mod_mod_divide. by exists 64. Qed.

(** Reading the first byte of a compact integer. *)
Lemma decodeCompact_first (b : byte) (rest : bytes) (v : Z) (pre post : bytes) :
  fits (pre ++ (b :: rest) ++ post) ->
  let first_byte := b2z b in
  let s1 := stream_at (pre ++ [b]) (rest ++ post) in
  decodeCompactInteger (stream_at pre ((b :: rest) ++ post)) =
  (let flag := first_byte mod 4 in
   if flag =? 0 then Ok (Z.shiftr first_byte 2, s1)
   else if flag =? 1 then
    '(second, s2) ← nextByte s1;
    Ok (Z.shiftr (u64 (Z.land first_byte 252 + u64 (b2z second * 256))) 2, s2)
   else if flag =? 2 then
    if negb (hasMore 3 s1) then Throw ScaleDecodeException
    else
      '(bs, s2) ← nextBytes 3 s1;
      Ok (Z.shiftr (sumDigits first_byte 256 bs) 2, s2)
   else
    let bytes_count := Z.shiftr first_byte 2 + 4 in
    if negb (hasMore bytes_count s1) then Throw ScaleDecodeException
    else
      '(bs, s2) ← nextBytes (Z.to_nat bytes_count) s1;
      Ok (sumBig 0 1 bs, s2)).
Proof.
  intros Hf first_byte s1. unfold decodeCompactInteger. simpl app.
  rewrite nextByte_at by done. cbn [mbind outcome_bind]. by rewrite land_3.
Qed.

Lemma decodeCompact_one (v : Z) :
  0 <= v < 2 ^ 6 ->
  absorbs decodeCompactInteger (le_bytes 1 (4 * v)) v.
Proof.
  intros Hv pre post. cbn [le_bytes]. intros Hf. rewrite decodeCompact_first by done. cbv zeta.
  rewrite b2z_z2b, mod_256_4, Z.mul_comm, Z.mod_mul by lia. simpl (_ =? _). cbv iota.
  rewrite Z.shiftr_div_pow2, Z.mod_small by lia. change (2 ^ 2) with 4.
  by rewrite Z.div_mul by lia.
Qed.

Lemma decodeCompact_two (v : Z) :
  2 ^ 6 <= v < 2 ^ 14 ->
  absorbs decodeCompactInteger (le_bytes 2 (4 * v + 1)) v.
Proof.
  intros Hv pre post. cbn [le_bytes]. intros Hf. rewrite decodeCompact_first by done. cbv zeta.
  rewrite b2z_z2b, mod_256_4. replace ((4 * v + 1) mod 4) with 1
    by (rewrite Z.add_comm, Z.mul_comm, Z.mod_add; done). simpl (_ =? _). cbv iota.
  change ([z2b ((4 * v + 1) / 256)] ++ post) with (z2b ((4 * v + 1) / 256) :: post).
  rewrite nextByte_at by (rewrite <- app_assoc; exact Hf). cbn [mbind outcome_bind].
  rewrite <- (b2z_z2b (4 * v + 1)), land_252, !b2z_z2b, mod_256_4.
  replace ((4 * v + 1) mod 4) with 1 by (rewrite Z.add_comm, Z.mul_comm, Z.mod_add; done).
  assert ((4 * v + 1) / 256 < 256) by (apply Z.div_lt_upper_bound; lia).
  assert (0 <= (4 * v + 1) / 256) by (apply Z.div_pos; lia).
  rewrite (Z.mod_small ((4 * v + 1) / 256)) by lia.
  pose proof (Z.div_mod (4 * v + 1) 256 ltac:(lia)).
  pose proof (Z.mod_pos_bound (4 * v + 1) 256 ltac:(lia)).
  rewrite (uwrap_small 64 (_ * 256)) by lia.
  replace ((4 * v + 1) mod 256 - 1 + (4 * v + 1) / 256 * 256) with (v * 4) by lia.
  rewrite uwrap_small, Z.shiftr_div_pow2 by lia. change (2 ^ 2) with 4.
  rewrite Z.div_mul by lia. by rewrite <- app_assoc.
Qed.

Lemma decodeCompact_four (v : Z) :
  2 ^ 14 <= v < 2 ^ 30 ->
  absorbs decodeCompactInteger (le_bytes 4 (4 * v + 2)) v.
Proof.
  intros Hv pre post. change (le_bytes 4 (4 * v + 2)) with (z2b (4 * v + 2) :: le_bytes 3 ((4 * v + 2) / 256)).
  intros Hf. rewrite decodeCompact_first by done. cbv zeta.
  pose proof (b2z_z2b (4 * v + 2)) as Eb.
  replace (b2z (z2b (4 * v + 2)) mod 4) with 2
    by (rewrite Eb, mod_256_4, Z.add_comm, Z.mul_comm, Z.mod_add; done).
  simpl (_ =? _). cbv iota. set (r := le_bytes 3 _) in *.
  assert (length r = 3%nat) as Hr by apply length_le_bytes.
  rewrite hasMore_at by (try lia; by rewrite <- app_assoc). simpl_len.
  pose proof (len_nonneg post). replace (3 <=? len r + len post) with true
    by (symmetry; apply Z.leb_le; unfold len at 1; lia). simpl negb. cbv iota.
  rewrite <- Hr, nextBytes_at by (by rewrite <- app_assoc). cbn [mbind outcome_bind].
  rewrite sumDigits3 by (try done; apply b2z_range). unfold r. rewrite le_value_le_bytes, Eb.
  rewrite (Z.mod_small ((4 * v + 2) / 256)).
  2:{ split; [apply Z.div_pos; lia|]. apply Z.div_lt_upper_bound; [lia|]. simpl Z.of_nat. lia. }
  replace (_ mod 256 + 256 * _) with (4 * v + 2)
    by (pose proof (Z.div_mod (4 * v + 2) 256 ltac:(lia)); lia).
  rewrite Z.shiftr_div_pow2 by lia. change (2 ^ 2) with 4.
  replace ((4 * v + 2) / 4) with v by (apply Z.div_unique with (r := 2); lia).
  by rewrite <- app_assoc.
Qed.

Lemma decodeCompact_big (v : Z) :
  2 ^ 30 <= v < 256 ^ 67 ->
  absorbs decodeCompactInteger (z2b (4 * (Z.log2 v / 8 + 1 - 4) + 3) :: le_bytes (Z.to_nat (Z.log2 v / 8 + 1)) v) v.
Proof.
  intros Hv pre post. pose proof (big_length_range v ltac:(lia) ltac:(lia)) as Hn. set (n := Z.log2 v / 8 + 1) in *.
  cbv zeta. intros Hf. rewrite decodeCompact_first by done. cbv zeta.
  rewrite b2z_z2b, (Z.mod_small (_ + 3)) by lia.
  replace ((4 * (n - 4) + 3) mod 4) with 3 by (rewrite Z.add_comm, Z.mul_comm, Z.mod_add; done).
  simpl (_ =? _). cbv iota. rewrite Z.shiftr_div_pow2 by lia. change (2 ^ 2) with 4.
  replace ((4 * (n - 4) + 3) / 4 + 4) with n
    by (replace ((4 * (n - 4) + 3) / 4) with (n - 4); [lia|apply Z.div_unique with (r := 3); lia]).
  set (r := le_bytes (Z.to_nat n) v) in *.
  assert (length r = Z.to_nat n) as Hr by apply length_le_bytes.
  rewrite hasMore_at by (try lia; by rewrite <- app_assoc). simpl_len.
  pose proof (len_nonneg post). replace (n <=? len r + len post) with true
    by (symmetry; apply Z.leb_le; unfold len at 1; lia). simpl negb. cbv iota.
  rewrite <- Hr, nextBytes_at by (by rewrite <- app_assoc). cbn [mbind outcome_bind].
  rewrite sumBig_le_value. unfold r. rewrite le_value_le_bytes, Z2Nat.id by lia.
  rewrite Z.mod_small; [|split; [lia|]; apply log2_lt_pow256; lia].
  rewrite <- app_assoc. do 2 f_equal. lia.
Qed.

Lemma decodeCompact_absorbs (v : Z) :
  0 <= v < 256 ^ 67 -> absorbs decodeCompactInteger (compact_bytes v) v.
Proof.
  intros Hv. unfold compact_bytes.
  destruct (Z.ltb_spec v (2 ^ 6)); [apply decodeCompact_one; lia|].
  destruct (Z.ltb_spec v (2 ^ 14)); [apply decodeCompact_two; lia|].
  destruct (Z.ltb_spec v (2 ^ 30)); [apply decodeCompact_four; lia|apply decodeCompact_big; lia].
Qed.

(** ** Fixed-width integers *)

(** The values of an integral type of [size] bytes. *)
Definition in_type (signed : bool) (size : nat) (v : Z) : Prop :=
  let w := 8 * Z.of_nat size in
  if signed then - 2 ^ (w - 1) <= v < 2 ^ (w - 1) else 0 <= v < 2 ^ w.

Lemma swrap_mod (w a b : Z) : 0 < w -> a mod 2 ^ w = b mod 2 ^ w -> swrap w a = swrap w b.
Proof. intros Hw H. rewrite <- (swrap_uwrap w a), <- (swrap_uwrap w b) by done. unfold uwrap. by rewrite H. Qed.

Lemma mod_pow2_64 (w z : Z) : 0 <= w <= 64 -> u64 z mod 2 ^ w = z mod 2 ^ w.
Proof.
  intros Hw. apply Z.mod_mod_divide. exists (2 ^ (64 - w)). rewrite <- Z.pow_add_r by lia.
  f_equal. lia.
Qed.

(** The two's complement read of a negative value, up to its sign change. *)
Lemma negate_word (w v : Z) :
  0 < w <= 64 -> - 2 ^ (w - 1) <= v < 0 ->
  swrap w (u64 (u64 (Z.lnot (v mod 2 ^ w)) + 1)) = swrap w (- v).
Proof.
  intros Hw Hv. apply swrap_mod; [lia|]. rewrite mod_pow2_64 by lia.
  pose proof (pow2_pos w). rewrite <- Z.add_mod_idemp_l, mod_pow2_64, Z.add_mod_idemp_l by lia.
  unfold Z.lnot. replace (Z.pred (- (v mod 2 ^ w)) + 1) with (0 - v mod 2 ^ w) by lia.
  rewrite Zminus_mod_idemp_r. by rewrite Z.sub_0_l.
Qed.

Lemma pow2_half (w : Z) : 0 < w -> 2 ^ w = 2 * 2 ^ (w - 1).
Proof. intros. rewrite <- Z.pow_succ_r by lia. f_equal. lia. Qed.

Lemma swrap_half (w : Z) : 0 < w -> swrap w (2 ^ (w - 1)) = - 2 ^ (w - 1).
Proof.
  intros. unfold swrap. rewrite (pow2_half w) by done. pose proof (pow2_pos (w - 1)).
  replace (2 ^ (w - 1) + 2 ^ (w - 1)) with (1 * (2 * 2 ^ (w - 1))) by lia.
  rewrite Z.mod_mul by lia. lia.
Qed.

(** The minimum of the signed types as wide as [int] or wider. *)
Definition is_min (signed : bool) (size : nat) (v : Z) : bool :=
  signed && (4 <=? size)%nat && (v =? - 2 ^ (8 * Z.of_nat size - 1)).

Lemma mod_neg (w v : Z) : 0 < w -> - 2 ^ (w - 1) <= v < 0 -> v mod 2 ^ w = v + 2 ^ w.
Proof.
  intros Hw Hv. pose proof (pow2_half w Hw). symmetry.
  apply Z.mod_unique with (q := -1); lia.
Qed.

Lemma negateSigned_spec (size : nat) (v : Z) :
  (0 < size <= 8)%nat -> - 2 ^ (8 * Z.of_nat size - 1) <= v < 0 ->
  negateSigned size (v mod 2 ^ (8 * Z.of_nat size)) =
    if is_min true size v then Undefined SignedOverflow else Ok v.
Proof.
  intros Hs Hv. set (w := 8 * Z.of_nat size) in *. unfold negateSigned, is_min. fold w.
  rewrite negate_word by lia. rewrite andb_true_l.
  assert (forall a b, 0 <= a < b -> 2 ^ a < 2 ^ b) as Hpow
    by (intros; apply Z.pow_lt_mono_r; lia).
  pose proof (pow2_pos (w - 1)). pose proof (pow2_pos (Z.max 32 w - 1)).
  destruct (Z.eqb_spec v (- 2 ^ (w - 1))) as [->|Hne].
  - rewrite Z.opp_involutive, swrap_half by lia. destruct (Nat.leb_spec 4 size); simpl.
    + rewrite Z.max_r, Z.eqb_refl by lia. done.
    + rewrite (proj2 (Z.eqb_neq _ _)).
      * by rewrite Z.opp_involutive, swrap_half by lia.
      * pose proof (Hpow (w - 1) (Z.max 32 w - 1)). lia.
  - rewrite andb_false_r, (swrap_small w (- v)) by lia.
    rewrite (proj2 (Z.eqb_neq _ _)) by lia. rewrite swrap_small by lia. f_equal. lia.
Qed.

Lemma decodeInteger_at (signed : bool) (size : nat) (v : Z) (pre post : bytes) :
  (0 < size <= 8)%nat -> in_type signed size v -> fits (pre ++ le_bytes size v ++ post) ->
  decodeInteger signed size (stream_at pre (le_bytes size v ++ post)) =
    if is_min signed size v then Undefined SignedOverflow
    else Ok (v, stream_at (pre ++ le_bytes size v) post).
Proof.
  intros Hs Ht Hf. unfold decodeInteger. rewrite hasMore_at by (done || lia).
  pose proof (length_le_bytes size v) as Hl. simpl_len. pose proof (len_nonneg post).
  replace (Z.of_nat size <=? _) with true by (symmetry; apply Z.leb_le; unfold len at 1; lia).
  simpl negb. cbv iota. rewrite <- Hl at 1. rewrite nextBytes_at by done. cbn [mbind outcome_bind].
  rewrite sumBytes_le, le_value_le_bytes, pow256_pow2 by lia.
  set (w := 8 * Z.of_nat size) in *. unfold in_type in Ht. fold w in Ht. unfold sign_bit. fold w.
  pose proof (pow2_half w ltac:(lia)). pose proof (pow2_pos (w - 1)).
  destruct signed; simpl negb; cbv iota.
  - destruct (decide (v < 0)) as [Hneg|Hpos].
    + rewrite (proj2 (Z.ltb_ge _ _)) by (rewrite mod_neg; lia).
      rewrite negateSigned_spec by (fold w; lia). by case_match.
    + rewrite Z.mod_small by lia. rewrite (proj2 (Z.ltb_lt _ _)), swrap_small by lia.
      unfold is_min. fold w. rewrite (proj2 (Z.eqb_neq v _)), andb_false_r by lia. done.
  - unfold uwrap. by rewrite Z.mod_mod, Z.mod_small by lia.
Qed.

Lemma length_compact_bytes (v : Z) :
  0 <= v ->
  len (compact_bytes v) =
    if v <? 2 ^ 6 then 1 else if v <? 2 ^ 14 then 2 else if v <? 2 ^ 30 then 4
    else Z.log2 v / 8 + 2.
Proof.
  intros Hv. unfold compact_bytes, len. pose proof (Z.log2_nonneg v).
  pose proof (Z.div_pos (Z.log2 v) 8). repeat case_match; simpl length;
    rewrite ?length_le_bytes; lia.
Qed.

(** Every natural number below [256^67] has a compact encoding, of one, two or
    four bytes or of a header and the bytes of the number, that the decoder reads
    back with whatever follows it left in the stream; negative numbers and larger
    ones are refused with an exception. *)
Theorem compact_roundtrip (v : Z) (s : Encoder.stream) (Hb : Z.log2 v < 2 ^ 63) :
  if (0 <=? v) && (v <? 256 ^ 67) then
    encodeCompactInteger v s = Ok (s ++ compact_bytes v) /\
    forall pre post, fits (pre ++ compact_bytes v ++ post) ->
      decodeCompactInteger (stream_at pre (compact_bytes v ++ post)) =
        Ok (v, stream_at (pre ++ compact_bytes v) post)
  else encodeCompactInteger v s = Throw ScaleEncodeException.
Proof.
  destruct (Z.leb_spec 0 v) as [H0|H0]; simpl.
  - destruct (Z.ltb_spec v (256 ^ 67)) as [Hv|Hv].
    + split; [by apply encodeCompact_emits|]. intros. by apply decodeCompact_absorbs.
    + assert (256 ^ 67 > 2 ^ 30) by done. unfold encodeCompactInteger.
      change kMinUint16 with (2 ^ 6). change kMinUint32 with (2 ^ 14).
      change kMinBigInteger with (2 ^ 30).
      rewrite !(proj2 (Z.ltb_ge v _)) by lia. rewrite countBytes_log2 by lia. simpl.
      rewrite (proj2 (Z.ltb_lt 67 _)); [done|]. apply Z.nle_gt. intros Hle.
      apply log2_lt_pow256 in Hle; lia.
  - unfold encodeCompactInteger. by rewrite (proj2 (Z.ltb_lt v 0)) by lia.
Qed.

Lemma compact_roundtrip_witness :
  encodeCompactInteger 69 [] = Ok ([] ++ compact_bytes 69) /\
    forall pre post, fits (pre ++ compact_bytes 69 ++ post) ->
      decodeCompactInteger (stream_at pre (compact_bytes 69 ++ post)) =
        Ok (69, stream_at (pre ++ compact_bytes 69) post).
Proof. apply (compact_roundtrip 69 []). by vm_compute. Defined.

(** [compactLen] is the length of the compact encoding for values below [2^30];
    from there on it leaves out the header byte. *)
Theorem compactLen_misses_header (v : Z) (Hv : 0 <= v < 2 ^ 64) :
  compactLen v = Ok (if v <? 2 ^ 30 then len (compact_bytes v) else len (compact_bytes v) - 1).
Proof.
  rewrite length_compact_bytes by lia. unfold compactLen.
  change kMinUint16 with (2 ^ 6). change kMinUint32 with (2 ^ 14). change kMinBigInteger with (2 ^ 30).
  destruct (Z.ltb_spec v (2 ^ 6)); [by rewrite (proj2 (Z.ltb_lt v (2 ^ 30))) by lia|].
  destruct (Z.ltb_spec v (2 ^ 14)); [by rewrite (proj2 (Z.ltb_lt v (2 ^ 30))) by lia|].
  destruct (Z.ltb_spec v (2 ^ 30)); [done|].
  assert (Z.log2 v < 64) by (apply Z.log2_lt_pow2; lia). pose proof (Z.log2_nonneg v).
  rewrite countBytes_log2 by lia. simpl.
  assert (0 <= Z.log2 v / 8 < 8) by (split; [apply Z.div_pos|apply Z.div_lt_upper_bound]; lia).
  rewrite uwrap_small by lia. f_equal. lia.
Qed.

Lemma compactLen_misses_header_witness : compactLen (2 ^ 30) = Ok 4.
Proof. by apply (compactLen_misses_header (2 ^ 30)). Defined.

(** A fixed-width integer is read back from its little-endian bytes, except the
    least value of a signed type of 32 or 64 bits: there the decoder negates
    that least value, a signed overflow. *)
Theorem integer_roundtrip (signed : bool) (size : nat) (v : Z) (s : Encoder.stream)
    (pre post : bytes) :
  (0 < size <= 8)%nat -> in_type signed size v -> fits (pre ++ le_bytes size v ++ post) ->
  encodeInteger size v s = Ok (s ++ le_bytes size v) /\
  decodeInteger signed size (stream_at pre (le_bytes size v ++ post)) =
    if is_min signed size v then Undefined SignedOverflow
    else Ok (v, stream_at (pre ++ le_bytes size v) post).
Proof. intros. split; [apply encodeInteger_emits|by apply decodeInteger_at]. Qed.

Lemma integer_roundtrip_witness :
  encodeInteger 4 (-5) [] = Ok ([] ++ le_bytes 4 (-5)) /\
  decodeInteger true 4 (stream_at [] (le_bytes 4 (-5) ++ [])) =
    Ok (-5, stream_at ([] ++ le_bytes 4 (-5)) []).
Proof. apply (integer_roundtrip true 4 (-5) [] [] []); [lia|by vm_compute|by vm_compute]. Defined.

End StreamFacts.
