(* ===== verification/ScaleTypes.v ===== *)
(** * SCALE codecs of C++ types

    Model of the [operator<<] and [operator>>] templates of
    libcodec/scale/ScaleEncoderStream.h and ScaleDecoderStream.h and of [encode]
    and [decode] of Scale.h: one instance of [ScaleEncode] and [ScaleDecode] per
    overload.  [ScaleLaw] states what an instance promises (an encoding that the
    decoder reads back, whatever follows) and [ScaleSafe] that its decoder is
    defined on every input; the instances for compound types are proved against
    these interfaces of their components. *)

From Stdlib Require Import ZArith Lia List Sorted.
From Stdlib Require Import Strings.String Strings.Byte.
From stdpp Require Import base tactics decidable list option.
From S2P Require Import Prelude DataConvert Utilities FixedBytes ScaleStream.
Import StreamFacts.

#[local] Unset Program Cases.

(* ------------------------------------------------------------------ *)
(** ** Interfaces *)

Class ScaleEncode (T : Type) : Type :=
  encodeTo : T -> Encoder.stream -> outcome scale_exn Encoder.stream.

(** [fromRaw] is present when [sizeof(T) == 1]: what an element is when its
    byte is copied without decoding. *)
Class ScaleDecode (T : Type) : Type :=
  { fromRaw : option (byte -> T)
  ; decodeFrom : Decoder.stream -> outcome scale_exn (T * Decoder.stream) }.

#[export] Hint Mode ScaleEncode ! : typeclass_instances.
#[export] Hint Mode ScaleDecode ! : typeclass_instances.

(** The allocator's limits for [std::vector<T>], [max_size()] and the number of
    elements beyond which allocation fails with [bad_alloc], and the conversion
    of a [CompactInteger] to [size_t]. *)
Class Platform : Type :=
  { max_size : Type -> Z
  ; alloc_max : Type -> Z
  ; convert_to_size : Z -> Z }.

(** The conversion is exact on the values of [size_t] and yields one of them. *)
Class PlatformLaw `{Platform} : Prop :=
  { convert_exact : forall z, 0 <= z < 2 ^ 64 -> convert_to_size z = z
  ; convert_range : forall z, 0 <= convert_to_size z < 2 ^ 64 }.

(** Entry points of Scale.h. *)
Definition encode {T} `{ScaleEncode T} (v : T) : outcome scale_exn bytes :=
  s ← encodeTo v []; Ok (Encoder.data s).

Definition decode {T} `{ScaleDecode T} (span : bytes) : outcome scale_exn T :=
  '(t, _) ← decodeFrom (T := T) (Decoder.init span); Ok t.

(* ------------------------------------------------------------------ *)
(** ** The C++ types *)

Record uint (size : nat) : Type := UInt { uint_val : Z }.
Record sint (size : nat) : Type := SInt { sint_val : Z }.
Record u256 : Type := U256 { u256_val : Z }.
Record s256 : Type := S256 { s256_val : Z }.
Record CompactInteger : Type := Compact { compact_val : Z }.
Record std_string : Type := Str { chars : bytes }.
Record fixed_bytes (N : nat) : Type := Fixed { fixed_data : bytes }.
Record shared_ptr (T : Type) : Type := Ptr { pointee : option T }.
Record std_array (T : Type) (n : nat) : Type := Arr { elems : list T }.
Record std_map (K V : Type) : Type := SMap { pairs : list (K * V) }.
Inductive tuple0 : Type := Tuple0.
Record tuple_cons (A B : Type) : Type := TCons { t_head : A; t_tail : B }.

(** A variant is the sum of its alternatives, the last one marked. *)
Record last_alt (T : Type) : Type := LastAlt { alt_val : T }.

Global Arguments UInt {size}. Global Arguments uint_val {size}.
Global Arguments SInt {size}. Global Arguments sint_val {size}.
Global Arguments Fixed {N}. Global Arguments fixed_data {N}.
Global Arguments Ptr {T}. Global Arguments pointee {T}.
Global Arguments Arr {T n}. Global Arguments elems {T n}.
Global Arguments SMap {K V}. Global Arguments pairs {K V}.
Global Arguments TCons {A B}. Global Arguments t_head {A B}. Global Arguments t_tail {A B}.
Global Arguments LastAlt {T}. Global Arguments alt_val {T}.

(* ------------------------------------------------------------------ *)
(** ** Scalars *)

#[export] Instance enc_bool : ScaleEncode bool := Encoder.encodeBool.
#[export] Instance dec_bool : ScaleDecode bool :=
  {| fromRaw := Some (fun b => negb (b2z b =? 0)); decodeFrom := Decoder.decodeBool |}.

#[export] Instance enc_uint size : ScaleEncode (uint size) :=
  fun v => Encoder.encodeIntegral size (uint_val v).
#[export] Instance dec_uint size : ScaleDecode (uint size) :=
  {| fromRaw := if (size =? 1)%nat then Some (fun b => UInt (b2z b)) else None
   ; decodeFrom := fun s => '(v, s') ← Decoder.decodeIntegral false size s; Ok (UInt v, s') |}.

#[export] Instance enc_sint size : ScaleEncode (sint size) :=
  fun v => Encoder.encodeIntegral size (sint_val v).
#[export] Instance dec_sint size : ScaleDecode (sint size) :=
  {| fromRaw := if (size =? 1)%nat then Some (fun b => SInt (swrap 8 (b2z b))) else None
   ; decodeFrom := fun s => '(v, s') ← Decoder.decodeIntegral true size s; Ok (SInt v, s') |}.

#[export] Instance enc_u256 : ScaleEncode u256 := fun v => Encoder.encodeU256 (u256_val v).
#[export] Instance dec_u256 : ScaleDecode u256 :=
  {| fromRaw := None
   ; decodeFrom := fun s => '(v, s') ← Decoder.decodeU256 s; Ok (U256 v, s') |}.

#[export] Instance enc_s256 : ScaleEncode s256 := fun v => Encoder.encodeS256 (s256_val v).
#[export] Instance dec_s256 : ScaleDecode s256 :=
  {| fromRaw := None
   ; decodeFrom := fun s => '(v, s') ← Decoder.decodeS256 s; Ok (S256 v, s') |}.

#[export] Instance enc_compact : ScaleEncode CompactInteger :=
  fun v => Encoder.encodeCompactInteger (compact_val v).
#[export] Instance dec_compact : ScaleDecode CompactInteger :=
  {| fromRaw := None
   ; decodeFrom := fun s => '(v, s') ← Decoder.decodeCompactInteger s; Ok (Compact v, s') |}.

(* ------------------------------------------------------------------ *)
(** ** Collections *)

Section Collections.
Context `{Platform}.

(** The loop over the elements of a vector or an array. *)
Fixpoint decodeN {T} (dec : Decoder.stream -> outcome scale_exn (T * Decoder.stream))
    (n : nat) (s : Decoder.stream) : outcome scale_exn (list T * Decoder.stream) :=
  match n with
  | O => Ok ([], s)
  | S n' =>
      '(x, s1) ← dec s;
      '(l, s2) ← decodeN dec n' s1;
      Ok (x :: l, s2)
  end.

(** [operator<<] for [std::vector<T>], [std::list<T>] and [gsl::span<T>]. *)
#[export] Instance enc_vector {T} `{ScaleEncode T} : ScaleEncode (list T) :=
  fun c => Encoder.encodeCollection encodeTo (len c) c.

(** [operator>>(std::vector<T>&)]: [resize] throws [length_error] above
    [max_size()], which is not caught; [bad_alloc] is. *)
Definition decodeVector {T} `{ScaleDecode T} (s : Decoder.stream) :
    outcome scale_exn (list T * Decoder.stream) :=
  '(size, s1) ← Decoder.decodeCompactInteger s;
  let item_count := convert_to_size size in
  if max_size T <? item_count then Throw length_error
  else if alloc_max T <? item_count then Throw ScaleDecodeException
  else
    match fromRaw (T := T) with
    | Some f => '(bs, s2) ← Decoder.takeRaw item_count s1; Ok (map f bs, s2)
    | None => decodeN (decodeFrom (T := T)) (Z.to_nat item_count) s1
    end.

#[export] Instance dec_vector {T} `{ScaleDecode T} : ScaleDecode (list T) :=
  {| fromRaw := None; decodeFrom := decodeVector |}.

#[export] Instance enc_string : ScaleEncode std_string :=
  fun v => Encoder.encodeCollection (fun c => Encoder.putByte (b2z c)) (len (chars v)) (chars v).

(** [operator>>(std::string&)] decodes a [std::vector<uint8_t>]. *)
#[export] Instance dec_string : ScaleDecode std_string :=
  {| fromRaw := None
   ; decodeFrom := fun s =>
       '(c, s') ← (decodeVector (T := uint 1)) s;
       Ok (Str (map (fun x => z2b (uint_val x)) c), s') |}.

#[export] Instance enc_fixed N : ScaleEncode (fixed_bytes N) :=
  fun v => Encoder.encodeCollection (fun c => Encoder.putByte (b2z c)) (Z.of_nat N) (fixed_data v).

(** [operator>>(FixedBytes<N>&)]: at least [N] bytes, of which the first [N]
    are kept. *)
#[export] Instance dec_fixed N : ScaleDecode (fixed_bytes N) :=
  {| fromRaw := None
   ; decodeFrom := fun s =>
       '(c, s') ← (decodeVector (T := uint 1)) s;
       let decodedData := map (fun x => z2b (uint_val x)) c in
       if len decodedData <? Z.of_nat N then Throw ScaleDecodeException
       else Ok (Fixed (take N decodedData), s') |}.

#[export] Instance enc_array {T n} `{ScaleEncode T} : ScaleEncode (std_array T n) :=
  fun a => Encoder.encodeElements encodeTo (elems a).
#[export] Instance dec_array {T n} `{ScaleDecode T} : ScaleDecode (std_array T n) :=
  {| fromRaw := None
   ; decodeFrom := fun s => '(l, s') ← decodeN (decodeFrom (T := T)) n s; Ok (Arr l, s') |}.

(* ------------------------------------------------------------------ *)
(** ** Products, pointers, optionals *)

#[export] Instance enc_pair {F S} `{ScaleEncode F, ScaleEncode S} : ScaleEncode (F * S) :=
  fun p s => s1 ← encodeTo (fst p) s; encodeTo (snd p) s1.
#[export] Instance dec_pair {F S} `{ScaleDecode F, ScaleDecode S} : ScaleDecode (F * S) :=
  {| fromRaw := None
   ; decodeFrom := fun s =>
       '(a, s1) ← decodeFrom (T := F) s; '(b, s2) ← decodeFrom (T := S) s1; Ok ((a, b), s2) |}.

(** [encodeElementOfTuple<I>] and [decodeElementOfTuple<I>]. *)
#[export] Instance enc_tuple0 : ScaleEncode tuple0 := fun _ s => Ok s.
#[export] Instance dec_tuple0 : ScaleDecode tuple0 :=
  {| fromRaw := None; decodeFrom := fun s => Ok (Tuple0, s) |}.
#[export] Instance enc_tuple {A B} `{ScaleEncode A, ScaleEncode B} :
    ScaleEncode (tuple_cons A B) :=
  fun v s => s1 ← encodeTo (t_head v) s; encodeTo (t_tail v) s1.
#[export] Instance dec_tuple {A B} `{ScaleDecode A, ScaleDecode B} :
    ScaleDecode (tuple_cons A B) :=
  {| fromRaw := None
   ; decodeFrom := fun s =>
       '(a, s1) ← decodeFrom (T := A) s; '(b, s2) ← decodeFrom (T := B) s1; Ok (TCons a b, s2) |}.

#[export] Instance enc_ptr {T} `{ScaleEncode T} : ScaleEncode (shared_ptr T) :=
  fun v s =>
    match pointee v with
    | None => Throw ScaleEncodeException
    | Some x => encodeTo x s
    end.
#[export] Instance dec_ptr {T} `{ScaleDecode T} : ScaleDecode (shared_ptr T) :=
  {| fromRaw := None
   ; decodeFrom := fun s => '(x, s') ← decodeFrom (T := T) s; Ok (Ptr (Some x), s') |}.

(** [boost::optional<T>] for [T] other than [bool], and [boost::optional<bool>]. *)
#[export] Instance enc_optional {T} `{ScaleEncode T} : ScaleEncode (option T) | 5 :=
  fun v s =>
    match v with
    | None => Encoder.putByte 0 s
    | Some x => s1 ← Encoder.putByte 1 s; encodeTo x s1
    end.
#[export] Instance dec_optional {T} `{ScaleDecode T} : ScaleDecode (option T) | 5 :=
  {| fromRaw := None
   ; decodeFrom := fun s =>
       '(has_value, s1) ← Decoder.decodeBool s;
       if negb has_value then Ok (None, s1)
       else '(x, s2) ← decodeFrom (T := T) s1; Ok (Some x, s2) |}.
#[export] Instance enc_optional_bool : ScaleEncode (option bool) | 1 :=
  Encoder.encodeOptionalBool.
#[export] Instance dec_optional_bool : ScaleDecode (option bool) | 1 :=
  {| fromRaw := None; decodeFrom := Decoder.decodeOptionalBool |}.

End Collections.

(* ------------------------------------------------------------------ *)
(** ** Maps *)

(** [operator<] of a key type. *)
Class StdLess (K : Type) : Type := less : K -> K -> bool.

(** The requirements of [std::map] on its comparison. *)
Class StdLessLaw (K : Type) `{StdLess K} : Prop :=
  { less_irrefl : forall a, less a a = false
  ; less_trans : forall a b c, less a b = true -> less b c = true -> less a c = true
  ; less_total : forall a b, less a b = false -> less b a = false -> a = b }.

(** [map.emplace(k, v)] on the sorted sequence of pairs: an equivalent key that
    is present is kept. *)
Fixpoint emplace {K V} `{StdLess K} (k : K) (v : V) (l : list (K * V)) : list (K * V) :=
  match l with
  | [] => [(k, v)]
  | (k', v') :: l' =>
      if less k k' then (k, v) :: l
      else if less k' k then (k', v') :: emplace k v l'
      else l
  end.

Fixpoint decodePairs {K V} `{StdLess K} `{ScaleDecode K} `{ScaleDecode V} (n : nat)
    (m : list (K * V)) (s : Decoder.stream) : outcome scale_exn (list (K * V) * Decoder.stream) :=
  match n with
  | O => Ok (m, s)
  | S n' =>
      '(p, s1) ← decodeFrom (T := K * V) s;
      decodePairs n' (emplace (fst p) (snd p) m) s1
  end.

#[export] Instance enc_map {K V} `{ScaleEncode K, ScaleEncode V} : ScaleEncode (std_map K V) :=
  fun c => Encoder.encodeCollection encodeTo (len (pairs c)) (pairs c).

#[export] Instance dec_map `{Platform} {K V} `{StdLess K} `{ScaleDecode K} `{ScaleDecode V} :
    ScaleDecode (std_map K V) :=
  {| fromRaw := None
   ; decodeFrom := fun s =>
       '(size, s1) ← Decoder.decodeCompactInteger s;
       '(m, s2) ← decodePairs (Z.to_nat (convert_to_size size)) [] s1;
       Ok (SMap m, s2) |}.

(* ------------------------------------------------------------------ *)
(** ** Variants *)

Class ScaleVariant (V : Type) : Type :=
  { arity : Z
  ; tryEncodeAsOneOfVariant : Z -> V -> Encoder.stream -> outcome scale_exn Encoder.stream
  ; tryDecodeAsOneOfVariant : Z -> Z -> Decoder.stream ->
      outcome scale_exn (option V * Decoder.stream) }.
#[export] Hint Mode ScaleVariant ! : typeclass_instances.

(** [*this << I << boost::get<T>(v)]. *)
Definition encodeAs {T} `{ScaleEncode T} (I : Z) (x : T) (s : Encoder.stream) :
    outcome scale_exn Encoder.stream :=
  s1 ← Encoder.putByte I s; encodeTo x s1.

(** [T val; *this >> val; v = val], for an alternative [inj] of the variant. *)
Definition decodeAs {T V} `{ScaleDecode T} (inj : T -> V) (s : Decoder.stream) :
    outcome scale_exn (option V * Decoder.stream) :=
  '(x, s') ← decodeFrom (T := T) s; Ok (Some (inj x), s').

#[export] Instance variant_last {T} `{ScaleEncode T, ScaleDecode T} : ScaleVariant (last_alt T) :=
  {| arity := 1
   ; tryEncodeAsOneOfVariant := fun I v s => encodeAs I (alt_val v) s
   ; tryDecodeAsOneOfVariant := fun I i s =>
       if I =? i then decodeAs LastAlt s else Ok (None, s) |}.

Definition tryEncodeNext {T V} `{ScaleEncode T, ScaleVariant V} (I : Z) (v : T + V)
    (s : Encoder.stream) : outcome scale_exn Encoder.stream :=
  match v with
  | inl x => encodeAs I x s
  | inr r => tryEncodeAsOneOfVariant (I + 1) r s
  end.

Definition tryDecodeNext {T V} `{ScaleDecode T, ScaleVariant V} (I i : Z) (s : Decoder.stream) :
    outcome scale_exn (option (T + V) * Decoder.stream) :=
  if I =? i then decodeAs inl s
  else '(r, s') ← tryDecodeAsOneOfVariant (V := V) (I + 1) i s; Ok (option_map inr r, s').

#[export] Instance variant_cons {T V} `{ScaleEncode T, ScaleDecode T, ScaleVariant V} :
    ScaleVariant (T + V) :=
  {| arity := 1 + arity (V := V)
   ; tryEncodeAsOneOfVariant := tryEncodeNext
   ; tryDecodeAsOneOfVariant := tryDecodeNext |}.

(** [boost::variant<Ts...>], its default value for the decoder being [dflt]. *)
Record variant (V : Type) : Type := Variant { alternative : V }.
Global Arguments Variant {V}. Global Arguments alternative {V}.

#[export] Instance enc_variant {V} `{ScaleVariant V} : ScaleEncode (variant V) :=
  fun v => tryEncodeAsOneOfVariant 0 (alternative v).

(** No alternative matches only when the index is out of range, which the guard
    excludes: the branch without one is not reached. *)
#[export] Instance dec_variant {V} `{ScaleVariant V} : ScaleDecode (variant V) :=
  {| fromRaw := None
   ; decodeFrom := fun s =>
       '(type_index, s1) ← Decoder.nextByte s;
       if arity (V := V) <=? b2z type_index then Throw ScaleDecodeException
       else
         '(r, s2) ← tryDecodeAsOneOfVariant (V := V) 0 (b2z type_index) s1;
         match r with
         | Some v => Ok (Variant v, s2)
         | None => Undefined Uninitialised
         end |}.

(* ------------------------------------------------------------------ *)
(** ** Round trips *)

(** What a codec promises on the values [valid] describes. *)
Class ScaleLaw (T : Type) `{ScaleEncode T, ScaleDecode T} : Type :=
  { valid : T -> Prop
  ; image : T -> bytes
  ; law_emits : forall v, valid v -> emits (encodeTo v) (image v)
  ; law_absorbs : forall v, valid v -> absorbs (decodeFrom (T := T)) (image v) v
  ; law_raw : forall f, fromRaw (T := T) = Some f -> forall v, valid v -> exists b, image v = [b] /\ f b = v }.

Lemma decodeBool_absorbs (v : bool) :
  absorbs Decoder.decodeBool [if v then Byte.x01 else Byte.x00] v.
Proof.
  intros pre post Hf. unfold Decoder.decodeBool. simpl app.
  rewrite nextByte_at by done. by destruct v.
Qed.

#[export] Program Instance law_bool : ScaleLaw bool :=
  {| valid := fun _ => True; image := fun v => [if v then Byte.x01 else Byte.x00] |}.
Next Obligation. intros v _ s. by destruct v. Qed.
Next Obligation. intros v _. apply decodeBool_absorbs. Qed.
Next Obligation. intros f [= <-] v _. destruct v; by eexists. Qed.

Lemma encodeIntegral_emits (size : nat) (v : Z) :
  (0 < size)%nat -> emits (Encoder.encodeIntegral size v) (le_bytes size v).
Proof.
  intros Hs. unfold Encoder.encodeIntegral. destruct (Nat.eqb_spec size 1) as [->|].
  - simpl. unfold uwrap. change (2 ^ 8) with 256. intros s. unfold Encoder.putByte.
    by rewrite z2b_mod.
  - apply encodeInteger_emits.
Qed.

Lemma decodeIntegral_absorbs (signed : bool) (size : nat) (v : Z) :
  (0 < size <= 8)%nat -> in_type signed size v -> is_min signed size v = false ->
  absorbs (Decoder.decodeIntegral signed size) (le_bytes size v) v.
Proof.
  intros Hs Ht Hm pre post Hf. unfold Decoder.decodeIntegral.
  destruct (Nat.eqb_spec size 1) as [->|].
  - cbn [le_bytes] in *. change ([z2b v] ++ post) with (z2b v :: post). rewrite nextByte_at by done.
    cbn [mbind outcome_bind]. unfold in_type in Ht. simpl Z.of_nat in Ht.
    rewrite b2z_z2b. destruct signed; do 2 f_equal.
    + change 256 with (2 ^ 8). fold (uwrap 8 v). rewrite swrap_uwrap by lia. by apply swrap_small.
    + by apply Z.mod_small.
  - rewrite decodeInteger_at by done. by rewrite Hm.
Qed.

Lemma raw_uint (v : Z) : 0 <= v < 256 -> exists b, le_bytes 1 v = [b] /\ b2z b = v.
Proof. intros Hv. eexists. split; [done|]. by apply b2z_z2b_small. Qed.

#[export] Program Instance law_uint size (Hs : TCEq (bool_decide (0 < size <= 8)%nat) true) :
    ScaleLaw (uint size) :=
  {| valid := fun v => in_type false size (uint_val v)
   ; image := fun v => le_bytes size (uint_val v) |}.
Next Obligation.
  intros size Hs v _. apply encodeIntegral_emits. apply TCEq_eq, bool_decide_eq_true in Hs. lia.
Qed.
Next Obligation.
  intros size Hs [v] Hv. apply TCEq_eq, bool_decide_eq_true in Hs. simpl in *.
  apply (absorbs_map _ UInt). by apply decodeIntegral_absorbs.
Qed.
Next Obligation.
  intros size Hs f Hf [v] Hv. simpl in *. destruct (Nat.eqb_spec size 1) as [->|]; [|done].
  injection Hf as <-. destruct (raw_uint v) as (b & Hb & Hbv); [done|]. exists b. by rewrite Hbv.
Qed.

#[export] Program Instance law_sint size (Hs : TCEq (bool_decide (0 < size <= 8)%nat) true) :
    ScaleLaw (sint size) :=
  {| valid := fun v => in_type true size (sint_val v) /\ is_min true size (sint_val v) = false
   ; image := fun v => le_bytes size (sint_val v) |}.
Next Obligation.
  intros size Hs v _. apply encodeIntegral_emits. apply TCEq_eq, bool_decide_eq_true in Hs. lia.
Qed.
Next Obligation.
  intros size Hs [v] [Hv Hm]. apply TCEq_eq, bool_decide_eq_true in Hs. simpl in *.
  apply (absorbs_map _ SInt). by apply decodeIntegral_absorbs.
Qed.
Next Obligation.
  intros size Hs f Hf [v] [Hv _]. simpl in *. destruct (Nat.eqb_spec size 1) as [->|]; [|done].
  injection Hf as <-. exists (z2b v). split; [done|]. f_equal. rewrite b2z_z2b.
  change 256 with (2 ^ 8). fold (uwrap 8 v). rewrite swrap_uwrap by lia. by apply swrap_small.
Qed.

#[export] Program Instance law_u256 : ScaleLaw u256 :=
  {| valid := fun v => 0 <= u256_val v < 2 ^ 256
   ; image := fun v => BigEndian.toBigEndian 32 (u256_val v) |}.
Next Obligation. done. Qed.

Lemma decodeU256_absorbs (v : Z) :
  0 <= v < 2 ^ 256 -> absorbs Decoder.decodeU256 (BigEndian.toBigEndian 32 v) v.
Proof.
  intros Hv. replace v with (BigEndian.fromBigEndian 256 (BigEndian.toBigEndian 32 v)) at 2.
  - apply (absorbs_map _ (BigEndian.fromBigEndian 256)). intros pre post Hf.
    set (bs := BigEndian.toBigEndian 32 v) in *.
    assert (len bs = 32) as Hl by (unfold len, bs; by rewrite BigEndian.length_toBigEndian).
    rewrite <- Hl. by apply takeRaw_at.
  - rewrite BigEndian.fromBigEndian_be_value
      by (unfold len; rewrite BigEndian.length_toBigEndian; lia).
    rewrite BigEndian.toBigEndian_be_bytes, be_value_be_bytes. by apply Z.mod_small.
Qed.

Next Obligation. intros [v] Hv. apply (absorbs_map _ U256). by apply decodeU256_absorbs. Qed.
Next Obligation. done. Qed.

#[export] Program Instance law_s256 : ScaleLaw s256 :=
  {| valid := fun v => - 2 ^ 255 <= s256_val v < 2 ^ 255
   ; image := fun v => BigEndian.toBigEndian 32 (Numeric.s2u (s256_val v)) |}.
Next Obligation. done. Qed.
Next Obligation.
  intros [v] Hv. cbn [s256_val] in *. apply (absorbs_map _ S256).
  pose proof (absorbs_map _ Numeric.u2s _ _
    (decodeU256_absorbs (Numeric.s2u v) (Numeric.s2u_range v))) as Ha.
  by rewrite Numeric.u2s_s2u in Ha.
Qed.
Next Obligation. done. Qed.

#[export] Program Instance law_compact : ScaleLaw CompactInteger :=
  {| valid := fun v => 0 <= compact_val v < 256 ^ 67
   ; image := fun v => compact_bytes (compact_val v) |}.
Next Obligation. intros v Hv. by apply encodeCompact_emits. Qed.
Next Obligation.
  intros [v] Hv. simpl in *. apply (absorbs_map _ Compact). by apply decodeCompact_absorbs.
Qed.
Next Obligation. done. Qed.

Section Laws.
Context `{PlatformLaw}.

Section Elements.
Context {T : Type} `{Law : ScaleLaw T}.

Definition images (l : list T) : bytes := concat (map image l).

Lemma encodeElements_emits (l : list T) :
  Forall valid l -> emits (Encoder.encodeElements encodeTo l) (images l).
Proof.
  induction 1 as [|x l Hx _ IH]; intros s; [simpl; by rewrite app_nil_r|].
  simpl. rewrite law_emits by done. simpl. rewrite IH. by rewrite <- app_assoc.
Qed.

Lemma encodeCollection_emits (l : list T) :
  Forall valid l -> len l < 2 ^ 64 ->
  emits (Encoder.encodeCollection encodeTo (len l) l) (compact_bytes (len l) ++ images l).
Proof.
  intros Hv Hl. apply emits_bind; [|by apply encodeElements_emits].
  apply encodeCompact_emits. pose proof (len_nonneg l). lia.
Qed.

Lemma decodeN_absorbs (l : list T) :
  Forall valid l -> absorbs (decodeN (decodeFrom (T := T)) (length l)) (images l) l.
Proof.
  induction 1 as [|x l Hx _ IH]; simpl; [apply absorbs_ret|].
  change (images (x :: l)) with (image x ++ images l).
  apply (absorbs_bind _ (fun x s1 => '(l, s2) ← decodeN decodeFrom (length l) s1; Ok (x :: l, s2))
    _ _ x); [by apply law_absorbs|]. by apply (absorbs_map _ (cons x)).
Qed.

Lemma raw_images (f : byte -> T) (l : list T) :
  fromRaw (T := T) = Some f -> Forall valid l ->
  length (images l) = length l /\ map f (images l) = l.
Proof.
  intros Hf. induction 1 as [|x l Hx _ [IH1 IH2]]; [done|].
  destruct (law_raw f Hf x Hx) as (b & Hb & <-). unfold images in *. simpl. rewrite Hb. simpl.
  by rewrite IH1, IH2.
Qed.

Definition valid_vector (c : list T) : Prop :=
  Forall valid c /\ len c <= max_size T /\ len c <= alloc_max T /\ len c < 2 ^ 64.

Lemma decodeVector_absorbs (c : list T) :
  valid_vector c -> absorbs (decodeVector (T := T)) (compact_bytes (len c) ++ images c) c.
Proof.
  intros (Hv & Hm & Ha & Hl). pose proof (len_nonneg c).
  eapply absorbs_bind; [apply decodeCompact_absorbs; lia|]. cbv beta zeta.
  rewrite convert_exact by lia.
  rewrite (proj2 (Z.ltb_ge (max_size T) _)), (proj2 (Z.ltb_ge (alloc_max T) _)) by done.
  destruct fromRaw as [f|] eqn:Hf.
  - destruct (raw_images f c Hf Hv) as [Hlen Hmap].
    enough (absorbs (Decoder.takeRaw (len c)) (images c) (images c)) as Ht.
    { apply (absorbs_map _ (map f)) in Ht. by rewrite Hmap in Ht. }
    intros pre post Hfit. replace (len c) with (len (images c)) by (unfold len; lia).
    by apply takeRaw_at.
  - unfold len. rewrite Nat2Z.id. by apply decodeN_absorbs.
Qed.

#[export] Program Instance law_vector : ScaleLaw (list T) :=
  {| valid := valid_vector; image := fun c => compact_bytes (len c) ++ images c |}.
Next Obligation. intros c (Hv & _ & _ & Hl). by apply encodeCollection_emits. Qed.
Next Obligation. intros c Hc. by apply decodeVector_absorbs. Qed.
Next Obligation. done. Qed.

#[export] Program Instance law_array n : ScaleLaw (std_array T n) :=
  {| valid := fun a => Forall valid (elems a) /\ length (elems a) = n
   ; image := fun a => images (elems a) |}.
Next Obligation. intros n a [Hv _]. by apply encodeElements_emits. Qed.
Next Obligation.
  intros n [l] [Hv <-]. simpl in *. apply (absorbs_map _ Arr). by apply decodeN_absorbs.
Qed.
Next Obligation. done. Qed.

#[export] Program Instance law_ptr : ScaleLaw (shared_ptr T) :=
  {| valid := fun p => match pointee p with Some x => valid x | None => False end
   ; image := fun p => match pointee p with Some x => image x | None => [] end |}.
Next Obligation. intros [[x|]] Hv; [|done]. by apply (law_emits (T := T)). Qed.
Next Obligation.
  intros [[x|]] Hv; [|done]. simpl in *. apply (absorbs_map _ (fun x => Ptr (Some x))).
  by apply law_absorbs.
Qed.
Next Obligation. done. Qed.

#[export] Program Instance law_optional : ScaleLaw (option T) | 5 :=
  {| valid := fun p => match p with Some x => valid x | None => True end
   ; image := fun p => match p with Some x => Byte.x01 :: image x | None => [Byte.x00] end |}.
Next Obligation.
  intros [x|] Hv; [|done]. change (Byte.x01 :: image x) with ([Byte.x01] ++ image x).
  apply (emits_bind (Encoder.putByte 1)); [done|by apply law_emits].
Qed.
Next Obligation.
  intros [x|] Hv; simpl.
  - change (Byte.x01 :: image x) with ([Byte.x01] ++ image x).
    apply absorbs_bind with (a := true); [apply (decodeBool_absorbs true)|]. simpl.
    apply (absorbs_map _ Some). by apply law_absorbs.
  - rewrite <- (app_nil_r [Byte.x00]).
    apply absorbs_bind with (a := false); [apply (decodeBool_absorbs false)|].
    apply absorbs_ret.
Qed.
Next Obligation. done. Qed.

End Elements.
End Laws.

Section ByteStrings.
Context `{PlatformLaw}.

Definition as_uint8s (bs : bytes) : list (uint 1) := map (fun c => UInt (b2z c)) bs.

Definition valid_length (n : Z) : Prop :=
  n <= max_size (uint 1) /\ n <= alloc_max (uint 1) /\ n < 2 ^ 64.

Lemma of_uint8s (bs : bytes) : map (fun x => z2b (uint_val x)) (as_uint8s bs) = bs.
Proof.
  unfold as_uint8s. rewrite map_map. rewrite <- (map_id bs) at 2. apply map_ext.
  intros b. apply z2b_b2z.
Qed.

Lemma images_uint8s (bs : bytes) : images (as_uint8s bs) = bs.
Proof.
  induction bs as [|b bs IH]; [done|]. unfold images in *. simpl in *.
  by rewrite IH, z2b_b2z.
Qed.

Lemma decodeVector_bytes (bs : bytes) :
  valid_length (len bs) ->
  absorbs (decodeVector (T := uint 1)) (compact_bytes (len bs) ++ bs) (as_uint8s bs).
Proof.
  intros (Hm & Ha & Hl).
  assert (len (as_uint8s bs) = len bs) as E by (unfold len, as_uint8s; by rewrite length_map).
  pose proof (decodeVector_absorbs (as_uint8s bs)) as Hd. rewrite E, images_uint8s in Hd.
  apply Hd. split; [|by rewrite E]. apply Forall_forall. intros x Hx.
  apply in_map_iff in Hx as (b & <- & _). simpl. apply b2z_range.
Qed.

Lemma encodeElements_bytes (bs : bytes) :
  emits (Encoder.encodeElements (fun c => Encoder.putByte (b2z c)) bs) bs.
Proof.
  induction bs as [|b bs IH]; intros s; simpl; [by rewrite app_nil_r|].
  rewrite z2b_b2z, IH. by rewrite <- app_assoc.
Qed.

Lemma encodeCollection_bytes (n : Z) (bs : bytes) :
  0 <= n < 2 ^ 64 ->
  emits (Encoder.encodeCollection (fun c => Encoder.putByte (b2z c)) n bs) (compact_bytes n ++ bs).
Proof.
  intros Hn. apply emits_bind; [apply encodeCompact_emits; lia|apply encodeElements_bytes].
Qed.

#[export] Program Instance law_string : ScaleLaw std_string :=
  {| valid := fun v => valid_length (len (chars v))
   ; image := fun v => compact_bytes (len (chars v)) ++ chars v |}.
Next Obligation.
  intros [bs] (_ & _ & Hl). apply encodeCollection_bytes. pose proof (len_nonneg bs). simpl in *. lia.
Qed.
Next Obligation.
  intros [bs] Hv. cbn [chars] in *.
  pose proof (absorbs_map _ (fun c => Str (map (fun x => z2b (uint_val x)) c)) _ _
    (decodeVector_bytes bs Hv)) as Ha.
  cbv beta in Ha. by rewrite of_uint8s in Ha.
Qed.
Next Obligation. done. Qed.

#[export] Program Instance law_fixed N : ScaleLaw (fixed_bytes N) :=
  {| valid := fun v => FixedBytes.wf N (fixed_data v) /\ valid_length (Z.of_nat N)
   ; image := fun v => compact_bytes (Z.of_nat N) ++ fixed_data v |}.
Next Obligation. intros N [bs] (Hw & _ & _ & Hl). apply encodeCollection_bytes. lia. Qed.
Next Obligation.
  intros N [bs] (Hw & Hv) pre post Hf. cbn [fixed_data] in *. unfold FixedBytes.wf in Hw.
  assert (len bs = Z.of_nat N) as E by (unfold len; lia). rewrite <- E in *.
  simpl. rewrite decodeVector_bytes by done. simpl. rewrite of_uint8s.
  rewrite E, Z.ltb_irrefl. by rewrite take_ge by lia.
Qed.
Next Obligation. done. Qed.

End ByteStrings.

#[export] Program Instance law_optional_bool : ScaleLaw (option bool) | 1 :=
  {| valid := fun _ => True
   ; image := fun v => [match v with
                        | None => Byte.x00 | Some true => Byte.x01 | Some false => Byte.x02 end] |}.
Next Obligation. intros [[]|] _ s; done. Qed.
Next Obligation.
  intros v _ pre post Hf. simpl. unfold Decoder.decodeOptionalBool. simpl app.
  rewrite nextByte_at by done. by destruct v as [[]|].
Qed.
Next Obligation. done. Qed.

Section Products.
Context {A B : Type} `{LA : ScaleLaw A, LB : ScaleLaw B}.

Lemma both_emits (a : A) (b : B) :
  valid a -> valid b -> emits (fun s => s1 ← encodeTo a s; encodeTo b s1) (image a ++ image b).
Proof. intros Ha Hb. apply emits_bind; by apply law_emits. Qed.

Lemma both_absorbs {C} (f : A -> B -> C) (a : A) (b : B) :
  valid a -> valid b ->
  absorbs (fun s => '(x, s1) ← decodeFrom (T := A) s; '(y, s2) ← decodeFrom (T := B) s1;
    Ok (f x y, s2)) (image a ++ image b) (f a b).
Proof.
  intros Ha Hb. eapply (absorbs_bind _ (fun x s1 => '(y, s2) ← decodeFrom (T := B) s1;
    Ok (f x y, s2))); [by apply law_absorbs|].
  apply (absorbs_map _ (f a)). by apply law_absorbs.
Qed.

#[export] Program Instance law_pair : ScaleLaw (A * B) :=
  {| valid := fun p => valid (fst p) /\ valid (snd p)
   ; image := fun p => image (fst p) ++ image (snd p) |}.
Next Obligation. intros [a b] [Ha Hb]. by apply both_emits. Qed.
Next Obligation. intros [a b] [Ha Hb]. by apply (both_absorbs pair). Qed.
Next Obligation. done. Qed.

#[export] Program Instance law_tuple : ScaleLaw (tuple_cons A B) :=
  {| valid := fun p => valid (t_head p) /\ valid (t_tail p)
   ; image := fun p => image (t_head p) ++ image (t_tail p) |}.
Next Obligation. intros [a b] [Ha Hb]. by apply both_emits. Qed.
Next Obligation. intros [a b] [Ha Hb]. by apply (both_absorbs TCons). Qed.
Next Obligation. done. Qed.
End Products.

#[export] Program Instance law_tuple0 : ScaleLaw tuple0 :=
  {| valid := fun _ => True; image := fun _ => [] |}.
Next Obligation. intros [] _ s. simpl. by rewrite app_nil_r. Qed.
Next Obligation. intros [] _. apply absorbs_ret. Qed.
Next Obligation. done. Qed.

(** ** Variants *)

Class VariantLaw (V : Type) `{ScaleVariant V} : Type :=
  { alt_valid : V -> Prop
  ; alt_index : V -> Z
  ; alt_image : V -> bytes
  ; alt_arity : 0 < arity (V := V)
  ; alt_range : forall v, 0 <= alt_index v < arity (V := V)
  ; alt_emits : forall I v, alt_valid v ->
      emits (tryEncodeAsOneOfVariant I v) (z2b (I + alt_index v) :: alt_image v)
  ; alt_absorbs : forall I v, alt_valid v ->
      absorbs (tryDecodeAsOneOfVariant (V := V) I (I + alt_index v)) (alt_image v) (Some v) }.

Lemma encodeAs_emits {T} `{ScaleLaw T} (I : Z) (x : T) :
  valid x -> emits (encodeAs I x) (z2b I :: image x).
Proof.
  intros Hx. apply (emits_bind (Encoder.putByte I) _ [z2b I]); [done|by apply law_emits].
Qed.

Lemma decodeAs_absorbs {T V} `{ScaleLaw T} (inj : T -> V) (x : T) :
  valid x -> absorbs (decodeAs inj) (image x) (Some (inj x)).
Proof. intros Hx. apply (absorbs_map _ (fun x => Some (inj x))). by apply law_absorbs. Qed.

#[export] Program Instance law_variant_last {T} `{ScaleLaw T} : VariantLaw (last_alt T) :=
  {| alt_valid := fun v => valid (alt_val v)
   ; alt_index := fun _ => 0
   ; alt_image := fun v => image (alt_val v) |}.
Next Obligation. done. Qed.
Next Obligation. intros. simpl. lia. Qed.
Next Obligation.
  intros T ? ? ? I [x] Hx. rewrite Z.add_0_r.
  change (emits (encodeAs I x) (z2b I :: image x)). by apply encodeAs_emits.
Qed.
Next Obligation.
  intros T ? ? ? I [x] Hx. simpl. rewrite Z.add_0_r, Z.eqb_refl. by apply (decodeAs_absorbs LastAlt).
Qed.

#[export] Program Instance law_variant_cons {T V} `{ScaleLaw T} `{VariantLaw V} :
    VariantLaw (T + V) :=
  {| alt_valid := fun v => match v with inl x => valid x | inr r => alt_valid r end
   ; alt_index := fun v => match v with inl _ => 0 | inr r => 1 + alt_index r end
   ; alt_image := fun v => match v with inl x => image x | inr r => alt_image r end |}.
Next Obligation. intros. simpl. pose proof (alt_arity (V := V)). lia. Qed.
Next Obligation.
  intros T V ? ? ? ? ? [x|r]; simpl; pose proof (alt_arity (V := V)); [lia|].
  pose proof (alt_range r). lia.
Qed.
Next Obligation.
  intros T V ? ? ? ? ? I [x|r] Hv; simpl in *.
  - rewrite Z.add_0_r. change (emits (encodeAs I x) (z2b I :: image x)). by apply encodeAs_emits.
  - rewrite Z.add_assoc. by apply (alt_emits (I + 1) r).
Qed.
Next Obligation.
  intros T V ? ? ? ? ? I [x|r] Hv; simpl in *; unfold tryDecodeNext.
  - rewrite Z.add_0_r, Z.eqb_refl. by apply (decodeAs_absorbs inl).
  - pose proof (alt_range r). rewrite (proj2 (Z.eqb_neq I _)) by lia. rewrite Z.add_assoc.
    apply (absorbs_map _ (option_map inr)) with (a := Some r). by apply alt_absorbs.
Qed.

#[export] Program Instance law_variant {V} `{VariantLaw V} : ScaleLaw (variant V) :=
  {| valid := fun v => alt_valid (alternative v) /\ arity (V := V) <= 256
   ; image := fun v => z2b (alt_index (alternative v)) :: alt_image (alternative v) |}.
Next Obligation. intros V ? ? [v] [Hv _]. by apply (alt_emits 0). Qed.
Next Obligation.
  intros V ? ? [v] [Hv Ha]. cbn [alternative] in *. pose proof (alt_range v).
  change (z2b (alt_index v) :: alt_image v) with ([z2b (alt_index v)] ++ alt_image v).
  eapply absorbs_bind; [apply absorbs_nextByte|]. cbv beta. rewrite b2z_z2b_small by lia.
  rewrite (proj2 (Z.leb_gt _ _)) by lia. rewrite <- (app_nil_r (alt_image v)).
  eapply absorbs_bind; [by apply (alt_absorbs 0)|]. apply absorbs_ret.
Qed.
Next Obligation. done. Qed.

(** ** Maps *)

Section Maps.
Context `{PlatformLaw}.
Context {K V : Type} `{LessK : StdLessLaw K}.

Definition key_lt (p q : K * V) : Prop := less (fst p) (fst q) = true.

(** What [std::map] maintains: keys in strictly increasing order. *)
Definition sorted_map (l : list (K * V)) : Prop := StronglySorted key_lt l.

Lemma emplace_after (k : K) (v : V) (l : list (K * V)) :
  Forall (fun p => key_lt p (k, v)) l -> emplace k v l = l ++ [(k, v)].
Proof.
  induction 1 as [|[k' v'] l Hk _ IH]; [done|]. unfold key_lt in Hk; simpl in *.
  destruct (less k k') eqn:E; [|by rewrite Hk, IH].
  pose proof (less_trans _ _ _ E Hk) as Hr. by rewrite less_irrefl in Hr.
Qed.

Lemma emplace_Forall (P : K * V -> Prop) (k : K) (v : V) (l : list (K * V)) :
  Forall P l -> P (k, v) -> Forall P (emplace k v l).
Proof.
  intros Hl Hp. induction Hl as [|[k' v'] l Hx Hl IH]; simpl; [by repeat constructor|].
  destruct (less k k'); [by repeat constructor|].
  destruct (less k' k); by repeat constructor.
Qed.

Lemma emplace_sorted (k : K) (v : V) (l : list (K * V)) :
  sorted_map l -> sorted_map (emplace k v l).
Proof.
  unfold sorted_map. induction 1 as [|[k' v'] l Hs IH Hx]; simpl; [by repeat constructor|].
  destruct (less k k') eqn:E1.
  - constructor; [by constructor|]. constructor; [done|].
    eapply Forall_impl; [|exact Hx]. intros p Hp. by apply (less_trans _ k').
  - destruct (less k' k) eqn:E2; constructor; try done. by apply emplace_Forall.
Qed.

Lemma sorted_before (acc l : list (K * V)) (p : K * V) :
  sorted_map ((acc ++ [p]) ++ l) -> Forall (fun q => key_lt q p) acc.
Proof.
  unfold sorted_map. induction acc as [|q acc IH]; [done|]. simpl.
  inversion 1 as [|? ? Hs Hq]; subst. constructor; [|by apply IH].
  rewrite <- app_assoc, Forall_app in Hq. destruct Hq as [_ Hq]. by inversion Hq.
Qed.

Context `{LawK : ScaleLaw K} `{LawV : ScaleLaw V}.

Lemma decodePairs_absorbs (l acc : list (K * V)) :
  Forall valid l -> sorted_map (acc ++ l) ->
  absorbs (decodePairs (length l) acc) (images l) (acc ++ l).
Proof.
  intros Hv. revert acc. induction Hv as [|[k v] l Hx Hl IH]; intros acc Hs.
  - rewrite app_nil_r. apply absorbs_ret.
  - cbn [length decodePairs]. change (images ((k, v) :: l)) with (image (k, v) ++ images l).
    replace (acc ++ (k, v) :: l) with ((acc ++ [(k, v)]) ++ l) in * by (by rewrite <- app_assoc).
    eapply absorbs_bind; [by apply (law_absorbs (k, v))|]. cbn [fst snd].
    rewrite emplace_after; [by apply IH|]. by apply sorted_before in Hs.
Qed.

Definition valid_map (m : std_map K V) : Prop :=
  Forall valid (pairs m) /\ sorted_map (pairs m) /\ len (pairs m) < 2 ^ 64.

#[export] Program Instance law_map : ScaleLaw (std_map K V) :=
  {| valid := valid_map; image := fun m => compact_bytes (len (pairs m)) ++ images (pairs m) |}.
Next Obligation. intros [l] (Hv & _ & Hl). by apply encodeCollection_emits. Qed.
Next Obligation.
  intros [l] (Hv & Hs & Hl). cbn [pairs] in *. pose proof (len_nonneg l).
  eapply absorbs_bind; [apply decodeCompact_absorbs; lia|]. cbv beta.
  rewrite convert_exact by lia. unfold len. rewrite Nat2Z.id.
  apply (absorbs_map _ SMap). by apply (decodePairs_absorbs l []).
Qed.
Next Obligation. done. Qed.

(** Whatever the order and the repetitions of the pairs in the input, the map
    that is built has strictly increasing keys. *)
Lemma decodePairs_sorted (n : nat) (m m' : list (K * V)) (s s' : Decoder.stream) :
  sorted_map m -> decodePairs n m s = Ok (m', s') -> sorted_map m'.
Proof.
  revert m s; induction n as [|n IH]; intros m s Hm; simpl; [by intros [= <- _]|].
  intros Hd. apply bind_ok_inv in Hd as ([[k v] s1] & _ & Hd).
  eapply IH; [|exact Hd]. by apply emplace_sorted.
Qed.

End Maps.

(* ------------------------------------------------------------------ *)
(** ** Decoding untrusted bytes *)

(** Whatever is left of the input, the decoder returns having consumed a prefix
    of it, or throws. *)
Definition safe_dec {T} (dec : Decoder.stream -> outcome scale_exn (T * Decoder.stream)) : Prop :=
  forall pre post, fits (pre ++ post) ->
    match dec (stream_at pre post) with
    | Ok (_, s') => exists mid post', post = mid ++ post' /\ s' = stream_at (pre ++ mid) post'
    | Throw _ => True
    | Undefined _ => False
    end.

Class ScaleSafe (T : Type) `{ScaleDecode T} : Prop := safe_decode : safe_dec (decodeFrom (T := T)).

(** [sizeof(T) != 1]. *)
Class NotRaw (T : Type) `{ScaleDecode T} : Prop := not_raw : fromRaw (T := T) = None.
#[export] Hint Extern 0 (NotRaw _) => reflexivity : typeclass_instances.

Create HintDb safe.

Lemma safe_ret {T} (v : T) : safe_dec (fun s => Ok (v, s)).
Proof. intros pre post Hf. exists [], post. by rewrite app_nil_r. Qed.

Lemma safe_throw {T} e : safe_dec (T := T) (fun _ => Throw e).
Proof. intros pre post Hf. done. Qed.

Lemma safe_bind {A B} (f : Decoder.stream -> outcome scale_exn (A * Decoder.stream))
    (g : A -> Decoder.stream -> outcome scale_exn (B * Decoder.stream)) :
  safe_dec f -> (forall a, safe_dec (g a)) -> safe_dec (fun s => '(x, s1) ← f s; g x s1).
Proof.
  intros Hf Hg pre post Hfit. specialize (Hf pre post Hfit).
  destruct (f (stream_at pre post)) as [[a s1]| |]; [|done..]. simpl.
  destruct Hf as (mid & post' & -> & ->). rewrite app_assoc in Hfit.
  specialize (Hg a (pre ++ mid) post' Hfit).
  destruct (g a _) as [[b s2]| |]; [|done..]. destruct Hg as (mid' & post'' & -> & ->).
  exists (mid ++ mid'), post''. by rewrite !app_assoc.
Qed.

Lemma safe_map {A B} (f : Decoder.stream -> outcome scale_exn (A * Decoder.stream)) (h : A -> B) :
  safe_dec f -> safe_dec (fun s => '(x, s1) ← f s; Ok (h x, s1)).
Proof. intros Hf. apply safe_bind; [done|]. intros a. apply safe_ret. Qed.

(** A guard on the stream, such as [hasMore]. *)
Lemma safe_guard {T} (c : Decoder.stream -> bool) (f g : Decoder.stream -> outcome scale_exn (T * Decoder.stream)) :
  safe_dec f -> safe_dec g -> safe_dec (fun s => if c s then f s else g s).
Proof. intros Hf Hg pre post Hfit. destruct (c _); [by apply Hf|by apply Hg]. Qed.

Lemma safe_if {T} (c : bool) (f g : Decoder.stream -> outcome scale_exn (T * Decoder.stream)) :
  safe_dec f -> safe_dec g -> safe_dec (fun s => if c then f s else g s).
Proof. intros Hf Hg. destruct c; [exact Hf|exact Hg]. Qed.

Lemma safe_nextByte : safe_dec Decoder.nextByte.
Proof.
  intros pre [|b post] Hf.
  - rewrite nextByte_at_nil; [done|]. by rewrite app_nil_r in Hf.
  - rewrite nextByte_at by done. by exists [b], post.
Qed.

Lemma safe_nextBytes (n : nat) : safe_dec (Decoder.nextBytes n).
Proof.
  induction n as [|n IH]; simpl; [apply safe_ret|].
  apply safe_bind; [apply safe_nextByte|]. intros b. by apply safe_map.
Qed.

#[export] Hint Resolve safe_ret safe_throw safe_map safe_nextByte safe_nextBytes : safe.

Lemma safe_compact : safe_dec Decoder.decodeCompactInteger.
Proof.
  apply safe_bind; [apply safe_nextByte|]. intros first. cbv zeta.
  repeat (apply safe_if; [solve [auto with safe | apply safe_guard; auto with safe]|]).
  apply safe_guard; auto with safe.
Qed.

Lemma safe_decodeN {T} (dec : Decoder.stream -> outcome scale_exn (T * Decoder.stream)) (n : nat) :
  safe_dec dec -> safe_dec (decodeN dec n).
Proof.
  intros Hd. induction n as [|n IH]; simpl; [apply safe_ret|].
  apply safe_bind; [done|]. intros x. by apply safe_map.
Qed.

#[export] Instance safe_bool : ScaleSafe bool.
Proof.
  apply safe_bind; [apply safe_nextByte|]. intros b. repeat (apply safe_if; [auto with safe|]).
  auto with safe.
Qed.

#[export] Instance safe_uint size : ScaleSafe (uint size).
Proof.
  apply safe_map. apply safe_if; [by apply safe_map, safe_nextByte|].
  apply safe_guard; [auto with safe|]. apply safe_map, safe_nextBytes.
Qed.

(** Signed types below the width of [int] negate without overflow. *)
Lemma negateSigned_short (v : Z) : is_ok (Decoder.negateSigned 2 v) = true.
Proof.
  unfold Decoder.negateSigned. set (x := swrap _ _).
  assert (- 2 ^ 15 <= x) by (apply (swrap_range (8 * Z.of_nat 2)); lia).
  rewrite (proj2 (Z.eqb_neq _ _)); [done|]. assert (- 2 ^ 31 < - 2 ^ 15) by done.
  change (Z.max 32 (8 * Z.of_nat 2) - 1) with 31. lia.
Qed.

#[export] Instance safe_sint2 : ScaleSafe (sint 2).
Proof.
  apply safe_map. simpl. unfold Decoder.decodeIntegral. simpl.
  apply safe_guard; [auto with safe|]. apply safe_bind; [apply safe_nextBytes|].
  intros bs. apply safe_if; [auto with safe|]. apply safe_if; [auto with safe|].
  pose proof (negateSigned_short (Decoder.sumBytes 0 0 bs)) as Hn.
  destruct (Decoder.negateSigned 2 _); [|done..]. apply safe_ret.
Qed.

#[export] Instance safe_compact_integer : ScaleSafe CompactInteger.
Proof. apply safe_map, safe_compact. Qed.

#[export] Instance safe_optional_bool : ScaleSafe (option bool) | 1.
Proof.
  apply safe_bind; [apply safe_nextByte|]. intros b. repeat (apply safe_if; [auto with safe|]).
  auto with safe.
Qed.

Section Safety.
Context `{Platform}.
Context {A B : Type} `{SA : ScaleSafe A} `{SB : ScaleSafe B}.

#[export] Instance safe_vector `{!NotRaw A} : ScaleSafe (list A).
Proof.
  apply safe_bind; [apply safe_compact|]. intros size. cbv zeta.
  apply safe_if; [auto with safe|]. apply safe_if; [auto with safe|].
  rewrite not_raw. by apply safe_decodeN.
Qed.

#[export] Instance safe_array n : ScaleSafe (std_array A n).
Proof. apply safe_map. by apply safe_decodeN. Qed.

#[export] Instance safe_ptr : ScaleSafe (shared_ptr A).
Proof. by apply safe_map. Qed.

#[export] Instance safe_optional : ScaleSafe (option A) | 5.
Proof.
  apply safe_bind; [exact safe_bool|]. intros b. apply safe_if; [auto with safe|]. by apply safe_map.
Qed.

#[export] Instance safe_pair : ScaleSafe (A * B).
Proof. apply safe_bind; [done|]. intros a. by apply safe_map. Qed.

#[export] Instance safe_tuple : ScaleSafe (tuple_cons A B).
Proof. apply safe_bind; [done|]. intros a. by apply safe_map. Qed.

#[export] Instance safe_map_pairs `{StdLess A} : ScaleSafe (std_map A B).
Proof.
  apply safe_bind; [apply safe_compact|]. intros size. apply safe_map.
  generalize (Z.to_nat (convert_to_size size)) as n. intros n. generalize (@nil (A * B)).
  induction n as [|n IH]; intros m; [apply safe_ret|].
  apply safe_bind; [exact safe_pair|]. intros [a b]. apply IH.
Qed.
End Safety.

#[export] Instance safe_tuple0 : ScaleSafe tuple0.
Proof. apply safe_ret. Qed.

(* ------------------------------------------------------------------ *)
(** ** Theorems on [encode] and [decode] *)

(** A platform with 64-bit sizes and a tebibyte of memory. *)
#[export] Instance lp64 : Platform :=
  {| max_size := fun _ => 2 ^ 63 - 1; alloc_max := fun _ => 2 ^ 40; convert_to_size := uwrap 64 |}.
#[export] Instance lp64_law : PlatformLaw.
Proof. split; intros; [by apply uwrap_small|by apply uwrap_range]. Qed.

Lemma encode_image {T} `{ScaleLaw T} (v : T) : valid v -> encode v = Ok (image v).
Proof. intros Hv. unfold encode. by rewrite law_emits. Qed.

Lemma decode_image {T} `{ScaleLaw T} (v : T) (rest : bytes) :
  valid v -> fits (image v ++ rest) -> decode (image v ++ rest) = Ok v.
Proof.
  intros Hv Hf. unfold decode. change (Decoder.init (image v ++ rest)) with (stream_at [] (image v ++ rest)).
  by rewrite law_absorbs.
Qed.


(** The type of the sample: [vector<tuple<uint32_t, optional<string>, variant<bool, u256>>>]. *)
Definition sample_type : Type :=
  list (tuple_cons (uint 4) (tuple_cons (option std_string)
    (tuple_cons (variant (bool + last_alt u256)) tuple0))).

Definition sample_value : sample_type :=
  [TCons (UInt 7) (TCons (Some (Str (list_byte_of_string "bcos")))
     (TCons (Variant (inr (LastAlt (U256 (2 ^ 255))))) Tuple0));
   TCons (UInt (2 ^ 32 - 1)) (TCons None (TCons (Variant (inl true)) Tuple0))].


(** No encoding is a proper prefix of another one of the same type: two values
    whose encodings start alike are equal. *)
Theorem scale_prefix_free {T} `{ScaleLaw T} (v w : T) (bv bw rest : bytes) :
  valid v -> valid w -> encode v = Ok bv -> encode w = Ok bw -> bw = bv ++ rest -> fits bw ->
  v = w /\ rest = [].
Proof.
  intros Hv Hw Ev Ew -> Hf. rewrite encode_image in Ev by done. injection Ev as <-.
  rewrite encode_image in Ew by done. injection Ew as Ew.
  pose proof (decode_image v rest Hv Hf) as Dv. pose proof (decode_image w [] Hw) as Dw.
  rewrite app_nil_r, Ew in Dw. rewrite Dw in Dv by done. injection Dv as ->. split; [done|].
  rewrite <- (app_nil_r (image v)) in Ew at 1. by apply app_inv_head in Ew.
Qed.

Lemma scale_prefix_free_witness : UInt (size := 2) 258 = UInt 258 /\ @nil byte = [].
Proof.
  apply (scale_prefix_free (UInt (size := 2) 258) (UInt 258) [Byte.x02; Byte.x01]
    [Byte.x02; Byte.x01] []); by vm_compute.
Defined.



(** Byte strings and 256-bit integers are not checked against what is left of
    the input: a truncated one steps outside the span. *)
Theorem truncated_input_unchecked `{PlatformLaw} (n : Z) (bs : bytes) :
  len bs < n -> valid_length n -> fits (compact_bytes n ++ bs) ->
  decode (T := std_string) (compact_bytes n ++ bs) = Undefined OutOfRange /\
  (len bs < 32 -> decode (T := u256) bs = Undefined OutOfRange).
Proof.
  intros Hlt (Hm & Ha & Hn) Hf. pose proof (len_nonneg bs). split.
  - unfold decode. change (Decoder.init (compact_bytes n ++ bs)) with (stream_at [] (compact_bytes n ++ bs)).
    simpl. unfold decodeVector. rewrite decodeCompact_absorbs by (done || lia). simpl.
    rewrite convert_exact, (proj2 (Z.ltb_ge (max_size _) _)),
      (proj2 (Z.ltb_ge (alloc_max _) _)) by lia.
    unfold Decoder.takeRaw. simpl. simpl_len.
    rewrite (proj2 (Z.leb_gt (len (compact_bytes n) + n) _)), andb_false_r by lia. done.
  - intros H32. unfold decode, Decoder.init. simpl. unfold Decoder.decodeU256, Decoder.takeRaw. simpl.
    by rewrite (proj2 (Z.leb_gt _ _)) by lia.
Qed.

Lemma truncated_input_unchecked_witness :
  decode (T := std_string) (compact_bytes 3 ++ [Byte.x61]) = Undefined OutOfRange /\
  (1 < 32 -> decode (T := u256) [Byte.x61] = Undefined OutOfRange).
Proof. by apply (truncated_input_unchecked 3 [Byte.x61]). Defined.
