(* ===== verification/Storage.v ===== *)
(** * Storage entries, conditions and table descriptions

    Model of interfaces/storage/Entry.h and interfaces/storage/Common.h, and of
    the interface of interfaces/storage/StorageInterface.h as a class of
    operations.  Keys and table names are strings, values are byte sequences.  A
    callback is the value it is called with: an operation returns it together
    with the new state of the storage. *)

From Stdlib Require Import ZArith Lia List Sorted.
From Stdlib Require Import Strings.String Strings.Byte Strings.Ascii.
From stdpp Require Import base tactics decidable list option strings sorting.
From S2P Require Import Prelude.

(* ------------------------------------------------------------------ *)
(** ** Errors *)

(** [bcos::Error]: a code, and the error it wraps when it has one. *)
Inductive error : Type :=
| Error (code : Z)
| ErrorWithPrev (code : Z) (prev : error).

Definition errorCode (e : error) : Z :=
  match e with Error c => c | ErrorWithPrev c _ => c end.

Definition UnknownError : Z := -60000.
Definition TableNotExists : Z := -59999.
Definition SystemTableNotExists : Z := -59998.
Definition TableExists : Z := -59997.
Definition UnknownEntryType : Z := -59996.
Definition ReadError : Z := -59995.
Definition WriteError : Z := -59994.
Definition EmptyStorage : Z := -59993.
Definition ReadOnly : Z := -59992.

(* ------------------------------------------------------------------ *)
(** ** Entry *)

Module Entry.

Inductive Status : Type := NORMAL | DELETED | PURGED.

#[export] Instance Status_eq_dec : EqDecision Status.
Proof. solve_decision. Defined.

Definition SMALL_SIZE : Z := 32.
Definition MEDIUM_SIZE : Z := 64.

(** The input types of [set]: [std::string], [std::vector<unsigned char>],
    [std::vector<char>]. *)
Inductive Input : Type := IString (s : bytes) | IUChars (s : bytes) | IChars (s : bytes).

#[export] Instance Input_eq_dec : EqDecision Input.
Proof. solve_decision. Defined.

(** [ValueType]: the small buffer, a value, or a shared pointer to one. *)
Inductive ValueType : Type :=
| SBOBuffer (buffer : bytes)
| Inline (value : Input)
| Shared (value : Input).

#[export] Instance ValueType_eq_dec : EqDecision ValueType.
Proof. solve_decision. Defined.

Record Entry : Type := mkEntry
  { m_value : ValueType
  ; m_size : Z
  ; m_status : Status
  ; m_dirty : bool }.

#[export] Instance Entry_eq_dec : EqDecision Entry.
Proof. solve_decision. Defined.

Definition emptySBO : bytes := replicate 32 Byte.x00.

(** [Entry()] and [Entry(TableInfo::ConstPtr)]. *)
Definition newEntry : Entry := mkEntry (SBOBuffer emptySBO) 0 NORMAL false.

(** [inputValueView]. *)
Definition inputValueView (v : Input) : bytes :=
  match v with IString s => s | IUChars s => s | IChars s => s end.

(** [string_view(data, m_size)] over the bytes [raw] an alternative holds. *)
Definition view (raw : bytes) (n : Z) : outcome error bytes :=
  if (0 <=? n) && (n <=? len raw) then Ok (take (Z.to_nat n) raw) else Undefined OutOfRange.

(** [outputValueView] and [get]. *)
Definition get (e : Entry) : outcome error bytes :=
  match m_value e with
  | SBOBuffer b => view b (m_size e)
  | Inline v => view (inputValueView v) (m_size e)
  | Shared v => view (inputValueView v) (m_size e)
  end.

Definition getField (e : Entry) (index : Z) : outcome error bytes :=
  if 0 <? index then Throw (Error (-1)) else get e.

(** [std::copy_n] into the small buffer, of which the rest keeps its contents. *)
Definition copySBO (old : ValueType) (s : bytes) : outcome error ValueType :=
  let buffer := match old with SBOBuffer b => b | _ => emptySBO end in
  if len s <=? len buffer then Ok (SBOBuffer (s ++ drop (length s) buffer))
  else Undefined OutOfRange.

(** [set(Input)]: the size is an [int32_t]. *)
Definition set (e : Entry) (value : Input) : outcome error Entry :=
  let s := inputValueView value in
  let size := swrap 32 (len s) in
  v ← (if size <=? SMALL_SIZE then copySBO (m_value e) s
       else if size <=? MEDIUM_SIZE then Ok (Inline value)
       else Ok (Shared value));
  Ok (mkEntry v size (m_status e) true).

(** [set(p)] for a C string [p]: the characters before the first zero. *)
Definition setChars (e : Entry) (s : bytes) : outcome error Entry :=
  if len s <=? SMALL_SIZE then
    v ← copySBO (m_value e) s;
    Ok (mkEntry v (swrap 32 (len s)) (m_status e) true)
  else set e (IString s).

Definition setField (e : Entry) (index : Z) (value : Input) : outcome error Entry :=
  if 0 <? index then Throw (Error (-1)) else set e value.

Definition setStatus (e : Entry) (status : Status) : Entry :=
  mkEntry (m_value e) (m_size e) status true.

Definition setDirty (e : Entry) (dirty : bool) : Entry :=
  mkEntry (m_value e) (m_size e) (m_status e) dirty.

Definition importFields (e : Entry) (values : list Input) : outcome error Entry :=
  match values with
  | [v] => setField e 0 v
  | _ => Throw (Error UnknownEntryType)
  end.

(** [exportFields]: the value is moved out; what a moved-from value holds is not
    specified, only the size is. *)
Definition exportFields (e : Entry) : ValueType * Entry :=
  (m_value e, mkEntry (m_value e) 0 (m_status e) (m_dirty e)).

(** Boost's archives, writing to a string and reading from one; what is written is
    read back. *)
Class Archive (T : Type) : Type :=
  { save : T -> bytes
  ; load : bytes -> option T }.
Class ArchiveLaw (T : Type) `{Archive T} : Prop :=
  { load_save : forall t : T, load (save t) = Some t }.

Inductive object_exn : Type := EntryError (e : error) | ArchiveError.

Definition getObject `{Archive T} (e : Entry) : outcome object_exn T :=
  v ← mapThrow EntryError (get e);
  match load v with Some t => Ok t | None => Throw ArchiveError end.

Definition setObject `{Archive T} (e : Entry) (t : T) : outcome error Entry :=
  setField e 0 (IString (save t)).

Definition valid (e : Entry) : bool := bool_decide (m_status e = NORMAL).

(** What an entry maintains: the size is that of the value, or fits the buffer. *)
Definition wf (e : Entry) : Prop :=
  0 <= m_size e < 2 ^ 31 /\
  match m_value e with
  | SBOBuffer b => len b = 32 /\ m_size e <= 32
  | Inline v | Shared v => m_size e <= len (inputValueView v)
  end.

Lemma wf_newEntry : wf newEntry.
Proof. by vm_compute. Qed.

Lemma get_wf (e : Entry) : wf e -> exists bs, get e = Ok bs /\ len bs = m_size e.
Proof.
  intros [Hs Hv]. unfold get.
  assert (forall raw, m_size e <= len raw ->
    exists bs, view raw (m_size e) = Ok bs /\ len bs = m_size e) as Hg.
  { intros raw Hr. unfold view.
    rewrite (proj2 (Z.leb_le 0 _)), (proj2 (Z.leb_le _ (len raw))) by lia.
    eexists. split; [done|]. unfold len in *. rewrite length_take. lia. }
  destruct (m_value e); apply Hg; lia.
Qed.

Lemma copySBO_view (old : ValueType) (s : bytes) :
  (forall b, old = SBOBuffer b -> len b = 32) -> len s <= 32 ->
  exists b, copySBO old s = Ok (SBOBuffer b) /\ len b = 32 /\ view b (len s) = Ok s.
Proof.
  intros Ho Hs. unfold copySBO.
  set (buffer := match old with SBOBuffer b => b | _ => emptySBO end).
  assert (len buffer = 32) as Hb by (unfold buffer; destruct old; auto).
  rewrite (proj2 (Z.leb_le _ _)) by lia. eexists. split; [done|].
  pose proof (len_nonneg s).
  assert (len (s ++ drop (length s) buffer) = 32) as Hl
    by (unfold len in *; rewrite length_app, length_drop; lia).
  split; [done|]. unfold view. rewrite Hl, (proj2 (Z.leb_le 0 _)), (proj2 (Z.leb_le _ 32)) by lia.
  simpl. unfold len. by rewrite Nat2Z.id, take_app_length.
Qed.

(** After [set], with any input type and any previous contents, the entry yields
    exactly the new value, is dirty, keeps its status and its invariant. *)
Lemma set_get (e : Entry) (value : Input) :
  wf e -> len (inputValueView value) < 2 ^ 31 ->
  exists e', set e value = Ok e' /\ get e' = Ok (inputValueView value) /\
    m_size e' = len (inputValueView value) /\ m_status e' = m_status e /\
    m_dirty e' = true /\ wf e'.
Proof.
  intros [Hs Hv] Hl. unfold set. set (s := inputValueView value) in *.
  pose proof (len_nonneg s). rewrite swrap_small by lia. unfold SMALL_SIZE, MEDIUM_SIZE.
  assert (forall raw, raw = s -> view raw (len s) = Ok s) as Hview.
  { intros raw ->. unfold view. rewrite (proj2 (Z.leb_le 0 _)), (proj2 (Z.leb_le _ _)) by lia.
    simpl. unfold len. by rewrite Nat2Z.id, firstn_all. }
  destruct (Z.leb_spec (len s) 32).
  - destruct (copySBO_view (m_value e) s) as (b & -> & Hb & Hbv); [|done|].
    { intros b Hb. rewrite Hb in Hv. by destruct Hv. }
    simpl. eexists. split; [done|]. unfold get, wf; simpl. split_and!; done || lia.
  - destruct (Z.leb_spec (len s) 64); simpl; eexists; (split; [done|]);
      unfold get, wf; simpl; split_and!; first [done|lia|by apply Hview].
Qed.

(** An object stored in an entry is read back from it, whatever the entry held. *)
Theorem object_roundtrip `{ArchiveLaw T} (e : Entry) (t : T) :
  wf e -> len (save t) < 2 ^ 31 ->
  exists e', setObject e t = Ok e' /\ getObject e' = Ok t /\
    m_status e' = m_status e /\ m_dirty e' = true /\ wf e'.
Proof.
  intros He Hl. destruct (set_get e (IString (save t)) He Hl) as (e' & Hs & Hg & _ & Hst & Hd & Hw).
  exists e'. split_and!; [done | | done..]. unfold getObject. rewrite Hg. cbn. by rewrite load_save.
Qed.

(** An archive of strings that writes them as they are. *)
#[export] Instance stringArchive : Archive bytes := {| save s := s; load s := Some s |}.
#[export] Instance stringArchive_law : ArchiveLaw bytes.
Proof. by split. Qed.

Lemma object_roundtrip_witness :
  exists e, setObject newEntry [Byte.x61] = Ok e /\ getObject e = Ok [Byte.x61] /\
    m_status e = NORMAL /\ m_dirty e = true /\ wf e.
Proof. apply (object_roundtrip newEntry [Byte.x61] wf_newEntry). by vm_compute. Defined.

Lemma get_setDirty (e : Entry) (b : bool) : get (setDirty e b) = get e.
Proof. by destruct e. Qed.

End Entry.

(* ------------------------------------------------------------------ *)
(** ** Condition *)

Module Condition.

Inductive Comparator : Type := EQ | NE | GT | GE | LT | LE.

Record cond : Type := mkCond { cmp : Comparator; value : string }.

Record Condition : Type := mkCondition
  { m_conditions : list cond
  ; m_limit : Z * Z }.

Definition empty_condition : Condition := mkCondition [] (0, 0).

(** [NE], [GT], [GE], [LT], [LE] append a condition; [limit] sets the range. *)
Definition add (cmp : Comparator) (value : string) (c : Condition) : Condition :=
  mkCondition (m_conditions c ++ [mkCond cmp value]) (m_limit c).
Definition limit (start end_ : Z) (c : Condition) : Condition :=
  mkCondition (m_conditions c) (start, end_).

(** Comparison of strings, byte by byte. *)
Definition strLt (a b : string) : bool :=
  match String.compare a b with Lt => true | _ => false end.

(** The loop of [isValid]. *)
Fixpoint allValid (cs : list cond) (key : string) : bool :=
  match cs with
  | [] => true
  | c :: cs' =>
      let fails :=
        match cmp c with
        | NE => String.eqb key (value c)
        | GT => negb (strLt (value c) key)
        | GE => strLt key (value c)
        | LT => negb (strLt key (value c))
        | LE => strLt (value c) key
        | EQ => false
        end in
      if fails then false else allValid cs' key
  end.

Definition isValid (c : Condition) (key : string) : bool := allValid (m_conditions c) key.

(** What a comparison requires of a key; [EQ] is not checked by the code. *)
Definition satisfies (key : string) (c : cond) : Prop :=
  match cmp c with
  | EQ => True
  | NE => key ≠ value c
  | GT => String.compare key (value c) = Gt
  | GE => String.compare key (value c) ≠ Lt
  | LT => String.compare key (value c) = Lt
  | LE => String.compare key (value c) ≠ Gt
  end.

Lemma strLt_Lt (a b : string) : strLt a b = true <-> String.compare a b = Lt.
Proof. unfold strLt. by destruct (String.compare a b). Qed.

Lemma strLt_Gt (a b : string) : strLt b a = true <-> String.compare a b = Gt.
Proof.
  rewrite strLt_Lt, String.compare_antisym. by destruct (String.compare a b).
Qed.

(** A key is valid when it satisfies each condition that was added. *)
Theorem isValid_iff (c : Condition) (key : string) :
  isValid c key = true <-> Forall (satisfies key) (m_conditions c).
Proof.
  unfold isValid. induction (m_conditions c) as [|[k v] cs IH]; simpl; [done|].
  rewrite Forall_cons. unfold satisfies at 1; simpl.
  pose proof (strLt_Lt key v) as HL. pose proof (strLt_Gt key v) as HG.
  pose proof (String.eqb_eq key v) as HE.
  destruct k; simpl; destruct (strLt key v), (strLt v key), (String.eqb key v);
    destruct (String.compare key v); naive_solver.
Qed.

End Condition.

(* ------------------------------------------------------------------ *)
(** ** TableInfo *)

Module TableInfo.

Definition name_le (a b : string * Z) : Prop := String.leb (fst a) (fst b) = true.
#[export] Instance name_le_dec : RelDecision name_le.
Proof. intros a b. unfold name_le. apply _. Defined.

Record TableInfo : Type := mkTableInfo
  { m_name : string
  ; m_fields : list string
  ; m_order : list (string * Z) }.

(** The constructor: the fields paired with their positions, sorted by name. *)
Definition newTableInfo (name : string) (fields : list string) : TableInfo :=
  mkTableInfo name fields (merge_sort name_le (imap (fun i f => (f, Z.of_nat i)) fields)).

(** [std::lower_bound]: the first position not below [field]. *)
Fixpoint lower_bound (order : list (string * Z)) (field : string) : option (string * Z) :=
  match order with
  | [] => None
  | p :: order' => if Condition.strLt (fst p) field then lower_bound order' field else Some p
  end.

Definition fieldIndex (t : TableInfo) (field : string) : outcome error Z :=
  match lower_bound (m_order t) field with
  | Some (f, i) => if String.eqb f field then Ok i else Throw (Error (-1))
  | None => Throw (Error (-1))
  end.

Lemma leb_not_lt (a b : string) : String.leb a b = negb (Condition.strLt b a).
Proof.
  unfold String.leb, Condition.strLt. rewrite (String.compare_antisym b a).
  by destruct (String.compare a b).
Qed.

Lemma compare_trans (c : comparison) (s1 s2 s3 : string) :
  c ≠ Eq -> String.compare s1 s2 = c -> String.compare s2 s3 = c -> String.compare s1 s3 = c.
Proof.
  intros Hc. revert s2 s3. induction s1 as [|x s1 IH]; intros [|y s2] [|z s3]; simpl; try congruence.
  unfold Ascii.compare.
  destruct (N.compare_spec (N_of_ascii x) (N_of_ascii y)),
    (N.compare_spec (N_of_ascii y) (N_of_ascii z)),
    (N.compare_spec (N_of_ascii x) (N_of_ascii z));
    intros E1 E2; first [lia | by eauto | congruence].
Qed.

Lemma compare_refl (s : string) : String.compare s s = Eq.
Proof.
  induction s as [|c s IH]; simpl; [done|]. unfold Ascii.compare. by rewrite N.compare_refl.
Qed.

#[export] Instance name_le_trans : Transitive name_le.
Proof.
  intros [x nx] [y ny] [z nz]; unfold name_le; simpl. unfold String.leb.
  destruct (String.compare x y) eqn:E1; [|..]; try done.
  - apply String.compare_eq_iff in E1. by subst.
  - destruct (String.compare y z) eqn:E2; try done.
    + apply String.compare_eq_iff in E2. subst. by rewrite E1.
    + by rewrite (compare_trans Lt x y z).
Qed.

#[export] Instance name_le_total : Total name_le.
Proof. intros [x nx] [y ny]. apply String.leb_total. Qed.

Lemma lower_bound_found (l : list (string * Z)) (field : string) (i : Z) :
  StronglySorted name_le l -> (field, i) ∈ l ->
  exists j, lower_bound l field = Some (field, j) /\ (field, j) ∈ l.
Proof.
  induction 1 as [|[f k] l Hs IH Hx]; [by rewrite elem_of_nil|].
  rewrite elem_of_cons. simpl. intros Hin.
  destruct (Condition.strLt f field) eqn:E.
  - destruct Hin as [[= <- <-]|Hin].
    + apply Condition.strLt_Lt in E.
      by rewrite compare_refl in E.
    + destruct (IH Hin) as (j & Hj & Hjl). exists j. split; [done|]. by apply elem_of_cons; right.
  - exists k. assert (f = field) as ->; [|split; [done|by left]].
    destruct Hin as [[= <- <-]|Hin]; [done|].
    rewrite List.Forall_forall in Hx. specialize (Hx _ (proj1 (list_elem_of_In _ _) Hin)).
    unfold name_le in Hx; simpl in Hx. unfold String.leb in Hx. unfold Condition.strLt in E.
    apply String.compare_eq_iff. by destruct (String.compare f field).
Qed.

Lemma lower_bound_elem (l : list (string * Z)) (field : string) (p : string * Z) :
  lower_bound l field = Some p -> p ∈ l.
Proof.
  induction l as [|q l IH]; simpl; [done|]. case_match.
  - intros Hp. apply elem_of_cons. right. by apply IH.
  - intros [= <-]. by left.
Qed.

(** Looking up a field of a table yields a position that holds that field; a
    name that is not a field is refused with an exception. *)
Theorem fieldIndex_spec (name : string) (fields : list string) (field : string) :
  match fieldIndex (newTableInfo name fields) field with
  | Ok i => 0 <= i /\ fields !! Z.to_nat i = Some field
  | Throw e => e = Error (-1) /\ field ∉ fields
  | Undefined _ => False
  end.
Proof.
  unfold fieldIndex, newTableInfo; simpl.
  set (pairs := imap (fun i f => (f, Z.of_nat i)) fields). set (order := merge_sort name_le pairs).
  assert (StronglySorted name_le order) as Hs by (apply StronglySorted_merge_sort; apply _).
  assert (forall p, p ∈ order <-> p ∈ pairs) as Hp
    by (intros p; unfold order; by rewrite merge_sort_Permutation).
  assert (forall f i, (f, i) ∈ pairs -> 0 <= i /\ fields !! Z.to_nat i = Some f) as Hf.
  { intros f i Hin. apply elem_of_lookup_imap in Hin as (k & g & [= -> ->] & Hk).
    split; [lia|]. by rewrite Nat2Z.id. }
  destruct (decide (field ∈ fields)) as [Hin|Hout].
  - apply list_elem_of_lookup in Hin as [k Hk].
    destruct (lower_bound_found order field (Z.of_nat k) Hs) as (j & -> & Hj).
    { apply Hp, elem_of_lookup_imap. by exists k, field. }
    rewrite String.eqb_refl. apply Hf. by apply Hp.
  - destruct (lower_bound order field) as [[f i]|] eqn:E; [|done].
    destruct (String.eqb_spec f field) as [->|]; [|done]. exfalso. apply Hout.
    apply lower_bound_elem in E. apply Hp, Hf in E as [_ E]. by eapply list_elem_of_lookup_2.
Qed.

End TableInfo.

(* ------------------------------------------------------------------ *)
(** ** The storage interface *)

Import Entry.

(** The pure virtual functions of [StorageInterface] on a storage of state [S]. *)
Class StorageInterface (S : Type) : Type :=
  { getPrimaryKeys : string -> option Condition.Condition -> S ->
      (option error * list string) * S
  ; getRow : string -> string -> S -> (option error * option Entry) * S
  ; getRows : string -> list string -> S -> (option error * list (option Entry)) * S
  ; setRow : string -> string -> Entry -> S -> option error * S }.

(** The contents of an entry, its dirty flag aside. *)
Definition clean (e : Entry) : Entry := setDirty e false.

Lemma clean_setDirty (e : Entry) (b : bool) : clean (setDirty e b) = clean e.
Proof. by destruct e. Qed.

Lemma clean_clean (e : Entry) : clean (clean e) = clean e.
Proof. by destruct e. Qed.

(** What a storage promises its readers: the rows it shows, which reading does
    not change; no error is reported. *)
Class StorageReads (S : Type) `{StorageInterface S} : Type :=
  { row : S -> string -> string -> option Entry
  ; row_clean : forall s t k e, row s t k = Some e -> clean e = e /\ m_status e = NORMAL
  ; getRow_answer : forall s t k, (getRow t k s).1.1 = None /\
      clean <$> (getRow t k s).1.2 = row s t k
  ; getRow_keeps : forall s t k t' k', row (getRow t k s).2 t' k' = row s t' k'
  ; getRows_answer : forall s t ks, (getRows t ks s).1.1 = None /\
      fmap clean <$> (getRows t ks s).1.2 = row s t <$> ks
  ; getRows_keeps : forall s t ks t' k', row (getRows t ks s).2 t' k' = row s t' k' }.
