(* ===== verification/StateStorage.v ===== *)
(** * State storage

    Model of libstorage/StateStorage.h and StateStorage.cpp: a cache of rows in
    front of another storage, with a change log for rollback.  The storage
    behind it is any implementation of the interface; reading it may change its
    state (it may be a state storage itself).  The model is sequential: one
    thread, whose recoder is the active one. *)

From Stdlib Require Import ZArith Lia List.
From Stdlib Require Import Strings.String Strings.Byte.
From stdpp Require Import base tactics decidable list option strings gmap sorting.
From S2P Require Import Prelude FixedBytes Storage.
Import Entry.

Module StateStorage.

(** [Recoder::Change]: the row a write found, or none. *)
Record Change : Type := mkChange
  { ch_table : string
  ; ch_key : string
  ; ch_entry : option Entry }.

(** [Recoder]: the latest change first. *)
Abbreviation Recoder := (list Change).
Definition log (change : Change) (r : Recoder) : Recoder := change :: r.

Section StateStorage.
Context {P : Type} `{StorageInterface P}.

Record StateStorage : Type := mkStateStorage
  { m_data : gmap (string * string) Entry
  ; m_recoder : option Recoder
  ; m_prev : option P
  ; m_capacity : Z
  ; m_enableTraverse : bool
  ; m_readOnly : bool }.

(** [StateStorage(prev)]. *)
Definition newStateStorage (prev : option P) : StateStorage :=
  mkStateStorage ∅ None prev 0 false false.

Definition with_data (d : gmap (string * string) Entry) (s : StateStorage) : StateStorage :=
  mkStateStorage d (m_recoder s) (m_prev s) (m_capacity s) (m_enableTraverse s) (m_readOnly s).

Definition setPrev (prev : option P) (s : StateStorage) : StateStorage :=
  mkStateStorage (m_data s) (m_recoder s) prev (m_capacity s) (m_enableTraverse s) (m_readOnly s).

Definition setRecoder (r : option Recoder) (s : StateStorage) : StateStorage :=
  mkStateStorage (m_data s) r (m_prev s) (m_capacity s) (m_enableTraverse s) (m_readOnly s).

Definition setEnableTraverse (b : bool) (s : StateStorage) : StateStorage :=
  mkStateStorage (m_data s) (m_recoder s) (m_prev s) (m_capacity s) b (m_readOnly s).

Definition setReadOnly (b : bool) (s : StateStorage) : StateStorage :=
  mkStateStorage (m_data s) (m_recoder s) (m_prev s) (m_capacity s) (m_enableTraverse s) b.

(** [importExistingEntry]. *)
Definition importExistingEntry (table key : string) (entry : Entry) (s : StateStorage) :
    Entry * StateStorage :=
  if m_readOnly s then (entry, s)
  else
    let entry := setDirty entry false in
    match m_data s !! (table, key) with
    | Some exists_ => (exists_, s)
    | None => (entry, with_data (<[(table, key) := entry]> (m_data s)) s)
    end.

Definition asyncGetRow (table key : string) (s : StateStorage) :
    (option error * option Entry) * StateStorage :=
  match m_data s !! (table, key) with
  | Some entry =>
      if bool_decide (m_status entry ≠ NORMAL) then ((None, None), s)
      else ((None, Some entry), s)
  | None =>
      match m_prev s with
      | None => ((None, None), s)
      | Some prev =>
          let '((err, entry), prev') := getRow table key prev in
          let s := setPrev (Some prev') s in
          match err with
          | Some e => ((Some (ErrorWithPrev ReadError e), None), s)
          | None =>
              match entry with
              | Some e =>
                  let '(e', s') := importExistingEntry table key e s in ((None, Some e'), s')
              | None => ((None, None), s)
              end
          end
      end
  end.

(** The first loop of [asyncGetRows]: the rows found, and the missing keys with
    their positions from [i] on. *)
Fixpoint findRows (table : string) (keys : list string) (i : nat) (s : StateStorage) :
    list (option Entry) * list (string * nat) :=
  match keys with
  | [] => ([], [])
  | key :: keys' =>
      let '(results, missing) := findRows table keys' (S i) s in
      match m_data s !! (table, key) with
      | Some entry =>
          (if bool_decide (m_status entry = NORMAL) then Some entry :: results
           else None :: results, missing)
      | None => (None :: results, (key, i) :: missing)
      end
  end.

(** The loop over the rows the previous storage returned. *)
Fixpoint importRows (table : string) (missing : list (string * nat))
    (entries : list (option Entry)) (results : list (option Entry)) (s : StateStorage) :
    list (option Entry) * StateStorage :=
  match missing, entries with
  | (key, i) :: missing', entry :: entries' =>
      match entry with
      | Some e =>
          let '(e', s') := importExistingEntry table key e s in
          importRows table missing' entries' (<[i := Some e']> results) s'
      | None => importRows table missing' entries' results s
      end
  | _, _ => (results, s)
  end.

Definition asyncGetRows (table : string) (keys : list string) (s : StateStorage) :
    (option error * list (option Entry)) * StateStorage :=
  let '(results, missing) := findRows table keys 0 s in
  match m_prev s with
  | Some prev =>
      if bool_decide (missing ≠ []) then
        let '((err, entries), prev') := getRows table (map fst missing) prev in
        let s := setPrev (Some prev') s in
        match err with
        | Some e => ((Some (ErrorWithPrev ReadError e), []), s)
        | None =>
            let '(results', s') := importRows table missing entries results s in
            ((None, results'), s')
        end
      else ((None, results), s)
  | None => ((None, results), s)
  end.

(** [asyncSetRow]. *)
Definition asyncSetRow (table key : string) (entry : Entry) (s : StateStorage) :
    option error * StateStorage :=
  if m_readOnly s then (Some (Error ReadOnly), s)
  else
    let finish entryOld data updatedCapacity :=
      (None, mkStateStorage data
        (log (mkChange table key entryOld) <$> m_recoder s)
        (m_prev s) (u64 (m_capacity s + updatedCapacity)) (m_enableTraverse s) (m_readOnly s)) in
    match m_data s !! (table, key) with
    | Some entryOld =>
        finish (Some entryOld)
          (if bool_decide (m_status entry = PURGED) then delete (table, key) (m_data s)
           else <[(table, key) := entry]> (m_data s))
          (m_size entry - m_size entryOld)
    | None =>
        if bool_decide (m_status entry = PURGED) then (None, s)
        else finish None (<[(table, key) := entry]> (m_data s)) (m_size entry)
    end.

(** One iteration of [rollback]. *)
Definition revert (change : Change) (data : gmap (string * string) Entry) :
    outcome error (gmap (string * string) Entry) :=
  let k := (ch_table change, ch_key change) in
  match ch_entry change with
  | Some e => Ok (<[k := e]> data)
  | None =>
      match data !! k with
      | Some _ => Ok (delete k data)
      | None => Throw (Error UnknownError)
      end
  end.

Fixpoint revertAll (r : Recoder) (data : gmap (string * string) Entry) :
    outcome error (gmap (string * string) Entry) :=
  match r with
  | [] => Ok data
  | change :: r' => data' ← revert change data; revertAll r' data'
  end.

Definition rollback (r : Recoder) (s : StateStorage) : outcome error StateStorage :=
  if m_readOnly s then Ok s
  else data ← revertAll r (m_data s); Ok (with_data data s).

(** [asyncGetPrimaryKeys]: the local keys of the table with their status. *)
Definition localKeys (table : string) (condition : option Condition.Condition)
    (s : StateStorage) : gmap string Status :=
  if m_enableTraverse s then
    map_fold (fun '(t, k) e acc =>
      if bool_decide (t = table) &&
         match condition with Some c => Condition.isValid c k | None => true end
      then <[k := m_status e]> acc else acc) ∅ (m_data s)
  else ∅.

(** The keys of the local map that are live, in the order of [std::map]. *)
Definition str_le (a b : string) : Prop := String.leb a b = true.
#[export] Instance str_le_dec : RelDecision str_le.
Proof. intros a b. unfold str_le. apply _. Defined.

Definition liveKeys (local : gmap string Status) : list string :=
  merge_sort str_le (map fst (filter (fun p => p.2 = NORMAL) (map_to_list local))).

(** The merge of the remote keys: one that is locally dead is dropped, and each
    that is locally known leaves the local map. *)
Fixpoint mergeKeys (remote : list string) (local : gmap string Status) :
    list string * gmap string Status :=
  match remote with
  | [] => ([], local)
  | k :: remote' =>
      match local !! k with
      | Some st =>
          let '(ks, local') := mergeKeys remote' (delete k local) in
          (if bool_decide (st ≠ NORMAL) then ks else k :: ks, local')
      | None =>
          let '(ks, local') := mergeKeys remote' local in (k :: ks, local')
      end
  end.

Definition asyncGetPrimaryKeys (table : string) (condition : option Condition.Condition)
    (s : StateStorage) : (option error * list string) * StateStorage :=
  let local := localKeys table condition s in
  match m_prev s with
  | None => ((None, liveKeys local), s)
  | Some prev =>
      let '((err, remote), prev') := getPrimaryKeys table condition prev in
      let s := setPrev (Some prev') s in
      match err with
      | Some e => ((Some (ErrorWithPrev ReadError e), []), s)
      | None =>
          let '(ks, local') := mergeKeys remote local in
          ((None, ks ++ liveKeys local'), s)
      end
  end.

(** [parallelTraverse]: the rows the callback is called with. *)
Definition parallelTraverse (onlyDirty : bool) (s : StateStorage) :
    list ((string * string) * Entry) :=
  filter (fun p => onlyDirty = false \/ m_dirty p.2 = true) (map_to_list (m_data s)).

(** [hash]: the digests of the dirty rows, combined with [^=]. *)
Section Hash.
Context (hashImpl : bytes -> bytes).

Definition digest (e : Entry) : outcome error bytes :=
  if bool_decide (m_status e ≠ DELETED) then hashImpl <$> getField e 0
  else Ok (FixedBytes.fromArith 32 1).

Fixpoint hashRows (rows : list ((string * string) * Entry)) (totalHash : bytes) :
    outcome error bytes :=
  match rows with
  | [] => Ok totalHash
  | (_, e) :: rows' =>
      if m_dirty e then d ← digest e; hashRows rows' (FixedBytes.xor_assign totalHash d)
      else hashRows rows' totalHash
  end.

Definition hash (s : StateStorage) : outcome error bytes :=
  hashRows (map_to_list (m_data s)) (FixedBytes.zeroed 32).
End Hash.

(** A state storage is a storage: it can be the previous one of another. *)
#[export] Instance stateStorage_interface : StorageInterface StateStorage :=
  {| getPrimaryKeys := asyncGetPrimaryKeys
   ; getRow := asyncGetRow
   ; getRows := asyncGetRows
   ; setRow := asyncSetRow |}.

End StateStorage.
Global Arguments StateStorage : clear implicits.
End StateStorage.

(* ------------------------------------------------------------------ *)
(** ** Reading *)

Module StateStorageFacts.
Import StateStorage.

Section Reads.
Context {P : Type} `{Reads : StorageReads P}.
Abbreviation Storage := (StateStorage P).

(** The row a state storage shows: its own when it has one, live or dead, else
    that of the storage behind it. *)
Definition shown (s : Storage) (t k : string) : option Entry :=
  match m_data s !! (t, k) with
  | Some e => if bool_decide (m_status e = NORMAL) then Some (clean e) else None
  | None => m_prev s ≫= fun p => row p t k
  end.

Lemma shown_clean (s : Storage) t k e :
  shown s t k = Some e -> clean e = e /\ m_status e = NORMAL.
Proof.
  unfold shown. destruct (m_data s !! (t, k)) as [x|].
  - case_bool_decide; [|done]. intros Hx. apply (inj Some) in Hx as <-.
    split; [apply clean_clean|done].
  - destruct (m_prev s) as [p|]; [|done]. simpl. apply row_clean.
Qed.

(** Importing a row that is shown already changes nothing that is shown. *)
Lemma import_shown (s : Storage) t k e :
  shown s t k = Some (clean e) ->
  clean (importExistingEntry t k e s).1 = clean e /\
  m_prev (importExistingEntry t k e s).2 = m_prev s /\
  forall t' k', shown (importExistingEntry t k e s).2 t' k' = shown s t' k'.
Proof.
  intros Hs. unfold importExistingEntry. destruct (m_readOnly s); [done|].
  destruct (m_data s !! (t, k)) as [x|] eqn:Hx; simpl.
  - unfold shown in Hs. rewrite Hx in Hs. case_bool_decide; [|done].
    by apply (inj Some) in Hs.
  - split; [apply clean_setDirty|]. split; [done|]. intros t' k'.
    destruct (decide ((t', k') = (t, k))) as [[= -> ->]|Hne].
    + rewrite Hs. unfold shown; simpl. rewrite lookup_insert_eq.
      apply shown_clean in Hs as [_ Hn]. change (m_status (setDirty e false) = NORMAL) in Hn.
      rewrite bool_decide_eq_true_2 by done. by rewrite clean_setDirty.
    + unfold shown; simpl. by rewrite lookup_insert_ne.
Qed.

Lemma shown_setPrev (s : Storage) p p' t k :
  m_prev s = Some p -> (forall t k, row p' t k = row p t k) ->
  shown (setPrev (Some p') s) t k = shown s t k.
Proof. intros Hp Hr. unfold shown; simpl. case_match; [done|]. rewrite Hp. simpl. apply Hr. Qed.

Lemma getRow_shown (s : Storage) t k :
  (asyncGetRow t k s).1.1 = None /\ clean <$> (asyncGetRow t k s).1.2 = shown s t k /\
  forall t' k', shown (asyncGetRow t k s).2 t' k' = shown s t' k'.
Proof.
  unfold asyncGetRow. destruct (m_data s !! (t, k)) as [e|] eqn:Hd.
  { unfold shown at 1. rewrite Hd. repeat case_bool_decide; done. }
  assert (shown s t k = m_prev s ≫= fun p => row p t k) as Hs by (unfold shown; by rewrite Hd).
  destruct (m_prev s) as [p|] eqn:Hp; [|by rewrite Hs]. simpl in Hs.
  destruct (getRow_answer p t k) as [He Hr]. pose proof (getRow_keeps p t k) as Hk.
  destruct (getRow t k p) as [[err entry] p']. simpl in *. subst err.
  pose proof (fun t' k' => shown_setPrev s p p' t' k' Hp Hk) as Hsp.
  destruct entry as [e|]; simpl in *.
  - destruct (import_shown (setPrev (Some p') s) t k e) as (Hi & _ & Hn).
    { by rewrite Hsp, Hs, <- Hr. }
    destruct (importExistingEntry t k e _) as [e' s']. simpl in *.
    split; [done|]. split; [by rewrite Hi, Hs|]. intros. by rewrite Hn, Hsp.
  - split; [done|]. split; [by rewrite Hs|done].
Qed.

(** ** Reading several rows *)

Lemma findRows_spec (s : Storage) t keys i :
  let '(results, missing) := findRows t keys i s in
  length results = length keys /\ NoDup missing.*2 /\
  (forall j key, keys !! j = Some key ->
     match m_data s !! (t, key) with
     | Some e => results !! j = Some (if bool_decide (m_status e = NORMAL) then Some e else None)
     | None => results !! j = Some None /\ (key, (i + j)%nat) ∈ missing
     end) /\
  (forall key n, (key, n) ∈ missing ->
     exists j, n = (i + j)%nat /\ keys !! j = Some key /\ m_data s !! (t, key) = None).
Proof.
  revert i; induction keys as [|key keys IH]; intros i; simpl.
  - split; [done|]. split; [constructor|]. split; [done|]. intros ? ? Hn. by apply elem_of_nil in Hn.
  - specialize (IH (S i)). destruct (findRows t keys (S i) s) as [results missing].
    destruct IH as (Hl & Hd & Hk & Hm).
    assert (forall j key', (key' :: keys) !! S j = keys !! j) as Hcons by done.
    destruct (m_data s !! (t, key)) as [e|] eqn:He.
    + split; [by case_bool_decide; simpl; rewrite Hl|]. split; [done|]. split.
      * intros [|j] key' Hj; simpl in *; [injection Hj as <-; rewrite He; by case_bool_decide|].
        specialize (Hk j key' Hj). rewrite Nat.add_succ_r.
        destruct (bool_decide (m_status e = NORMAL)); exact Hk.
      * intros key' n Hn. destruct (Hm key' n Hn) as (j & -> & Hj & Hnone).
        exists (S j). split; [lia|done].
    + split; [by simpl; rewrite Hl|]. split.
      { simpl. constructor; [|done]. intros Hin. apply list_elem_of_fmap in Hin as ([key' n] & Hn & Hin).
        destruct (Hm key' n Hin) as (j & Hj & _). simpl in Hn. lia. }
      split.
      * intros [|j] key' Hj; simpl in *.
        -- injection Hj as <-. rewrite He, Nat.add_0_r. split; [done|by left].
        -- specialize (Hk j key' Hj). rewrite Nat.add_succ_r.
           destruct (m_data s !! (t, key')); [done|]. destruct Hk. split; [done|by right].
      * intros key' n Hn. apply elem_of_cons in Hn as [[= -> ->]|Hn].
        -- exists O. by rewrite Nat.add_0_r.
        -- destruct (Hm key' n Hn) as (j & -> & Hj & Hnone). exists (S j). split; [lia|done].
Qed.

Lemma importRows_spec t missing entries : forall (results : list (option Entry)) (s : Storage),
  Forall2 (fun m e => clean <$> e = shown s t m.1) missing entries ->
  NoDup missing.*2 -> (forall key n, (key, n) ∈ missing -> results !! n = Some None) ->
  let r := importRows t missing entries results s in
  (forall t' k', shown r.2 t' k' = shown s t' k') /\ length r.1 = length results /\
  (forall n, n ∉ missing.*2 -> r.1 !! n = results !! n) /\
  (forall key n, (key, n) ∈ missing ->
     exists x, r.1 !! n = Some x /\ clean <$> x = shown s t key).
Proof.
  revert entries. induction missing as [|[key i] missing IH]; intros entries results s Hf Hd Hr.
  - inversion Hf; subst. simpl. split_and!; try done. intros ? ? Hn. by apply elem_of_nil in Hn.
  - inversion Hf as [|? e ? entries' He Hf']; subst. simpl in *.
    apply NoDup_cons in Hd as [Hi Hd]. pose proof (Hr key i ltac:(by left)) as Hri.
    assert (forall key' n, (key', n) ∈ missing -> n ≠ i) as Hni.
    { intros key' n Hn ->. apply Hi. apply list_elem_of_fmap. by exists (key', i). }
    destruct e as [e|].
    + destruct (import_shown s t key e) as (Hc & _ & Hsh); [done|].
      destruct (importExistingEntry t key e s) as [e' s']. simpl in *.
      destruct (IH entries' (<[i:=Some e']> results) s') as (H1 & H2 & H3 & H4).
      { eapply Forall2_impl; [exact Hf'|]. intros m x Hx. by rewrite Hsh. }
      { done. }
      { intros key' n Hn. rewrite list_lookup_insert_ne by (apply not_eq_sym; by eapply Hni).
        apply (Hr key'). by right. }
      split_and!.
      * intros. by rewrite H1, Hsh.
      * by rewrite H2, length_insert.
      * intros n Hn. apply not_elem_of_cons in Hn as [Hn1 Hn2]. rewrite H3 by done.
        by rewrite list_lookup_insert_ne.
      * intros key' n Hn. apply elem_of_cons in Hn as [[= -> ->]|Hn].
        -- exists (Some e'). rewrite H3 by done. rewrite list_lookup_insert_eq; [|by eapply lookup_lt_Some].
           split; [done|]. simpl. by rewrite Hc, <- He.
        -- destruct (H4 key' n Hn) as (x & Hx & Hxc). exists x. by rewrite <- Hsh.
    + destruct (IH entries' results s) as (H1 & H2 & H3 & H4); [done|done| |].
      { intros key' n Hn. apply (Hr key'). by right. }
      split_and!; try done.
      * intros n Hn. apply not_elem_of_cons in Hn as [Hn1 Hn2]. by apply H3.
      * intros key' n Hn. apply elem_of_cons in Hn as [[= -> ->]|Hn]; [|by apply H4].
        exists None. by rewrite H3.
Qed.

(** The storage behind answers what is shown for the missing rows. *)
Lemma missing_shown (s : Storage) t keys results missing p :
  findRows t keys 0 s = (results, missing) -> m_prev s = Some p ->
  let r := getRows t (map fst missing) p in
  Forall2 (fun m e => clean <$> e = shown (setPrev (Some r.2) s) t m.1) missing r.1.2.
Proof.
  intros Hf Hp. pose proof (findRows_spec s t keys 0) as Hfind. rewrite Hf in Hfind.
  destruct Hfind as (_ & _ & _ & Hm). simpl.
  destruct (getRows_answer p t (map fst missing)) as [_ Hr].
  pose proof (getRows_keeps p t (map fst missing)) as Hkeep.
  destruct (getRows t (map fst missing) p) as [[err entries] p']. simpl in *.
  apply Forall2_same_length_lookup. split.
  { apply (f_equal length) in Hr. rewrite !length_fmap in Hr. by rewrite Hr. }
  intros n [key i] e Hn Hen. apply (f_equal (lookup n)) in Hr.
  rewrite !list_lookup_fmap, Hen, Hn in Hr. simpl in Hr. injection Hr as Hr.
  rewrite Hr, (shown_setPrev s p p') by done. destruct (Hm key i) as (j & _ & _ & Hnone).
  { by eapply list_elem_of_lookup_2. }
  unfold shown. simpl. by rewrite Hnone, Hp.
Qed.

Lemma getRows_shown (s : Storage) t keys :
  (asyncGetRows t keys s).1.1 = None /\
  fmap clean <$> (asyncGetRows t keys s).1.2 = shown s t <$> keys /\
  forall t' k', shown (asyncGetRows t keys s).2 t' k' = shown s t' k'.
Proof.
  unfold asyncGetRows. pose proof (findRows_spec s t keys 0) as Hfind.
  destruct (findRows t keys 0 s) as [results missing] eqn:Efind. destruct Hfind as (Hl & Hd & Hk & Hm).
  assert (forall r, length r = length keys ->
    (forall j key, keys !! j = Some key -> exists x, r !! j = Some x /\ clean <$> x = shown s t key) ->
    fmap clean <$> r = shown s t <$> keys) as Hpoint.
  { intros r Hlr Hr. apply list_eq. intros j. rewrite !list_lookup_fmap.
    destruct (keys !! j) as [key|] eqn:Hj; simpl.
    - destruct (Hr j key Hj) as (x & -> & Hx). simpl. by rewrite Hx.
    - apply lookup_ge_None in Hj. by rewrite lookup_ge_None_2 by lia. }
  assert (forall j key e, keys !! j = Some key -> m_data s !! (t, key) = Some e ->
    exists x, results !! j = Some x /\ clean <$> x = shown s t key) as Hlocal.
  { intros j key e Hj He. specialize (Hk j key Hj). rewrite He in Hk. eexists. split; [exact Hk|].
    unfold shown. rewrite He. by case_bool_decide. }
  destruct (m_prev s) as [p|] eqn:Hp; [case_bool_decide as Hmiss|].
  - destruct (getRows_answer p t (map fst missing)) as [He _].
    pose proof (getRows_keeps p t (map fst missing)) as Hkeep.
    pose proof (missing_shown s t keys results missing p Efind Hp) as Hmissing.
    destruct (getRows t (map fst missing) p) as [[err entries] p']. simpl in *. subst err.
    pose proof (fun t' k' => shown_setPrev s p p' t' k' Hp Hkeep) as Hsp.
    destruct (importRows_spec t missing entries results (setPrev (Some p') s)) as (H1 & H2 & H3 & H4).
    { exact Hmissing. }
    { done. }
    { intros key n Hn. destruct (Hm key n Hn) as (j & -> & Hj & Hnone). simpl.
      specialize (Hk j key Hj). rewrite Hnone in Hk. apply Hk. }
    destruct (importRows t missing entries results _) as [r' s']. simpl in *.
    split; [done|]. split; [|intros; by rewrite H1, Hsp]. apply Hpoint; [lia|].
    intros j key Hj. destruct (m_data s !! (t, key)) as [e|] eqn:He.
    + rewrite H3; [by eapply Hlocal|]. intros Hin. apply list_elem_of_fmap in Hin as ([key' n] & -> & Hn).
      destruct (Hm key' _ Hn) as (j' & Hj' & Hk' & Hnone). simpl in Hj'. subst n.
      simpl in *. congruence.
    + specialize (Hk j key Hj). rewrite He in Hk. destruct Hk as [_ Hk].
      destruct (H4 key j Hk) as (x & Hx & Hxc). exists x. by rewrite <- Hsp.
  - split; [done|]. split; [|done]. apply Hpoint; [done|]. intros j key Hj.
    destruct (m_data s !! (t, key)) as [e|] eqn:He; [by eapply Hlocal|].
    specialize (Hk j key Hj). rewrite He in Hk. destruct Hk as [_ Hin].
    rewrite Hmiss in Hin. by apply elem_of_nil in Hin.
  - split; [done|]. split; [|done]. apply Hpoint; [done|]. intros j key Hj.
    destruct (m_data s !! (t, key)) as [e|] eqn:He; [by eapply Hlocal|].
    specialize (Hk j key Hj). rewrite He in Hk. destruct Hk as [Hres _]. exists None.
    split; [done|]. unfold shown. by rewrite He, Hp.
Qed.

(** A state storage keeps the promise it relies on: stacks of any depth do. *)
#[export] Program Instance stateStorage_reads : StorageReads Storage := {| row := shown |}.
Next Obligation. intros s t k e. apply shown_clean. Qed.
Next Obligation. intros s t k. simpl. destruct (getRow_shown s t k) as (H1 & H2 & _). done. Qed.
Next Obligation. intros s t k. apply getRow_shown. Qed.
Next Obligation. intros s t ks. simpl. destruct (getRows_shown s t ks) as (H1 & H2 & _). done. Qed.
Next Obligation. intros s t ks. apply getRows_shown. Qed.

(** ** Rollback *)

(** Rows cached by reads: the storage behind moves on without showing anything
    else, and shown rows are added to the cache. *)
Inductive imports : Storage -> Storage -> Prop :=
| imports_refl s : imports s s
| imports_trans s1 s2 s3 : imports s1 s2 -> imports s2 s3 -> imports s1 s3
| imports_prev s p p' :
    m_prev s = Some p -> (forall t k, row p' t k = row p t k) -> imports s (setPrev (Some p') s)
| imports_row s t k e :
    m_data s !! (t, k) = None -> shown s t k = Some (clean e) ->
    imports s (with_data (<[(t, k) := e]> (m_data s)) s).

Lemma import_imports (s : Storage) t k e :
  shown s t k = Some (clean e) -> imports s (importExistingEntry t k e s).2.
Proof.
  intros Hs. unfold importExistingEntry. destruct (m_readOnly s); [constructor|].
  destruct (m_data s !! (t, k)) eqn:Hd; [constructor|]. apply imports_row; [done|].
  by rewrite clean_setDirty.
Qed.

Lemma getRow_imports (s : Storage) t k : imports s (asyncGetRow t k s).2.
Proof.
  unfold asyncGetRow. destruct (m_data s !! (t, k)) as [e|] eqn:Hd.
  { case_bool_decide; constructor. }
  destruct (m_prev s) as [p|] eqn:Hp; [|constructor].
  destruct (getRow_answer p t k) as [He Hr]. pose proof (getRow_keeps p t k) as Hk.
  destruct (getRow t k p) as [[err entry] p']. simpl in *. subst err.
  eapply imports_trans; [by apply (imports_prev s p p')|].
  destruct entry as [e|]; [|constructor].
  pose proof (import_imports (setPrev (Some p') s) t k e) as Hi.
  destruct (importExistingEntry t k e _) as [e' s']. apply Hi.
  rewrite (shown_setPrev s p p') by done. unfold shown. rewrite Hd, Hp. simpl. by rewrite <- Hr.
Qed.

Lemma importRows_imports t missing entries : forall results (s : Storage),
  Forall2 (fun m e => clean <$> e = shown s t m.1) missing entries ->
  imports s (importRows t missing entries results s).2.
Proof.
  revert entries. induction missing as [|[key i] missing IH]; intros entries results s Hf;
    inversion Hf as [|? e ? entries' He Hf']; subst; simpl in *; [constructor|].
  destruct e as [e|]; [|by apply IH].
  destruct (import_shown s t key e) as (_ & _ & Hsh); [done|].
  pose proof (import_imports s t key e (eq_sym He)) as Hi.
  destruct (importExistingEntry t key e s) as [e' s']. simpl in *.
  eapply imports_trans; [exact Hi|]. apply IH.
  eapply Forall2_impl; [exact Hf'|]. intros m x Hx. by rewrite Hsh.
Qed.

Lemma getRows_imports (s : Storage) t keys : imports s (asyncGetRows t keys s).2.
Proof.
  unfold asyncGetRows. destruct (findRows t keys 0 s) as [results missing] eqn:Efind.
  destruct (m_prev s) as [p|] eqn:Hp; [|constructor]. case_bool_decide; [|constructor].
  pose proof (missing_shown s t keys results missing p Efind Hp) as Hmissing.
  destruct (getRows_answer p t (map fst missing)) as [He _].
  pose proof (getRows_keeps p t (map fst missing)) as Hkeep.
  destruct (getRows t (map fst missing) p) as [[err entries] p']. simpl in *. subst err.
  eapply imports_trans; [by apply (imports_prev s p p')|].
  pose proof (importRows_imports t missing entries results (setPrev (Some p') s) Hmissing) as Hi.
  by destruct (importRows t missing entries results _).
Qed.

Lemma revertAll_insert (r : Recoder) k p d d' :
  d !! k = None -> revertAll r d = Ok d' ->
  revertAll r (<[k := p]> d) = Ok d' \/
  d' !! k = None /\ revertAll r (<[k := p]> d) = Ok (<[k := p]> d').
Proof.
  revert d; induction r as [|c r IH]; intros d Hd; simpl; [intros [= <-]; by right|].
  unfold revert. set (kc := (ch_table c, ch_key c)). intros Hr.
  destruct (decide (kc = k)) as [->|Hne].
  - destruct (ch_entry c) as [e|]; simpl in *; [|by rewrite Hd in Hr].
    left. by rewrite insert_insert_eq.
  - destruct (ch_entry c) as [e|]; simpl in *.
    + rewrite insert_insert_ne by done. apply IH; [by rewrite lookup_insert_ne|done].
    + rewrite lookup_insert_ne by done. destruct (d !! kc) as [x|]; simpl in *; [|done].
      rewrite delete_insert_ne by done. apply IH; [by rewrite lookup_delete_ne|done].
Qed.

(** The log undoes the writes: what is shown after a rollback is what [base]
    shows. *)
Definition undoes (base s : Storage) : Prop :=
  m_readOnly s = false /\
  exists r d, m_recoder s = Some r /\ revertAll r (m_data s) = Ok d /\
    forall t k, shown (with_data d s) t k = shown base t k.

Lemma imports_undoes (base s s' : Storage) : imports s s' -> undoes base s -> undoes base s'.
Proof.
  induction 1 as [s|s1 s2 s3 _ IH1 _ IH2|s p p' Hp Hr|s t k e Hd Hs]; [done|by auto|..];
    intros (Hro & r & d & Hrec & Hrev & Hsh).
  - split; [done|]. exists r, d. split; [done|]. split; [done|]. intros t k. rewrite <- Hsh.
    by apply (shown_setPrev (with_data d s) p p').
  - split; [done|]. destruct (revertAll_insert r (t, k) e _ _ Hd Hrev) as [Hl|[Hn Hl]].
    + by exists r, d.
    + exists r, (<[(t, k) := e]> d). split; [done|]. split; [done|]. intros t' k'. rewrite <- Hsh.
      destruct (decide ((t', k') = (t, k))) as [[= -> ->]|Hne].
      * unfold shown in *; simpl in *. rewrite lookup_insert_eq, Hn. rewrite Hd in Hs. rewrite Hs.
        destruct (m_prev s) as [p|]; [|done]. apply row_clean in Hs as [_ Hst].
        by rewrite bool_decide_eq_true_2.
      * unfold shown; simpl. by rewrite lookup_insert_ne.
Qed.

Lemma setRow_undoes (base s : Storage) t k e : undoes base s -> undoes base (asyncSetRow t k e s).2.
Proof.
  intros (Hro & r & d & Hrec & Hrev & Hsh). unfold asyncSetRow. rewrite Hro.
  destruct (m_data s !! (t, k)) as [old|] eqn:Hd; [|case_bool_decide]; simpl; (split; [done|]);
    [exists (mkChange t k (Some old) :: r), d|exists r, d|exists (mkChange t k None :: r), d];
    rewrite Hrec; (split; [done|]); (split; [|done]); simpl; [| |].
  - case_bool_decide; [by rewrite insert_delete_id|by rewrite insert_insert_eq, insert_id].
  - done.
  - unfold revert; simpl. rewrite lookup_insert_eq. simpl. by rewrite delete_insert_id.
Qed.

(** What a caller may do between two points of execution. *)
Inductive op : Type :=
| OpGetRow (t k : string)
| OpGetRows (t : string) (ks : list string)
| OpSetRow (t k : string) (e : Entry).

Definition run_op (s : Storage) (o : op) : Storage :=
  match o with
  | OpGetRow t k => (asyncGetRow t k s).2
  | OpGetRows t ks => (asyncGetRows t ks s).2
  | OpSetRow t k e => (asyncSetRow t k e s).2
  end.

(** C1. A fresh recoder installed before any sequence of reads and writes (updates,
    deletions, purges) undoes all of it: the rollback does not throw, and every
    row of every table is shown as it was when the recoder was installed. *)
Theorem rollback_restores (s0 : Storage) (ops : list op) :
  m_readOnly s0 = false -> m_recoder s0 = Some [] ->
  let s := fold_left run_op ops s0 in
  exists r s', m_recoder s = Some r /\ rollback r s = Ok s' /\
    forall t k, shown s' t k = shown s0 t k.
Proof.
  intros Hro Hrec. cbv zeta.
  assert (undoes s0 (fold_left run_op ops s0)) as (Hro' & r & d & Hr & Hrev & Hsh).
  { assert (undoes s0 s0) as Hb.
    { split; [done|]. exists [], (m_data s0). split; [done|]. split; [done|]. done. }
    revert Hb. generalize s0 at 2 4. induction ops as [|o ops IH]; intros s Hu; [done|]. simpl.
    apply IH. destruct o as [t k|t ks|t k e]; simpl.
    - by eapply imports_undoes; [apply getRow_imports|].
    - by eapply imports_undoes; [apply getRows_imports|].
    - by apply setRow_undoes. }
  exists r, (with_data d (fold_left run_op ops s0)). split; [done|].
  unfold rollback. rewrite Hro', Hrev. done.
Qed.

(** ** Writing *)

(** A write to a storage that is not read-only shows the new row at its key and
    leaves every other row alone: a normal row is shown, a deleted one hides the
    row behind, a purged one uncovers it. *)
Lemma setRow_shown (s : Storage) t k e t' k' :
  m_readOnly s = false ->
  (asyncSetRow t k e s).1 = None /\
  shown (asyncSetRow t k e s).2 t' k' =
    if bool_decide ((t', k') = (t, k)) then
      match m_status e with
      | NORMAL => Some (clean e)
      | DELETED => None
      | PURGED => m_prev s ≫= fun p => row p t k
      end
    else shown s t' k'.
Proof.
  intros Hro. unfold asyncSetRow. rewrite Hro.
  destruct (decide ((t', k') = (t, k))) as [[= -> ->]|Hne];
    [rewrite (bool_decide_eq_true_2 ((t, k) = (t, k))) by done
    |rewrite (bool_decide_eq_false_2 ((t', k') = (t, k))) by done];
    (destruct (m_data s !! (t, k)) as [old|] eqn:Hd; simpl);
    destruct (m_status e) eqn:Hst; simpl; (split; [done|]); unfold shown; simpl;
    rewrite ?lookup_insert_eq, ?lookup_delete_eq, ?Hd, ?Hst; try done;
    by rewrite ?lookup_insert_ne, ?lookup_delete_ne.
Qed.

(** Reading after writing: the row just written is returned when it is normal,
    no row when it was deleted, the row of the storage behind when it was purged;
    other rows are returned as before, and no call reports an error. *)
Theorem write_then_read (s : Storage) t k e t' k' :
  m_readOnly s = false ->
  let s' := (asyncSetRow t k e s).2 in
  (asyncSetRow t k e s).1 = None /\ (asyncGetRow t' k' s').1.1 = None /\
  clean <$> (asyncGetRow t' k' s').1.2 =
    if bool_decide ((t', k') = (t, k)) then
      match m_status e with
      | NORMAL => Some (clean e)
      | DELETED => None
      | PURGED => m_prev s ≫= fun p => row p t k
      end
    else clean <$> (asyncGetRow t' k' s).1.2.
Proof.
  intros Hro. destruct (setRow_shown s t k e t' k' Hro) as [Hn Hs].
  destruct (getRow_shown (asyncSetRow t k e s).2 t' k') as (H1 & H2 & _).
  destruct (getRow_shown s t' k') as (_ & H3 & _).
  split; [done|]. split; [done|]. by rewrite H2, H3.
Qed.

End Reads.

(** ** Primary keys *)

Definition key_valid (c : option Condition.Condition) (k : string) : bool :=
  match c with Some c => Condition.isValid c k | None => true end.

(** What a storage promises about its keys: those of the rows it shows that
    satisfy the condition, each once. *)
Class StorageKeys (S : Type) `{StorageReads S} : Prop :=
  { keys_answer : forall s t c, (getPrimaryKeys t c s).1.1 = None /\
      NoDup (getPrimaryKeys t c s).1.2 /\
      forall k, k ∈ (getPrimaryKeys t c s).1.2 <-> is_Some (row s t k) /\ key_valid c k = true
  ; keys_keep : forall s t c t' k', row (getPrimaryKeys t c s).2 t' k' = row s t' k' }.

Section Keys.
Context {P : Type} `{Keys : StorageKeys P}.
Abbreviation Storage := (StateStorage P).

Lemma localKeys_lookup (s : Storage) t c k :
  m_enableTraverse s = true ->
  localKeys t c s !! k =
    if key_valid c k then m_status <$> m_data s !! (t, k) else None.
Proof.
  intros Ht. unfold localKeys. rewrite Ht. fold (key_valid c).
  generalize (m_data s) as data. intros data.
  apply (map_fold_weak_ind (fun r d => r !! k = if key_valid c k then m_status <$> d !! (t, k) else None)).
  - rewrite lookup_empty. by case_match.
  - intros [t' k'] e d r Hd IH.
    destruct (decide (t' = t)) as [->|Ht'].
    + rewrite (bool_decide_eq_true_2 (t = t)) by done. simpl.
      destruct (decide (k' = k)) as [->|Hk'].
      * fold (key_valid c k). destruct (key_valid c k); rewrite ?lookup_insert_eq; done.
      * rewrite lookup_insert_ne by congruence.
        fold (key_valid c k'). destruct (key_valid c k'); [by rewrite lookup_insert_ne|done].
    + rewrite (bool_decide_eq_false_2 (t' = t)) by done. simpl.
      by rewrite lookup_insert_ne by congruence.
Qed.

Lemma liveKeys_spec (local : gmap string Status) :
  NoDup (liveKeys local) /\ forall k, k ∈ liveKeys local <-> local !! k = Some NORMAL.
Proof.
  unfold liveKeys. split.
  - rewrite merge_sort_Permutation. apply NoDup_fmap_fst.
    + intros k y1 y2 H1 H2. apply list_elem_of_filter in H1 as [_ H1], H2 as [_ H2].
      apply elem_of_map_to_list in H1, H2. congruence.
    + apply NoDup_filter, NoDup_map_to_list.
  - intros k. rewrite merge_sort_Permutation. rewrite list_elem_of_fmap. split.
    + intros ([k' st] & -> & Hin). apply list_elem_of_filter in Hin as [Hst Hin]. simpl in *. subst.
      by apply elem_of_map_to_list.
    + intros Hk. exists (k, NORMAL). split; [done|]. apply list_elem_of_filter. split; [done|].
      by apply elem_of_map_to_list.
Qed.

Lemma mergeKeys_spec (remote : list string) (local : gmap string Status) :
  NoDup remote ->
  let '(ks, local') := mergeKeys remote local in
  NoDup ks /\
  (forall k, k ∈ ks <-> k ∈ remote /\ (local !! k = None \/ local !! k = Some NORMAL)) /\
  (forall k, local' !! k = if bool_decide (k ∈ remote) then None else local !! k).
Proof.
  intros Hd. revert local. induction Hd as [|k remote Hk Hd IH]; intros local; simpl.
  - split; [constructor|]. split; [set_solver|done].
  - destruct (local !! k) as [st|] eqn:Hl.
    + specialize (IH (delete k local)). destruct (mergeKeys remote (delete k local)) as [ks local'].
      destruct IH as (H1 & H2 & H3).
      assert (k ∉ ks) by (intros Hin; apply H2 in Hin as [? _]; done).
      assert (forall x, x ∈ ks <-> x ∈ remote /\ (local !! x = None \/ local !! x = Some NORMAL)) as H2'.
      { intros x. rewrite H2. destruct (decide (x = k)) as [->|].
        - split; intros [? _]; done.
        - by rewrite lookup_delete_ne. }
      split_and!.
      * case_bool_decide; [done|]. by constructor.
      * intros x. case_bool_decide as Hst.
        -- rewrite H2', elem_of_cons. split; [naive_solver|]. intros [[->|?] ?]; [|done].
           rewrite Hl in *. naive_solver.
        -- rewrite !elem_of_cons, H2'. split; [|naive_solver].
           intros [->|?]; [|naive_solver]. split; [by left|]. right. rewrite Hl.
           f_equal. by destruct st.
      * intros x. rewrite H3. destruct (decide (x = k)) as [->|].
        -- rewrite (bool_decide_eq_true_2 (k ∈ k :: remote)) by set_solver.
           rewrite lookup_delete_eq. by case_bool_decide.
        -- rewrite lookup_delete_ne by done. repeat case_bool_decide; set_solver.
    + specialize (IH local). destruct (mergeKeys remote local) as [ks local'].
      destruct IH as (H1 & H2 & H3). split_and!.
      * constructor; [|done]. intros Hin. by apply H2 in Hin as [? _].
      * intros x. rewrite !elem_of_cons, H2. naive_solver.
      * intros x. rewrite H3. destruct (decide (x = k)) as [->|].
        -- rewrite (bool_decide_eq_true_2 (k ∈ k :: remote)) by set_solver.
           rewrite Hl. by case_bool_decide.
        -- repeat case_bool_decide; set_solver.
Qed.

Lemma is_Some_live (e : Entry) :
  is_Some (if bool_decide (m_status e = NORMAL) then Some (clean e) else None) <->
  m_status e = NORMAL.
Proof. case_bool_decide; split; [done|by eexists|by intros []|done]. Qed.

Lemma primaryKeys_shown (s : Storage) t c :
  m_enableTraverse s = true ->
  (asyncGetPrimaryKeys t c s).1.1 = None /\
  NoDup (asyncGetPrimaryKeys t c s).1.2 /\
  forall k, k ∈ (asyncGetPrimaryKeys t c s).1.2 <-> is_Some (shown s t k) /\ key_valid c k = true.
Proof.
  intros Ht. unfold asyncGetPrimaryKeys. pose proof (fun k => localKeys_lookup s t c k Ht) as Hloc.
  set (local := localKeys t c s) in *.
  assert (forall k, local !! k = Some NORMAL <->
    (exists e, m_data s !! (t, k) = Some e /\ m_status e = NORMAL) /\ key_valid c k = true) as Hlive.
  { intros k. rewrite Hloc. destruct (key_valid c k); [|naive_solver].
    destruct (m_data s !! (t, k)) as [e|]; simpl; [|naive_solver].
    split; [intros Hn; apply (inj Some) in Hn; eauto|].
    intros [(e' & He & Hn) _]. apply (inj Some) in He as <-. by rewrite Hn. }
  destruct (m_prev s) as [p|] eqn:Hp.
  - destruct (keys_answer p t c) as (He & Hd & Hk).
    destruct (getPrimaryKeys t c p) as [[err remote] p']. simpl in *. subst err.
    pose proof (mergeKeys_spec remote local Hd) as Hm.
    destruct (mergeKeys remote local) as [ks local']. destruct Hm as (H1 & H2 & H3).
    destruct (liveKeys_spec local') as [Hl1 Hl2]. simpl. split; [done|]. split.
    + apply NoDup_app. split_and!; [done| |done]. intros k Hk1 Hk2.
      apply Hl2 in Hk2. apply H2 in Hk1 as [Hk1 _]. rewrite H3, bool_decide_eq_true_2 in Hk2; done.
    + intros k. rewrite elem_of_app, H2, Hl2, H3. specialize (Hk k). specialize (Hloc k).
      unfold shown. rewrite Hp. simpl.
      destruct (m_data s !! (t, k)) as [e|]; simpl in Hloc.
      * rewrite is_Some_live.
        clear - Hk Hloc. revert Hloc. generalize (local !! k). intros o ->.
        destruct (key_valid c k); case_bool_decide; intuition congruence.
      * assert (local !! k = None) as -> by (by destruct (key_valid c k)).
        clear - Hk. case_bool_decide; intuition congruence.
  - destruct (liveKeys_spec local) as [Hl1 Hl2]. simpl. split; [done|]. split; [done|].
    intros k. rewrite Hl2, Hlive. unfold shown. rewrite Hp. simpl.
    destruct (m_data s !! (t, k)) as [e|].
    + rewrite is_Some_live. split; [|naive_solver].
      intros [(e' & He & Hn) Hv]. by apply (inj Some) in He as <-.
    + split; [by intros [(e' & [=] & _) _]|by intros [[] _]].
Qed.

(** With traversal enabled, the primary keys of a table are exactly the keys of
    the rows that are shown and satisfy the condition, each listed once,
    whatever mixture of local writes, deletions and rows behind it comes from. *)
Theorem primaryKeys_exact (s : Storage) t c :
  m_enableTraverse s = true ->
  (asyncGetPrimaryKeys t c s).1.1 = None /\
  NoDup (asyncGetPrimaryKeys t c s).1.2 /\
  forall k, k ∈ (asyncGetPrimaryKeys t c s).1.2 <-> is_Some (shown s t k) /\ key_valid c k = true.
Proof. apply primaryKeys_shown. Qed.

End Keys.

(** ** The state hash *)

Section HashFacts.
Context {P : Type} (hashImpl : bytes -> bytes).

Lemma lxor_byte (x y : byte) : b2z (z2b (Z.lxor (b2z x) (b2z y))) = Z.lxor (b2z x) (b2z y).
Proof.
  rewrite b2z_z2b. change 256 with (2 ^ 8). apply Z.bits_inj'. intros i Hi.
  pose proof (b2z_range x) as Hx. pose proof (b2z_range y) as Hy.
  destruct (decide (i < 8)); [by rewrite Z.mod_pow2_bits_low by lia|].
  rewrite Z.mod_pow2_bits_high by lia. symmetry. rewrite Z.lxor_spec.
  rewrite <- (Z.mod_small (b2z x) (2 ^ 8)), <- (Z.mod_small (b2z y) (2 ^ 8)) by done.
  by rewrite !Z.mod_pow2_bits_high by lia.
Qed.

Lemma xor_assign_swap (a b c : bytes) :
  FixedBytes.xor_assign (FixedBytes.xor_assign a b) c =
  FixedBytes.xor_assign (FixedBytes.xor_assign a c) b.
Proof.
  unfold FixedBytes.xor_assign. revert b c; induction a as [|x a IH]; intros [|y b] [|z c]; simpl;
    try done. rewrite IH. f_equal. f_equal. rewrite !lxor_byte.
  by rewrite Z.lxor_assoc, (Z.lxor_comm (b2z y)), Z.lxor_assoc.
Qed.

Definition rows_wf (rows : list ((string * string) * Entry)) : Prop :=
  Forall (fun p => Entry.wf p.2) rows.

Lemma digest_wf (e : Entry) : Entry.wf e -> exists d, digest hashImpl e = Ok d.
Proof.
  intros He. unfold digest. case_bool_decide; [|by eexists].
  destruct (get_wf e He) as (bs & Hb & _). unfold getField. simpl. rewrite Hb. by eexists.
Qed.

Lemma hashRows_perm (rows rows' : list ((string * string) * Entry)) (acc : bytes) :
  rows ≡ₚ rows' -> rows_wf rows -> hashRows hashImpl rows acc = hashRows hashImpl rows' acc.
Proof.
  intros Hp. revert acc. induction Hp as [|[k e] l l' Hp IH|[k1 e1] [k2 e2] l|l1 l2 l3 H1 IH1 H2 IH2];
    intros acc Hw; simpl; [done|..].
  - apply Forall_cons in Hw as [_ Hw]. destruct (m_dirty e); [|by apply IH].
    destruct (digest hashImpl e); simpl; [by apply IH|done..].
  - apply Forall_cons in Hw as [H1 Hw]. apply Forall_cons in Hw as [H2 Hw]. simpl in *.
    destruct (digest_wf e1 H2) as [d1 ->], (digest_wf e2 H1) as [d2 ->].
    destruct (m_dirty e1), (m_dirty e2); simpl; try done. by rewrite xor_assign_swap.
  - rewrite IH1 by done. apply IH2. unfold rows_wf in *. by rewrite <- H1.
Qed.

(** The hash does not depend on the order in which the rows are visited: any
    traversal of the table, sequential or split over threads, gives the hash. *)
Theorem hash_order_irrelevant (s : StateStorage P) (rows : list ((string * string) * Entry)) :
  rows_wf rows -> rows ≡ₚ map_to_list (m_data s) ->
  hashRows hashImpl rows (FixedBytes.zeroed 32) = hash hashImpl s.
Proof. intros Hw Hp. by apply hashRows_perm. Qed.

(** The hash covers the values of the dirty rows but not their tables and keys:
    two states that differ by an exchange of two values have the same hash. *)
Theorem hash_ignores_keys (s : StateStorage P) k1 k2 e1 e2 :
  k1 ≠ k2 -> m_data s !! k1 = None -> m_data s !! k2 = None ->
  rows_wf (map_to_list (m_data s)) -> Entry.wf e1 -> Entry.wf e2 ->
  hash hashImpl (with_data (<[k1 := e1]> (<[k2 := e2]> (m_data s))) s) =
  hash hashImpl (with_data (<[k1 := e2]> (<[k2 := e1]> (m_data s))) s).
Proof.
  intros Hne H1 H2 Hw Hw1 Hw2.
  assert (forall x y, map_to_list (<[k1 := x]> (<[k2 := y]> (m_data s))) ≡ₚ
    (k1, x) :: (k2, y) :: map_to_list (m_data s)) as Hl.
  { intros x y. rewrite map_to_list_insert by (by rewrite lookup_insert_ne).
    by rewrite map_to_list_insert. }
  unfold hash. simpl. symmetry. rewrite (hashRows_perm _ _ _ (Hl e2 e1)).
  2:{ unfold rows_wf. by rewrite Hl, !Forall_cons. }
  symmetry. rewrite (hashRows_perm _ _ _ (Hl e1 e2)).
  2:{ unfold rows_wf. by rewrite Hl, !Forall_cons. }
  rewrite (hashRows_perm ((k1, e2) :: _) ((k2, e1) :: (k1, e2) :: map_to_list (m_data s))).
  - done.
  - apply perm_swap.
  - unfold rows_wf. by rewrite !Forall_cons.
Qed.

End HashFacts.

(** ** A concrete stack *)

(** The storage behind nothing. *)
#[export] Instance no_storage : StorageInterface Empty_set :=
  {| getPrimaryKeys := fun _ _ (s : Empty_set) => match s with end
   ; getRow := fun _ _ (s : Empty_set) => match s with end
   ; getRows := fun _ _ (s : Empty_set) => match s with end
   ; setRow := fun _ _ _ (s : Empty_set) => match s with end |}.
#[export] Instance no_storage_reads : StorageReads Empty_set.
Proof. by refine {| row := fun (s : Empty_set) => match s with end |}. Defined.
#[export] Instance no_storage_keys : StorageKeys Empty_set.
Proof. by split. Qed.

Definition text (s : string) : Entry :=
  match set newEntry (IString (list_byte_of_string s)) with Ok e => e | _ => newEntry end.

(** A block state over a committed one that has the row "t"/"a". *)
Definition committed : StateStorage Empty_set :=
  (asyncSetRow "t" "a" (text "hello") (newStateStorage None)).2.
Definition block_state : StateStorage (StateStorage Empty_set) :=
  setRecoder (Some []) (newStateStorage (Some committed)).

Definition sample_ops : list op :=
  [OpGetRow "t" "a"; OpSetRow "t" "a" (text "bye"); OpSetRow "t" "b" (text "new");
   OpSetRow "t" "b" (setStatus (text "new") PURGED); OpGetRows "t" ["b"; "a"];
   OpSetRow "t" "a" (setStatus newEntry DELETED)].

Lemma rollback_restores_witness :
  let s := fold_left run_op sample_ops block_state in
  exists r s', m_recoder s = Some r /\ rollback r s = Ok s' /\
    forall t k, shown s' t k = shown block_state t k.
Proof. by apply (rollback_restores block_state sample_ops). Defined.

Lemma write_then_read_witness :
  let s' := (asyncSetRow "t" "a" (text "bye") block_state).2 in
  (asyncSetRow "t" "a" (text "bye") block_state).1 = None /\
  (asyncGetRow "t" "a" s').1.1 = None /\
  clean <$> (asyncGetRow "t" "a" s').1.2 = Some (clean (text "bye")).
Proof. by apply (write_then_read block_state "t" "a" (text "bye") "t" "a"). Defined.

Lemma primaryKeys_exact_witness :
  let s := setEnableTraverse true committed in
  (asyncGetPrimaryKeys "t" None s).1.1 = None /\
  NoDup (asyncGetPrimaryKeys "t" None s).1.2 /\
  forall k, k ∈ (asyncGetPrimaryKeys "t" None s).1.2 <->
    is_Some (shown s "t" k) /\ key_valid None k = true.
Proof. by apply (primaryKeys_exact (setEnableTraverse true committed) "t" None). Defined.

Lemma hash_order_irrelevant_witness :
  hashRows (fun b => resize 32 Byte.x00 b) [(("t", "a"), text "hello")]%string (FixedBytes.zeroed 32) =
  hash (fun b => resize 32 Byte.x00 b) committed.
Proof.
  apply (hash_order_irrelevant (fun b => resize 32 Byte.x00 b) committed); [|done].
  repeat constructor; by vm_compute.
Defined.

Lemma hash_ignores_keys_witness :
  hash (fun b => b) (with_data (<[("t", "x") := text "1"]> (<[("t", "y") := text "2"]>
    (m_data committed))) committed) =
  hash (fun b => b) (with_data (<[("t", "x") := text "2"]> (<[("t", "y") := text "1"]>
    (m_data committed))) committed).
Proof.
  apply (hash_ignores_keys (fun b => b) committed ("t", "x") ("t", "y") (text "1") (text "2"))%string;
    try done; repeat constructor; by vm_compute.
Defined.

(** Rows cached by a read are not counted in the capacity, but the write that
    replaces one subtracts its size: the counter wraps below zero. *)
Theorem capacity_underflow :
  let s := (asyncGetRow "t" "a" block_state).2 in
  m_capacity (asyncSetRow "t" "a" (text "x") s).2 = 2 ^ 64 - 4.
Proof. reflexivity. Qed.

End StateStorageFacts.
