(* ===== verification/StorageLayers.v ===== *)
(** * Layers of state storages

    What a stack of state storages (libstorage/StateStorage.cpp) means as a whole.
    A caller that reads, writes, lists keys, installs recoders and rolls back cannot
    tell a state storage from plain views of the rows, whatever storage is behind
    it; and the rows [parallelTraverse] exports, written to the storage behind, make
    that storage show what the layer showed. *)

From Stdlib Require Import ZArith Lia List.
From Stdlib Require Import Strings.String Strings.Byte.
From stdpp Require Import base tactics decidable list option strings gmap sorting.
From S2P Require Import Prelude FixedBytes Storage StateStorage.
Import Entry StateStorage StateStorageFacts.

Module StorageLayers.

(** *** Calls *)

(** What an execution does to its layer.  [OpCheckpoint] installs a new recoder;
    [OpRollback] rolls the installed one back and installs a new one. *)
Inductive call : Type :=
| CallGetRow (t k : string)
| CallGetRows (t : string) (ks : list string)
| CallSetRow (t k : string) (e : Entry)
| CallKeys (t : string) (c : option Condition.Condition)
| CallCheckpoint
| CallRollback.

Inductive reply : Type :=
| ReplyRow (err : option error) (e : option Entry)
| ReplyRows (err : option error) (es : list (option Entry))
| ReplyDone (err : option error)
| ReplyKeys (err : option error) (ks : list string).

Section Run.
Context {P : Type} `{StorageInterface P}.

Definition perform (o : call) (s : StateStorage P) : outcome error (reply * StateStorage P) :=
  match o with
  | CallGetRow t k => let '((err, e), s) := asyncGetRow t k s in Ok (ReplyRow err e, s)
  | CallGetRows t ks => let '((err, es), s) := asyncGetRows t ks s in Ok (ReplyRows err es, s)
  | CallSetRow t k e => let '(err, s) := asyncSetRow t k e s in Ok (ReplyDone err, s)
  | CallKeys t c => let '((err, ks), s) := asyncGetPrimaryKeys t c s in Ok (ReplyKeys err ks, s)
  | CallCheckpoint => Ok (ReplyDone None, setRecoder (Some []) s)
  | CallRollback =>
      match m_recoder s with
      | Some r => s ← rollback r s ; Ok (ReplyDone None, setRecoder (Some []) s)
      | None => Undefined NullDeref
      end
  end.

Fixpoint performAll (os : list call) (s : StateStorage P) :
    outcome error (list reply * StateStorage P) :=
  match os with
  | [] => Ok ([], s)
  | o :: os => '(r, s) ← perform o s ; '(rs, s) ← performAll os s ; Ok (r :: rs, s)
  end.

(** The rows of a layer that changed, written to a storage. *)
Definition writeRows {Q} `{StorageInterface Q} (rows : list ((string * string) * Entry)) (q : Q) : Q :=
  fold_left (fun q p => (setRow p.1.1 p.1.2 p.2 q).2) rows q.
End Run.

(** *** The specification *)

Definition view : Type := string -> string -> option Entry.

(** The rows now, and at the last checkpoint. *)
Record Spec : Type := mkSpec { saved : view; now : view }.

Definition update (t k : string) (x : option Entry) (v : view) : view :=
  fun t' k' => if bool_decide ((t', k') = (t, k)) then x else v t' k'.

(** The state after a call; [behind] is what the storage behind shows. *)
Definition next (behind : view) (o : call) (sp : Spec) : Spec :=
  match o with
  | CallSetRow t k e =>
      mkSpec (saved sp)
        (update t k
           match m_status e with
           | NORMAL => Some (clean e)
           | DELETED => None
           | PURGED => behind t k
           end (now sp))
  | CallCheckpoint => mkSpec (now sp) (now sp)
  | CallRollback => mkSpec (saved sp) (saved sp)
  | _ => sp
  end.

(** The answers a call may give: rows as they are now, their dirty flags aside, and
    keys in any order, each once; no errors. *)
Definition allowed (o : call) (sp : Spec) (r : reply) : Prop :=
  match o, r with
  | CallGetRow t k, ReplyRow None e => clean <$> e = now sp t k
  | CallGetRows t ks, ReplyRows None es => fmap clean <$> es = now sp t <$> ks
  | CallKeys t c, ReplyKeys None ks =>
      NoDup ks /\ forall k, k ∈ ks <-> is_Some (now sp t k) /\ key_valid c k = true
  | (CallSetRow _ _ _ | CallCheckpoint | CallRollback), ReplyDone None => True
  | _, _ => False
  end.

Fixpoint conforms (behind : view) (os : list call) (sp : Spec) (rs : list reply) : Prop :=
  match os, rs with
  | [], [] => True
  | o :: os, r :: rs => allowed o sp r /\ conforms behind os (next behind o sp) rs
  | _, _ => False
  end.
End StorageLayers.

Module StorageLayersFacts.
Import StorageLayers.

Section Refinement.
Context {P : Type} `{Keys : StorageKeys P}.
Implicit Types s : StateStorage P.

Definition behindOf s : view := fun t k => m_prev s ≫= fun p => row p t k.

(** The simulation relation. *)
Record simulates (behind : view) s (sp : Spec) : Prop := mkSim
  { sim_writable : m_readOnly s = false
  ; sim_traverse : m_enableTraverse s = true
  ; sim_behind : forall t k, behindOf s t k = behind t k
  ; sim_now : forall t k, shown s t k = now sp t k
  ; sim_saved : exists base, undoes base s /\ forall t k, shown base t k = saved sp t k }.

Lemma imports_frame s s' :
  imports s s' ->
  m_readOnly s' = m_readOnly s /\ m_enableTraverse s' = m_enableTraverse s /\
  (forall t k, behindOf s' t k = behindOf s t k).
Proof.
  induction 1 as [s | s1 s2 s3 _ (A1 & A2 & A3) _ (B1 & B2 & B3) | s p p' Hp Hr | s t k e Hd Hs].
  - done.
  - split_and!; [congruence | congruence |]. intros t k. by rewrite B3, A3.
  - split_and!; [done | done |]. intros t k. unfold behindOf. cbn. rewrite Hp. apply Hr.
  - done.
Qed.

Lemma simulates_imports behind s s' sp :
  imports s s' -> (forall t k, shown s' t k = shown s t k) -> simulates behind s sp -> simulates behind s' sp.
Proof.
  intros Hi Hsh [Hw Ht Hb Hn (base & Hu & Hsv)]. destruct (imports_frame s s' Hi) as (F1 & F2 & F3). split.
  - congruence.
  - congruence.
  - intros t k. by rewrite F3.
  - intros t k. by rewrite Hsh.
  - exists base. split; [by eapply imports_undoes | done].
Qed.

Lemma keys_imports s t c :
  imports s (asyncGetPrimaryKeys t c s).2 /\
  (forall t' k', shown (asyncGetPrimaryKeys t c s).2 t' k' = shown s t' k').
Proof.
  unfold asyncGetPrimaryKeys. destruct (m_prev s) as [p |] eqn:Hp; [| split; [constructor | done]].
  destruct (keys_answer p t c) as [He _]. pose proof (keys_keep p t c) as Hk.
  destruct (getPrimaryKeys t c p) as [[err remote] p']. cbn in *. subst err.
  destruct (mergeKeys remote (localKeys t c s)). cbn.
  split; [by apply (imports_prev s p p') | intros; by apply (shown_setPrev s p p')].
Qed.

(** A new recoder begins where the storage is. *)
Lemma undoes_fresh s : m_readOnly s = false -> undoes s (setRecoder (Some []) s).
Proof. intros Hw. split; [done |]. by exists [], (m_data s). Qed.

Lemma setRow_frame s t k e :
  m_readOnly (asyncSetRow t k e s).2 = m_readOnly s /\ m_prev (asyncSetRow t k e s).2 = m_prev s /\
  m_enableTraverse (asyncSetRow t k e s).2 = m_enableTraverse s.
Proof.
  unfold asyncSetRow. destruct (m_readOnly s) eqn:Hw; [done |].
  destruct (m_data s !! (t, k)); [done |]. by destruct (bool_decide _).
Qed.

Lemma perform_simulates behind o s sp :
  simulates behind s sp ->
  exists r s', perform o s = Ok (r, s') /\ allowed o sp r /\ simulates behind s' (next behind o sp).
Proof.
  intros Hsim. pose proof Hsim as [Hw Ht Hb Hn (base & Hu & Hsv)].
  destruct o as [t k | t ks | t k e | t c | |]; cbn [perform allowed next].
  - destruct (getRow_shown s t k) as (He & Ha & Hsh). pose proof (getRow_imports s t k) as Hi.
    destruct (asyncGetRow t k s) as [[err e] s']. cbn in *. subst err.
    eexists _, _. split; [done |]. split; [by rewrite Ha | by eapply simulates_imports].
  - destruct (getRows_shown s t ks) as (He & Ha & Hsh). pose proof (getRows_imports s t ks) as Hi.
    destruct (asyncGetRows t ks s) as [[err es] s']. cbn in *. subst err.
    eexists _, _. split; [done |]. split; [| by eapply simulates_imports].
    rewrite Ha. apply list_fmap_ext. intros. apply Hn.
  - pose proof (setRow_shown s t k e t k Hw) as [He _].
    pose proof (fun t' k' => proj2 (setRow_shown s t k e t' k' Hw)) as Hsh.
    pose proof (setRow_undoes base s t k e Hu) as Hu'.
    pose proof (setRow_frame s t k e) as (_ & Hp & Htr).
    destruct (asyncSetRow t k e s) as [err s']. cbn in *. subst err.
    eexists _, _. split; [done |]. split; [done |]. split; cbn.
    + apply Hu'.
    + congruence.
    + intros t' k'. unfold behindOf. rewrite Hp. apply Hb.
    + intros t' k'. rewrite Hsh. unfold update. case_bool_decide; [| apply Hn].
      destruct (m_status e); [done.. |]. apply Hb.
    + by exists base.
  - destruct (primaryKeys_shown s t c Ht) as (He & Hnd & Hk). destruct (keys_imports s t c) as [Hi Hsh].
    destruct (asyncGetPrimaryKeys t c s) as [[err ks] s']. cbn in *. subst err.
    eexists _, _. split; [done |]. split; [| by eapply simulates_imports].
    split; [done |]. intros k. by rewrite Hk, Hn.
  - eexists _, _. split; [done |]. split; [done |]. split; try done.
    exists s. split; [by apply undoes_fresh | done].
  - destruct Hu as (_ & r & d & Hr & Hrev & Hsh). rewrite Hr. unfold rollback. rewrite Hw, Hrev, !bind_ok.
    eexists _, _. split; [done |]. split; [done |].
    assert (forall t k, shown (with_data d s) t k = saved sp t k) as Hd by (intros; by rewrite Hsh).
    split; try done. exists (with_data d s). split; [by apply undoes_fresh | done].
Qed.

End Refinement.

(* ------------------------------------------------------------------ *)
(** ** Committing a layer *)

(** What a storage promises its writers: unless the row is purged, it shows what was
    written, and other rows as before; reading does not make it refuse writes. *)
Class StorageWrites (S : Type) `{StorageReads S} : Type :=
  { writable : S -> Prop
  ; setRow_writes : forall s t k e t' k', writable s -> m_status e ≠ PURGED ->
      writable (setRow t k e s).2 /\
      row (setRow t k e s).2 t' k' =
        if bool_decide ((t', k') = (t, k)) then
          (if bool_decide (m_status e = NORMAL) then Some (clean e) else None)
        else row s t' k'
  ; getRow_writable : forall s t k, writable s -> writable (getRow t k s).2
  ; getRows_writable : forall s t ks, writable s -> writable (getRows t ks s).2
  ; keys_writable : forall s t c, writable s -> writable (getPrimaryKeys t c s).2 }.

(** A state storage that is not read-only keeps the promise. *)
#[export] Program Instance stateStorage_writes {P} `{StorageKeys P} : StorageWrites (StateStorage P) :=
  {| writable s := m_readOnly s = false |}.
Next Obligation.
  intros P ? ? ? s t k e t' k' Hw Hp. cbn in *.
  destruct (setRow_shown s t k e t' k' Hw) as [_ Hs].
  split; [by rewrite (proj1 (setRow_frame s t k e)) |].
  rewrite Hs. case_bool_decide; [| done]. by destruct (m_status e).
Qed.
Next Obligation. intros P ? ? ? s t k. cbn. by rewrite (proj1 (imports_frame _ _ (getRow_imports s t k))). Qed.
Next Obligation. intros P ? ? ? s t ks. cbn. by rewrite (proj1 (imports_frame _ _ (getRows_imports s t ks))). Qed.
Next Obligation. intros P ? ? ? s t c. cbn. by rewrite (proj1 (imports_frame _ _ (proj1 (keys_imports s t c)))). Qed.

Section Commit.
Context {P : Type} `{Keys : StorageKeys P} `{!StorageWrites P}.
Implicit Types s : StateStorage P.

(** An entry of the cache: what it says is a change, or what is behind anyway. *)
Definition faithful (behind : view) (t k : string) (e : Entry) : Prop :=
  m_status e ≠ PURGED /\ (m_dirty e = false -> m_status e = NORMAL /\ behind t k = Some (clean e)).

Record tracked (behind : view) s : Prop := mkTracked
  { tracked_prev : exists p, m_prev s = Some p /\ writable p /\ forall t k, row p t k = behind t k
  ; tracked_data t k e : m_data s !! (t, k) = Some e -> faithful behind t k e
  ; tracked_log r c e : m_recoder s = Some r -> In c r -> ch_entry c = Some e ->
      faithful behind (ch_table c) (ch_key c) e }.

Lemma imports_data behind s s' :
  imports s s' -> (forall t k, behindOf s t k = behind t k) ->
  m_recoder s' = m_recoder s /\
  ((forall t k e, m_data s !! (t, k) = Some e -> faithful behind t k e) ->
   forall t k e, m_data s' !! (t, k) = Some e -> faithful behind t k e).
Proof.
  induction 1 as [s | s1 s2 s3 H12 IH1 _ IH2 | s p p' Hp Hr | s t k e Hd Hs]; intros Hb; [done | | done |].
  - destruct (IH1 Hb) as [R1 F1]. destruct IH2 as [R2 F2]; [| split; [congruence | auto]].
    intros t k. by rewrite (proj2 (proj2 (imports_frame _ _ H12))).
  - split; [done |]. intros Hf t' k' e'. cbn.
    destruct (decide ((t', k') = (t, k))) as [[= -> ->] | Hne]; [| rewrite lookup_insert_ne by done; apply Hf].
    rewrite lookup_insert_eq. intros Heq. apply (inj Some) in Heq as <-.
    pose proof (shown_clean s t k _ Hs) as [_ Hst]. cbn in Hst. split; [by rewrite Hst |]. intros _.
    split; [done |]. rewrite <- Hb. unfold behindOf. unfold shown in Hs. by rewrite Hd in Hs.
Qed.

(** Reading, through a change of the cache and a step of the storage behind. *)
Lemma tracked_imports behind s s' :
  imports s s' -> (forall p, m_prev s = Some p -> writable p -> exists p', m_prev s' = Some p' /\ writable p') ->
  tracked behind s -> tracked behind s'.
Proof.
  intros Hi Hw [(p & Hp & Hpw & Hpr) Hd Hl].
  assert (forall t k, behindOf s t k = behind t k) as Hb by (intros; unfold behindOf; rewrite Hp; apply Hpr).
  destruct (imports_data behind s s' Hi Hb) as [Hr Hd']. split.
  - destruct (Hw p Hp Hpw) as (p' & Hp' & Hpw'). exists p'. split; [done |]. split; [done |].
    intros t k. rewrite <- Hb, <- (proj2 (proj2 (imports_frame s s' Hi))). unfold behindOf. by rewrite Hp'.
  - by apply Hd'.
  - rewrite Hr. apply Hl.
Qed.

Lemma prev_import s t k e : m_prev (importExistingEntry t k e s).2 = m_prev s.
Proof. unfold importExistingEntry. destruct (m_readOnly s); [done |]. by destruct (m_data s !! (t, k)). Qed.

Lemma prev_importRows t missing entries results s :
  m_prev (importRows t missing entries results s).2 = m_prev s.
Proof.
  revert entries results s. induction missing as [| [key i] missing IH]; intros entries results s; [done |].
  destruct entries as [| [e |] entries]; cbn [importRows]; [done | | apply IH].
  pose proof (prev_import s t key e) as Hp. destruct (importExistingEntry t key e s) as [e' s']. cbn in Hp.
  by rewrite IH.
Qed.

Lemma prev_read s p :
  m_prev s = Some p -> writable p ->
  (forall t k, exists p', m_prev (asyncGetRow t k s).2 = Some p' /\ writable p') /\
  (forall t ks, exists p', m_prev (asyncGetRows t ks s).2 = Some p' /\ writable p') /\
  (forall t c, exists p', m_prev (asyncGetPrimaryKeys t c s).2 = Some p' /\ writable p').
Proof.
  intros Hp Hw. split_and!; intros t x; unfold asyncGetRow, asyncGetRows, asyncGetPrimaryKeys; rewrite Hp.
  - destruct (m_data s !! (t, x)); [exists p; by case_bool_decide |].
    pose proof (getRow_writable p t x Hw) as Hw'. destruct (getRow t x p) as [[[] e] p']; [by exists p' |].
    destruct e as [e |]; [| by exists p']. exists p'.
    pose proof (prev_import (setPrev (Some p') s) t x e) as Hi. by destruct (importExistingEntry t x e _).
  - destruct (findRows t x 0 s) as [results missing]. case_bool_decide; [| by exists p].
    pose proof (getRows_writable p t (map fst missing) Hw) as Hw'.
    destruct (getRows t (map fst missing) p) as [[[] es] p']; [by exists p' |]. exists p'.
    pose proof (prev_importRows t missing es results (setPrev (Some p') s)) as Hi. by destruct (importRows _ _ _ _ _).
  - pose proof (keys_writable p t x Hw) as Hw'. destruct (getPrimaryKeys t x p) as [[[] ks] p']; [by exists p' |].
    exists p'. by destruct (mergeKeys ks _).
Qed.

Lemma revertAll_faithful behind (r : Recoder) d d' :
  (forall c e, In c r -> ch_entry c = Some e -> faithful behind (ch_table c) (ch_key c) e) ->
  (forall t k e, d !! (t, k) = Some e -> faithful behind t k e) -> revertAll r d = Ok d' ->
  forall t k e, d' !! (t, k) = Some e -> faithful behind t k e.
Proof.
  revert d. induction r as [| c r IH]; intros d Hr Hd Hrev; [by injection Hrev as <- |].
  cbn [revertAll] in Hrev. apply bind_ok_inv in Hrev as (d1 & H1 & Hrev).
  eapply (IH d1); [intros c' e Hc; apply Hr; by right | | exact Hrev].
  intros t k e. unfold revert in H1. destruct (ch_entry c) as [old |] eqn:Hc.
  - injection H1 as <-. destruct (decide ((ch_table c, ch_key c) = (t, k))) as [[= <- <-] | Hne].
    + rewrite lookup_insert_eq. intros He. apply (inj Some) in He as <-. apply Hr; [by left | done].
    + rewrite lookup_insert_ne by done. apply Hd.
  - destruct (d !! (ch_table c, ch_key c)); [| done]. injection H1 as <-. intros He.
    apply lookup_delete_Some in He as [_ He]. by apply Hd.
Qed.

(** The writes of a caller mark their entries as changed. *)
Definition marked (o : call) : Prop :=
  match o with CallSetRow _ _ e => m_dirty e = true | _ => True end.

Lemma perform_tracked behind o s r s' :
  marked o -> tracked behind s -> perform o s = Ok (r, s') -> tracked behind s'.
Proof.
  intros Hm Ht. pose proof Ht as [(p & Hp & Hw & Hpr) Hd Hl].
  destruct (prev_read s p Hp Hw) as (G1 & G2 & G3).
  destruct o as [t k | t ks | t k e | t c | |]; cbn [perform].
  - pose proof (getRow_imports s t k) as Hi. specialize (G1 t k).
    destruct (asyncGetRow t k s) as [[err e] s1]. intros [= <- <-]. eapply tracked_imports; eauto.
  - pose proof (getRows_imports s t ks) as Hi. specialize (G2 t ks).
    destruct (asyncGetRows t ks s) as [[err es] s1]. intros [= <- <-]. eapply tracked_imports; eauto.
  - unfold asyncSetRow. cbn in Hm. destruct (m_readOnly s); [by intros [= <- <-] |].
    assert (m_status e ≠ PURGED -> faithful behind t k e) as Hfe by (intros ?; split; [done | congruence]).
    assert (forall old, m_data s !! (t, k) = old ->
      forall r c e', (log (mkChange t k old) <$> m_recoder s) = Some r -> In c r -> ch_entry c = Some e' ->
        faithful behind (ch_table c) (ch_key c) e') as Hlog.
    { intros old Hold r' c e' Hr Hc He. destruct (m_recoder s) as [r0 |] eqn:E; [| done]. cbn in Hr.
      injection Hr as <-. destruct Hc as [<- | Hc]; [cbn in *; subst old; by apply Hd | by eapply Hl]. }
    assert (forall t' k' e', <[(t, k) := e]> (m_data s) !! (t', k') = Some e' -> m_status e ≠ PURGED ->
      faithful behind t' k' e') as Hins.
    { intros t' k' e' He Hne. destruct (decide ((t, k) = (t', k'))) as [[= <- <-] | Hn].
      - rewrite lookup_insert_eq in He. apply (inj Some) in He as <-. by apply Hfe.
      - rewrite lookup_insert_ne in He by done. by apply Hd. }
    destruct (m_data s !! (t, k)) as [old |] eqn:Hold; case_bool_decide as Hpurge; intros [= <- <-]; try done;
      (split; cbn; [by exists p | | by apply Hlog]); eauto.
    intros t' k' e' He. apply lookup_delete_Some in He as [_ He]. by apply Hd.
  - destruct (keys_imports s t c) as [Hi _]. specialize (G3 t c).
    destruct (asyncGetPrimaryKeys t c s) as [[err ks] s1]. intros [= <- <-]. eapply tracked_imports; eauto.
  - intros [= <- <-]. split; cbn; [by exists p | done |]. by intros r' c e [= <-].
  - destruct (m_recoder s) as [rec |] eqn:Hrec; [| done]. unfold rollback. destruct (m_readOnly s).
    + rewrite bind_ok. intros [= <- <-]. split; cbn; [by exists p | done |]. by intros r' c e [= <-].
    + intros Hr. apply bind_ok_inv in Hr as (s1 & Hs1 & [= <- <-]).
      apply bind_ok_inv in Hs1 as (d & Hrev & [= <-]). split; cbn; [by exists p | |].
      * eapply revertAll_faithful; [| exact Hd | exact Hrev]. intros c e Hc. by apply (Hl rec).
      * by intros r' c e [= <-].
Qed.

(** Rows with different keys, written one after the other. *)
Lemma writeRows_row (l : list ((string * string) * Entry)) (q : P) :
  NoDup l.*1 -> writable q -> Forall (fun p => m_status p.2 ≠ PURGED) l ->
  forall t k, row (writeRows l q) t k =
    match (list_to_map l : gmap (string * string) Entry) !! (t, k) with
    | Some e => if bool_decide (m_status e = NORMAL) then Some (clean e) else None
    | None => row q t k
    end.
Proof.
  revert q. induction l as [| [[t0 k0] e0] l IH]; intros q Hnd Hw Hl t k; [done |].
  cbn in Hnd. apply NoDup_cons in Hnd as [Hnin Hnd]. inversion Hl as [| ? ? Hp Hl']; subst.
  cbn [writeRows fold_left fst snd] in *. fold (writeRows l (setRow t0 k0 e0 q).2).
  destruct (setRow_writes q t0 k0 e0 t k Hw Hp) as [Hw' Hrow].
  rewrite (IH _ Hnd Hw' Hl' t k). cbn [list_to_map foldr uncurry].
  change (foldr _ _ l) with (list_to_map l : gmap (string * string) Entry).
  destruct (decide ((t, k) = (t0, k0))) as [[= -> ->] | Hne].
  - rewrite lookup_insert_eq, not_elem_of_list_to_map_1 by done. rewrite Hrow. by rewrite bool_decide_eq_true_2.
  - rewrite lookup_insert_ne by (by apply not_eq_sym). rewrite Hrow. by rewrite (bool_decide_eq_false_2 ((t, k) = (t0, k0))).
Qed.

Lemma commit_row behind s p :
  tracked behind s -> m_prev s = Some p -> writable p -> (forall t k, row p t k = behind t k) ->
  forall t k, row (writeRows (parallelTraverse true s) p) t k = shown s t k.
Proof.
  intros Ht Hp Hw Hpr t k. pose proof (tracked_data _ _ Ht) as Hd.
  assert (forall q e, (q, e) ∈ parallelTraverse true s <-> m_data s !! q = Some e /\ m_dirty e = true) as Hin.
  { intros q e. unfold parallelTraverse. rewrite list_elem_of_filter, elem_of_map_to_list. cbn.
    split; [intros [[|] ?]; done | intros [? ?]; auto]. }
  assert (NoDup (parallelTraverse true s).*1) as Hnd.
  { apply NoDup_fmap_fst; [| apply NoDup_filter, NoDup_map_to_list]. intros q e1 e2 H1 H2.
    apply Hin in H1 as [H1 _], H2 as [H2 _]. congruence. }
  rewrite writeRows_row; [| done | done |].
  2: { apply List.Forall_forall. intros [[t' k'] e] He. apply list_elem_of_In, Hin in He as [He _].
       apply Hd in He. apply He. }
  unfold shown. destruct (m_data s !! (t, k)) as [e |] eqn:He; [destruct (m_dirty e) eqn:Hdirty |].
  - erewrite (elem_of_list_to_map_1 _ (t, k) e); [done | done |]. by apply Hin.
  - rewrite not_elem_of_list_to_map_1.
    + destruct (Hd _ _ _ He) as [_ Hc]. destruct (Hc Hdirty) as [Hst Hb]. by rewrite Hpr, Hb, bool_decide_eq_true_2.
    + intros Hq. apply list_elem_of_fmap in Hq as ([q e'] & Heq & Hq). cbn in Heq. subst q.
      apply Hin in Hq as [Hq1 Hq2]. congruence.
  - rewrite not_elem_of_list_to_map_1; [by rewrite Hp |].
    intros Hq. apply list_elem_of_fmap in Hq as ([q e'] & Heq & Hq). cbn in Heq. subst q.
    apply Hin in Hq as [Hq1 _]. congruence.
Qed.

End Commit.
End StorageLayersFacts.

(* ------------------------------------------------------------------ *)
(** ** Stacks of layers *)

Module LayerStacks.
Import StorageLayers StorageLayersFacts.

Section Listing.
Context {P : Type} `{Keys : StorageKeys P}.

(** A state storage whose keys can be listed; it can be behind another layer. *)
Record Listing : Type := mkListing
  { layer : StateStorage P; lists : m_enableTraverse layer = true }.

(** The layer after a call that keeps the flag. *)
Definition relist (l : Listing) (s : StateStorage P) (H : m_enableTraverse s = m_enableTraverse (layer l)) :
    Listing := mkListing s (eq_trans H (lists l)).

Lemma lists_getRow (l : Listing) t k :
  m_enableTraverse (asyncGetRow t k (layer l)).2 = m_enableTraverse (layer l).
Proof. apply (imports_frame _ _ (getRow_imports (layer l) t k)). Qed.
Lemma lists_getRows (l : Listing) t ks :
  m_enableTraverse (asyncGetRows t ks (layer l)).2 = m_enableTraverse (layer l).
Proof. apply (imports_frame _ _ (getRows_imports (layer l) t ks)). Qed.
Lemma lists_keys (l : Listing) t c :
  m_enableTraverse (asyncGetPrimaryKeys t c (layer l)).2 = m_enableTraverse (layer l).
Proof. apply (imports_frame _ _ (proj1 (keys_imports (layer l) t c))). Qed.
Lemma lists_setRow (l : Listing) t k e :
  m_enableTraverse (asyncSetRow t k e (layer l)).2 = m_enableTraverse (layer l).
Proof. apply (setRow_frame (layer l) t k e). Qed.

#[export] Instance listing_interface : StorageInterface Listing :=
  {| getPrimaryKeys t c l := ((asyncGetPrimaryKeys t c (layer l)).1, relist l _ (lists_keys l t c))
   ; getRow t k l := ((asyncGetRow t k (layer l)).1, relist l _ (lists_getRow l t k))
   ; getRows t ks l := ((asyncGetRows t ks (layer l)).1, relist l _ (lists_getRows l t ks))
   ; setRow t k e l := ((asyncSetRow t k e (layer l)).1, relist l _ (lists_setRow l t k e)) |}.

#[export] Program Instance listing_reads : StorageReads Listing := {| row l := shown (layer l) |}.
Next Obligation. intros l t k e. apply shown_clean. Qed.
Next Obligation. intros l t k. destruct (getRow_shown (layer l) t k) as (H1 & H2 & _). done. Qed.
Next Obligation. intros l t k t' k'. apply (getRow_shown (layer l) t k). Qed.
Next Obligation. intros l t ks. destruct (getRows_shown (layer l) t ks) as (H1 & H2 & _). done. Qed.
Next Obligation. intros l t ks t' k'. apply (getRows_shown (layer l) t ks). Qed.

#[export] Instance listing_keys : StorageKeys Listing.
Proof.
  split.
  - intros l t c. exact (primaryKeys_shown (layer l) t c (lists l)).
  - intros l t c. exact (proj2 (keys_imports (layer l) t c)).
Qed.

#[export] Program Instance listing_writes : StorageWrites Listing :=
  {| writable l := m_readOnly (layer l) = false |}.
Next Obligation. intros l t k e t' k'. exact (setRow_writes (S := StateStorage P) (layer l) t k e t' k'). Qed.
Next Obligation. intros l t k. exact (getRow_writable (S := StateStorage P) (layer l) t k). Qed.
Next Obligation. intros l t ks. exact (getRows_writable (S := StateStorage P) (layer l) t ks). Qed.
Next Obligation. intros l t c. exact (keys_writable (S := StateStorage P) (layer l) t c). Qed.
End Listing.
Arguments Listing : clear implicits.
End LayerStacks.

Module LayerWitnesses.
Import StorageLayers StorageLayersFacts LayerStacks.

(** A committed state that can be listed, behind the layer of a block. *)
Definition chain : Listing Empty_set := mkListing (setEnableTraverse true committed) eq_refl.

Definition changed (e : Entry) : Entry := setDirty e true.

Definition blockCalls : list call :=
  [CallGetRow "t" "a"; CallSetRow "t" "b" (changed (text "new")); CallCheckpoint;
   CallSetRow "t" "a" (changed (setStatus newEntry DELETED)); CallKeys "t" None; CallRollback;
   CallSetRow "t" "a" (changed (text "bye")); CallGetRows "t" ["a"; "b"; "c"]%string].


End LayerWitnesses.
