(* ===== verification/TableStorage.v ===== *)
(** * Tables, key-value access and batches on top of a storage

    Model of libstorage/StorageInterface.cpp ([getSysTableInfo],
    [asyncGetTableInfo], [asyncOpenTable], [asyncCreateTable]), of
    interfaces/storage/Table.h with libstorage/Table.cpp, of
    [StateStorage::openTable] and [createTable], and of
    libutilities/KVStorageHelper.h and libutilities/BatchStorageHelper.h.  The
    operations work on any storage that implements the interface; what
    [boost::split] does to a list of fields is a parameter. *)

From Stdlib Require Import ZArith Lia List.
From Stdlib Require Import Strings.String Strings.Byte.
From stdpp Require Import base tactics decidable list option strings gmap.
From S2P Require Import Prelude Storage StateStorage.
Import Entry.

Module Tables.

Definition SYS_TABLES : string := "s_tables".
Definition SYS_TABLE_VALUE_FIELDS : string := "value_fields,key_field".

(** [getSysTableInfo]. *)
Definition getSysTableInfo (tableName : string) : option TableInfo.TableInfo :=
  if String.eqb tableName SYS_TABLES
  then Some (TableInfo.newTableInfo SYS_TABLES [SYS_TABLE_VALUE_FIELDS])
  else None.

(** [Table]: the storage is the state it is used with. *)
Record Table : Type := mkTable { m_tableInfo : TableInfo.TableInfo }.

Definition tableName (t : Table) : string := TableInfo.m_name (m_tableInfo t).

Definition newDeletedEntry : Entry := setStatus newEntry DELETED.

Section Storage.
Context {S : Type} `{StorageInterface S}.

(** [Table::asyncGetRow], [asyncGetRows], [asyncGetPrimaryKeys], [asyncSetRow]. *)
Definition asyncGetRow (t : Table) (key : string) (s : S) := getRow (tableName t) key s.
Definition asyncGetRows (t : Table) (keys : list string) (s : S) := getRows (tableName t) keys s.
Definition asyncGetPrimaryKeys (t : Table) (c : option Condition.Condition) (s : S) :=
  getPrimaryKeys (tableName t) c s.
Definition asyncSetRow (t : Table) (key : string) (e : Entry) (s : S) :=
  setRow (tableName t) key e s.

(** The blocking calls wait for the callback and throw the error it got. *)
Definition await {A} (r : (option error * A) * S) : outcome error (A * S) :=
  match r with
  | ((Some e, _), _) => Throw e
  | ((None, a), s') => Ok (a, s')
  end.

Definition table_getRow (t : Table) (key : string) (s : S) : outcome error (option Entry * S) :=
  await (asyncGetRow t key s).
Definition table_getRows (t : Table) (keys : list string) (s : S) :
    outcome error (list (option Entry) * S) :=
  await (asyncGetRows t keys s).
Definition table_getPrimaryKeys (t : Table) (c : option Condition.Condition) (s : S) :
    outcome error (list string * S) :=
  await (asyncGetPrimaryKeys t c s).
Definition table_setRow (t : Table) (key : string) (e : Entry) (s : S) : outcome error S :=
  match asyncSetRow t key e s with
  | (Some err, _) => Throw err
  | (None, s') => Ok s'
  end.

Section Tables.
(** [boost::split(fields, value, is_any_of(","))]. *)
Context (split : string -> list string).

(** [asyncOpenTable(SYS_TABLES)]: the description of the system table is known. *)
Definition openSysTable : option error * option Table :=
  match getSysTableInfo SYS_TABLES with
  | Some info => (None, Some (mkTable info))
  | None => (None, None)
  end.

Definition asyncGetTableInfo (name : string) (s : S) :
    outcome error ((option error * option TableInfo.TableInfo) * S) :=
  match getSysTableInfo name with
  | Some info => Ok ((None, Some info), s)
  | None =>
      match openSysTable with
      | (Some e, _) => Ok ((Some e, None), s)
      | (None, None) => Ok ((Some (Error SystemTableNotExists), None), s)
      | (None, Some sysTable) =>
          let '((err, entry), s') := asyncGetRow sysTable name s in
          match err, entry with
          | Some e, _ => Ok ((Some e, None), s')
          | None, None => Ok ((None, None), s')
          | None, Some entry =>
              value ← getField entry 0;
              let fields := split (string_of_list_byte value) in
              Ok ((None, Some (TableInfo.newTableInfo name fields)), s')
          end
      end
  end.

Definition asyncOpenTable (name : string) (s : S) :
    outcome error ((option error * option Table) * S) :=
  '((err, info), s') ← asyncGetTableInfo name s;
  match err with
  | Some e => Ok ((Some e, None), s')
  | None => Ok ((None, option_map mkTable info), s')
  end.

Definition asyncCreateTable (name valueFields : string) (s : S) :
    outcome error ((option error * option Table) * S) :=
  '((err, sysTable), s1) ← asyncOpenTable SYS_TABLES s;
  match err, sysTable with
  | Some e, _ => Ok ((Some (ErrorWithPrev (-1) e), None), s1)
  | None, None => Undefined NullDeref
  | None, Some sysTable =>
      let '((err, entry), s2) := asyncGetRow sysTable name s1 in
      match err, entry with
      | Some e, _ => Ok ((Some (ErrorWithPrev ReadError e), None), s2)
      | None, Some _ => Ok ((Some (Error TableExists), None), s2)
      | None, None =>
          tableEntry ← setField newEntry 0 (IString (list_byte_of_string valueFields));
          let '(err, s3) := asyncSetRow sysTable name tableEntry s2 in
          match err with
          | Some e => Ok ((Some (ErrorWithPrev (-1) e), None), s3)
          | None => Ok ((None, Some (mkTable (TableInfo.newTableInfo name (split valueFields)))), s3)
          end
      end
  end.

(** [StateStorage::openTable] and [StateStorage::createTable]. *)
Definition openTable (name : string) (s : S) : outcome error (option Table * S) :=
  r ← asyncOpenTable name s; await r.
Definition createTable (name valueFields : string) (s : S) : outcome error (option Table * S) :=
  r ← asyncCreateTable name valueFields s; await r.

End Tables.
End Storage.
End Tables.

(* ------------------------------------------------------------------ *)
(** ** KVStorageHelper *)

Module KVStorage.
Section KVStorage.
Context {S : Type} `{StorageInterface S}.

Definition asyncGet (columnFamily key : string) (s : S) :
    outcome error ((option error * bytes) * S) :=
  let '((err, entry), s') := getRow columnFamily key s in
  match err, entry with
  | Some e, _ => Ok ((Some e, []), s')
  | None, Some entry => value ← getField entry 0; Ok ((None, value), s')
  | None, None => Ok ((None, []), s')
  end.

Fixpoint rowValues (entries : list (option Entry)) : outcome error (list bytes) :=
  match entries with
  | [] => Ok []
  | Some e :: entries' => v ← getField e 0; vs ← rowValues entries'; Ok (v :: vs)
  | None :: entries' => vs ← rowValues entries'; Ok ([] :: vs)
  end.

Definition asyncGetBatch (columnFamily : string) (keys : list string) (s : S) :
    outcome error ((option error * option (list bytes)) * S) :=
  let '((err, entries), s') := getRows columnFamily keys s in
  match err with
  | Some e => Ok ((Some e, None), s')
  | None => values ← rowValues entries; Ok ((None, Some values), s')
  end.

Definition asyncPut (columnFamily key : string) (value : Input) (s : S) :
    outcome error (option error * S) :=
  entry ← importFields newEntry [value];
  Ok (setRow columnFamily key entry s).

Definition asyncRemove (columnFamily key : string) (s : S) : option error * S :=
  setRow columnFamily key (setStatus newEntry DELETED) s.

End KVStorage.
End KVStorage.

(* ------------------------------------------------------------------ *)
(** ** BatchStorageHelper *)

Module Batch.
Section Batch.
Context {S : Type} `{StorageInterface S}.

(** [ResultCollection], and the calls of the callback so far. *)
Record collection : Type := mkCollection
  { success : Z
  ; failed : Z
  ; results : list bool
  ; calls : list (list bool) }.

(** The callback of the write of row [index]. *)
Definition onSetRow (index : nat) (err : option error) (c : collection) : collection :=
  let c1 :=
    match err with
    | Some _ => mkCollection (success c) (failed c + 1) (<[index := false]> (results c)) (calls c)
    | None => mkCollection (success c + 1) (failed c) (<[index := true]> (results c)) (calls c)
    end in
  if success c1 + failed c1 =? len (results c1)
  then mkCollection (success c1) (failed c1) (results c1) (calls c1 ++ [results c1])
  else c1.

Fixpoint batchLoop (table : string) (index : nat) (entries : list (string * Entry))
    (c : collection) (s : S) : collection * S :=
  match entries with
  | [] => (c, s)
  | (key, e) :: entries' =>
      let '(err, s') := setRow table key e s in
      batchLoop table (Datatypes.S index) entries' (onSetRow index err c) s'
  end.

Definition asyncBatchSetRows (table : string) (entries : list (string * Entry)) (s : S) :
    list (list bool) * S :=
  let '(c, s') :=
    batchLoop table 0 entries (mkCollection 0 0 (replicate (length entries) false) []) s in
  (calls c, s').

End Batch.
End Batch.

(* ------------------------------------------------------------------ *)
(** ** Facts on a state storage *)

Module TableFacts.
Import StateStorageFacts.
#[local] Existing Instance StateStorage.stateStorage_interface.

Section Facts.
Context {P : Type} `{Reads : StorageReads P}.
Abbreviation Storage := (StateStorage.StateStorage P).

Lemma getRow_readOnly (s : Storage) t k :
  StateStorage.m_readOnly (StateStorage.asyncGetRow t k s).2 = StateStorage.m_readOnly s.
Proof.
  unfold StateStorage.asyncGetRow, StateStorage.importExistingEntry.
  repeat case_match; simplify_eq/=; try done; repeat case_match; simplify_eq/=; done.
Qed.

Lemma setRow_readOnly (s : Storage) t k e :
  StateStorage.m_readOnly (StateStorage.asyncSetRow t k e s).2 = StateStorage.m_readOnly s.
Proof.
  unfold StateStorage.asyncSetRow. destruct (StateStorage.m_readOnly s) eqn:E; [done|].
  destruct (StateStorage.m_data s !! (t, k)); [done|]. by case_bool_decide.
Qed.

(** The answer of a read, from what is shown. *)
Lemma getRow_none (s : Storage) t k :
  shown s t k = None ->
  exists s', StateStorage.asyncGetRow t k s = ((None, None), s') /\
    (forall t' k', shown s' t' k' = shown s t' k') /\
    StateStorage.m_readOnly s' = StateStorage.m_readOnly s.
Proof.
  intros Hs. destruct (getRow_shown s t k) as (H1 & H2 & H3).
  pose proof (getRow_readOnly s t k) as H4. rewrite Hs in H2.
  destruct (StateStorage.asyncGetRow t k s) as [[err [e|]] s']; simpl in *; [done|].
  subst err. by exists s'.
Qed.

Lemma getRow_some (s : Storage) t k e :
  shown s t k = Some e ->
  exists e' s', StateStorage.asyncGetRow t k s = ((None, Some e'), s') /\ get e' = get e /\
    (forall t' k', shown s' t' k' = shown s t' k').
Proof.
  intros Hs. destruct (getRow_shown s t k) as (H1 & H2 & H3). rewrite Hs in H2.
  destruct (StateStorage.asyncGetRow t k s) as [[err [e'|]] s']; simpl in *; [|done].
  subst err. exists e', s'. apply (inj Some) in H2 as <-. split; [done|].
  split; [symmetry; apply get_setDirty|done].
Qed.

Lemma setRow_normal (s : Storage) t k e :
  StateStorage.m_readOnly s = false -> m_status e = NORMAL ->
  exists s', StateStorage.asyncSetRow t k e s = (None, s') /\ shown s' t k = Some (clean e) /\
    StateStorage.m_readOnly s' = false.
Proof.
  intros Hro Hst. destruct (setRow_shown s t k e t k Hro) as [H1 H2].
  pose proof (setRow_readOnly s t k e) as H3. rewrite bool_decide_eq_true_2, Hst in H2 by done.
  destruct (StateStorage.asyncSetRow t k e s) as [err s']. simpl in *. subst err.
  exists s'. by rewrite H3.
Qed.

Lemma string_bytes (x : string) : string_of_list_byte (list_byte_of_string x) = x.
Proof. apply string_of_list_byte_of_string. Qed.

Section Split.
Context (split : string -> list string).
Import Tables.

Lemma open_sys (s : Storage) :
  asyncOpenTable split SYS_TABLES s =
    Ok ((None, Some (mkTable (TableInfo.newTableInfo SYS_TABLES [SYS_TABLE_VALUE_FIELDS]))), s).
Proof. reflexivity. Qed.

Lemma tableName_new (n : string) (f : list string) :
  tableName (mkTable (TableInfo.newTableInfo n f)) = n.
Proof. reflexivity. Qed.

Lemma getSysTableInfo_other (name : string) : name ≠ SYS_TABLES -> getSysTableInfo name = None.
Proof. intros Hn. unfold getSysTableInfo. by rewrite (proj2 (String.eqb_neq _ _)). Qed.

(** Creating a table that exists is refused. *)
Lemma createTable_exists (s : Storage) (name fields : string) e :
  shown s SYS_TABLES name = Some e ->
  createTable split name fields s = Throw (Error TableExists).
Proof.
  intros Hs. unfold createTable, asyncCreateTable. rewrite open_sys. simpl.
  unfold asyncGetRow; simpl. rewrite tableName_new.
  destruct (getRow_some s _ _ _ Hs) as (e' & s' & -> & _). done.
Qed.

(** A created table can be opened: on a writable state storage, creating a table
    that does not exist succeeds, opening it afterwards yields the same
    description, and creating it again is refused with [TableExists]. *)
Theorem create_then_open (s : Storage) (name fields fields' : string) :
  StateStorage.m_readOnly s = false -> name ≠ SYS_TABLES ->
  shown s SYS_TABLES name = None -> len (list_byte_of_string fields) < 2 ^ 31 ->
  let table := mkTable (TableInfo.newTableInfo name (split fields)) in
  exists s1, createTable split name fields s = Ok (Some table, s1) /\
    (exists s2, openTable split name s1 = Ok (Some table, s2)) /\
    createTable split name fields' s1 = Throw (Error TableExists).
Proof.
  intros Hro Hname Hs Hl table.
  destruct (getRow_none s _ _ Hs) as (s2 & Hg & _ & Hro2).
  destruct (set_get newEntry (IString (list_byte_of_string fields)) wf_newEntry Hl)
    as (e & He & Hget & _ & Hst & _).
  destruct (setRow_normal s2 SYS_TABLES name e) as (s3 & Hset & Hs3 & _);
    [by rewrite Hro2|by rewrite Hst|].
  exists s3. split; [|split].
  - unfold createTable, asyncCreateTable. rewrite open_sys. simpl.
    unfold asyncGetRow, asyncSetRow; simpl. rewrite tableName_new, Hg. unfold setField. simpl. rewrite He. simpl.
    rewrite Hset. done.
  - unfold openTable, asyncOpenTable, asyncGetTableInfo. rewrite getSysTableInfo_other by done.
    simpl. unfold asyncGetRow; simpl. rewrite tableName_new.
    destruct (getRow_some s3 _ _ _ Hs3) as (e' & s4 & -> & Hg' & _).
    unfold getField. simpl. rewrite Hg'. unfold clean. rewrite get_setDirty, Hget. simpl.
    rewrite string_bytes. by exists s4.
  - by eapply createTable_exists.
Qed.

End Split.

Import KVStorage.

(** Key-value access: what was put is got back, and after a removal nothing is. *)
Theorem put_get_remove (s : Storage) (cf key : string) (value : Input) :
  StateStorage.m_readOnly s = false -> len (inputValueView value) < 2 ^ 31 ->
  exists s1 s2 s3 s4,
    asyncPut cf key value s = Ok (None, s1) /\
    asyncGet cf key s1 = Ok ((None, inputValueView value), s2) /\
    asyncRemove cf key s1 = (None, s3) /\
    asyncGet cf key s3 = Ok ((None, []), s4).
Proof.
  intros Hro Hl.
  destruct (set_get newEntry value wf_newEntry Hl) as (e & He & Hget & _ & Hst & _).
  destruct (setRow_normal s cf key e) as (s1 & Hset & Hs1 & Hro1); [done|by rewrite Hst|].
  destruct (getRow_some s1 _ _ _ Hs1) as (e' & s2 & Hg & Hg' & _).
  destruct (setRow_shown s1 cf key (setStatus newEntry DELETED) cf key Hro1) as [Hr1 Hr2].
  rewrite bool_decide_eq_true_2 in Hr2 by done. simpl in Hr2.
  destruct (StateStorage.asyncSetRow cf key (setStatus newEntry DELETED) s1) as [err s3] eqn:Hrm.
  simpl in *. subst err. destruct (getRow_none s3 _ _ Hr2) as (s4 & Hg4 & _).
  exists s1, s2, s3, s4. split; [|split; [|split]].
  - unfold asyncPut, importFields, setField. simpl. rewrite He. simpl. by rewrite Hset.
  - unfold asyncGet. simpl. rewrite Hg. unfold getField; simpl. rewrite Hg'. unfold clean.
    by rewrite get_setDirty, Hget.
  - exact Hrm.
  - unfold asyncGet. simpl. by rewrite Hg4.
Qed.

End Facts.
End TableFacts.

(** ** Batches *)

Module BatchFacts.
Import Batch.

Section Facts.
Context {S : Type} `{StorageInterface S}.

(** The writes one after the other, and whether each succeeded. *)
Fixpoint setAll (table : string) (entries : list (string * Entry)) (s : S) : list bool * S :=
  match entries with
  | [] => ([], s)
  | (key, e) :: entries' =>
      let '(err, s1) := setRow table key e s in
      let '(flags, s2) := setAll table entries' s1 in
      (match err with Some _ => false | None => true end :: flags, s2)
  end.

Lemma onSetRow_spec (i : nat) (err : option error) (c : collection) :
  success c + failed c = Z.of_nat i -> (i < length (results c))%nat -> calls c = [] ->
  let c' := onSetRow i err c in
  success c' + failed c' = Z.of_nat (1 + i) /\
  results c' = <[i := match err with Some _ => false | None => true end]> (results c) /\
  calls c' = if (1 + i =? length (results c))%nat then [results c'] else [].
Proof.
  intros Hs Hi Hc. unfold onSetRow, len.
  destruct err; cbn [success failed results calls]; rewrite length_insert, Hc;
    (destruct (Nat.eqb_spec (1 + i) (length (results c)));
     [rewrite (proj2 (Z.eqb_eq _ _)) by lia|rewrite (proj2 (Z.eqb_neq _ _)) by lia]);
    cbn [success failed results calls]; split_and!; done || lia.
Qed.

Lemma batchLoop_spec (table : string) (entries : list (string * Entry)) :
  forall (i : nat) (c : collection) (s : S),
  success c + failed c = Z.of_nat i -> length (results c) = (i + length entries)%nat ->
  calls c = [] ->
  let '(c', s') := batchLoop table i entries c s in
  let '(flags, s'') := setAll table entries s in
  s' = s'' /\ results c' = take i (results c) ++ flags /\
  calls c' = if bool_decide (entries = []) then [] else [results c'].
Proof.
  induction entries as [|[key e] entries IH]; intros i c s Hs Hl Hc; simpl.
  - rewrite app_nil_r, take_ge by (simpl in Hl; lia). done.
  - destruct (setRow table key e s) as [err s1]. set (b := match err with Some _ => false | None => true end).
    destruct (onSetRow_spec i err c Hs) as (H1 & H2 & H3); [simpl in Hl; lia|done|]. fold b in H2.
    set (c1 := onSetRow i err c) in *.
    destruct (Nat.eqb_spec (1 + i) (length (results c))) as [Hlast|Hmore].
    + assert (entries = []) as -> by (destruct entries; [done|simpl in Hl; lia]). simpl.
      split; [done|]. split; [|done]. rewrite H2. simpl in Hl.
      rewrite insert_take_drop by lia. rewrite drop_ge by lia. done.
    + specialize (IH (1 + i)%nat c1 s1 H1).
      change (Datatypes.S i) with (1 + i)%nat. destruct (batchLoop table (1 + i) entries c1 s1) as [c' s'].
      destruct (setAll table entries s1) as [flags s2]. destruct IH as (IH1 & IH2 & IH3).
      { rewrite H2, length_insert. simpl in Hl. lia. }
      { done. }
      split; [done|]. split.
      * rewrite IH2, H2, (take_S_r _ i b), take_insert_ge by (lia || (apply list_lookup_insert_eq; simpl in Hl; lia)).
        by rewrite <- app_assoc.
      * rewrite IH3. rewrite (bool_decide_eq_false_2 (entries = [])); [done|].
        intros ->. simpl in Hl. lia.
Qed.

(** A batch of writes performs them in order and calls back exactly once, with
    the success of each; an empty batch never calls back. *)
Theorem batch_calls_back_once (table : string) (entries : list (string * Entry)) (s : S) :
  asyncBatchSetRows table entries s =
    let '(flags, s') := setAll table entries s in
    (if bool_decide (entries = []) then [] else [flags], s').
Proof.
  unfold asyncBatchSetRows.
  pose proof (batchLoop_spec table entries 0
    (mkCollection 0 0 (replicate (length entries) false) []) s) as Hb.
  destruct (batchLoop table 0 entries _ s) as [c' s']. destruct (setAll table entries s) as [flags s''].
  destruct Hb as (-> & Hr & Hc); [done|simpl; by rewrite length_replicate|done|].
  rewrite Hc, Hr. done.
Qed.

End Facts.
End BatchFacts.

Module TableWitnesses.
Import StateStorageFacts TableFacts.
#[local] Existing Instance StateStorage.stateStorage_interface.

Lemma create_then_open_witness :
  let split x := [x; x] in
  let table := Tables.mkTable (TableInfo.newTableInfo "t_user" (split "name,age"%string)) in
  exists s1, Tables.createTable split "t_user" "name,age" block_state = Ok (Some table, s1) /\
    (exists s2, Tables.openTable split "t_user" s1 = Ok (Some table, s2)) /\
    Tables.createTable split "t_user" "x" s1 = Throw (Error TableExists).
Proof.
  by apply (create_then_open (fun x => [x; x]) block_state "t_user" "name,age" "x").
Defined.

Lemma put_get_remove_witness :
  exists s1 s2 s3 s4,
    KVStorage.asyncPut "c" "k" (IString [Byte.x61]) block_state = Ok (None, s1) /\
    KVStorage.asyncGet "c" "k" s1 = Ok ((None, [Byte.x61]), s2) /\
    KVStorage.asyncRemove "c" "k" s1 = (None, s3) /\
    KVStorage.asyncGet "c" "k" s3 = Ok ((None, []), s4).
Proof. by apply (put_get_remove block_state "c" "k" (IString [Byte.x61])). Defined.

End TableWitnesses.
