(* ===== verification/Merkle.v ===== *)
(** * Merkle proofs

    Model of libprotocol/ParallelMerkleProof.cpp: the 16-ary Merkle root of a
    list of byte strings and the parent-to-children map from which a proof is
    read.  The hash function is a parameter of the model.  Each level is filled
    by [tbb::parallel_for], which runs its body on every index of the range, in
    an order that is a parameter as well. *)

From Stdlib Require Import ZArith Lia List.
From Stdlib Require Import Strings.String Strings.Byte.
From stdpp Require Import base tactics decidable list option gmap relations.
From S2P Require Import Prelude DataConvert.

Module Merkle.

(** [std::length_error], from [vector::resize]. *)
Inductive merkle_exn : Type := LengthError.

(** [std::map<std::string, std::vector<std::string>>]. *)
Abbreviation Parent2ChildList := (gmap bytes (list bytes)).

Definition MAX_CHILD_COUNT : Z := 16.

(** [int size = (bytesCachesTemp.size() + MAX_CHILD_COUNT - 1) / MAX_CHILD_COUNT]. *)
Definition levelSize (n : Z) : Z :=
  swrap 32 (u64 (u64 (n + MAX_CHILD_COUNT) - 1) / MAX_CHILD_COUNT).

(** [uint32_t index = i * MAX_CHILD_COUNT + j]. *)
Definition childIndex (i j : Z) : Z := u32 (u32 (i * MAX_CHILD_COUNT) + j).

(** The elements the inner loop visits for node [i]. *)
Definition childList (cache : list bytes) (i : nat) : list bytes :=
  omap (fun j => cache !! Z.to_nat (childIndex (u32 (Z.of_nat i)) (Z.of_nat j)))
       (seq 0 (Z.to_nat MAX_CHILD_COUNT)).

(** [toHexString] of the data, with the empty prefix it defaults to. *)
Definition hex (data : bytes) : bytes := Hex.toHexString data [].

(** [emplace_back] on the list the map holds for the parent, created when missing. *)
Definition addChild (parent : bytes) (m : Parent2ChildList) (child : bytes) : Parent2ChildList :=
  <[ parent := default [] (m !! parent) ++ [child] ]> m.

Section Merkle.
(** [_cryptoSuite->hash(..).asBytes()], and the order in which the bodies of a
    parallel loop over [0 .. n-1] run. *)
Variable hash : bytes -> bytes.
Variable schedule : nat -> list nat.

(** The body of the parallel loop of [calculateMerkleProofRoot]. *)
Definition rootBody (cache higher : list bytes) (i : nat) : list bytes :=
  <[ i := hash (concat (childList cache i)) ]> higher.

(** One turn of its [while] loop. *)
Definition rootLevel (cache : list bytes) : outcome merkle_exn (list bytes) :=
  let size := levelSize (len cache) in
  if size <? 0 then Throw LengthError
  else let n := Z.to_nat size in Ok (foldl (rootBody cache) (replicate n []) (schedule n)).

Fixpoint rootLoop (fuel : nat) (cache : list bytes) : outcome merkle_exn (list bytes) :=
  if (1 <? len cache)%Z then
    match fuel with
    | O => Undefined OutOfFuel
    | S fuel => higher ← rootLevel cache; rootLoop fuel higher
    end
  else Ok cache.

(** [calculateMerkleProofRoot]: the root, and what is left of the argument,
    whose elements are moved out of it. *)
Definition calculateMerkleProofRoot (caches : list bytes) :
    outcome merkle_exn (bytes * list bytes) :=
  match caches with
  | [] => Ok (hash [], [])
  | _ =>
      top ← rootLoop (length caches) caches;
      match top with
      | b :: _ => Ok (hash b, replicate (length caches) [])
      | [] => Undefined OutOfRange
      end
  end.

(** The body of the parallel loop of [calculateMerkleProof]. *)
Definition proofBody (cache : list bytes) (st : list bytes * Parent2ChildList) (i : nat) :
    list bytes * Parent2ChildList :=
  let children := childList cache i in
  let node := hash (concat children) in
  (<[ i := node ]> st.1, foldl (addChild (hex node)) st.2 (map hex children)).

Definition proofLevel (cache : list bytes) (m : Parent2ChildList) :
    outcome merkle_exn (list bytes * Parent2ChildList) :=
  let size := levelSize (len cache) in
  if size <? 0 then Throw LengthError
  else let n := Z.to_nat size in
       Ok (foldl (proofBody cache) (replicate n [], m) (schedule n)).

Fixpoint proofLoop (fuel : nat) (cache : list bytes) (m : Parent2ChildList) :
    outcome merkle_exn (list bytes * Parent2ChildList) :=
  if (1 <? len cache)%Z then
    match fuel with
    | O => Undefined OutOfFuel
    | S fuel => '(higher, m') ← proofLevel cache m; proofLoop fuel higher m'
    end
  else Ok (cache, m).

(** [calculateMerkleProof]: the map, and what is left of the argument. *)
Definition calculateMerkleProof (caches : list bytes) (m : Parent2ChildList) :
    outcome merkle_exn (Parent2ChildList * list bytes) :=
  match caches with
  | [] => Ok (m, [])
  | _ =>
      '(top, m') ← proofLoop (length caches) caches m;
      match top with
      | b :: _ => Ok (addChild (hex (hash b)) m' (hex b), replicate (length caches) [])
      | [] => Undefined OutOfRange
      end
  end.
End Merkle.
End Merkle.

(* ------------------------------------------------------------------ *)
(** ** The reference tree *)

Module MerkleTree.

(** The list cut into groups of sixteen, the last one possibly shorter. *)
Definition groups {A} (l : list A) : list (list A) :=
  map (fun i => take 16 (drop (16 * i) l)) (seq 0 ((length l + 15) / 16)).

Section MerkleTree.
Variable hash : bytes -> bytes.

(** The level above a level: the hash of each group's concatenation. *)
Definition parents (l : list bytes) : list bytes := map (fun g => hash (concat g)) (groups l).

(** [tree_top l t]: [t] is the single string left on top of the levels above [l]. *)
Inductive tree_top : list bytes -> bytes -> Prop :=
| top_single (b : bytes) : tree_top [b] b
| top_parents (l : list bytes) (t : bytes) :
    (1 < length l)%nat -> tree_top (parents l) t -> tree_top l t.

(** The strings hashed on the way from a list to its root. *)
Inductive hashed : list bytes -> bytes -> Prop :=
| hashed_top (b : bytes) : hashed [b] b
| hashed_group (l : list bytes) (g : list bytes) :
    (1 < length l)%nat -> g ∈ groups l -> hashed l (concat g)
| hashed_parents (l : list bytes) (x : bytes) :
    (1 < length l)%nat -> hashed (parents l) x -> hashed l x.

Lemma length_parents (l : list bytes) : length (parents l) = ((length l + 15) / 16)%nat.
Proof. unfold parents, groups. rewrite !length_map, length_seq. reflexivity. Qed.

Lemma length_parents_bounds (l : list bytes) :
  (1 < length l)%nat -> (0 < length (parents l) < length l)%nat.
Proof.
  intros Hl. rewrite length_parents. split.
  - apply Nat.div_str_pos. lia.
  - apply Nat.Div0.div_lt_upper_bound. lia.
Qed.
End MerkleTree.

Section Groups.
Context {A : Type}.
Implicit Types l k : list A.

Lemma groups_cons l :
  l ≠ [] -> groups l = take 16 l :: groups (drop 16 l).
Proof.
  intros Hl. unfold groups.
  assert (Hn : ((length l + 15) / 16 = S ((length (drop 16 l) + 15) / 16))%nat).
  { rewrite length_drop. destruct l as [|x l]; [done|]. cbn [length].
    destruct (decide (16 <= S (length l))%nat) as [Hge | Hlt].
    - replace (S (length l) + 15)%nat with (S (length l) - 16 + 15 + 1 * 16)%nat by lia.
      rewrite Nat.div_add by lia. lia.
    - replace (S (length l) - 16)%nat with 0%nat by lia.
      replace (S (length l) + 15)%nat with (length l + 1 * 16)%nat by lia.
      rewrite Nat.div_add, Nat.div_small by lia. reflexivity. }
  rewrite Hn. cbn [seq map]. rewrite drop_0. f_equal.
  rewrite <- seq_shift, map_map. apply map_ext. intros i.
  rewrite drop_drop. replace (16 * S i)%nat with (16 + 16 * i)%nat by lia. reflexivity.
Qed.

Lemma groups_ind (P : list A -> Prop) :
  P [] -> (forall l, l ≠ [] -> P (drop 16 l) -> P l) -> forall l, P l.
Proof.
  intros H0 Hs l. remember (length l) as n eqn:Hn. revert l Hn.
  induction n as [n IH] using lt_wf_ind. intros l ->.
  destruct l as [|x l]; [exact H0 |]. apply Hs; [done |].
  apply (IH (length (drop 16 (x :: l)))); [rewrite length_drop; simpl; lia | done].
Qed.

Lemma concat_groups l : concat (groups l) = l.
Proof.
  induction l as [| l Hl IH] using groups_ind; [reflexivity |].
  rewrite groups_cons by done. cbn [concat]. rewrite IH. apply take_drop.
Qed.

Lemma groups_nonempty l g : g ∈ groups l -> g ≠ [].
Proof.
  induction l as [| l Hl IH] using groups_ind; [by intros ?%elem_of_nil |].
  rewrite groups_cons by done. intros [-> | Hg]%elem_of_cons; [| auto].
  destruct l; done.
Qed.

Lemma groups_lengths l k :
  length l = length k -> map length (groups l) = map length (groups k).
Proof.
  revert k. induction l as [| l Hl IH] using groups_ind; intros k Hk.
  - by destruct k.
  - destruct (decide (k = [])) as [-> | Hne]; [by destruct l |].
    rewrite (groups_cons l), (groups_cons k) by done. cbn [map]. f_equal.
    + rewrite !length_take. lia.
    + apply IH. rewrite !length_drop. lia.
Qed.
End Groups.
End MerkleTree.

(* ------------------------------------------------------------------ *)
(** ** Properties of the code *)

Module MerkleFacts.
Import Merkle MerkleTree.

(** [c] is recorded as a child of [p]. *)
Definition linked (m : Parent2ChildList) (c p : bytes) : Prop :=
  exists cs, m !! p = Some cs /\ c ∈ cs.

(** Every entry of the map lists the children of groups whose hash is its key. *)
Definition sound (hash : bytes -> bytes) (m : Parent2ChildList) : Prop :=
  forall p cs, m !! p = Some cs ->
    exists gs, gs ≠ [] /\ cs = concat (map (map hex) gs) /\
      Forall (fun g => g ≠ [] /\ p = hex (hash (concat g))) gs.

Lemma omap_lookup_seq {A} (l : list A) (n k : nat) :
  omap (fun j => l !! (k + j)%nat) (seq 0 n) = take n (drop k l).
Proof.
  revert k. induction n as [|n IH]; intros k; [by rewrite take_0 |].
  cbn [seq omap list_omap]. rewrite <- seq_shift, Nat.add_0_r.
  change (list_omap ?f) with (omap f).
  assert (Hs : omap (fun j => l !! (k + j)%nat) (map S (seq 0 n)) = take n (drop (S k) l)).
  { rewrite <- IH. apply list_omap_ext, Forall2_fmap_l, Forall_Forall2_diag, Forall_true.
    intros j. f_equal. lia. }
  destruct (l !! k) as [x|] eqn:Hk.
  - rewrite (drop_S l x k Hk). cbn [take]. by rewrite Hs.
  - apply lookup_ge_None in Hk. rewrite Hs, !drop_ge by lia. by rewrite !take_nil.
Qed.

Lemma foldl_insert_lookup {A} (f : nat -> A) (order : list nat) (acc : list A) (i : nat) :
  foldl (fun acc i => <[i := f i]> acc) acc order !! i =
  if decide (i ∈ order /\ (i < length acc)%nat) then Some (f i) else acc !! i.
Proof.
  revert acc. induction order as [|j order IH]; intros acc; cbn [foldl].
  - rewrite decide_False; [done |]. by intros [?%elem_of_nil _].
  - rewrite IH, length_insert. destruct (decide (i = j)) as [<- | Hij].
    + destruct (decide (i < length acc)%nat) as [Hi | Hi].
      * rewrite (decide_True (P := i ∈ i :: order /\ _)) by (split; [left | done]).
        destruct (decide (i ∈ order /\ _)); [done |]. by apply list_lookup_insert_eq.
      * rewrite !decide_False by naive_solver. rewrite list_insert_ge by lia. done.
    + rewrite list_lookup_insert_ne by done.
      apply decide_ext. rewrite elem_of_cons. naive_solver.
Qed.

(** A parallel loop that fills every slot gives the same list in any order. *)
Lemma parallel_fill {A} (f : nat -> A) (d : A) (order : list nat) (n : nat) :
  order ≡ₚ seq 0 n -> foldl (fun acc i => <[i := f i]> acc) (replicate n d) order = map f (seq 0 n).
Proof.
  intros Hp. apply list_eq. intros i. rewrite foldl_insert_lookup, length_replicate.
  change (map f) with (fmap (M := list) f). rewrite list_lookup_fmap.
  destruct (decide (i < n)%nat) as [Hi | Hi].
  - rewrite decide_True by (rewrite Hp, elem_of_seq; lia).
    by rewrite lookup_seq_lt by done.
  - rewrite decide_False by naive_solver.
    rewrite lookup_seq_ge by lia. apply lookup_replicate_None. lia.
Qed.

Lemma levelSize_small (n : Z) : 0 <= n < 2 ^ 31 -> levelSize n = (n + 15) / 16.
Proof.
  intros Hn. unfold levelSize, MAX_CHILD_COUNT.
  rewrite (uwrap_small 64 (n + 16)) by lia. rewrite uwrap_small by lia.
  replace (n + 16 - 1) with (n + 15) by lia.
  assert (0 <= (n + 15) / 16 < 2 ^ 31); [| apply swrap_small; simpl; lia].
  split; [apply Z.div_pos; lia | apply Z.div_lt_upper_bound; lia].
Qed.

Lemma childList_group (l : list bytes) (i : nat) :
  (Z.of_nat i < 2 ^ 27) -> childList l i = take 16 (drop (16 * i) l).
Proof.
  intros Hi. unfold childList, childIndex, MAX_CHILD_COUNT. rewrite <- omap_lookup_seq.
  change (Z.to_nat 16) with 16%nat.
  apply list_omap_ext, Forall_Forall2_diag, Forall_seq. intros k Hk.
  rewrite (uwrap_small 32 (Z.of_nat i)) by lia.
  rewrite (uwrap_small 32 (_ * 16)) by lia. rewrite uwrap_small by lia.
  f_equal. lia.
Qed.

Section Code.
Variable hash : bytes -> bytes.
Variable schedule : nat -> list nat.
(** [parallel_for] runs the body once on every index of its range. *)
Hypothesis Hschedule : forall n, schedule n ≡ₚ seq 0 n.

Lemma levelSize_groups (l : list bytes) :
  len l < 2 ^ 31 -> levelSize (len l) = Z.of_nat ((length l + 15) / 16).
Proof.
  intros Hl. rewrite levelSize_small by (unfold len in *; lia).
  unfold len. rewrite Nat2Z.inj_div. f_equal. lia.
Qed.

Lemma map_childList (l : list bytes) :
  len l < 2 ^ 31 -> map (childList l) (seq 0 ((length l + 15) / 16)) = groups l.
Proof.
  intros Hl. unfold groups. apply map_ext_in. intros i [_ Hi]%in_seq.
  apply childList_group. unfold len in Hl.
  assert ((length l + 15) / 16 * 16 <= length l + 15)%nat by
    (rewrite Nat.mul_comm; apply Nat.Div0.mul_div_le). lia.
Qed.

Lemma rootLevel_parents (l : list bytes) :
  len l < 2 ^ 31 -> rootLevel hash schedule l = Ok (parents hash l).
Proof.
  intros Hl. unfold rootLevel. rewrite levelSize_groups by done.
  destruct (Z.ltb_spec (Z.of_nat ((length l + 15) / 16)) 0); [lia |]. rewrite Nat2Z.id.
  unfold rootBody. rewrite parallel_fill by apply Hschedule.
  unfold parents. rewrite <- map_childList by done. by rewrite map_map.
Qed.

(** The loop leaves the top of the reference tree, with fuel to spare. *)
Lemma rootLoop_top (fuel : nat) (l : list bytes) :
  l ≠ [] -> len l < 2 ^ 31 -> (length l <= fuel)%nat ->
  exists t, tree_top hash l t /\ rootLoop hash schedule fuel l = Ok [t].
Proof.
  revert l. induction fuel as [|fuel IH]; intros l Hne Hl Hf;
    [destruct l; simpl in *; [done | lia] |].
  cbn [rootLoop]. destruct (Z.ltb_spec 1 (len l)) as [H1 | H1].
  - assert (Hgt : (1 < length l)%nat) by (unfold len in H1; lia).
    destruct (length_parents_bounds hash l Hgt) as [Hp Hlt].
    rewrite rootLevel_parents, bind_ok by done.
    destruct (IH (parents hash l)) as (t & Ht & Hloop).
    + intros Hnil. rewrite Hnil in Hp. simpl in Hp. lia.
    + unfold len in *; lia.
    + lia.
    + exists t. eauto using top_parents.
  - destruct l as [| b [| c l]]; [done | | unfold len in H1; simpl in H1; lia].
    eauto using top_single.
Qed.

Lemma tree_top_det (l : list bytes) (t u : bytes) :
  tree_top hash l t -> tree_top hash l u -> t = u.
Proof.
  induction 1 as [b | l t Hl Ht IH]; inversion 1; subst; simpl in *; [done | lia | lia | auto].
Qed.

Lemma root_top (l : list bytes) :
  l ≠ [] -> len l < 2 ^ 31 ->
  exists t, tree_top hash l t /\
    calculateMerkleProofRoot hash schedule l = Ok (hash t, replicate (length l) []).
Proof.
  intros Hne Hl. destruct (rootLoop_top (length l) l Hne Hl (Nat.le_refl _)) as (t & Ht & Hr).
  exists t. split; [done |]. unfold calculateMerkleProofRoot. destruct l; [done |].
  by rewrite Hr.
Qed.

(** One parallel body's update of the map. *)
Definition addGroup (m : Parent2ChildList) (g : list bytes) : Parent2ChildList :=
  foldl (addChild (hex (hash (concat g)))) m (map hex g).

Lemma addChild_all (p : bytes) (cs : list bytes) (m : Parent2ChildList) :
  cs ≠ [] -> foldl (addChild p) m cs = <[ p := default [] (m !! p) ++ cs ]> m.
Proof.
  revert m. induction cs as [| c cs IH]; intros m Hne; [done |]. cbn [foldl].
  destruct cs as [| d cs]; [done |]. rewrite IH by done. unfold addChild.
  rewrite lookup_insert_eq, insert_insert_eq. cbn [default from_option id].
  by rewrite <- app_assoc.
Qed.

Lemma addGroup_insert (m : Parent2ChildList) (g : list bytes) :
  g ≠ [] -> let p := hex (hash (concat g)) in
  addGroup m g = <[ p := default [] (m !! p) ++ map hex g ]> m.
Proof. intros Hg. apply addChild_all. by destruct g. Qed.

Lemma linked_addGroup (m : Parent2ChildList) (g : list bytes) (c p : bytes) :
  g ≠ [] -> linked m c p -> linked (addGroup m g) c p.
Proof.
  intros Hg (cs & Hp & Hc). unfold linked. rewrite addGroup_insert by done.
  destruct (decide (hex (hash (concat g)) = p)) as [-> | Hne].
  - rewrite lookup_insert_eq, Hp. eexists. split; [done |]. apply elem_of_app. by left.
  - rewrite lookup_insert_ne by done. eauto.
Qed.

Lemma addGroup_links (m : Parent2ChildList) (g : list bytes) (c : bytes) :
  c ∈ g -> linked (addGroup m g) (hex c) (hex (hash (concat g))).
Proof.
  intros Hc. unfold linked. rewrite addGroup_insert by (by intros ->; apply elem_of_nil in Hc).
  rewrite lookup_insert_eq. eexists. split; [done |].
  apply elem_of_app. right. by apply (list_elem_of_fmap_2 hex).
Qed.

Lemma addGroup_sound (m : Parent2ChildList) (g : list bytes) :
  g ≠ [] -> sound hash m -> sound hash (addGroup m g).
Proof.
  intros Hg Hm p cs. rewrite addGroup_insert by done.
  destruct (decide (hex (hash (concat g)) = p)) as [<- | Hne].
  - rewrite lookup_insert_eq. intros [= <-].
    destruct (m !! _) as [cs|] eqn:Hcs; cbn [default from_option id].
    + destruct (Hm _ _ Hcs) as (gs & Hgs & -> & Hall). exists (gs ++ [g]).
      split; [by destruct gs | split].
      * rewrite map_app, concat_app. simpl. by rewrite app_nil_r.
      * apply Forall_app. eauto.
    + exists [g]. split; [done | split; [| by constructor]]. simpl. by rewrite app_nil_r.
  - rewrite lookup_insert_ne by done. apply Hm.
Qed.

(** What extending a map by groups keeps, and what it adds. *)
Lemma addGroups (gs : list (list bytes)) (m : Parent2ChildList) :
  Forall (fun g => g ≠ []) gs ->
  let m' := foldl addGroup m gs in
  (forall c p, linked m c p -> linked m' c p) /\
  (sound hash m -> sound hash m') /\
  (forall g c, g ∈ gs -> c ∈ g -> linked m' (hex c) (hex (hash (concat g)))).
Proof.
  revert m. induction gs as [| g gs IH]; intros m Hgs; simpl.
  - split; [done | split; [done |]]. by intros g c ?%elem_of_nil.
  - apply Forall_cons in Hgs as [Hg Hgs].
    destruct (IH (addGroup m g) Hgs) as (Hmono & Hsound & Hlinks).
    split; [auto using linked_addGroup | split; [auto using addGroup_sound |]].
    intros g' c [-> | Hg']%elem_of_cons Hc; [auto using addGroup_links | eauto].
Qed.

Lemma proofBody_split (l : list bytes) (order : list nat) (higher : list bytes)
    (m : Parent2ChildList) :
  foldl (proofBody hash l) (higher, m) order =
  (foldl (rootBody hash l) higher order, foldl addGroup m (map (childList l) order)).
Proof.
  revert higher m. induction order as [| i order IH]; intros higher m; [done |].
  cbn [foldl map]. by rewrite <- IH.
Qed.

Lemma proofLevel_parents (l : list bytes) (m : Parent2ChildList) :
  len l < 2 ^ 31 ->
  exists gs, gs ≡ₚ groups l /\ proofLevel hash schedule l m = Ok (parents hash l, foldl addGroup m gs).
Proof.
  intros Hl. pose proof (rootLevel_parents l Hl) as Hroot.
  exists (map (childList l) (schedule ((length l + 15) / 16))). split.
  - rewrite <- map_childList by done.
    change (map (childList l)) with (fmap (M := list) (childList l)). by rewrite Hschedule.
  - unfold proofLevel, rootLevel in *. rewrite levelSize_groups in * by done.
    destruct (Z.ltb_spec (Z.of_nat ((length l + 15) / 16)) 0); [lia |].
    rewrite Nat2Z.id in *. rewrite proofBody_split. do 2 f_equal. congruence.
Qed.

Lemma proofLoop_top (fuel : nat) (l : list bytes) (m : Parent2ChildList) :
  l ≠ [] -> len l < 2 ^ 31 -> (length l <= fuel)%nat ->
  exists t m', tree_top hash l t /\ proofLoop hash schedule fuel l m = Ok ([t], m') /\
    (forall c p, linked m c p -> linked m' c p) /\ (sound hash m -> sound hash m') /\
    (forall c, c ∈ l -> rtc (linked m') (hex c) (hex t)).
Proof.
  revert l m. induction fuel as [|fuel IH]; intros l m Hne Hl Hf;
    [destruct l; simpl in *; [done | lia] |].
  cbn [proofLoop]. destruct (Z.ltb_spec 1 (len l)) as [H1 | H1].
  - assert (Hgt : (1 < length l)%nat) by (unfold len in H1; lia).
    destruct (length_parents_bounds hash l Hgt) as [Hp Hlt].
    destruct (proofLevel_parents l m Hl) as (gs & Hgs & Hlevel).
    destruct (addGroups gs m) as (Hmono & Hsound & Hlinks).
    { rewrite Hgs. apply Forall_forall. intros g Hg.
      by apply (groups_nonempty l g). }
    rewrite Hlevel, bind_ok.
    destruct (IH (parents hash l) (foldl addGroup m gs)) as (t & m' & Ht & Hr & Hmono' & Hs' & Hc').
    + intros Hnil. rewrite Hnil in Hp. simpl in Hp. lia.
    + unfold len in *; lia.
    + lia.
    + exists t, m'. split; [by apply top_parents |]. split_and!; [done | auto | auto |].
      intros c Hc. rewrite <- (concat_groups l) in Hc.
      apply list_elem_of_In, in_concat in Hc as (g & Hg%list_elem_of_In & Hc%list_elem_of_In).
      apply rtc_l with (hex (hash (concat g))); [apply Hmono', Hlinks; by rewrite ?Hgs |].
      apply Hc'. unfold parents. by apply (list_elem_of_fmap_2 (fun g => hash (concat g))).
  - destruct l as [| b [| c l]]; [done | | unfold len in H1; simpl in H1; lia].
    exists b, m. split; [constructor |]. split_and!; [done..|].
    intros c ->%list_elem_of_singleton. constructor.
Qed.

Lemma concat_inj (n : nat) (g h : list bytes) :
  length g = length h -> Forall (fun b => length b = n) g -> Forall (fun b => length b = n) h ->
  concat g = concat h -> g = h.
Proof.
  revert h. induction g as [| b g IH]; intros [| c h] Hlen Fg Fh Heq; try done.
  apply Forall_cons in Fg as [Hb Fg], Fh as [Hc Fh]. cbn [concat] in Heq.
  apply app_inj_1 in Heq as [-> Heq]; [| congruence]. f_equal. apply IH; auto.
Qed.

Lemma groups_inj (n : nat) (gs hs : list (list bytes)) :
  map length gs = map length hs ->
  Forall (fun b => length b = n) (concat gs) ->
  Forall (fun b => length b = n) (concat hs) ->
  (forall g h, g ∈ gs -> h ∈ hs -> hash (concat g) = hash (concat h) -> concat g = concat h) ->
  map (fun g => hash (concat g)) gs = map (fun g => hash (concat g)) hs -> gs = hs.
Proof.
  revert hs. induction gs as [| g gs IH]; intros [| h hs] Hlen Fg Fh Hinj Heq; try done.
  cbn [concat map] in *. apply Forall_app in Fg as [Fg Fgs], Fh as [Fh Fhs].
  injection Hlen as Hl Hlen. injection Heq as He Heq. f_equal.
  - apply (concat_inj n); [done.. |]. apply Hinj; [left | left | done].
  - apply IH; [done.. | | done]. intros; apply Hinj; [by right.. | done].
Qed.

(** The strings hashed determine the list they come from. *)
Lemma tree_binding (n m : nat) (l k : list bytes) (t : bytes) :
  (forall x, length (hash x) = m) ->
  tree_top hash l t -> tree_top hash k t -> length l = length k ->
  Forall (fun b => length b = n) l -> Forall (fun b => length b = n) k ->
  (forall x y, hashed hash l x -> hashed hash k y -> hash x = hash y -> x = y) ->
  l = k.
Proof.
  intros Hh Hl. revert n k. induction Hl as [b | l t Hl Ht IH]; intros n k Hk Hlen Fl Fk Hinj.
  - inversion Hk; subst; simpl in *; [done | lia].
  - inversion Hk as [| ? ? Hk1 Hk2]; subst; [simpl in *; lia |].
    rewrite <- (concat_groups l), <- (concat_groups k). f_equal.
    apply (groups_inj n); [by apply groups_lengths | by rewrite concat_groups.. | |].
    + intros g h Hg Hh'. apply Hinj; by constructor.
    + apply (IH m (parents hash k)); [done | by rewrite !length_parents, Hlen | | |].
      1-2: apply Forall_map, Forall_true; auto.
      intros x y Hx Hy. apply Hinj; by apply hashed_parents.
Qed.

Lemma hashed_tree_top (l : list bytes) (t : bytes) : tree_top hash l t -> hashed hash l t.
Proof. induction 1; [constructor | by apply hashed_parents]. Qed.
End Code.

(** C31. [calculateMerkleProofRoot] terminates and returns the hash of the top of
    the 16-ary reference tree, in whatever order the parallel loops run their
    bodies, for any list of fewer than 2^31 strings; it leaves the caller's
    (const) vector with all its strings emptied. *)
Theorem merkle_root_reference (hash : bytes -> bytes) (schedule : nat -> list nat)
    (l : list bytes) (Hschedule : forall n, schedule n ≡ₚ seq 0 n)
    (Hne : l ≠ []) (Hl : len l < 2 ^ 31) :
  exists t, tree_top hash l t /\
    calculateMerkleProofRoot hash schedule l = Ok (hash t, replicate (length l) []).
Proof. by apply root_top. Qed.


(** The root binds the list, given a hash of one length without a collision
    among the strings hashed on the way to the two roots. *)
Lemma root_binding (hash : bytes -> bytes) (schedule : nat -> list nat)
    (n m : nat) (l k : list bytes) (root : bytes) (a b : list bytes)
    (Hschedule : forall n, schedule n ≡ₚ seq 0 n)
    (Hhash : forall x, length (hash x) = m)
    (Hl : Forall (fun b => length b = n) l) (Hk : Forall (fun b => length b = n) k)
    (Hlen : length l = length k) (Hsize : len l < 2 ^ 31)
    (Hfree : forall x y, hashed hash l x -> hashed hash k y -> hash x = hash y -> x = y)
    (Hrl : calculateMerkleProofRoot hash schedule l = Ok (root, a))
    (Hrk : calculateMerkleProofRoot hash schedule k = Ok (root, b)) :
  l = k.
Proof.
  destruct (decide (l = [])) as [-> | Hne]; [by destruct k |].
  destruct (root_top hash schedule Hschedule l Hne Hsize) as (t & Ht & Hrt).
  destruct (root_top hash schedule Hschedule k) as (u & Hu & Hru);
    [by intros ->; destruct l | unfold len in *; lia |].
  assert (t = u) as <- by (apply Hfree; auto using hashed_tree_top; congruence).
  by apply (tree_binding hash n m l k t).
Qed.

(** Leaves and inner nodes are not told apart: every list of at least two
    strings has the root of a shorter list, the hashes of its groups. *)
Theorem merkle_level_confusion (hash : bytes -> bytes) (schedule : nat -> list nat)
    (l : list bytes) (Hschedule : forall n, schedule n ≡ₚ seq 0 n)
    (Hl : (1 < length l)%nat) (Hsize : len l < 2 ^ 31) :
  exists k root a b, (length k < length l)%nat /\
    calculateMerkleProofRoot hash schedule l = Ok (root, a) /\
    calculateMerkleProofRoot hash schedule k = Ok (root, b).
Proof.
  destruct (length_parents_bounds hash l Hl) as [Hp Hlt].
  destruct (root_top hash schedule Hschedule l) as (t & Ht & Hr);
    [by intros ->; simpl in Hl; lia | done |].
  destruct (root_top hash schedule Hschedule (parents hash l)) as (u & Hu & Hru).
  { intros Hnil. rewrite Hnil in Hp. simpl in Hp. lia. }
  { unfold len in *; lia. }
  assert (t = u) as <- by (apply (tree_top_det hash l); [done | by apply top_parents]).
  by exists (parents hash l), (hash t), (replicate (length l) []), (replicate (length (parents hash l)) []).
Qed.

(** C35. From an empty map, [calculateMerkleProof] records for every leaf a path
    of child-to-parent links up to the root [calculateMerkleProofRoot] returns,
    and every entry of the map lists groups of children whose hash is its key. *)
Theorem merkle_proof_complete (hash : bytes -> bytes) (schedule : nat -> list nat)
    (l : list bytes) (Hschedule : forall n, schedule n ≡ₚ seq 0 n)
    (Hne : l ≠ []) (Hl : len l < 2 ^ 31) :
  exists root m rest, calculateMerkleProofRoot hash schedule l = Ok (root, rest) /\
    calculateMerkleProof hash schedule l ∅ = Ok (m, rest) /\ sound hash m /\
    forall b, b ∈ l -> rtc (linked m) (hex b) (hex root).
Proof.
  destruct (root_top hash schedule Hschedule l Hne Hl) as (t & Ht & Hr).
  destruct (proofLoop_top hash schedule Hschedule (length l) l ∅ Hne Hl (Nat.le_refl _))
    as (u & m & Hu & Hp & _ & Hs & Hc).
  assert (t = u) as <- by (by apply (tree_top_det hash l)).
  exists (hash t), (addGroup hash m [t]), (replicate (length l) []).
  split; [done |]. assert (Hadd : addGroup hash m [t] = addChild (hex (hash t)) m (hex t)).
  { unfold addGroup. simpl. by rewrite app_nil_r. }
  split; [unfold calculateMerkleProof; destruct l; [done |]; by rewrite Hp, Hadd |]. split.
  - apply addGroup_sound; [done |]. apply Hs. intros p cs Hnone. by rewrite lookup_empty in Hnone.
  - intros b Hb. apply rtc_r with (hex t).
    + apply (rtc_subrel (linked m)); [| by apply Hc].
      intros c p. by apply linked_addGroup.
    + pose proof (addGroup_links hash m [t] t) as Hlink. simpl in Hlink.
      rewrite app_nil_r in Hlink. apply Hlink. by apply list_elem_of_singleton.
Qed.
End MerkleFacts.

(* ------------------------------------------------------------------ *)
(** ** The hypotheses can be met *)

Module MerkleWitnesses.
Import Merkle MerkleTree MerkleFacts.

(** A 32-byte digest that starts with the length, and a loop that runs backwards. *)
Definition sampleHash (x : bytes) : bytes := resize 32 Byte.x00 (z2b (len x) :: x).
Definition backwards (n : nat) : list nat := rev (seq 0 n).
Definition leaf (c : byte) : bytes := replicate 32 c.
Definition leaves : list bytes := map (fun i => leaf (z2b (Z.of_nat i))) (seq 0 20).

Lemma backwards_perm (n : nat) : backwards n ≡ₚ seq 0 n.
Proof. symmetry. apply Permutation_rev. Qed.

Lemma sampleHash_length (x : bytes) : length (sampleHash x) = 32%nat.
Proof. apply length_resize. Qed.

Lemma merkle_root_reference_witness :
  exists t, tree_top sampleHash leaves t /\
    calculateMerkleProofRoot sampleHash backwards leaves = Ok (sampleHash t, replicate 20 []).
Proof.
  apply (merkle_root_reference sampleHash backwards leaves);
    [exact backwards_perm | discriminate | vm_compute; reflexivity].
Defined.

Lemma merkle_level_confusion_witness :
  exists k root a b, (length k < 20)%nat /\
    calculateMerkleProofRoot sampleHash backwards leaves = Ok (root, a) /\
    calculateMerkleProofRoot sampleHash backwards k = Ok (root, b).
Proof.
  apply (merkle_level_confusion sampleHash backwards leaves);
    [exact backwards_perm | vm_compute; lia | vm_compute; reflexivity].
Defined.

Lemma merkle_proof_complete_witness :
  exists root m rest, calculateMerkleProofRoot sampleHash backwards leaves = Ok (root, rest) /\
    calculateMerkleProof sampleHash backwards leaves ∅ = Ok (m, rest) /\ sound sampleHash m /\
    forall b, b ∈ leaves -> rtc (linked m) (hex b) (hex root).
Proof.
  apply (merkle_proof_complete sampleHash backwards leaves);
    [exact backwards_perm | discriminate | vm_compute; reflexivity].
Defined.
End MerkleWitnesses.
