(* ===== verification/Protobuf.v ===== *)
(** * protobuf messages and the crypto suite

    What the protocol objects rely on: the messages protobuf generates, behind
    the class [PBMessage], with [encodePBObject] and [decodePBObject] of
    libprotocol/Common.h; and the crypto suite of interfaces/crypto (CryptoSuite.h,
    Hash.h, KeyInterface.h), its algorithms behind the class [CryptoSuite]. *)

From Stdlib Require Import ZArith Lia List.
From Stdlib Require Import Strings.String Strings.Byte.
From stdpp Require Import base tactics decidable list option countable.
From S2P Require Import Prelude FixedBytes.

Module Protobuf.

Inductive pb_exn : Type :=
| PBObjectEncodeException
| PBObjectDecodeException.

(** [SerializeToArray] into a buffer of [ByteSizeLong()] bytes and
    [ParseFromArray], which clears the message first. *)
Class PBMessage (M : Type) : Type :=
  { SerializeToArray : M -> option bytes
  ; ParseFromArray : bytes -> option M }.
#[export] Hint Mode PBMessage ! : typeclass_instances.

(** A message is read back from its serialisation. *)
Class PBLaw (M : Type) `{PBMessage M} : Prop :=
  parse_serialize : forall (m : M) data, SerializeToArray m = Some data -> ParseFromArray data = Some m.

Definition encodePBObject {M} `{PBMessage M} (pbObject : M) : outcome pb_exn bytes :=
  match SerializeToArray pbObject with
  | Some encodedData => Ok encodedData
  | None => Throw PBObjectEncodeException
  end.

Definition decodePBObject {M} `{PBMessage M} (data : bytes) : outcome pb_exn M :=
  match ParseFromArray data with
  | Some pbObject => Ok pbObject
  | None => Throw PBObjectDecodeException
  end.

Lemma encodePBObject_inv {M} `{PBLaw M} (m : M) (data : bytes) :
  encodePBObject m = Ok data -> ParseFromArray data = Some m.
Proof.
  unfold encodePBObject. destruct (SerializeToArray m) eqn:E; intros [= <-]. by apply parse_serialize.
Qed.

Lemma decodePBObject_ok {M} `{PBMessage M} (data : bytes) (m : M) :
  decodePBObject data = Ok m <-> ParseFromArray data = Some m.
Proof. unfold decodePBObject. destruct (ParseFromArray data); split; congruence. Qed.

Lemma decode_encodePBObject {M} `{PBLaw M} (m : M) (data : bytes) :
  encodePBObject m = Ok data -> decodePBObject data = Ok m.
Proof. intros He. by apply decodePBObject_ok, encodePBObject_inv. Qed.

(** *** A serialiser with an exact inverse *)

Definition codeBytes (p : positive) : bytes :=
  le_bytes (S (Z.to_nat (Z.log2 (Zpos p) / 8))) (Zpos p).

Lemma le_value_codeBytes (p : positive) : le_value (codeBytes p) = Zpos p.
Proof.
  unfold codeBytes. rewrite le_value_le_bytes. apply Z.mod_small. split; [done |].
  rewrite pow256_pow2 by lia. pose proof (Z.log2_nonneg (Zpos p)).
  pose proof (Z.div_pos (Z.log2 (Zpos p)) 8). rewrite Nat2Z.inj_succ, Z2Nat.id by lia.
  apply (Z.lt_le_trans _ (2 ^ Z.succ (Z.log2 (Zpos p)))); [by apply Z.log2_spec |].
  apply Z.pow_le_mono_r; [done |]. pose proof (Z.mul_succ_div_gt (Z.log2 (Zpos p)) 8). lia.
Qed.

Definition numberBytes (z : Z) : bytes := codeBytes (encode z).
Definition bytesNumber (bs : bytes) : option Z := decode (Z.to_pos (le_value bs)).

#[global] Arguments numberBytes : simpl never.
#[global] Arguments bytesNumber : simpl never.

Lemma bytesNumber_numberBytes (z : Z) : bytesNumber (numberBytes z) = Some z.
Proof. unfold bytesNumber, numberBytes. by rewrite le_value_codeBytes, Pos2Z.id, decode_encode. Qed.

(** A list of byte strings, each byte marked and each string ended. *)
Definition writeField (f : bytes) : bytes := concat (map (fun b => [Byte.x01; b]) f) ++ [Byte.x00].
Definition writeFields (l : list bytes) : bytes := concat (map writeField l).

Fixpoint readFields (current : bytes) (bs : bytes) : option (list bytes) :=
  match bs with
  | [] => if bool_decide (current = []) then Some [] else None
  | Byte.x00 :: bs => cons (rev current) <$> readFields [] bs
  | _ :: b :: bs => readFields (b :: current) bs
  | [_] => None
  end.

Lemma readFields_field (f current rest : bytes) :
  readFields current (writeField f ++ rest) = cons (rev current ++ f) <$> readFields [] rest.
Proof.
  revert current. induction f as [| b f IH]; intros current; [by rewrite app_nil_r |].
  change (writeField (b :: f)) with ([Byte.x01; b] ++ writeField f). cbn [app readFields].
  rewrite IH. cbn [rev]. by rewrite <- app_assoc.
Qed.

Lemma readFields_writeFields (l : list bytes) : readFields [] (writeFields l) = Some l.
Proof.
  induction l as [| f l IH]; [done |]. change (writeFields (f :: l)) with (writeField f ++ writeFields l).
  by rewrite readFields_field, IH.
Qed.

(** A serialiser for a message given as the list of its fields. *)
Definition fieldsMessage {M : Type} (toFields : M -> list bytes) (ofFields : list bytes -> option M) :
    PBMessage M :=
  {| SerializeToArray := fun m => Some (writeFields (toFields m))
   ; ParseFromArray := fun data => readFields [] data ≫= ofFields |}.

Lemma fieldsMessage_law {M : Type} (toFields : M -> list bytes) (ofFields : list bytes -> option M) :
  (forall m, ofFields (toFields m) = Some m) -> @PBLaw M (fieldsMessage toFields ofFields).
Proof.
  intros Hinv m data [= <-]. cbn. rewrite readFields_writeFields. apply Hinv.
Qed.
End Protobuf.

(* ------------------------------------------------------------------ *)
(** ** The crypto suite *)

Module Crypto.
Import FixedBytes.

(** [HashType()]. *)
Definition zeroHash : bytes := zeroed 32.

(** A key pair, as the bytes of its keys. *)
Record KeyPair : Type := mkKeyPair { secretKey : bytes; publicKey : bytes }.

(** [Hash::hash], [SignatureCrypto::recover] ([None] when it throws) and
    [SignatureCrypto::sign] with the public key in the signature. *)
Class CryptoSuite : Type :=
  { hashImpl : bytes -> bytes
  ; recover : bytes -> bytes -> option bytes
  ; sign : KeyPair -> bytes -> bytes }.

(** A hash has 32 bytes. *)
Class CryptoLaw `{CryptoSuite} : Prop := hash_size : forall x, length (hashImpl x) = 32%nat.

Section Suite.
Context `{CryptoSuite}.

Definition calculateAddress (pub : bytes) : bytes := right160 (hashImpl pub).

(** [Hash::emptyHash]: computed when the member is still the zero hash. *)
Definition emptyHash (m_emptyHash : bytes) : bytes * bytes :=
  let m := if bool_decide (zeroHash = m_emptyHash) then hashImpl [] else m_emptyHash in (m, m).
End Suite.

(** [KeyCompare]: [operator<] of the keys' data. *)
Definition KeyCompare (first second : bytes) : bool := ltb first second.

Lemma length_calculateAddress `{CryptoSuite} (pub : bytes) :
  length (calculateAddress pub) = 20%nat.
Proof.
  unfold calculateAddress, right160. rewrite FixedBytesFacts.length_copyInto; [done |].
  rewrite length_take, length_drop. unfold zeroed. rewrite length_replicate. lia.
Qed.
End Crypto.

(** A suite whose signature is the public key it was made with. *)
Module SampleCrypto.
Import Crypto.

Definition sampleSuite : CryptoSuite :=
  {| hashImpl := fun x => resize 32 Byte.x00 (rev x)
   ; recover := fun _ signature => Some signature
   ; sign := fun kp _ => publicKey kp |}.

Lemma sampleSuite_law : @CryptoLaw sampleSuite.
Proof. intros x. apply length_resize. Qed.

Definition sampleKeys : KeyPair := mkKeyPair [Byte.x07] [Byte.x0a; Byte.x0b].
End SampleCrypto.
