(* ===== verification/Transaction.v ===== *)
(** * Transactions

    Model of interfaces/protocol/Transaction.h, of
    libprotocol/protobuf/PBTransaction.{h,cpp} and of PBTransactionFactory.h: the
    two protobuf messages of a transaction, the cached encoding, the hash, the
    signature check and the calls of a client.  The serialiser and the
    cryptography are the interfaces of Protobuf. *)

From Stdlib Require Import ZArith Lia List.
From Stdlib Require Import Strings.String Strings.Byte.
From stdpp Require Import base tactics decidable list option countable gmap sets.
From S2P Require Import Prelude DataConvert FixedBytes Protobuf.
Import Protobuf Crypto.

Module Transaction.

Inductive tx_exn : Type :=
| PBException (e : pb_exn)
| HashMismatch
| RecoverException.

Inductive TransactionType : Type := NullTransaction | ContractCreation | MessageCall.

(** [PBRawTransactionHashFields] and [PBRawTransaction]. *)
Record RawHashFields : Type := mkHashFields
  { version : Z
  ; to : bytes
  ; input : bytes
  ; nonce : bytes
  ; blocklimit : Z
  ; chainid : bytes
  ; groupid : bytes }.

Record RawTransaction : Type := mkRaw
  { hashfieldsdata : bytes
  ; hashfieldshash : bytes
  ; import_time : Z
  ; signaturedata : bytes
  ; attribute : Z
  ; source : bytes }.

(** The members [Transaction] itself declares, without the crypto suite; nodes
    are known by the data of their key. *)
Record TransactionBase : Type := mkBase
  { m_sender : bytes
  ; m_batchHash : bytes
  ; m_knownNodeList : gset bytes
  ; m_batchId : Z
  ; m_synced : bool
  ; m_sealed : bool
  ; m_invalid : bool
  ; m_systemTx : bool }.

Record PBTransaction : Type := mkTx
  { m_transaction : RawTransaction
  ; m_transactionHashFields : RawHashFields
  ; m_dataCache : bytes
  ; m_nonce : Z
  ; base : TransactionBase }.

Definition newBase : TransactionBase := mkBase [] zeroHash ∅ (-1) false false false false.

(** [PBTransaction(_cryptoSuite)]. *)
Definition newTransaction : PBTransaction :=
  mkTx (mkRaw [] [] 0 [] 0 []) (mkHashFields 0 [] [] [] 0 [] []) [] 0 newBase.

(* ------------------------------------------------------------------ *)
(** ** The members of the base class *)

Definition withBase (f : TransactionBase -> TransactionBase) (t : PBTransaction) : PBTransaction :=
  mkTx (m_transaction t) (m_transactionHashFields t) (m_dataCache t) (m_nonce t) (f (base t)).

Definition sender (t : PBTransaction) : bytes := m_sender (base t).
Definition forceSender (v : bytes) : PBTransaction -> PBTransaction :=
  withBase (fun '(mkBase _ b c d e f g h) => mkBase v b c d e f g h).
Definition setBatchHash (v : bytes) : PBTransaction -> PBTransaction :=
  withBase (fun '(mkBase a _ c d e f g h) => mkBase a v c d e f g h).
Definition appendKnownNode (v : bytes) : PBTransaction -> PBTransaction :=
  withBase (fun '(mkBase a b c d e f g h) => mkBase a b ({[v]} ∪ c) d e f g h).
Definition setBatchId (v : Z) : PBTransaction -> PBTransaction :=
  withBase (fun '(mkBase a b c _ e f g h) => mkBase a b c v e f g h).
Definition setSynced (v : bool) : PBTransaction -> PBTransaction :=
  withBase (fun '(mkBase a b c d _ f g h) => mkBase a b c d v f g h).
Definition setSealed (v : bool) : PBTransaction -> PBTransaction :=
  withBase (fun '(mkBase a b c d e _ g h) => mkBase a b c d e v g h).
Definition setInvalid (v : bool) : PBTransaction -> PBTransaction :=
  withBase (fun '(mkBase a b c d e f _ h) => mkBase a b c d e f v h).
Definition setSystemTx (v : bool) : PBTransaction -> PBTransaction :=
  withBase (fun '(mkBase a b c d e f g _) => mkBase a b c d e f g v).
Definition isKnownBy (node : bytes) (t : PBTransaction) : bool :=
  bool_decide (node ∈ m_knownNodeList (base t)).

Definition type (t : PBTransaction) : TransactionType :=
  if 0 <? len (to (m_transactionHashFields t)) then MessageCall else ContractCreation.

(* ------------------------------------------------------------------ *)
(** ** The protobuf messages *)

Definition withRaw (f : RawTransaction -> RawTransaction) (t : PBTransaction) : PBTransaction :=
  mkTx (f (m_transaction t)) (m_transactionHashFields t) (m_dataCache t) (m_nonce t) (base t).

Definition setImportTime (v : Z) : PBTransaction -> PBTransaction :=
  withRaw (fun '(mkRaw a b _ d e f) => mkRaw a b v d e f).
Definition setAttribute (v : Z) : PBTransaction -> PBTransaction :=
  withRaw (fun '(mkRaw a b c d _ f) => mkRaw a b c d v f).
Definition setSource (v : bytes) : PBTransaction -> PBTransaction :=
  withRaw (fun '(mkRaw a b c d e _) => mkRaw a b c d e v).

Definition setDataCache (v : bytes) (t : PBTransaction) : PBTransaction :=
  mkTx (m_transaction t) (m_transactionHashFields t) v (m_nonce t) (base t).

Definition updateSignature (signature sender : bytes) (t : PBTransaction) : PBTransaction :=
  setDataCache [] (forceSender sender
    (withRaw (fun '(mkRaw a b c _ e f) => mkRaw a b c signature e f) t)).

(** [hash()] reinterprets the first 32 bytes of the field, whatever its size. *)
Definition hash (t : PBTransaction) : outcome tx_exn bytes :=
  let h := hashfieldshash (m_transaction t) in
  if len h <? 32 then Undefined OutOfRange else Ok (take 32 h).

Section Codec.
Context `{PBMessage RawTransaction, PBMessage RawHashFields, CryptoSuite}.

(** The constructor from the fields of a transaction. *)
Definition construct (version : Z) (to input : bytes) (nonce blockLimit : Z)
    (chainId groupId : bytes) (importTime : Z) : outcome tx_exn PBTransaction :=
  let fields := mkHashFields version to input (BigEndian.toBigEndian_u256 nonce) blockLimit
                  chainId groupId in
  data ← mapThrow PBException (encodePBObject fields);
  Ok (mkTx (mkRaw data (hashImpl data) importTime [] 0 []) fields [] nonce newBase).

Definition decode (data : bytes) (t : PBTransaction) : outcome tx_exn PBTransaction :=
  raw ← mapThrow PBException (decodePBObject data);
  fields ← mapThrow PBException (decodePBObject (hashfieldsdata raw));
  Ok (mkTx raw fields data (BigEndian.fromBigEndian 256 (nonce fields)) (base t)).

Definition encodeRaw (t : PBTransaction) : outcome tx_exn bytes :=
  mapThrow PBException (encodePBObject (m_transaction t)).

(** [encode(_onlyHashFields)], with the transaction and its cache afterwards. *)
Definition encode (onlyHashFields : bool) (t : PBTransaction) :
    outcome tx_exn (bytes * PBTransaction) :=
  if onlyHashFields then Ok (hashfieldsdata (m_transaction t), t)
  else if len (m_dataCache t) =? 0 then
    data ← encodeRaw t; Ok (data, setDataCache data t)
  else Ok (m_dataCache t, t).

Definition verify (t : PBTransaction) : outcome tx_exn PBTransaction :=
  if negb (len (sender t) =? 0) then Ok t
  else
    '(hashFields, _) ← encode true t;
    thisHash ← hash t;
    if negb (bool_decide (hashImpl hashFields = thisHash)) then Throw HashMismatch
    else match recover thisHash (signaturedata (m_transaction t)) with
         | None => Throw RecoverException
         | Some publicKey => Ok (forceSender (calculateAddress publicKey) t)
         end.

(** [operator==]. *)
Definition equal (a b : PBTransaction) : outcome tx_exn bool :=
  match type a, type b with
  | MessageCall, MessageCall | ContractCreation, ContractCreation =>
      if import_time (m_transaction a) =? import_time (m_transaction b) then
        x ← hash a; y ← hash b; Ok (FixedBytes.eqb32 x y)
      else Ok false
  | _, _ => Ok false
  end.

(** The constructor from the bytes of a transaction, and the factory's calls. *)
Definition fromData (data : bytes) (checkSig : bool) : outcome tx_exn PBTransaction :=
  t ← decode data newTransaction;
  if checkSig then verify t else Ok t.

Definition createTransaction (txData : bytes) (checkSig : bool) : outcome tx_exn PBTransaction :=
  fromData txData checkSig.

Definition createSigned (version : Z) (to input : bytes) (nonce blockLimit : Z)
    (chainId groupId : bytes) (importTime : Z) (keyPair : KeyPair) :
    outcome tx_exn PBTransaction :=
  tx ← construct version to input nonce blockLimit chainId groupId importTime;
  h ← hash tx;
  Ok (updateSignature (sign keyPair h) (publicKey keyPair) tx).
End Codec.
End Transaction.

(* ------------------------------------------------------------------ *)
(** ** Properties *)

Module TransactionFacts.
Import Transaction.

(** The calls a client makes on a transaction, other than [decode]. *)
Inductive op : Type :=
| SetImportTime (v : Z) | SetAttribute (v : Z) | SetSource (v : bytes)
| UpdateSignature (signature sender : bytes) | ForceSender (v : bytes)
| SetBatchHash (v : bytes) | AppendKnownNode (v : bytes) | SetBatchId (v : Z)
| SetSynced (v : bool) | SetSealed (v : bool) | SetInvalid (v : bool) | SetSystemTx (v : bool)
| Encode (onlyHashFields : bool) | Verify.

Section Facts.
Context `{PBLaw RawTransaction, PBLaw RawHashFields, CryptoLaw}.

Definition call (o : op) (t : PBTransaction) : outcome tx_exn PBTransaction :=
  match o with
  | SetImportTime v => Ok (setImportTime v t)
  | SetAttribute v => Ok (setAttribute v t)
  | SetSource v => Ok (setSource v t)
  | UpdateSignature sig s => Ok (updateSignature sig s t)
  | ForceSender v => Ok (forceSender v t)
  | SetBatchHash v => Ok (setBatchHash v t)
  | AppendKnownNode v => Ok (appendKnownNode v t)
  | SetBatchId v => Ok (setBatchId v t)
  | SetSynced v => Ok (setSynced v t)
  | SetSealed v => Ok (setSealed v t)
  | SetInvalid v => Ok (setInvalid v t)
  | SetSystemTx v => Ok (setSystemTx v t)
  | Encode b => '(_, t') ← encode b t; Ok t'
  | Verify => verify t
  end.

Fixpoint calls (os : list op) (t : PBTransaction) : outcome tx_exn PBTransaction :=
  match os with
  | [] => Ok t
  | o :: os => t' ← call o t; calls os t'
  end.

(** What the signature commits to, and the signature. *)
Definition signedPart (r : RawTransaction) : bytes * bytes * bytes :=
  (hashfieldsdata r, hashfieldshash r, signaturedata r).

(** The message of the hash fields is the one the transaction shows, and the
    cache, when filled, holds a message with the same signed part. *)
Definition coherent (t : PBTransaction) : Prop :=
  ParseFromArray (hashfieldsdata (m_transaction t)) = Some (m_transactionHashFields t) /\
  m_nonce t = BigEndian.fromBigEndian 256 (nonce (m_transactionHashFields t)) /\
  (m_dataCache t = [] \/ exists r, ParseFromArray (m_dataCache t) = Some r /\
     signedPart r = signedPart (m_transaction t)).

Lemma nonce_roundtrip (n : Z) :
  0 <= n < 2 ^ 256 -> BigEndian.fromBigEndian 256 (BigEndian.toBigEndian_u256 n) = n.
Proof.
  intros Hn. unfold BigEndian.toBigEndian_u256.
  rewrite BigEndian.fromBigEndian_be_value
    by (unfold len; rewrite BigEndian.length_toBigEndian; lia).
  rewrite BigEndian.toBigEndian_be_bytes, be_value_be_bytes. by apply Z.mod_small.
Qed.

Lemma construct_coherent v a i n l c g time t :
  0 <= n < 2 ^ 256 -> construct v a i n l c g time = Ok t -> coherent t.
Proof.
  intros Hn Hc. apply bind_ok_inv in Hc as (data & He & [= <-]).
  apply mapThrow_ok, encodePBObject_inv in He. split_and!; [done | | by left].
  cbn [m_nonce m_transactionHashFields nonce]. by rewrite nonce_roundtrip.
Qed.

Lemma decode_coherent (data : bytes) (t t' : PBTransaction) :
  decode data t = Ok t' -> coherent t' /\ ParseFromArray data = Some (m_transaction t').
Proof.
  intros Hd. apply bind_ok_inv in Hd as (raw & Hr & Hd).
  apply bind_ok_inv in Hd as (fields & Hf & [= <-]).
  apply mapThrow_ok, decodePBObject_ok in Hr. apply mapThrow_ok, decodePBObject_ok in Hf.
  split; [| done]. split_and!; cbn; [done | done |]. right. eauto.
Qed.

Lemma encode_coherent (b : bool) (t t' : PBTransaction) (data : bytes) :
  coherent t -> encode b t = Ok (data, t') ->
  coherent t' /\ m_transaction t' = m_transaction t /\ m_nonce t' = m_nonce t /\
  m_transactionHashFields t' = m_transactionHashFields t.
Proof.
  intros Hc He. unfold encode in He. destruct b; [by simplify_eq |].
  destruct (len (m_dataCache t) =? 0); [| by simplify_eq].
  apply bind_ok_inv in He as (d & Hd & [= <- <-]). apply mapThrow_ok, encodePBObject_inv in Hd.
  destruct Hc as (Hp & Hn & _). split; [| done]. split_and!; cbn; [done | done |].
  right. eauto.
Qed.

Lemma verify_same (t t' : PBTransaction) :
  verify t = Ok t' -> exists s, t' = forceSender s t.
Proof.
  unfold verify. destruct (negb (len (sender t) =? 0)).
  - intros [= <-]. exists (sender t). by destruct t as [? ? ? ? []].
  - intros Hv. apply bind_ok_inv in Hv as ([fields ?] & He & Hv).
    apply bind_ok_inv in Hv as (h & Hh & Hv). destruct (negb _); [done |].
    destruct (recover _ _); [| done]. injection Hv as <-. eauto.
Qed.

Lemma sender_forceSender (v : bytes) (t : PBTransaction) : sender (forceSender v t) = v.
Proof. by destruct t as [? ? ? ? []]. Qed.

Lemma coherent_base f t : coherent t -> coherent (withBase f t).
Proof. done. Qed.

Lemma coherent_raw f t :
  (forall r, signedPart (f r) = signedPart r) -> coherent t -> coherent (withRaw f t).
Proof.
  intros Hf (Hp & Hn & Hc). destruct t as [r fs cache n b]; cbn in *.
  pose proof (Hf r) as Hr. unfold signedPart in Hr. injection Hr as Hd Hh Hs.
  split_and!; cbn; [by rewrite Hd | done |]. destruct Hc as [-> | (r' & Hr' & Hsp)]; [by left | right].
  exists r'. split; [done |]. rewrite Hsp. symmetry. apply Hf.
Qed.

Lemma coherent_signature sig s t : coherent t -> coherent (updateSignature sig s t).
Proof. intros (Hp & Hn & _). destruct t as [[]]; cbn in *. split_and!; [done | done | by left]. Qed.

Lemma tx_call_coherent (o : op) (t t' : PBTransaction) :
  coherent t -> call o t = Ok t' -> coherent t'.
Proof.
  intros Hc Ho. destruct o; cbn [call] in Ho;
    try (apply (inj Ok) in Ho; subst t'; first [ by apply coherent_base | by apply coherent_signature
      | apply coherent_raw; [by intros [] | done] ]).
  - apply bind_ok_inv in Ho as ([d t1] & He & [= <-]). by eapply encode_coherent.
  - apply verify_same in Ho as [s ->]. by apply coherent_base.
Qed.

Lemma tx_calls_coherent (os : list op) (t t' : PBTransaction) :
  coherent t -> calls os t = Ok t' -> coherent t'.
Proof.
  revert t. induction os as [| o os IH]; intros t Hc Hr; cbn [calls] in Hr; [by simplify_eq |].
  apply bind_ok_inv in Hr as (t1 & Ho & Hr). eauto using tx_call_coherent.
Qed.

(** Decoding what a coherent transaction encodes to. *)
Lemma encode_decode (t t1 : PBTransaction) (data : bytes) :
  coherent t -> encode false t = Ok (data, t1) ->
  exists t2, decode data newTransaction = Ok t2 /\
    m_transactionHashFields t2 = m_transactionHashFields t /\ m_nonce t2 = m_nonce t /\
    signedPart (m_transaction t2) = signedPart (m_transaction t) /\ base t2 = newBase /\
    (m_dataCache t = [] -> m_transaction t2 = m_transaction t).
Proof.
  intros (Hp & Hn & Hc) He. unfold encode in He.
  assert (exists r, ParseFromArray data = Some r /\ signedPart r = signedPart (m_transaction t) /\
    (m_dataCache t = [] -> r = m_transaction t)) as (r & Hr & Hs & Hall).
  { destruct (Z.eqb_spec (len (m_dataCache t)) 0) as [Hz | Hz].
    - apply bind_ok_inv in He as (d & Hd & [= <- <-]). apply mapThrow_ok, encodePBObject_inv in Hd. eauto.
    - destruct Hc as [Hc | (r & Hr & Hs)]; [by rewrite Hc in Hz |]. injection He as <- <-.
      exists r. split_and!; [done | done |]. intros Hnil. by rewrite Hnil in Hz. }
  unfold decode. rewrite (proj2 (decodePBObject_ok data r)) by done.
  cbn [mapThrow]. rewrite bind_ok.
  assert (hashfieldsdata r = hashfieldsdata (m_transaction t)) as Hd by (unfold signedPart in Hs; congruence).
  rewrite Hd, (proj2 (decodePBObject_ok _ _) Hp). cbn [mapThrow]. rewrite bind_ok. eexists. split; [reflexivity |].
  split_and!; [done | cbn [m_nonce]; by rewrite Hn | exact Hs | done | exact Hall].
Qed.

(** What no call changes. *)
Definition identity (t : PBTransaction) : RawHashFields * Z * bytes * bytes :=
  (m_transactionHashFields t, m_nonce t, hashfieldsdata (m_transaction t),
   hashfieldshash (m_transaction t)).

Lemma call_identity (o : op) (t t' : PBTransaction) : call o t = Ok t' -> identity t' = identity t.
Proof.
  intros Ho. destruct o; cbn [call] in Ho;
    try (apply (inj Ok) in Ho; subst t'; by destruct t as [[] ? ? ? []]).
  - apply bind_ok_inv in Ho as ([d t1] & He & [= <-]). unfold encode in He.
    destruct onlyHashFields; [by injection He as _ <- |].
    destruct (len _ =? 0); [| by injection He as _ <-].
    by apply bind_ok_inv in He as (d' & _ & [= _ <-]).
  - by apply verify_same in Ho as [s ->].
Qed.

Lemma calls_identity (os : list op) (t t' : PBTransaction) :
  calls os t = Ok t' -> identity t' = identity t.
Proof.
  revert t. induction os as [| o os IH]; intros t Hr; cbn [calls] in Hr; [by injection Hr as <- |].
  apply bind_ok_inv in Hr as (t1 & Ho & Hr). rewrite <- (call_identity o t t1 Ho). eauto.
Qed.

Lemma hash_signedPart (t t' : PBTransaction) :
  signedPart (m_transaction t) = signedPart (m_transaction t') -> hash t = hash t'.
Proof. unfold signedPart, hash. by intros [= _ -> _]. Qed.

Lemma hash_constructed v a i n l c g time t :
  construct v a i n l c g time = Ok t ->
  hash t = Ok (hashImpl (hashfieldsdata (m_transaction t))).
Proof.
  intros Hc. apply bind_ok_inv in Hc as (data & He & [= <-]). unfold hash. cbn.
  unfold len. rewrite hash_size. cbn. rewrite take_ge; [done |]. by rewrite hash_size.
Qed.

(** The successful runs of [verify] on a transaction without a sender. *)
Lemma verify_spec (t t' : PBTransaction) :
  sender t = [] ->
  verify t = Ok t' <->
  exists pub, hash t = Ok (hashImpl (hashfieldsdata (m_transaction t))) /\
    recover (hashImpl (hashfieldsdata (m_transaction t))) (signaturedata (m_transaction t)) = Some pub /\
    t' = forceSender (calculateAddress pub) t.
Proof.
  intros Hs. unfold verify. rewrite Hs. cbn [negb len length Z.of_nat Z.eqb encode].
  rewrite bind_ok. split.
  - intros Hv. apply bind_ok_inv in Hv as (h & Hh & Hv). case_bool_decide as Heq; [| done].
    cbn in Hv. destruct (recover _ _) as [pub |] eqn:Hr; [| done]. injection Hv as <-. subst h. eauto.
  - intros (pub & Hh & Hr & ->). rewrite Hh, bind_ok, bool_decide_eq_true_2 by done. cbn. by rewrite Hr.
Qed.
End Facts.


(** A new transaction signed by a key, whatever sender it is given. *)
Lemma updated_accepted `{PBLaw RawTransaction, PBLaw RawHashFields, CryptoLaw}
    (version : Z) (to input : bytes) (nonce limit : Z) (chain group : bytes) (time : Z)
    (kp : KeyPair) (h from : bytes) (t0 t1 : PBTransaction) (data : bytes) :
  0 <= nonce < 2 ^ 256 ->
  (forall h, length h = 32%nat -> recover h (sign kp h) = Some (publicKey kp)) ->
  construct version to input nonce limit chain group time = Ok t0 -> hash t0 = Ok h ->
  let t := updateSignature (sign kp h) from t0 in
  encode false t = Ok (data, t1) ->
  exists t2, createTransaction data true = Ok t2 /\
    sender t2 = calculateAddress (publicKey kp) /\ sender t = from /\
    m_transaction t2 = m_transaction t /\ hash t2 = hash t /\
    m_transactionHashFields t2 = m_transactionHashFields t /\ m_nonce t2 = nonce.
Proof.
  cbv zeta. intros Hnonce Hrecover Hnew Hh Henc.
  pose proof (construct_coherent _ _ _ _ _ _ _ _ _ Hnonce Hnew) as Hc.
  apply (coherent_signature (sign kp h) from) in Hc.
  destruct (encode_decode _ t1 data Hc Henc) as (t2 & Hd & Hf & Hn & Hs & Hb & Hall).
  pose proof (hash_constructed _ _ _ _ _ _ _ _ _ Hnew) as Hh0.
  apply bind_ok_inv in Hnew as (d0 & _ & [= <-]).
  specialize (Hall eq_refl). exists (forceSender (calculateAddress (publicKey kp)) t2).
  assert (hash t2 = Ok (hashImpl (hashfieldsdata (m_transaction t2)))) as Hh2
    by (unfold hash; rewrite Hall; exact Hh0).
  split_and!; [| apply sender_forceSender | done | exact Hall | by apply hash_signedPart | exact Hf | exact Hn].
  unfold createTransaction, fromData. rewrite Hd, bind_ok. apply verify_spec.
  - unfold sender. by rewrite Hb.
  - exists (publicKey kp). split_and!; [done | | done]. rewrite Hall. rewrite Hh0 in Hh.
    injection Hh as <-. apply Hrecover, hash_size.
Qed.

Lemma signed_accepted `{PBLaw RawTransaction, PBLaw RawHashFields, CryptoLaw}
    (version : Z) (to input : bytes) (nonce limit : Z) (chain group : bytes) (time : Z)
    (kp : KeyPair) (t t1 : PBTransaction) (data : bytes)
    (Hnonce : 0 <= nonce < 2 ^ 256)
    (Hrecover : forall h, length h = 32%nat -> recover h (sign kp h) = Some (publicKey kp))
    (Hnew : createSigned version to input nonce limit chain group time kp = Ok t)
    (Henc : encode false t = Ok (data, t1)) :
  exists t2, createTransaction data true = Ok t2 /\
    sender t2 = calculateAddress (publicKey kp) /\ sender t = publicKey kp /\
    m_transaction t2 = m_transaction t /\ hash t2 = hash t /\
    m_transactionHashFields t2 = m_transactionHashFields t /\ m_nonce t2 = nonce.
Proof.
  apply bind_ok_inv in Hnew as (t0 & Hnew & Hsig). apply bind_ok_inv in Hsig as (h & Hh & [= <-]).
  by eapply updated_accepted.
Qed.

(** A transaction signed by the factory is accepted when its bytes are decoded
    with the signature checked, and its sender is the address of the signer's
    key; the copy the factory returns names the key itself as sender. *)
Theorem signed_transaction_accepted `{PBLaw RawTransaction, PBLaw RawHashFields, CryptoLaw}
    (version : Z) (to input : bytes) (nonce limit : Z) (chain group : bytes) (time : Z)
    (kp : KeyPair) (t t1 : PBTransaction) (data : bytes)
    (Hnonce : 0 <= nonce < 2 ^ 256)
    (Hrecover : forall h, recover h (sign kp h) = Some (publicKey kp))
    (Hnew : createSigned version to input nonce limit chain group time kp = Ok t)
    (Henc : encode false t = Ok (data, t1)) :
  exists t2, createTransaction data true = Ok t2 /\
    sender t2 = calculateAddress (publicKey kp) /\ sender t = publicKey kp /\
    m_transaction t2 = m_transaction t /\ hash t2 = hash t /\
    m_transactionHashFields t2 = m_transactionHashFields t /\ m_nonce t2 = nonce.
Proof. by eapply signed_accepted. Qed.

(** C5. Transactions decoded from untrusted bytes with their signature checked are
    what their hash says: the hash is that of their hash fields, the sender the
    address of the key recovered from hash and signature, and two of them with one
    hash have the same fields, unless their encodings collide. *)
Theorem verified_transaction_binding `{PBLaw RawTransaction, PBLaw RawHashFields, CryptoLaw}
    (d1 d2 : bytes) (t1 t2 : PBTransaction)
    (Ht1 : createTransaction d1 true = Ok t1) (Ht2 : createTransaction d2 true = Ok t2)
    (Hhash : hash t1 = hash t2)
    (Hfree : hashImpl (hashfieldsdata (m_transaction t1)) = hashImpl (hashfieldsdata (m_transaction t2)) ->
             hashfieldsdata (m_transaction t1) = hashfieldsdata (m_transaction t2)) :
  m_transactionHashFields t1 = m_transactionHashFields t2 /\ m_nonce t1 = m_nonce t2 /\
  hash t1 = Ok (hashImpl (hashfieldsdata (m_transaction t1))) /\
  (exists pub, recover (hashImpl (hashfieldsdata (m_transaction t1)))
     (signaturedata (m_transaction t1)) = Some pub /\ sender t1 = calculateAddress pub) /\
  (signaturedata (m_transaction t1) = signaturedata (m_transaction t2) -> sender t1 = sender t2).
Proof.
  assert (forall d t, createTransaction d true = Ok t -> coherent t /\
    hash t = Ok (hashImpl (hashfieldsdata (m_transaction t))) /\
    exists pub, recover (hashImpl (hashfieldsdata (m_transaction t)))
      (signaturedata (m_transaction t)) = Some pub /\ sender t = calculateAddress pub) as Hspec.
  { intros d t Ht. apply bind_ok_inv in Ht as (u & Hu & Hv).
    assert (base u = newBase) as Hbase.
    { apply bind_ok_inv in Hu as (? & _ & Hu). by apply bind_ok_inv in Hu as (? & _ & [= <-]). }
    apply decode_coherent in Hu as [Hc _]. apply verify_spec in Hv as (pub & Hh & Hr & ->).
    - split_and!; [done | done |]. exists pub. by rewrite sender_forceSender.
    - unfold sender. by rewrite Hbase. }
  destruct (Hspec d1 t1 Ht1) as ((Hp1 & Hn1 & _) & Hh1 & pub1 & Hr1 & Hs1).
  destruct (Hspec d2 t2 Ht2) as ((Hp2 & Hn2 & _) & Hh2 & pub2 & Hr2 & Hs2).
  assert (hashfieldsdata (m_transaction t1) = hashfieldsdata (m_transaction t2)) as Hd
    by (apply Hfree; congruence).
  assert (m_transactionHashFields t1 = m_transactionHashFields t2) as Hf by congruence.
  split_and!; [done | congruence | done | eauto | congruence].
Qed.

(** A message whose hash field is shorter than a hash is not rejected: with the
    signature check on, the decoder reads past the end of the field. *)
Theorem short_hash_undefined `{PBMessage RawTransaction, PBMessage RawHashFields, CryptoSuite}
    (data : bytes) (raw : RawTransaction) (fields : RawHashFields)
    (Hraw : ParseFromArray data = Some raw)
    (Hfields : ParseFromArray (hashfieldsdata raw) = Some fields)
    (Hshort : len (hashfieldshash raw) < 32) :
  createTransaction data true = Undefined OutOfRange.
Proof.
  unfold createTransaction, fromData, decode.
  rewrite (proj2 (decodePBObject_ok _ _) Hraw). cbn [mapThrow]. rewrite bind_ok.
  rewrite (proj2 (decodePBObject_ok _ _) Hfields). cbn [mapThrow]. rewrite !bind_ok.
  unfold verify, hash. cbn. by rewrite (proj2 (Z.ltb_lt _ _) Hshort).
Qed.

(** The setters of the import time, the attribute and the source do not drop the
    cached bytes: once encoded, a transaction goes on encoding to what it was. *)
Theorem setters_after_encode_lost `{PBMessage RawTransaction}
    (t t1 : PBTransaction) (data : bytes) (time attr : Z) (src : bytes)
    (Henc : encode false t = Ok (data, t1)) (Hdata : data ≠ []) :
  let t2 := setSource src (setAttribute attr (setImportTime time t1)) in
  import_time (m_transaction t2) = time /\ encode false t2 = Ok (data, t2).
Proof.
  assert (m_dataCache t1 = data) as Hcache.
  { unfold encode in Henc. destruct (len _ =? 0); [| by injection Henc as <- <-].
    by apply bind_ok_inv in Henc as (d & _ & [= <- <-]). }
  destruct t1 as [[] fs cache n b]. cbn in *. subst cache. split; [done |].
  destruct data; [done |]. unfold encode. cbn. rewrite (proj2 (Z.eqb_neq _ _)); [done |].
  unfold len. cbn. lia.
Qed.
End TransactionFacts.

(* ------------------------------------------------------------------ *)
(** ** The hypotheses can be met *)

(** Serialisers with an exact inverse for the two messages. *)
Module SampleTransactions.
Import Transaction SampleCrypto.

Definition rawMessage : PBMessage RawTransaction :=
  Protobuf.fieldsMessage
    (fun '(mkRaw a b c d e f) => [a; b; numberBytes c; d; numberBytes e; f])
    (fun l => match l with
              | [a; b; c; d; e; f] =>
                  c ← bytesNumber c; e ← bytesNumber e; Some (mkRaw a b c d e f)
              | _ => None
              end).
Definition hashFieldsMessage : PBMessage RawHashFields :=
  Protobuf.fieldsMessage
    (fun '(mkHashFields a b c d e f g) => [numberBytes a; b; c; d; numberBytes e; f; g])
    (fun l => match l with
              | [a; b; c; d; e; f; g] =>
                  a ← bytesNumber a; e ← bytesNumber e; Some (mkHashFields a b c d e f g)
              | _ => None
              end).

Lemma rawMessage_law : @PBLaw RawTransaction rawMessage.
Proof. apply fieldsMessage_law. intros []. by rewrite !bytesNumber_numberBytes. Qed.
Lemma hashFieldsMessage_law : @PBLaw RawHashFields hashFieldsMessage.
Proof. apply fieldsMessage_law. intros []. by rewrite !bytesNumber_numberBytes. Qed.

#[export] Existing Instances rawMessage hashFieldsMessage sampleSuite.
#[export] Existing Instances rawMessage_law hashFieldsMessage_law sampleSuite_law.

Definition text (s : string) : bytes := list_byte_of_string s.
Definition get {E A} (m : outcome E A) (dflt : A) : A := match m with Ok a => a | _ => dflt end.

Definition sampleTx : PBTransaction :=
  get (construct 1 (text "to") (text "in") 5 100 (text "c") (text "g") 9) newTransaction.
Definition signedTx : PBTransaction :=
  get (createSigned 1 (text "to") (text "in") 5 100 (text "c") (text "g") 9 sampleKeys)
    newTransaction.
Definition encodedTx (t : PBTransaction) : bytes * PBTransaction :=
  get (encode false t) ([], newTransaction).
End SampleTransactions.

Module TransactionWitnesses.
Import Transaction TransactionFacts SampleCrypto SampleTransactions.

Definition sampleOps : list op :=
  [SetSynced true; SetAttribute 4; Encode false; SetImportTime 10;
   UpdateSignature (publicKey sampleKeys) []; AppendKnownNode (text "n"); Verify; Encode true].

Definition usedTx : PBTransaction := get (calls sampleOps sampleTx) newTransaction.


Lemma signed_transaction_accepted_witness :
  exists t2, createTransaction (encodedTx signedTx).1 true = Ok t2 /\
    sender t2 = calculateAddress (publicKey sampleKeys) /\ sender signedTx = publicKey sampleKeys /\
    m_transaction t2 = m_transaction signedTx /\ hash t2 = hash signedTx /\
    m_transactionHashFields t2 = m_transactionHashFields signedTx /\ m_nonce t2 = 5.
Proof.
  apply (signed_transaction_accepted 1 (text "to") (text "in") 5 100 (text "c") (text "g") 9
    sampleKeys signedTx (encodedTx signedTx).2); [lia | intros h; reflexivity | vm_compute; reflexivity..].
Defined.

Definition acceptedTx : PBTransaction :=
  get (createTransaction (encodedTx signedTx).1 true) newTransaction.

Lemma verified_transaction_binding_witness :
  m_transactionHashFields acceptedTx = m_transactionHashFields acceptedTx /\
  m_nonce acceptedTx = m_nonce acceptedTx /\
  hash acceptedTx = Ok (hashImpl (hashfieldsdata (m_transaction acceptedTx))) /\
  (exists pub, recover (hashImpl (hashfieldsdata (m_transaction acceptedTx)))
     (signaturedata (m_transaction acceptedTx)) = Some pub /\
     sender acceptedTx = calculateAddress pub) /\
  (signaturedata (m_transaction acceptedTx) = signaturedata (m_transaction acceptedTx) ->
   sender acceptedTx = sender acceptedTx).
Proof.
  apply (verified_transaction_binding (encodedTx signedTx).1 (encodedTx signedTx).1);
    [vm_compute; reflexivity.. | done].
Defined.

(** The message of a signed transaction without its hash. *)
Definition shortRaw : RawTransaction :=
  mkRaw (hashfieldsdata (m_transaction signedTx)) [] 0 (publicKey sampleKeys) 0 [].

Lemma short_hash_undefined_witness :
  createTransaction (default [] (SerializeToArray shortRaw)) true = Undefined OutOfRange.
Proof.
  apply (short_hash_undefined _ shortRaw (m_transactionHashFields signedTx));
    vm_compute; reflexivity.
Defined.

Lemma setters_after_encode_lost_witness :
  let t2 := setSource (text "s") (setAttribute 1 (setImportTime 11 (encodedTx sampleTx).2)) in
  import_time (m_transaction t2) = 11 /\ encode false t2 = Ok ((encodedTx sampleTx).1, t2).
Proof.
  apply (setters_after_encode_lost sampleTx); vm_compute; [reflexivity | congruence].
Defined.
End TransactionWitnesses.
