(* ===== verification/Signatures.v ===== *)
(** * Keys, hashes and signatures

    Model of testutils/crypto/HashImpl.h and SignatureImpl.h, the implementations of
    the cryptographic interfaces (interfaces/crypto) over the C functions of
    wedpr-crypto, and of the two suites testutils/protocol/FakeBlock.h builds from
    them.  The C functions are parameters: they fill a buffer and return a code. *)

From Stdlib Require Import ZArith Lia List.
From Stdlib Require Import Strings.String Strings.Byte.
From stdpp Require Import base tactics decidable list option.
From S2P Require Import Prelude DataConvert FixedBytes Protobuf Transaction.
Import Crypto.

Module Signatures.

Inductive sig_exn : Type := SignException | InvalidSignature | InvalidKey | GenerateKeyPairException.

(** wedpr-crypto: what a function writes when it returns 0, or no value; a check
    returns 0 or not; key pairs depend on a source of randomness. *)
Class Wedpr : Type :=
  { keccak256_hash : bytes -> bytes
  ; sm3_hash : bytes -> bytes
  ; secp256k1_sign : bytes -> bytes -> option bytes
  ; secp256k1_verify : bytes -> bytes -> bytes -> bool
  ; secp256k1_recover_public_key : bytes -> bytes -> option bytes
  ; secp256k1_gen_key_pair : Z -> option (bytes * bytes)
  ; sm2_sign_fast : bytes -> bytes -> bytes -> option bytes
  ; sm2_verify : bytes -> bytes -> bytes -> bool
  ; sm2_gen_key_pair : Z -> option (bytes * bytes) }.

(** Buffers are filled exactly; a signature by one key of a pair is verified, and
    for secp256k1 led back, to the other. *)
Class WedprLaw (L : Wedpr) : Prop :=
  { keccak256_size x : length (keccak256_hash x) = 32%nat
  ; sm3_size x : length (sm3_hash x) = 32%nat
  ; secp256k1_keys seed pub sec : secp256k1_gen_key_pair seed = Some (pub, sec) ->
      length pub = 64%nat /\ length sec = 32%nat /\
      forall h, length h = 32%nat -> exists s, secp256k1_sign sec h = Some s /\ length s = 65%nat /\
        secp256k1_verify pub h s = true /\ secp256k1_recover_public_key h s = Some pub
  ; sm2_keys seed pub sec : sm2_gen_key_pair seed = Some (pub, sec) ->
      length pub = 64%nat /\ length sec = 32%nat /\
      forall h, length h = 32%nat -> exists s, sm2_sign_fast sec pub h = Some s /\ length s = 64%nat /\
        sm2_verify pub h s = true }.

(** *** [CommonKeyImpl] *)

(** The constructors: of a size; of a size and bytes, which does not look at the
    size; of bytes; of a size and a pointer to bytes, which does. *)
Definition keyOfSize (keySize : nat) : bytes := replicate keySize Byte.x00.
Definition keyOfBytes (keySize : Z) (data : bytes) : bytes := data.
Definition keyOfPointer (keySize : Z) (data : bytes) : outcome sig_exn bytes :=
  if len data <? keySize then Throw InvalidKey else Ok data.

Definition shortHex (m_keyData : bytes) : bytes :=
  Hex.toHexString (if 4 <? len m_keyData then take 4 m_keyData else m_keyData) [] ++
  list_byte_of_string "...".
Definition keyHex (m_keyData : bytes) : bytes := Hex.toHexString m_keyData [].

(** What a C function writes into a buffer that holds [old]. *)
Definition fill (old written : bytes) : bytes := FixedBytes.copyInto old 0 written.

Definition hashBuffer (h : bytes) : bytes := fill (FixedBytes.zeroed 32) h.

Section Signatures.
Context `{Wedpr}.

(** [Keccak256Hash::hash] and [Sm3Hash::hash]. *)
Definition keccak256 (data : bytes) : bytes := hashBuffer (keccak256_hash data).
Definition sm3 (data : bytes) : bytes := hashBuffer (sm3_hash data).

(** [CommonKeyPair::address]. *)
Definition keyPairAddress (hashImpl : bytes -> bytes) (kp : KeyPair) : bytes :=
  FixedBytes.right160 (hashImpl (publicKey kp)).

(** [Secp256k1SignatureImpl]. *)
Definition secpSign (keyPair : KeyPair) (hash : bytes) (signatureWithPub : bool) : outcome sig_exn bytes :=
  match secp256k1_sign (secretKey keyPair) hash with
  | Some s => Ok (fill (FixedBytes.zeroed 65) s)
  | None => Throw SignException
  end.

Definition secpVerify (pubKey hash signatureData : bytes) : bool :=
  secp256k1_verify pubKey hash signatureData.

Definition secpVerifyBytes (pubKeyBytes hash signatureData : bytes) : outcome sig_exn bool :=
  key ← keyOfPointer 64 pubKeyBytes ; Ok (secpVerify key hash signatureData).

Definition secpRecover (hash signatureData : bytes) : outcome sig_exn bytes :=
  match secp256k1_recover_public_key hash signatureData with
  | Some k => Ok (fill (keyOfSize 64) k)
  | None => Throw InvalidSignature
  end.

Definition secpGenerate (seed : Z) : outcome sig_exn KeyPair :=
  match secp256k1_gen_key_pair seed with
  | Some (pub, sec) => Ok (mkKeyPair (fill (keyOfSize 32) sec) (fill (keyOfSize 64) pub))
  | None => Throw GenerateKeyPairException
  end.

(** [SM2SignatureImpl]: a signature may carry the public key behind it; the check
    takes the first 64 bytes whatever the size. *)
Definition sm2Sign (keyPair : KeyPair) (hash : bytes) (signatureWithPub : bool) : outcome sig_exn bytes :=
  match sm2_sign_fast (secretKey keyPair) (publicKey keyPair) hash with
  | Some s =>
      let signatureData := fill (FixedBytes.zeroed 64) s in
      Ok (if signatureWithPub then signatureData ++ publicKey keyPair else signatureData)
  | None => Throw SignException
  end.

Definition sm2Verify (pubKey hash signatureData : bytes) : outcome sig_exn bool :=
  if len signatureData <? 64 then Undefined OutOfRange
  else Ok (sm2_verify pubKey hash (take 64 signatureData)).

Definition sm2VerifyBytes (pubKeyBytes hash signatureData : bytes) : outcome sig_exn bool :=
  key ← keyOfPointer 64 pubKeyBytes ; sm2Verify key hash signatureData.

Definition sm2Recover (hash signData : bytes) : outcome sig_exn bytes :=
  if len signData <? 64 then Undefined OutOfRange
  else
    let sm2Pub := keyOfBytes 64 (drop 64 signData) in
    valid ← sm2Verify sm2Pub hash signData ;
    if valid : bool then Ok sm2Pub else Throw InvalidSignature.

Definition sm2Generate (seed : Z) : outcome sig_exn KeyPair :=
  match sm2_gen_key_pair seed with
  | Some (pub, sec) => Ok (mkKeyPair (fill (keyOfSize 32) sec) (fill (keyOfSize 64) pub))
  | None => Throw GenerateKeyPairException
  end.

(** [recoverAddress] and [createKeyPair] of both. *)
Definition recoverAddress (input : bytes) : bool * bytes := (false, []).
Definition createKeyPair (secret : bytes) : option KeyPair := None.

(** *** The interface and the suites *)

(** [SignatureCrypto] of interfaces/crypto/Signature.h, and its implementations. *)
Record SignatureCrypto : Type := mkSignatureCrypto
  { signHash : KeyPair -> bytes -> bool -> outcome sig_exn bytes
  ; verifyBytes : bytes -> bytes -> bytes -> outcome sig_exn bool
  ; recoverKey : bytes -> bytes -> outcome sig_exn bytes
  ; generateKeyPair : Z -> outcome sig_exn KeyPair }.

Definition Secp256k1SignatureImpl : SignatureCrypto :=
  mkSignatureCrypto secpSign secpVerifyBytes secpRecover secpGenerate.
Definition SM2SignatureImpl : SignatureCrypto :=
  mkSignatureCrypto sm2Sign sm2VerifyBytes sm2Recover sm2Generate.

(** What the transactions ask of a suite: signatures carry the key, and what is
    thrown is no value.  Nor are the reads beyond a short SM2 signature
    ([sm2_signature_sizes]). *)
Definition okOr {A} (o : outcome sig_exn A) (a : A) : A := match o with Ok x => x | _ => a end.
Definition okOption {A} (o : outcome sig_exn A) : option A := match o with Ok x => Some x | _ => None end.

Definition suiteOf (hash : bytes -> bytes) (impl : SignatureCrypto) : CryptoSuite :=
  {| hashImpl := hash
   ; recover h s := okOption (recoverKey impl h s)
   ; sign kp h := okOr (signHash impl kp h true) [] |}.

Definition createNormalCryptoSuite : CryptoSuite := suiteOf keccak256 Secp256k1SignatureImpl.
Definition createSMCryptoSuite : CryptoSuite := suiteOf sm3 SM2SignatureImpl.
End Signatures.
End Signatures.

(* ------------------------------------------------------------------ *)
(** ** Properties *)

Module SignatureFacts.
Import Signatures Transaction Protobuf.

Lemma fill_exact (old written : bytes) : length written = length old -> fill old written = written.
Proof.
  intros Hl. unfold fill, FixedBytes.copyInto. rewrite drop_ge, app_nil_r by lia. done.
Qed.

Lemma length_hashBuffer (h : bytes) : length h = 32%nat -> length (hashBuffer h) = 32%nat.
Proof. intros Hh. unfold hashBuffer. by rewrite fill_exact. Qed.

(** What the clients rely on: a signature made with a generated pair of keys is
    accepted for its public key, and leads back to it when it was asked to. *)
Class SignatureLaw (impl : SignatureCrypto) : Prop :=
  signature_law : forall seed kp, generateKeyPair impl seed = Ok kp ->
    length (publicKey kp) = 64%nat /\
    forall h withPub, length h = 32%nat -> exists s, signHash impl kp h withPub = Ok s /\
      verifyBytes impl (publicKey kp) h s = Ok true /\
      (withPub = true -> recoverKey impl h s = Ok (publicKey kp)).

Lemma suite_recovers (hash : bytes -> bytes) (impl : SignatureCrypto) `{SignatureLaw impl} (seed : Z)
    (kp : KeyPair) (h : bytes) :
  generateKeyPair impl seed = Ok kp -> length h = 32%nat ->
  let suite := suiteOf hash impl in recover h (sign kp h) = Some (publicKey kp).
Proof.
  intros Hg Hh. destruct (signature_law seed kp Hg) as [_ Hl]. destruct (Hl h true Hh) as (s & Hs & _ & Hr).
  cbn. rewrite Hs. cbn [okOr]. by rewrite Hr.
Qed.

Section Facts.
Context `{Law : WedprLaw}.

(** Both suites keep the promise of the interface. *)
#[export] Instance normal_suite_law : @CryptoLaw createNormalCryptoSuite.
Proof. intros x. apply length_hashBuffer, keccak256_size. Qed.
#[export] Instance sm_suite_law : @CryptoLaw createSMCryptoSuite.
Proof. intros x. apply length_hashBuffer, sm3_size. Qed.

Lemma secp_pair (seed : Z) (kp : KeyPair) (h : bytes) :
  secpGenerate seed = Ok kp -> length h = 32%nat ->
  length (publicKey kp) = 64%nat /\
  exists s, length s = 65%nat /\ (forall b, secpSign kp h b = Ok s) /\
    secpVerify (publicKey kp) h s = true /\ secpRecover h s = Ok (publicKey kp).
Proof.
  unfold secpGenerate. destruct (secp256k1_gen_key_pair seed) as [[pub sec] |] eqn:E; [| done].
  destruct (secp256k1_keys seed pub sec E) as (Hp & Hs & Hsign). intros [= <-] Hh. cbn [publicKey].
  rewrite (fill_exact _ pub) by (by rewrite Hp). split; [done |].
  destruct (Hsign h Hh) as (s & Es & Hl & Hv & Hr). exists s. split; [done |].
  unfold secpSign, secpVerify, secpRecover. cbn [secretKey].
  rewrite (fill_exact _ sec) by (by rewrite Hs). rewrite Es, Hr, !fill_exact by (rewrite ?Hp, ?Hl; done).
  by split_and!.
Qed.

Lemma sm2_pair (seed : Z) (kp : KeyPair) (h : bytes) :
  sm2Generate seed = Ok kp -> length h = 32%nat ->
  length (publicKey kp) = 64%nat /\
  exists s, length s = 64%nat /\ sm2Sign kp h false = Ok s /\ sm2Sign kp h true = Ok (s ++ publicKey kp) /\
    sm2_verify (publicKey kp) h s = true.
Proof.
  unfold sm2Generate. destruct (sm2_gen_key_pair seed) as [[pub sec] |] eqn:E; [| done].
  destruct (sm2_keys seed pub sec E) as (Hp & Hs & Hsign). intros [= <-] Hh. cbn [publicKey].
  rewrite (fill_exact _ pub) by (by rewrite Hp). split; [done |].
  destruct (Hsign h Hh) as (s & Es & Hl & Hv). exists s. split; [done |].
  unfold sm2Sign. cbn [secretKey publicKey]. rewrite (fill_exact _ sec) by (by rewrite Hs).
  rewrite Es, fill_exact by (by rewrite Hl). done.
Qed.

Lemma sm2_recover_pair (kp : KeyPair) (h s : bytes) :
  length s = 64%nat -> sm2_verify (publicKey kp) h s = true ->
  sm2Recover h (s ++ publicKey kp) = Ok (publicKey kp).
Proof.
  intros Hl Hv. unfold sm2Recover, sm2Verify, keyOfBytes. rewrite len_app.
  pose proof (len_nonneg (publicKey kp)). rewrite (proj2 (Z.ltb_ge _ _)) by (unfold len in *; lia).
  rewrite drop_app_le, drop_ge, app_nil_l by lia. rewrite bind_ok, take_app_le, take_ge by lia. by rewrite Hv.
Qed.

Lemma keyOfPointer_64 (k : bytes) : length k = 64%nat -> keyOfPointer 64 k = Ok k.
Proof. intros Hk. unfold keyOfPointer, len. by rewrite Hk. Qed.

#[export] Instance secp_law : SignatureLaw Secp256k1SignatureImpl.
Proof.
  intros seed kp Hg. cbn in *. pose proof Hg as Hg0.
  assert (length (publicKey kp) = 64%nat) as Hp by (by eapply (secp_pair seed kp (FixedBytes.zeroed 32))).
  split; [done |]. intros h withPub Hh.
  destruct (secp_pair seed kp h Hg0 Hh) as (_ & s & Hl & Hs & Hv & Hr). exists s.
  split; [apply Hs |]. split; [| done]. unfold secpVerifyBytes. by rewrite keyOfPointer_64, bind_ok, Hv.
Qed.

#[export] Instance sm2_law : SignatureLaw SM2SignatureImpl.
Proof.
  intros seed kp Hg. cbn in *. pose proof Hg as Hg0.
  assert (length (publicKey kp) = 64%nat) as Hp by (by eapply (sm2_pair seed kp (FixedBytes.zeroed 32))).
  split; [done |]. intros h withPub Hh.
  destruct (sm2_pair seed kp h Hg0 Hh) as (_ & s & Hl & Hs1 & Hs2 & Hv).
  exists (if withPub then s ++ publicKey kp else s). split; [by destruct withPub |].
  split; [| intros ->; by apply sm2_recover_pair].
  unfold sm2VerifyBytes, sm2Verify. rewrite keyOfPointer_64, bind_ok by done.
  rewrite (proj2 (Z.ltb_ge _ _)) by (destruct withPub; unfold len; rewrite ?length_app; lia).
  destruct withPub; by rewrite ?take_app_le, take_ge, Hv by lia.
Qed.

(** Signatures made with a generated pair of keys: both schemes verify them and
    recover the public key, with SM2 when the signature carries it. *)
Theorem signatures_recover (sm : bool) (seed : Z) (kp : KeyPair) (h : bytes) (withPub : bool) :
  let impl := if sm then SM2SignatureImpl else Secp256k1SignatureImpl in
  length h = 32%nat -> generateKeyPair impl seed = Ok kp ->
  exists s, signHash impl kp h withPub = Ok s /\
    length s = (if sm then if withPub then 128 else 64 else 65)%nat /\
    verifyBytes impl (publicKey kp) h s = Ok true /\
    (sm = false \/ withPub = true -> recoverKey impl h s = Ok (publicKey kp)).
Proof.
  cbv zeta. intros Hh Hg. destruct sm; cbn [generateKeyPair] in Hg.
  - destruct (sm2_pair seed kp h Hg Hh) as (Hp & s & Hl & Hs1 & Hs2 & _).
    destruct (sm2_law seed kp Hg) as [_ Hlaw]. destruct (Hlaw h withPub Hh) as (s' & Hs & Hv & Hr).
    exists s'. split_and!; [done | | done | by intros [? | Hw]; auto].
    destruct withPub; cbn in Hs; [rewrite Hs2 in Hs | rewrite Hs1 in Hs]; injection Hs as <-;
      by rewrite ?length_app, Hl, ?Hp.
  - destruct (secp_pair seed kp h Hg Hh) as (Hp & s & Hl & Hs & Hv & Hr). exists s.
    split_and!; [apply Hs | done | | done]. cbn. unfold secpVerifyBytes. by rewrite keyOfPointer_64, bind_ok, Hv.
Qed.

(** SM2 signatures and sizes: less than 64 bytes are read beyond their end; with
    exactly 64 bytes, a signature without its key, the recovered key is empty or
    the signature is refused. *)
Theorem sm2_signature_sizes (h s pub : bytes) :
  (len s < 64 -> sm2Recover h s = Undefined OutOfRange /\ sm2Verify pub h s = Undefined OutOfRange) /\
  (len s = 64 -> sm2Recover h s = if sm2_verify [] h s then Ok [] else Throw InvalidSignature).
Proof.
  unfold sm2Recover, sm2Verify, keyOfBytes. split; intros Hl.
  - by rewrite (proj2 (Z.ltb_lt _ _) Hl).
  - rewrite (proj2 (Z.ltb_ge _ _)) by lia. rewrite drop_ge, take_ge by (unfold len in Hl; lia). by rewrite bind_ok.
Qed.

(** C20. The whole way of a transaction with either suite: made and signed by the factory
    with a generated pair of keys, encoded and decoded with its signature checked,
    it is accepted, and its sender is the address of the pair. *)
Theorem suites_accept_transactions `{PBLaw RawTransaction, PBLaw RawHashFields} (sm : bool)
    (version : Z) (to input : bytes) (nonce limit : Z) (chain group : bytes) (time seed : Z)
    (kp : KeyPair) (t t1 : PBTransaction) (data : bytes) (Hnonce : 0 <= nonce < 2 ^ 256) :
  let suite := if sm then createSMCryptoSuite else createNormalCryptoSuite in
  (if sm then sm2Generate seed else secpGenerate seed) = Ok kp ->
  createSigned version to input nonce limit chain group time kp = Ok t ->
  encode false t = Ok (data, t1) ->
  exists t2, createTransaction data true = Ok t2 /\
    sender t2 = keyPairAddress hashImpl kp /\ hash t2 = hash t /\ m_nonce t2 = nonce.
Proof.
  intros suite Hg Hnew Henc.
  assert (forall h, length h = 32%nat -> recover h (sign kp h) = Some (publicKey kp)) as Hrec
    by (intros h Hh; subst suite; destruct sm; eapply suite_recovers; eauto with typeclass_instances).
  assert (@CryptoLaw suite) as Hlaw by (destruct sm; apply _).
  destruct (TransactionFacts.signed_accepted version to input nonce limit chain group time kp t t1 data
              Hnonce Hrec Hnew Henc) as (t2 & Hc & Hs & _ & _ & Hh & _ & Hn).
  exists t2. by split_and!.
Qed.
End Facts.
End SignatureFacts.

(* ------------------------------------------------------------------ *)
(** ** A concrete library of schemes *)

(** Keys are repeated seeds, a signature shows the secret key before what it signs. *)
Module SampleWedpr.
Import Signatures Transaction Protobuf SampleCrypto SampleTransactions.

Definition digest (x : bytes) : bytes := take 32 (x ++ FixedBytes.zeroed 32).
Definition secretOf (seed : Z) : bytes := replicate 32 (Hex.hexChar (seed mod 16)).
Definition shown (sec h : bytes) : bytes := take 64 (sec ++ h).

#[export] Instance sampleWedpr : Wedpr :=
  {| keccak256_hash := digest
   ; sm3_hash x := digest (rev x)
   ; secp256k1_sign sec h := Some (shown sec h ++ [Byte.x00])
   ; secp256k1_verify pub h s := bool_decide (s = shown (take 32 pub) h ++ [Byte.x00])
   ; secp256k1_recover_public_key h s :=
       if bool_decide (s = shown (take 32 s) h ++ [Byte.x00]) then Some (take 32 s ++ take 32 s) else None
   ; secp256k1_gen_key_pair seed := Some (secretOf seed ++ secretOf seed, secretOf seed)
   ; sm2_sign_fast sec pub h := Some (shown sec h)
   ; sm2_verify pub h s := bool_decide (s = shown (take 32 pub) h)
   ; sm2_gen_key_pair seed := Some (secretOf seed ++ secretOf seed, secretOf seed) |}.

Lemma length_digest (x : bytes) : length (digest x) = 32%nat.
Proof. unfold digest. rewrite length_take, length_app. unfold FixedBytes.zeroed. rewrite length_replicate. lia. Qed.

Lemma length_secretOf (seed : Z) : length (secretOf seed) = 32%nat.
Proof. apply length_replicate. Qed.

Lemma length_shown (seed : Z) (h : bytes) : length h = 32%nat -> length (shown (secretOf seed) h) = 64%nat.
Proof. intros Hh. unfold shown. rewrite length_take, length_app, length_secretOf. lia. Qed.

Lemma take_secret (seed : Z) (k : bytes) : take 32 (secretOf seed ++ k) = secretOf seed.
Proof. by rewrite take_app_le, take_ge by (rewrite length_secretOf; lia). Qed.

#[export] Instance sampleWedpr_law : WedprLaw sampleWedpr.
Proof.
  split; [intros x; apply length_digest.. | |].
  - intros seed pub sec [<- <-]%(inj Some)%pair_equal_spec. rewrite length_app, !length_secretOf.
    split_and!; [done.. |]. intros h Hh. exists (shown (secretOf seed) h ++ [Byte.x00]).
    split; [done |]. rewrite length_app, length_shown by done.
    split; [done |]. cbn -[take secretOf app]. rewrite take_secret. split; [by rewrite bool_decide_eq_true_2 |].
    assert (take 32 (shown (secretOf seed) h ++ [Byte.x00]) = secretOf seed) as ->.
    { unfold shown. rewrite take_app_le by (rewrite length_take, length_app, length_secretOf; lia).
      rewrite take_take. apply (take_secret seed h). }
    by rewrite bool_decide_eq_true_2.
  - intros seed pub sec [<- <-]%(inj Some)%pair_equal_spec. rewrite length_app, !length_secretOf.
    split_and!; [done.. |]. intros h Hh. exists (shown (secretOf seed) h).
    split; [done |]. rewrite length_shown by done.
    split; [done |]. cbn -[take secretOf app]. rewrite take_secret. by rewrite bool_decide_eq_true_2.
Qed.
End SampleWedpr.

Module SignatureWitnesses.
Import Signatures SignatureFacts Transaction SampleWedpr SampleTransactions.

Definition noKeys : KeyPair := mkKeyPair [] [].
Definition secpKeys : KeyPair := okOr (secpGenerate 7) noKeys.
Definition sm2Keys : KeyPair := okOr (sm2Generate 7) noKeys.
Definition message : bytes := keccak256 (text "message").

Lemma signatures_recover_witness :
  length message = 32%nat /\ sm2Generate 7 = Ok sm2Keys /\
  exists s, signHash SM2SignatureImpl sm2Keys message true = Ok s /\ length s = 128%nat /\
    verifyBytes SM2SignatureImpl (publicKey sm2Keys) message s = Ok true /\
    (true = false \/ true = true -> recoverKey SM2SignatureImpl message s = Ok (publicKey sm2Keys)).
Proof.
  split_and!; [vm_compute; reflexivity.. |].
  apply (signatures_recover true 7); vm_compute; reflexivity.
Defined.

Lemma sm2_signature_sizes_witness :
  len (text "short") < 64 /\ sm2Recover message (text "short") = Undefined OutOfRange.
Proof. split; [done |]. apply (sm2_signature_sizes message (text "short") []). vm_compute. reflexivity. Defined.

Definition smTx : PBTransaction :=
  let suite := createSMCryptoSuite in
  get (createSigned 1 (text "to") (text "in") 5 100 (text "c") (text "g") 9 sm2Keys) newTransaction.

Lemma suites_accept_transactions_witness :
  let suite := createSMCryptoSuite in
  exists t2, createTransaction (encodedTx smTx).1 true = Ok t2 /\
    sender t2 = keyPairAddress hashImpl sm2Keys /\ hash t2 = hash smTx /\ m_nonce t2 = 5.
Proof.
  apply (suites_accept_transactions true 1 (text "to") (text "in") 5 100 (text "c") (text "g") 9 7
           sm2Keys smTx (encodedTx smTx).2); [lia | vm_compute; reflexivity..].
Defined.
End SignatureWitnesses.
