(* ===== verification/Receipt.v ===== *)
(** * Transaction receipts

    Model of libprotocol/LogEntry.h, of
    libprotocol/protobuf/PBTransactionReceipt.{h,cpp} with
    interfaces/protocol/TransactionReceipt.h and PBTransactionReceiptFactory.h, and
    of the status codes of libprotocol/TransactionStatus.h. *)

From Stdlib Require Import ZArith Lia List.
From Stdlib Require Import Strings.String Strings.Byte.
From stdpp Require Import base tactics decidable list option.
From S2P Require Import Prelude DataConvert Numbers FixedBytes ScaleStream ScaleTypes Protobuf.
Import StreamFacts Protobuf Crypto.

(* ------------------------------------------------------------------ *)
(** ** Status codes *)

Module TransactionStatus.

Inductive TransactionStatus : Type :=
| None_ | Unknown | OutOfGasLimit | NotEnoughCash | BadInstruction | BadJumpDestination
| OutOfGas | OutOfStack | StackUnderflow | PrecompiledError | RevertInstruction
| ContractAddressAlreadyUsed | PermissionDenied | CallAddressError | GasOverflow
| ContractFrozen | AccountFrozen | WASMValidationFailure | WASMArgumentOutOfRange
| WASMUnreachableInstruction | WASMTrap | NonceCheckFail | BlockLimitCheckFail | TxPoolIsFull
| Malform | AlreadyInTxPool | TxAlreadyInChain | InvalidChainId | InvalidGroupId
| InvalidSignature | RequestNotBelongToTheGroup.

#[export] Instance status_eq_dec : EqDecision TransactionStatus.
Proof. solve_decision. Defined.

Definition toInt (s : TransactionStatus) : Z :=
  match s with
  | None_ => 0 | Unknown => 1 | OutOfGasLimit => 2 | NotEnoughCash => 7 | BadInstruction => 10
  | BadJumpDestination => 11 | OutOfGas => 12 | OutOfStack => 13 | StackUnderflow => 14
  | PrecompiledError => 15 | RevertInstruction => 16 | ContractAddressAlreadyUsed => 17
  | PermissionDenied => 18 | CallAddressError => 19 | GasOverflow => 20 | ContractFrozen => 21
  | AccountFrozen => 22 | WASMValidationFailure => 32 | WASMArgumentOutOfRange => 33
  | WASMUnreachableInstruction => 34 | WASMTrap => 35 | NonceCheckFail => 10000
  | BlockLimitCheckFail => 10001 | TxPoolIsFull => 10002 | Malform => 10003
  | AlreadyInTxPool => 10004 | TxAlreadyInChain => 10005 | InvalidChainId => 10006
  | InvalidGroupId => 10007 | InvalidSignature => 10008 | RequestNotBelongToTheGroup => 10009
  end.

Definition toString (s : TransactionStatus) : bytes :=
  list_byte_of_string "0x" ++ Numbers.hexInt (toInt s).

(** [operator<<]: the codes without a case are printed as [Unknown]. *)
Definition print (s : TransactionStatus) : string :=
  match s with
  | None_ => "None"
  | OutOfGasLimit => "OutOfGasLimit"
  | NotEnoughCash => "NotEnoughCash"
  | BadInstruction => "BadInstruction"
  | BadJumpDestination => "BadJumpDestination"
  | OutOfGas => "OutOfGas"
  | OutOfStack => "OutOfStack"
  | StackUnderflow => "StackUnderflow"
  | NonceCheckFail => "NonceCheckFail"
  | BlockLimitCheckFail => "BlockLimitCheckFail"
  | PrecompiledError => "PrecompiledError"
  | RevertInstruction => "RevertInstruction"
  | ContractAddressAlreadyUsed => "ContractAddressAlreadyUsed"
  | PermissionDenied => "PermissionDenied"
  | CallAddressError => "CallAddressError"
  | GasOverflow => "GasOverflow"
  | ContractFrozen => "ContractFrozen"
  | AccountFrozen => "AccountFrozen"
  | TxPoolIsFull => "TxPoolIsFull"
  | Malform => "MalformTx"
  | AlreadyInTxPool => "AlreadyInTxPool"
  | TxAlreadyInChain => "TxAlreadyInChain"
  | InvalidChainId => "InvalidChainId"
  | InvalidGroupId => "InvalidGroupId"
  | InvalidSignature => "InvalidSignature"
  | RequestNotBelongToTheGroup => "RequestNotBelongToTheGroup"
  | _ => "Unknown"
  end.

(** The hexadecimal text of a status determines it; its name does so except for
    the four failures of WASM code, which share the name of [Unknown]. *)
Theorem status_text (s t : TransactionStatus) :
  (toString s = toString t -> s = t) /\
  (print s = print t <->
   s = t \/ (print s = "Unknown"%string /\
     s ∈ [Unknown; WASMValidationFailure; WASMArgumentOutOfRange; WASMUnreachableInstruction; WASMTrap] /\
     t ∈ [Unknown; WASMValidationFailure; WASMArgumentOutOfRange; WASMUnreachableInstruction; WASMTrap])).
Proof.
  split.
  - intros Hs. apply app_inv_head, Numbers.hexInt_inj in Hs.
    rewrite !uwrap_small in Hs by (destruct s, t; cbn; lia). destruct s, t; cbn in Hs; try lia; done.
  - split; [| intros [-> | (_ & Hs & Ht)]; [done |]].
    + intros Hp. destruct s, t; cbn in Hp; try discriminate Hp; try (left; reflexivity);
        right; (split; [reflexivity |]); split; by apply (bool_decide_unpack _).
    + rewrite !elem_of_cons, elem_of_nil in Hs, Ht. destruct_or! Hs; destruct_or! Ht; by subst.
Qed.
End TransactionStatus.

(* ------------------------------------------------------------------ *)
(** ** Receipts *)

Module Receipt.

Inductive receipt_exn : Type :=
| PBException (e : pb_exn)
| ScaleException (e : scale_exn).

Record LogEntry : Type := mkLog { m_address : bytes; m_topics : list bytes; m_data : bytes }.

(** [PBRawTransactionReceipt]. *)
Record RawReceipt : Type := mkRaw { version : Z; hashfieldsdata : bytes }.

Record PBTransactionReceipt : Type := mkReceipt
  { m_receipt : RawReceipt
  ; m_dataCache : bytes
  ; m_version : Z
  ; m_gasUsed : Z
  ; m_contractAddress : bytes
  ; m_logEntries : option (list LogEntry)
  ; m_status : Z
  ; m_output : bytes
  ; m_blockNumber : Z }.

Definition setRaw (raw : RawReceipt) (r : PBTransactionReceipt) : PBTransactionReceipt :=
  mkReceipt raw (m_dataCache r) (m_version r) (m_gasUsed r) (m_contractAddress r) (m_logEntries r)
    (m_status r) (m_output r) (m_blockNumber r).
Definition setDataCache (data : bytes) (r : PBTransactionReceipt) : PBTransactionReceipt :=
  mkReceipt (m_receipt r) data (m_version r) (m_gasUsed r) (m_contractAddress r) (m_logEntries r)
    (m_status r) (m_output r) (m_blockNumber r).

(** The members the hash covers. *)
Record Content : Type := mkContent
  { c_status : Z
  ; c_output : bytes
  ; c_contractAddress : bytes
  ; c_gasUsed : Z
  ; c_logEntries : option (list LogEntry)
  ; c_blockNumber : Z }.

Definition content (r : PBTransactionReceipt) : Content :=
  mkContent (m_status r) (m_output r) (m_contractAddress r) (m_gasUsed r) (m_logEntries r)
    (m_blockNumber r).

(** The types streamed for a log entry and for the hash fields, in their order. *)
Abbreviation LogTuple := (list (uint 1) * (list (fixed_bytes 32) * list (uint 1)))%type.
Abbreviation HashTuple :=
  (sint 4 * (list (uint 1) * (list (uint 1) * (u256 *
   (shared_ptr (list LogTuple) * sint 8)))))%type.

Definition of_uint8 (l : list (uint 1)) : bytes := map (fun x => z2b (uint_val x)) l.

(** [operator<<] and [operator>>] of [LogEntry]. *)
Definition toLog (l : LogEntry) : LogTuple :=
  (as_uint8s (m_address l), (map Fixed (m_topics l), as_uint8s (m_data l))).
Definition ofLog (t : LogTuple) : LogEntry :=
  mkLog (of_uint8 t.1) (map fixed_data t.2.1) (of_uint8 t.2.2).

(** The operands of [stream << m_status << ... << m_blockNumber]. *)
Definition toTuple (c : Content) : HashTuple :=
  (SInt (c_status c), (as_uint8s (c_output c), (as_uint8s (c_contractAddress c),
   (U256 (c_gasUsed c), (Ptr (map toLog <$> c_logEntries c), SInt (c_blockNumber c)))))).

(** The assignments of [stream >> m_status >> ... >> m_blockNumber]. *)
Definition ofTuple (t : HashTuple) : Content :=
  let '(status, (output, (address, (gas, (logs, number))))) := t in
  mkContent (sint_val status) (of_uint8 output) (of_uint8 address) (u256_val gas)
    (map ofLog <$> pointee logs) (sint_val number).

Section Wire.
Context `{Platform, PBMessage RawReceipt, CryptoSuite}.

(** The constructors from values; [m_version] has no initialiser, and
    [indeterminate] is what its memory holds. *)
Definition construct (indeterminate version gasUsed : Z) (contractAddress : bytes)
    (logEntries : option (list LogEntry)) (status : Z) (output : bytes) (blockNumber : Z) :
    PBTransactionReceipt :=
  mkReceipt (mkRaw version []) [] indeterminate gasUsed contractAddress logEntries status output
    blockNumber.

(** [createReceipt] of the factory passes version 0. *)
Definition createReceipt (indeterminate gasUsed : Z) (contractAddress : bytes)
    (logEntries : option (list LogEntry)) (status : Z) (output : bytes) (blockNumber : Z) :
    PBTransactionReceipt :=
  construct indeterminate 0 gasUsed contractAddress logEntries status output blockNumber.

Definition encodeHashFields (r : PBTransactionReceipt) : outcome receipt_exn PBTransactionReceipt :=
  if 0 <? len (hashfieldsdata (m_receipt r)) then Ok r
  else
    hashFieldsData ← mapThrow ScaleException (ScaleTypes.encode (toTuple (content r)));
    Ok (setRaw (mkRaw (m_version r) hashFieldsData) r).

(** [encode(bytes&)]. *)
Definition encodeTo (r : PBTransactionReceipt) : outcome receipt_exn (bytes * PBTransactionReceipt) :=
  r' ← encodeHashFields r;
  data ← mapThrow PBException (encodePBObject (m_receipt r'));
  Ok (data, r').

(** [encode(bool)]. *)
Definition encode (onlyHashFieldData : bool) (r : PBTransactionReceipt) :
    outcome receipt_exn (bytes * PBTransactionReceipt) :=
  if onlyHashFieldData then
    r' ← (if len (hashfieldsdata (m_receipt r)) =? 0 then encodeHashFields r else Ok r);
    Ok (hashfieldsdata (m_receipt r'), r')
  else if len (m_dataCache r) =? 0 then
    '(data, r') ← encodeTo r; Ok (data, setDataCache data r')
  else Ok (m_dataCache r, r).

Definition decode (data : bytes) (r : PBTransactionReceipt) : outcome receipt_exn PBTransactionReceipt :=
  raw ← mapThrow PBException (decodePBObject data);
  t ← mapThrow ScaleException (ScaleTypes.decode (T := HashTuple) (hashfieldsdata raw));
  let c := ofTuple t in
  Ok (mkReceipt raw data (m_version r) (c_gasUsed c) (c_contractAddress c) (c_logEntries c)
        (c_status c) (c_output c) (c_blockNumber c)).

(** The constructor from bytes; every member but [m_version] is assigned. *)
Definition fromData (indeterminate : Z) (data : bytes) : outcome receipt_exn PBTransactionReceipt :=
  decode data (mkReceipt (mkRaw 0 []) [] indeterminate 0 [] None 0 [] 0).

(** [hash()] of the interface. *)
Definition hash (r : PBTransactionReceipt) : outcome receipt_exn (bytes * PBTransactionReceipt) :=
  '(hashFields, r') ← encode true r; Ok (hashImpl hashFields, r').

(** [logEntries()]: a span over the vector the pointer leads to. *)
Definition logEntries (r : PBTransactionReceipt) : outcome receipt_exn (list LogEntry) :=
  match m_logEntries r with
  | Some l => Ok l
  | None => Undefined NullDeref
  end.
End Wire.
End Receipt.

(* ------------------------------------------------------------------ *)
(** ** Properties *)

Module ReceiptFacts.
Import Receipt.

(** The calls a client makes on a receipt. *)
Inductive op : Type := Encode (onlyHashFieldData : bool) | EncodeTo | Hash.

Section Facts.
Context `{PlatformLaw, PBLaw RawReceipt, CryptoSuite}.

Definition call (o : op) (r : PBTransactionReceipt) : outcome receipt_exn PBTransactionReceipt :=
  match o with
  | Encode b => '(_, r') ← encode b r; Ok r'
  | EncodeTo => '(_, r') ← encodeTo r; Ok r'
  | Hash => '(_, r') ← hash r; Ok r'
  end.

Fixpoint calls (os : list op) (r : PBTransactionReceipt) : outcome receipt_exn PBTransactionReceipt :=
  match os with
  | [] => Ok r
  | o :: os => r' ← call o r; calls os r'
  end.

(** The SCALE encoding of the content. *)
Definition imageOf (c : Content) : bytes := image (toTuple c).

(** The content the SCALE coder carries faithfully, with the size that fits. *)
Definition encodable (c : Content) : Prop := valid (toTuple c) /\ fits (imageOf c).

(** The message holds no hash fields yet, or the encoding of the content. *)
Definition coherent (r : PBTransactionReceipt) : Prop :=
  hashfieldsdata (m_receipt r) = [] \/ hashfieldsdata (m_receipt r) = imageOf (content r).

(** The receipt once its hash fields are encoded. *)
Definition filled (r : PBTransactionReceipt) : PBTransactionReceipt :=
  match hashfieldsdata (m_receipt r) with
  | [] => setRaw (mkRaw (m_version r) (imageOf (content r))) r
  | _ => r
  end.

Lemma ofLog_toLog (l : LogEntry) : ofLog (toLog l) = l.
Proof.
  destruct l as [a t d]. unfold ofLog, toLog, of_uint8. cbn [fst snd m_address m_topics m_data].
  rewrite !of_uint8s, map_map. f_equal. by rewrite map_id.
Qed.

Lemma receipt_ofTuple_toTuple (c : Content) : ofTuple (toTuple c) = c.
Proof.
  destruct c as [s o a g l n]. unfold ofTuple, toTuple, of_uint8.
  cbn [c_status c_output c_contractAddress c_gasUsed c_logEntries c_blockNumber sint_val u256_val pointee].
  rewrite !of_uint8s. f_equal. destruct l as [l |]; [| done]. cbn. f_equal.
  rewrite map_map. rewrite <- (map_id l) at 2. apply map_ext, ofLog_toLog.
Qed.

Lemma receiptImage_nonempty (c : Content) : 0 < len (imageOf c).
Proof.
  unfold imageOf, toTuple. cbn [image law_pair fst snd law_sint sint_val].
  rewrite len_app. unfold len at 1. rewrite length_le_bytes.
  match goal with |- 0 < _ + len ?l => pose proof (len_nonneg l) end. lia.
Qed.

Lemma filled_spec (r : PBTransactionReceipt) :
  coherent r ->
  hashfieldsdata (m_receipt (filled r)) = imageOf (content r) /\ content (filled r) = content r /\
  m_version (filled r) = m_version r /\ coherent (filled r) /\
  (hashfieldsdata (m_receipt r) = [] \/ version (m_receipt r) = m_version r ->
   version (m_receipt (filled r)) = m_version r).
Proof.
  intros Hc. unfold coherent, filled. destruct (hashfieldsdata (m_receipt r)) eqn:Hd.
  - destruct r. split_and!; try done. by right.
  - destruct Hc as [Hc | Hc]; [congruence |]. rewrite <- Hd, Hc.
    split_and!; auto. intros [Hn | Hv]; [congruence | done].
Qed.

(** [encodeHashFields] on a receipt in use. *)
Lemma encodeHashFields_spec (r : PBTransactionReceipt) :
  coherent r -> encodable (content r) -> encodeHashFields r = Ok (filled r).
Proof.
  intros Hc [Hv _]. unfold encodeHashFields, filled. destruct (hashfieldsdata (m_receipt r)) eqn:Hd.
  - cbn [len length Z.of_nat Z.ltb Z.compare]. by rewrite encode_image.
  - rewrite len_cons, (proj2 (Z.ltb_lt 0 _)); [done |]. pose proof (len_nonneg l). lia.
Qed.

Lemma encode_true_spec (r : PBTransactionReceipt) :
  coherent r -> encodable (content r) -> encode true r = Ok (imageOf (content r), filled r).
Proof.
  intros Hc He. destruct (filled_spec r Hc) as (Hd & _). unfold encode.
  rewrite encodeHashFields_spec by done. rewrite <- Hd.
  destruct (Z.eqb_spec (len (hashfieldsdata (m_receipt r))) 0) as [Hz | Hz]; [done |].
  assert (filled r = r) as -> by (unfold filled; by destruct (hashfieldsdata (m_receipt r))). done.
Qed.

(** Its own version has been written into the message, or nothing has. *)
Definition versionLost (r : PBTransactionReceipt) : Prop :=
  hashfieldsdata (m_receipt r) = [] \/ version (m_receipt r) = m_version r.

Definition kept (r r' : PBTransactionReceipt) : Prop :=
  coherent r' /\ content r' = content r /\ m_version r' = m_version r /\
  (versionLost r -> versionLost r').

Lemma kept_filled (r : PBTransactionReceipt) : coherent r -> kept r (filled r).
Proof.
  intros Hc. destruct (filled_spec r Hc) as (_ & Hk & Hv & Hc' & Hver). split_and!; [done.. |].
  intros Hl. right. rewrite Hv. by apply Hver.
Qed.

Lemma call_kept (o : op) (r r' : PBTransactionReceipt) :
  coherent r -> encodable (content r) -> call o r = Ok r' -> kept r r'.
Proof.
  intros Hc He Ho. pose proof (kept_filled r Hc) as Hk. destruct o; cbn [call] in Ho;
    apply bind_ok_inv in Ho as ([d r1] & Ho & [= <-]).
  - destruct onlyHashFieldData; [rewrite encode_true_spec in Ho by done; by injection Ho as <- <- |].
    unfold encode in Ho. destruct (len (m_dataCache r) =? 0).
    + apply bind_ok_inv in Ho as ([d' r2] & Ho & [= <- <-]). unfold encodeTo in Ho.
      rewrite encodeHashFields_spec, bind_ok in Ho by done.
      by apply bind_ok_inv in Ho as (d2 & _ & [= <- <-]).
    + injection Ho as <- <-. by split_and!.
  - unfold encodeTo in Ho. rewrite encodeHashFields_spec, bind_ok in Ho by done.
    by apply bind_ok_inv in Ho as (d2 & _ & [= <- <-]).
  - unfold hash in Ho. rewrite encode_true_spec, bind_ok in Ho by done. by injection Ho as <- <-.
Qed.

Lemma calls_kept (os : list op) (r r' : PBTransactionReceipt) :
  coherent r -> encodable (content r) -> calls os r = Ok r' -> kept r r'.
Proof.
  revert r. induction os as [| o os IH]; intros r Hc He Hr; cbn [calls] in Hr.
  - injection Hr as <-. by split_and!.
  - apply bind_ok_inv in Hr as (r1 & Ho & Hr).
    destruct (call_kept o r r1 Hc He Ho) as (Hc1 & Hk & Hv & Hl).
    destruct (IH r1) as (Hc2 & Hk2 & Hv2 & Hl2); [done | by rewrite Hk | done |].
    split_and!; [done | congruence.. | auto].
Qed.

(** What is decoded from the bytes of a coherent receipt. *)
Lemma decode_spec (indeterminate : Z) (c : Content) (v : Z) (data : bytes) :
  encodable c -> ParseFromArray data = Some (mkRaw v (imageOf c)) ->
  exists r, fromData indeterminate data = Ok r /\ content r = c /\ version (m_receipt r) = v /\
    hash r = Ok (hashImpl (imageOf c), r) /\ coherent r.
Proof.
  intros [Hv Hf] Hp. unfold fromData, decode. rewrite (proj2 (decodePBObject_ok _ _) Hp).
  cbn [mapThrow]. rewrite bind_ok. cbn [hashfieldsdata].
  pose proof (decode_image (toTuple c) [] Hv) as Hd. rewrite app_nil_r in Hd.
  fold (imageOf c) in Hd. rewrite Hd by done.
  cbn [mapThrow]. rewrite bind_ok, receipt_ofTuple_toTuple. eexists. split; [reflexivity |].
  split_and!; [by destruct c | done | | right; by destruct c].
  unfold hash, encode. cbn [m_receipt hashfieldsdata].
  rewrite (proj2 (Z.eqb_neq _ 0)); [done |]. pose proof (receiptImage_nonempty c). lia.
Qed.
End Facts.

(** A receipt with encodable content can be hashed and encoded in any order, its
    hash is that of its content, and decoding its bytes restores the content
    and the hash; the version it was given is replaced by the memory of the
    member that is never set. *)
Theorem receipt_roundtrip `{PlatformLaw, PBLaw RawReceipt, CryptoSuite}
    (garbage garbage' ver gas : Z) (address : bytes) (logs : option (list LogEntry)) (status : Z)
    (output : bytes) (number : Z) (os : list op) (r : PBTransactionReceipt)
    (Henc : encodable (mkContent status output address gas logs number))
    (Hrun : calls os (construct garbage ver gas address logs status output number) = Ok r) :
  let c := mkContent status output address gas logs number in
  exists digest r1, hash r = Ok (digest, r1) /\ digest = hashImpl (imageOf c) /\
    (encodeTo r = Throw (PBException PBObjectEncodeException) \/
     exists data r2 r3, encodeTo r = Ok (data, r2) /\ fromData garbage' data = Ok r3 /\
       content r3 = c /\ version (m_receipt r3) = garbage /\ hash r3 = Ok (digest, r3)).
Proof.
  cbv zeta. set (c := mkContent status output address gas logs number) in *.
  set (r0 := construct garbage ver gas address logs status output number) in *.
  destruct (calls_kept os r0 r (or_introl eq_refl : coherent r0) Henc Hrun) as (Hc & Hk & Hv & Hl).
  change (content r0) with c in Hk. change (m_version r0) with garbage in Hv.
  specialize (Hl (or_introl eq_refl)). assert (encodable (content r)) as He by (by rewrite Hk).
  destruct (filled_spec r Hc) as (Hd & _ & _ & _ & Hver). rewrite Hk in Hd.
  eexists _, _. unfold hash at 1. rewrite encode_true_spec, bind_ok, Hk by done.
  split_and!; [reflexivity.. |]. unfold encodeTo. rewrite encodeHashFields_spec, bind_ok by done.
  unfold encodePBObject. destruct (SerializeToArray _) as [data |] eqn:Hs; [right | by left].
  apply parse_serialize in Hs.
  assert (m_receipt (filled r) = mkRaw garbage (imageOf c)) as Hraw.
  { rewrite <- Hv, <- Hd, <- Hver by done. by destruct (m_receipt (filled r)). }
  rewrite Hraw in Hs.
  destruct (decode_spec garbage' c garbage data Henc Hs) as (r3 & Hd3 & Hk3 & Hv3 & Hh3 & _).
  exists data. eexists. exists r3. split_and!; [reflexivity | done..].
Qed.

(** A receipt without log entries (a null pointer, not an empty list) can be
    neither hashed nor read: hashing throws, reading its entries is undefined. *)
Theorem null_logs_rejected `{PlatformLaw, PBMessage RawReceipt, CryptoSuite}
    (garbage ver gas : Z) (address : bytes) (status : Z) (output : bytes) (number : Z)
    (Hok : encodable (mkContent status output address gas (Some []) number)) :
  let r := construct garbage ver gas address None status output number in
  hash r = Throw (ScaleException ScaleEncodeException) /\ logEntries r = Undefined NullDeref.
Proof.
  split; [| done]. destruct Hok as [(Hs & Ho & Ha & Hg & _) _]. cbn [fst snd] in *.
  unfold hash, encode. cbn [construct m_receipt hashfieldsdata len length Z.of_nat Z.eqb].
  unfold encodeHashFields. cbn [construct m_receipt hashfieldsdata len length Z.of_nat Z.ltb Z.compare].
  unfold ScaleTypes.encode, toTuple, content.
  cbn [construct c_status c_output c_contractAddress c_gasUsed c_logEntries c_blockNumber
       m_status m_output m_contractAddress m_gasUsed m_logEntries m_blockNumber].
  unfold ScaleTypes.encodeTo at 1, enc_pair at 1. cbn [fst snd].
  rewrite (law_emits _ Hs), bind_ok. unfold ScaleTypes.encodeTo at 1, enc_pair at 1. cbn [fst snd].
  rewrite (law_emits _ Ho), bind_ok. unfold ScaleTypes.encodeTo at 1, enc_pair at 1. cbn [fst snd].
  rewrite (law_emits _ Ha), bind_ok. unfold ScaleTypes.encodeTo at 1, enc_pair at 1. cbn [fst snd].
  by rewrite (law_emits _ Hg), bind_ok.
Qed.
End ReceiptFacts.

(* ------------------------------------------------------------------ *)
(** ** The hypotheses can be met *)

Module SampleReceipts.
Import Receipt SampleCrypto.

Definition receiptMessage : PBMessage RawReceipt :=
  fieldsMessage (fun '(mkRaw v d) => [numberBytes v; d])
    (fun l => match l with [v; d] => v ← bytesNumber v; Some (mkRaw v d) | _ => None end).

Lemma receiptMessage_law : @PBLaw RawReceipt receiptMessage.
Proof. apply fieldsMessage_law. intros []. by rewrite bytesNumber_numberBytes. Qed.

#[export] Existing Instances receiptMessage receiptMessage_law sampleSuite.

Definition sampleLogs : option (list LogEntry) :=
  Some [mkLog [Byte.x01] [FixedBytes.zeroed 32; FixedBytes.zeroed 32] [Byte.x02; Byte.x03]].

Definition sampleReceipt : PBTransactionReceipt :=
  construct 77 3 21000 [Byte.x0a] sampleLogs 0 [Byte.x05] 9.
End SampleReceipts.

Module ReceiptWitnesses.
Import Receipt ReceiptFacts SampleCrypto SampleReceipts.

Definition sampleOps : list op := [Hash; Encode false; EncodeTo; Encode true].

Definition usedReceipt : PBTransactionReceipt :=
  match calls sampleOps sampleReceipt with Ok r => r | _ => sampleReceipt end.

Lemma receipt_roundtrip_witness :
  exists digest r1, hash usedReceipt = Ok (digest, r1) /\
    digest = hashImpl (imageOf (content sampleReceipt)) /\
    (encodeTo usedReceipt = Throw (PBException PBObjectEncodeException) \/
     exists data r2 r3, encodeTo usedReceipt = Ok (data, r2) /\ fromData 78 data = Ok r3 /\
       content r3 = content sampleReceipt /\ version (m_receipt r3) = 77 /\ hash r3 = Ok (digest, r3)).
Proof.
  apply (receipt_roundtrip 77 78 3 21000 [Byte.x0a] sampleLogs 0 [Byte.x05] 9 sampleOps usedReceipt).
  - split; [repeat (split || constructor); vm_compute; congruence | vm_compute; reflexivity].
  - vm_compute; reflexivity.
Defined.

Lemma null_logs_rejected_witness :
  let r := construct 77 3 21000 [Byte.x0a] None 0 [Byte.x05] 9 in
  hash r = Throw (ScaleException ScaleEncodeException) /\ logEntries r = Undefined NullDeref.
Proof.
  apply (null_logs_rejected 77 3 21000 [Byte.x0a] 0 [Byte.x05] 9).
  split; [repeat (split || constructor); vm_compute; congruence | vm_compute; reflexivity].
Defined.
End ReceiptWitnesses.
