(* ===== verification/BlockHeader.v ===== *)
(** * Block headers

    Model of interfaces/protocol/BlockHeader.h and
    libprotocol/protobuf/PBBlockHeader.{h,cpp}: the fields of a header, the cache
    of their SCALE encoding kept in the protobuf object, the header's hash, its
    wire format and the check of its signature list.  The protobuf serialiser,
    the hash and the signature algorithm are parameters. *)

From Stdlib Require Import ZArith Lia List.
From Stdlib Require Import Strings.String Strings.Byte.
From stdpp Require Import base tactics decidable list option countable.
From S2P Require Import Prelude FixedBytes ScaleStream ScaleTypes Merkle.
Import StreamFacts.

Module BlockHeader.

Inductive header_exn : Type :=
| PBObjectEncodeException
| PBObjectDecodeException
| ScaleException (e : scale_exn)
| InvalidBlockHeader
| InvalidSignatureList.

(** What the SCALE coder throws goes through the header's methods. *)
Definition lift {A} (m : outcome scale_exn A) : outcome header_exn A :=
  match m with Ok a => Ok a | Throw e => Throw (ScaleException e) | Undefined f => Undefined f end.

Record ParentInfo : Type := mkParentInfo { blockNumber : Z; blockHash : bytes }.
Record Signature : Type := mkSignature { index : Z; signature : bytes }.

Definition InvalidSealerIndex : Z := 2 ^ 63 - 1.

(** A value-initialised [HashType]. *)
Definition zeroHash : bytes := replicate 32 Byte.x00.

(** [PBRawBlockHeader], the message the header wraps. *)
Record RawBlockHeader : Type := mkRaw
  { version : Z
  ; hashfieldsdata : bytes
  ; signaturelist : list (Z * bytes) }.

(** The members that enter the hash; [m_number] has no initialiser. *)
Record HashFields : Type := mkFields
  { m_parentInfo : list ParentInfo
  ; m_txsRoot : bytes
  ; m_receiptsRoot : bytes
  ; m_stateRoot : bytes
  ; m_number : option Z
  ; m_gasUsed : Z
  ; m_timestamp : Z
  ; m_sealer : Z
  ; m_sealerList : list bytes
  ; m_consensusWeights : list Z
  ; m_extraData : bytes }.

Record BlockHeader : Type := mkHeader
  { m_blockHeader : RawBlockHeader
  ; m_dataCache : bytes
  ; fields : HashFields
  ; m_signatureList : list Signature
  ; m_hash : bytes }.

Definition newFields : HashFields :=
  mkFields [] zeroHash zeroHash zeroHash None 0 0 InvalidSealerIndex [] [] [].

(** [PBBlockHeader(_cryptoSuite)]. *)
Definition newBlockHeader : BlockHeader :=
  mkHeader (mkRaw 0 [] []) [] newFields [] zeroHash.

(* ------------------------------------------------------------------ *)
(** ** Setters *)

Definition noteDirty (h : BlockHeader) : BlockHeader :=
  let r := m_blockHeader h in
  mkHeader (mkRaw (version r) [] (signaturelist r)) [] (fields h) (m_signatureList h) zeroHash.

Definition noteSignatureDirty (h : BlockHeader) : BlockHeader :=
  let r := m_blockHeader h in
  mkHeader (mkRaw (version r) (hashfieldsdata r) []) (m_dataCache h) (fields h)
    (m_signatureList h) (m_hash h).

(** An assignment to one of the hash fields, followed by [noteDirty]. *)
Definition assign (f : HashFields -> HashFields) (h : BlockHeader) : BlockHeader :=
  noteDirty (mkHeader (m_blockHeader h) (m_dataCache h) (f (fields h)) (m_signatureList h) (m_hash h)).

Definition setVersion (v : Z) (h : BlockHeader) : BlockHeader :=
  let r := m_blockHeader h in
  mkHeader (mkRaw v (hashfieldsdata r) (signaturelist r)) (m_dataCache h) (fields h)
    (m_signatureList h) (m_hash h).

Definition setParentInfo (v : list ParentInfo) : BlockHeader -> BlockHeader :=
  assign (fun '(mkFields _ b c d e f g h i j k) => mkFields v b c d e f g h i j k).
Definition setTxsRoot (v : bytes) : BlockHeader -> BlockHeader :=
  assign (fun '(mkFields a _ c d e f g h i j k) => mkFields a v c d e f g h i j k).
Definition setReceiptsRoot (v : bytes) : BlockHeader -> BlockHeader :=
  assign (fun '(mkFields a b _ d e f g h i j k) => mkFields a b v d e f g h i j k).
Definition setStateRoot (v : bytes) : BlockHeader -> BlockHeader :=
  assign (fun '(mkFields a b c _ e f g h i j k) => mkFields a b c v e f g h i j k).
Definition setNumber (v : Z) : BlockHeader -> BlockHeader :=
  assign (fun '(mkFields a b c d _ f g h i j k) => mkFields a b c d (Some v) f g h i j k).
Definition setGasUsed (v : Z) : BlockHeader -> BlockHeader :=
  assign (fun '(mkFields a b c d e _ g h i j k) => mkFields a b c d e v g h i j k).
Definition setTimestamp (v : Z) : BlockHeader -> BlockHeader :=
  assign (fun '(mkFields a b c d e f _ h i j k) => mkFields a b c d e f v h i j k).
Definition setSealer (v : Z) : BlockHeader -> BlockHeader :=
  assign (fun '(mkFields a b c d e f g _ i j k) => mkFields a b c d e f g v i j k).
Definition setSealerList (v : list bytes) : BlockHeader -> BlockHeader :=
  assign (fun '(mkFields a b c d e f g h _ j k) => mkFields a b c d e f g h v j k).
Definition setConsensusWeights (v : list Z) : BlockHeader -> BlockHeader :=
  assign (fun '(mkFields a b c d e f g h i _ k) => mkFields a b c d e f g h i v k).
Definition setExtraData (v : bytes) : BlockHeader -> BlockHeader :=
  assign (fun '(mkFields a b c d e f g h i j _) => mkFields a b c d e f g h i j v).

Definition setSignatureList (v : list Signature) (h : BlockHeader) : BlockHeader :=
  noteSignatureDirty (mkHeader (m_blockHeader h) (m_dataCache h) (fields h) v (m_hash h)).

(** [clear]: the timestamp, the weights, the signatures and the data cache stay. *)
Definition clear (h : BlockHeader) : BlockHeader :=
  mkHeader (mkRaw (version (m_blockHeader h)) [] []) (m_dataCache h)
    (mkFields [] zeroHash zeroHash zeroHash (Some 0) 0 (m_timestamp (fields h))
       InvalidSealerIndex [] (m_consensusWeights (fields h)) [])
    (m_signatureList h) zeroHash.

(** [populateEmptyBlock]. *)
Definition populateEmptyBlock (number sealerId timestamp : Z) (h : BlockHeader) : BlockHeader :=
  noteDirty (setTimestamp timestamp (setSealer sealerId (setNumber number h))).

(** [populateBlockHeader] of the factory: a new header given every field of another. *)
Definition populateBlockHeader (blockHeader : BlockHeader) : outcome header_exn BlockHeader :=
  let f := fields blockHeader in
  match m_number f with
  | None => Undefined Uninitialised
  | Some number =>
      let header := setVersion (version (m_blockHeader blockHeader)) newBlockHeader in
      let header := setReceiptsRoot (m_receiptsRoot f) (setTxsRoot (m_txsRoot f) header) in
      let header := setGasUsed (m_gasUsed f) (setNumber number (setStateRoot (m_stateRoot f) header)) in
      let header := setSealer (m_sealer f) (setTimestamp (m_timestamp f) header) in
      let header := setSignatureList (m_signatureList blockHeader) (setSealerList (m_sealerList f) header) in
      let header := setParentInfo (m_parentInfo f) (setConsensusWeights (m_consensusWeights f) header) in
      Ok (setExtraData (m_extraData f) header)
  end.

(* ------------------------------------------------------------------ *)
(** ** Encoding, decoding, hashing *)

(** The types of the values streamed into the hash fields, in their order. *)
Abbreviation HashTuple :=
  (list (sint 8 * fixed_bytes 32) *
   (fixed_bytes 32 * (fixed_bytes 32 * (fixed_bytes 32 *
   (sint 8 * (u256 * (sint 8 * (sint 8 *
   (list (list (uint 1)) * (list (uint 8) * list (uint 1)))))))))))%type.

Definition toParent (p : ParentInfo) : sint 8 * fixed_bytes 32 :=
  (SInt (blockNumber p), Fixed (blockHash p)).
Definition ofParent (p : sint 8 * fixed_bytes 32) : ParentInfo :=
  mkParentInfo (sint_val p.1) (fixed_data p.2).

Definition of_uint8 (l : list (uint 1)) : bytes := map (fun x => z2b (uint_val x)) l.

(** The operands of [stream << m_parentInfo << ... << m_extraData]. *)
Definition toTuple (f : HashFields) (number : Z) : HashTuple :=
  (map toParent (m_parentInfo f),
   (Fixed (m_txsRoot f), (Fixed (m_receiptsRoot f), (Fixed (m_stateRoot f),
   (SInt number, (U256 (m_gasUsed f), (SInt (m_timestamp f), (SInt (m_sealer f),
   (map as_uint8s (m_sealerList f), (map UInt (m_consensusWeights f),
    as_uint8s (m_extraData f))))))))))).

(** The assignments of [stream >> m_parentInfo >> ... >> m_extraData]. *)
Definition ofTuple (t : HashTuple) : HashFields :=
  let '(parents, (txs, (receipts, (state, (number, (gas, (time, (sealer,
        (sealers, (weights, extra)))))))))) := t in
  mkFields (map ofParent parents) (fixed_data txs) (fixed_data receipts) (fixed_data state)
    (Some (sint_val number)) (u256_val gas) (sint_val time) (sint_val sealer)
    (map of_uint8 sealers) (map uint_val weights) (of_uint8 extra).

Section Wire.
Context `{Platform}.
(** protobuf's [SerializeToArray] and [ParseFromArray] for the message, the
    hash of the crypto suite, and its signature check: public key, message
    hash, signature. *)
Variable serialize : RawBlockHeader -> option bytes.
Variable parse : bytes -> option RawBlockHeader.
Variable cryptoHash : bytes -> bytes.
Variable verify : bytes -> bytes -> bytes -> bool.

(** The bytes [encodeHashFields] streams for the fields. *)
Definition encodeFields (f : HashFields) : outcome header_exn bytes :=
  match m_number f with
  | None => Undefined Uninitialised
  | Some n => lift (encode (toTuple f n))
  end.

Definition encodeHashFields (h : BlockHeader) : outcome header_exn BlockHeader :=
  let r := m_blockHeader h in
  if 0 <? len (hashfieldsdata r) then Ok h
  else
    data ← encodeFields (fields h);
    Ok (mkHeader (mkRaw (version r) data (signaturelist r)) (m_dataCache h) (fields h)
          (m_signatureList h) (m_hash h)).

Definition encodeSignatureList (h : BlockHeader) : BlockHeader :=
  let r := m_blockHeader h in
  if 0 <? len (signaturelist r) then h
  else mkHeader (mkRaw (version r) (hashfieldsdata r)
                   (map (fun s => (index s, signature s)) (m_signatureList h)))
         (m_dataCache h) (fields h) (m_signatureList h) (m_hash h).

(** [hash()]: it fills the cache of the header it is called on. *)
Definition hash (h : BlockHeader) : outcome header_exn (bytes * BlockHeader) :=
  h' ← encodeHashFields h;
  Ok (cryptoHash (hashfieldsdata (m_blockHeader h')), h').

Definition encodeHeader (h : BlockHeader) : outcome header_exn (bytes * BlockHeader) :=
  h1 ← encodeHashFields h;
  let h2 := encodeSignatureList h1 in
  match serialize (m_blockHeader h2) with
  | Some data => Ok (data, h2)
  | None => Throw PBObjectEncodeException
  end.

Definition decodeHeader (data : bytes) (h : BlockHeader) : outcome header_exn BlockHeader :=
  match parse data with
  | None => Throw PBObjectDecodeException
  | Some r =>
      t ← lift (decode (T := HashTuple) (hashfieldsdata r));
      Ok (mkHeader r data (ofTuple t)
            (m_signatureList h ++ map (fun s => mkSignature s.1 s.2) (signaturelist r))
            (m_hash h))
  end.

(** The loop of [verifySignatureList] on the given message hash. *)
Fixpoint verifyEach (message : bytes) (sealers : list bytes) (sigs : list Signature) :
    outcome header_exn () :=
  match sigs with
  | [] => Ok ()
  | s :: sigs =>
      if (index s <? 0) || (len sealers <=? index s) then Undefined OutOfRange
      else match sealers !! Z.to_nat (index s) with
           | None => Undefined OutOfRange
           | Some sealer =>
               if verify sealer message (signature s) then verifyEach message sealers sigs
               else Throw InvalidSignatureList
           end
  end.

Definition verifySignatureList (h : BlockHeader) : outcome header_exn () :=
  let sealers := m_sealerList (fields h) in
  if len (m_signatureList h) <? len sealers then Throw InvalidBlockHeader
  else match m_signatureList h with
       | [] => Ok ()
       | sigs => '(message, _) ← hash h; verifyEach message sealers sigs
       end.

(** The loop of [populateFromParents]: each parent's cache is filled by [hash]. *)
Fixpoint parentInfos (parents : list BlockHeader) :
    outcome header_exn (list ParentInfo * list BlockHeader) :=
  match parents with
  | [] => Ok ([], [])
  | p :: parents =>
      match m_number (fields p) with
      | None => Undefined Uninitialised
      | Some n =>
          '(hp, p') ← hash p;
          '(infos, parents') ← parentInfos parents;
          Ok (mkParentInfo n hp :: infos, p' :: parents')
      end
  end.

Definition populateFromParents (parents : list BlockHeader) (number : Z) (h : BlockHeader) :
    outcome header_exn (BlockHeader * list BlockHeader) :=
  '(infos, parents') ← parentInfos parents;
  Ok (setNumber number (setParentInfo infos h), parents').
End Wire.
End BlockHeader.

(* ------------------------------------------------------------------ *)
(** ** Properties *)

Module BlockHeaderFacts.
Import BlockHeader.

(** The calls a client makes on a header, other than [decode]. *)
Inductive op : Type :=
| SetVersion (v : Z) | SetParentInfo (v : list ParentInfo) | SetTxsRoot (v : bytes)
| SetReceiptsRoot (v : bytes) | SetStateRoot (v : bytes) | SetNumber (v : Z) | SetGasUsed (v : Z)
| SetTimestamp (v : Z) | SetSealer (v : Z) | SetSealerList (v : list bytes)
| SetConsensusWeights (v : list Z) | SetExtraData (v : bytes) | SetSignatureList (v : list Signature)
| Clear | PopulateEmptyBlock (number sealer timestamp : Z) | Hash | Encode.

Section Facts.
Context `{PlatformLaw}.
Variable serialize : RawBlockHeader -> option bytes.
Variable parse : bytes -> option RawBlockHeader.
Variable cryptoHash : bytes -> bytes.

Definition call (o : op) (h : BlockHeader) : outcome header_exn BlockHeader :=
  match o with
  | SetVersion v => Ok (setVersion v h)
  | SetParentInfo v => Ok (setParentInfo v h)
  | SetTxsRoot v => Ok (setTxsRoot v h)
  | SetReceiptsRoot v => Ok (setReceiptsRoot v h)
  | SetStateRoot v => Ok (setStateRoot v h)
  | SetNumber v => Ok (setNumber v h)
  | SetGasUsed v => Ok (setGasUsed v h)
  | SetTimestamp v => Ok (setTimestamp v h)
  | SetSealer v => Ok (setSealer v h)
  | SetSealerList v => Ok (setSealerList v h)
  | SetConsensusWeights v => Ok (setConsensusWeights v h)
  | SetExtraData v => Ok (setExtraData v h)
  | SetSignatureList v => Ok (setSignatureList v h)
  | Clear => Ok (clear h)
  | PopulateEmptyBlock n s t => Ok (populateEmptyBlock n s t h)
  | Hash => '(_, h') ← hash cryptoHash h; Ok h'
  | Encode => '(_, h') ← encodeHeader serialize h; Ok h'
  end.

Fixpoint calls (os : list op) (h : BlockHeader) : outcome header_exn BlockHeader :=
  match os with
  | [] => Ok h
  | o :: os => h' ← call o h; calls os h'
  end.

(** What the message holds is absent or is what the fields would encode to. *)
Definition coherent (h : BlockHeader) : Prop :=
  let r := m_blockHeader h in
  (hashfieldsdata r = [] \/ encodeFields (fields h) = Ok (hashfieldsdata r)) /\
  (signaturelist r = [] \/ signaturelist r = map (fun s => (index s, signature s)) (m_signatureList h)).

Lemma positive_len {A} (l : list A) : (0 <? len l) = false -> l = [].
Proof. destruct l; [done |]. rewrite Z.ltb_ge, len_cons. pose proof (len_nonneg l). lia. Qed.

Lemma encodeHashFields_coherent (h h' : BlockHeader) :
  coherent h -> encodeHashFields h = Ok h' ->
  coherent h' /\ encodeFields (fields h) = Ok (hashfieldsdata (m_blockHeader h')) /\
  fields h' = fields h /\ m_signatureList h' = m_signatureList h /\
  version (m_blockHeader h') = version (m_blockHeader h).
Proof.
  intros [Hf Hs] He. unfold encodeHashFields in He.
  destruct (0 <? len (hashfieldsdata _)) eqn:Hlen.
  - injection He as <-. split; [done |]. split_and!; [| done..].
    destruct Hf as [Hnil | Hf]; [by rewrite Hnil in Hlen | done].
  - apply bind_ok_inv in He as (data & Hd & [= <-]). split; [| done].
    split; [right; exact Hd | exact Hs].
Qed.

Lemma encodeSignatureList_coherent (h : BlockHeader) :
  coherent h ->
  coherent (encodeSignatureList h) /\
  signaturelist (m_blockHeader (encodeSignatureList h)) =
    map (fun s => (index s, signature s)) (m_signatureList h).
Proof.
  intros [Hf Hs]. unfold encodeSignatureList.
  destruct (0 <? len (signaturelist _)) eqn:Hlen.
  - split; [done |]. destruct Hs as [Hnil | Hs]; [by rewrite Hnil in Hlen | done].
  - split; [| done]. split; [exact Hf | right; reflexivity].
Qed.

Lemma assign_coherent (f : HashFields -> HashFields) (h : BlockHeader) :
  coherent h -> coherent (assign f h).
Proof. intros [_ Hs]. split; [left; reflexivity | exact Hs]. Qed.

Lemma call_coherent (o : op) (h h' : BlockHeader) :
  coherent h -> call o h = Ok h' -> coherent h'.
Proof.
  intros Hc Hcall. destruct o; cbn [call] in Hcall;
    lazymatch type of Hcall with
    | Ok _ = Ok _ => apply (inj Ok) in Hcall; subst h'; try apply assign_coherent; try exact Hc
    | _ => apply bind_ok_inv in Hcall as ([? h1] & Hh & [= <-])
    end.
  - destruct Hc as [Hf Hs]. split; [exact Hf | by left].
  - split; by left.
  - destruct Hc as [_ Hs]. split; [by left | exact Hs].
  - apply bind_ok_inv in Hh as (h2 & Hh & [= <- <-]).
    by apply (encodeHashFields_coherent h).
  - apply bind_ok_inv in Hh as (h2 & Hh & Hser). cbv zeta in Hser.
    destruct (serialize _); [| done].
    injection Hser as <- <-. apply encodeSignatureList_coherent.
    by apply (encodeHashFields_coherent h).
Qed.

Lemma calls_coherent (os : list op) (h h' : BlockHeader) :
  coherent h -> calls os h = Ok h' -> coherent h'.
Proof.
  revert h. induction os as [| o os IH]; intros h Hc Hr; cbn [calls] in Hr.
  - by injection Hr as <-.
  - apply bind_ok_inv in Hr as (h1 & Ho & Hr). eauto using call_coherent.
Qed.

Lemma new_coherent : coherent newBlockHeader.
Proof. split; left; reflexivity. Qed.

(** A populated header shows what the other shows, with nothing cached. *)
Lemma populateBlockHeader_spec (h : BlockHeader) (n : Z) :
  m_number (fields h) = Some n ->
  exists h', populateBlockHeader h = Ok h' /\ coherent h' /\ fields h' = fields h /\
    m_signatureList h' = m_signatureList h /\ version (m_blockHeader h') = version (m_blockHeader h).
Proof.
  intros Hn. unfold populateBlockHeader. rewrite Hn. eexists. split; [reflexivity |].
  split; [split; left; reflexivity |]. split; [| done]. destruct h as [r c [] l m]; cbn in *. by subst.
Qed.

(** The fields the SCALE coder carries faithfully, with the size that fits. *)
Definition encodable (f : HashFields) : Prop :=
  exists n, m_number f = Some n /\ valid (toTuple f n) /\ fits (image (toTuple f n)).

Lemma ofTuple_toTuple (f : HashFields) (n : Z) :
  m_number f = Some n -> ofTuple (toTuple f n) = f.
Proof.
  intros Hn. destruct f; cbn in *. subst. unfold ofTuple, toTuple; cbn -[as_uint8s of_uint8].
  rewrite !map_map. f_equal.
  - rewrite <- (map_id m_parentInfo0) at 2. apply map_ext. by intros [].
  - rewrite <- (map_id m_sealerList0) at 2. apply map_ext. intros b. apply of_uint8s.
  - rewrite <- (map_id m_consensusWeights0) at 2. by apply map_ext.
  - rewrite <- (map_id m_extraData0) at 2. apply map_ext. intros b. apply z2b_b2z.
Qed.

Lemma encodeFields_image (f : HashFields) (n : Z) :
  m_number f = Some n -> valid (toTuple f n) -> encodeFields f = Ok (image (toTuple f n)).
Proof. intros Hn Hv. unfold encodeFields. rewrite Hn. by rewrite encode_image. Qed.

Lemma decode_fields (f : HashFields) (n : Z) (rest : bytes) :
  m_number f = Some n -> valid (toTuple f n) -> fits (image (toTuple f n) ++ rest) ->
  (t ← lift (decode (T := HashTuple) (image (toTuple f n) ++ rest)); Ok (ofTuple t))
  = (Ok f : outcome header_exn _).
Proof.
  intros Hn Hv Hf. rewrite decode_image by done. cbn. f_equal. by apply ofTuple_toTuple.
Qed.

Lemma encodeHashFields_total (h : BlockHeader) :
  coherent h -> encodable (fields h) ->
  exists h', encodeHashFields h = Ok h'.
Proof.
  intros _ (n & Hn & Hv & _). unfold encodeHashFields.
  destruct (0 <? _); [eauto |]. erewrite encodeFields_image by done. eauto.
Qed.

Lemma image_nonempty (f : HashFields) (n : Z) : 0 < len (image (toTuple f n)).
Proof.
  unfold toTuple. cbn [image law_pair fst snd law_sint sint_val].
  rewrite !len_app. unfold len at 5. rewrite length_le_bytes.
  repeat match goal with |- context [len ?l] =>
    lazymatch goal with H : 0 <= len l |- _ => fail | _ => pose proof (len_nonneg l) end end.
  lia.
Qed.

Lemma encodeSignatureList_data (h : BlockHeader) :
  hashfieldsdata (m_blockHeader (encodeSignatureList h)) = hashfieldsdata (m_blockHeader h).
Proof. unfold encodeSignatureList. by destruct (0 <? _). Qed.

Lemma encodeSignatureList_version (h : BlockHeader) :
  version (m_blockHeader (encodeSignatureList h)) = version (m_blockHeader h).
Proof. unfold encodeSignatureList. by destruct (0 <? _). Qed.
(** Encoding a coherent header leaves it coherent, and its bytes decode to a
    header with the same fields, signatures, version and hash. *)
Lemma encodeHeader_decode (h h2 : BlockHeader) (data : bytes) :
  (forall r data, serialize r = Some data -> parse data = Some r) ->
  coherent h -> encodable (fields h) -> encodeHeader serialize h = Ok (data, h2) ->
  coherent h2 /\ fields h2 = fields h /\ 0 < len (hashfieldsdata (m_blockHeader h2)) /\
  exists h3, decodeHeader parse data newBlockHeader = Ok h3 /\ coherent h3 /\
    fields h3 = fields h /\ m_signatureList h3 = m_signatureList h /\
    version (m_blockHeader h3) = version (m_blockHeader h) /\
    exists digest, (x ← hash cryptoHash h; Ok x.1) = Ok digest /\ hash cryptoHash h3 = Ok (digest, h3).
Proof.
  intros Hpb Hc Henc He. apply bind_ok_inv in He as (h1 & He & Hser). cbv zeta in Hser.
  destruct (encodeHashFields_coherent h h1 Hc He) as (Hc1 & Hd & Hf & Hs & Hver).
  destruct (encodeSignatureList_coherent h1 Hc1) as [Hc2 Hsig].
  destruct (serialize _) as [d |] eqn:Hs1; [| done]. injection Hser as <- <-. apply Hpb in Hs1.
  destruct Henc as (n & Hn & Hv & Hfit). rewrite (encodeFields_image _ n) in Hd by done.
  apply (inj Ok) in Hd. split; [done |].
  split; [unfold encodeSignatureList; by destruct (0 <? _) |]. rewrite encodeSignatureList_data, <- Hd.
  split; [apply image_nonempty |]. unfold decodeHeader. rewrite Hs1.
  pose proof (decode_fields (fields h) n [] Hn Hv) as Hdec. rewrite app_nil_r in Hdec.
  specialize (Hdec Hfit). apply bind_ok_inv in Hdec as (t & Ht & Hof). apply (inj Ok) in Hof.
  rewrite encodeSignatureList_data, <- Hd, Ht, bind_ok. eexists.
  split_and!; [done | | exact Hof | | |].
  - split; right; cbn [fields m_blockHeader m_signatureList newBlockHeader app].
    + rewrite Hof, encodeSignatureList_data, <- Hd. by apply encodeFields_image.
    + rewrite Hsig, !map_map. apply map_ext. by intros [].
  - cbn. rewrite Hsig, map_map, Hs. rewrite <- (map_id (m_signatureList h)) at 2.
    apply map_ext. by intros [].
  - cbn. by rewrite encodeSignatureList_version.
  - exists (cryptoHash (image (toTuple (fields h) n))). unfold hash at 1. rewrite He, bind_ok. cbn [fst].
    rewrite Hd. split; [done |]. unfold hash, encodeHashFields. cbn [m_blockHeader].
    rewrite encodeSignatureList_data, <- Hd, (proj2 (Z.ltb_lt 0 _)) by apply image_nonempty.
    cbn. by rewrite encodeSignatureList_data, <- Hd.
Qed.
End Facts.

(** C40. However a header is changed, hashed and encoded through its interface,
    its hash is the hash of the SCALE encoding of its present fields: the cache
    in the protobuf object never goes stale, and [hash] changes no field. *)
Theorem header_hash_current `{PlatformLaw} (serialize : RawBlockHeader -> option bytes)
    (cryptoHash : bytes -> bytes) (os : list op) (h h' : BlockHeader) (digest : bytes)
    (Hrun : calls serialize cryptoHash os newBlockHeader = Ok h)
    (Hhash : hash cryptoHash h = Ok (digest, h')) :
  exists data, encodeFields (fields h) = Ok data /\ digest = cryptoHash data /\
    fields h' = fields h /\ m_signatureList h' = m_signatureList h.
Proof.
  apply calls_coherent in Hrun; [| apply new_coherent].
  apply bind_ok_inv in Hhash as (h1 & He & [= <- <-]).
  apply encodeHashFields_coherent in He as (_ & Hd & Hf & Hs & _); [| done]. eauto.
Qed.

(** A header with encodable fields is encoded, unless protobuf fails to
    serialise the message, and decoding the bytes into a new header restores
    the version, the fields, the signatures and the hash. *)
Theorem header_roundtrip `{PlatformLaw} (serialize : RawBlockHeader -> option bytes)
    (parse : bytes -> option RawBlockHeader) (cryptoHash : bytes -> bytes)
    (os : list op) (h : BlockHeader)
    (Hpb : forall r data, serialize r = Some data -> parse data = Some r)
    (Hrun : calls serialize cryptoHash os newBlockHeader = Ok h)
    (Henc : encodable (fields h)) :
  exists digest h1, hash cryptoHash h = Ok (digest, h1) /\
    (encodeHeader serialize h = Throw PBObjectEncodeException \/
     exists data h2 h3, encodeHeader serialize h = Ok (data, h2) /\
       decodeHeader parse data newBlockHeader = Ok h3 /\
       fields h3 = fields h /\ m_signatureList h3 = m_signatureList h /\
       version (m_blockHeader h3) = version (m_blockHeader h) /\
       hash cryptoHash h3 = Ok (digest, h3)).
Proof.
  apply calls_coherent in Hrun; [| apply new_coherent].
  destruct (encodeHashFields_total h Hrun Henc) as (h1 & He).
  exists (cryptoHash (hashfieldsdata (m_blockHeader h1))), h1. unfold hash at 1. rewrite He.
  split; [done |]. destruct (encodeHeader serialize h) as [[data h2] | e | f] eqn:Hser.
  - right. exists data, h2.
    destruct (encodeHeader_decode serialize parse cryptoHash h h2 data Hpb Hrun Henc Hser)
      as (_ & _ & _ & h3 & Hd & _ & Hf & Hs & Hv & digest & Hh & Hh3).
    exists h3. split_and!; try done. unfold hash in Hh. rewrite He in Hh. cbn in Hh. congruence.
  - left. unfold encodeHeader in Hser. rewrite He, bind_ok in Hser. cbv zeta in Hser.
    by destruct (serialize _).
  - unfold encodeHeader in Hser. rewrite He, bind_ok in Hser. cbv zeta in Hser.
    by destruct (serialize _).
Qed.

(** Bytes after the hash fields are ignored by [decode] but not by [hash]:
    a message with trailing bytes decodes to the same fields under another
    digest, until a setter drops the cached bytes. *)
Theorem header_trailing_bytes `{PlatformLaw} (parse : bytes -> option RawBlockHeader)
    (cryptoHash : bytes -> bytes) (data rest : bytes) (r : RawBlockHeader) (f : HashFields) (n : Z)
    (Hn : m_number f = Some n) (Hv : valid (toTuple f n))
    (Hfit : fits (image (toTuple f n) ++ rest))
    (Hparse : parse data = Some r)
    (Hdata : hashfieldsdata r = image (toTuple f n) ++ rest) :
  exists h, decodeHeader parse data newBlockHeader = Ok h /\ fields h = f /\
    hash cryptoHash h = Ok (cryptoHash (image (toTuple f n) ++ rest), h) /\
    exists h', hash cryptoHash (setNumber n h) = Ok (cryptoHash (image (toTuple f n)), h').
Proof.
  unfold decodeHeader. rewrite Hparse, Hdata.
  pose proof (decode_fields f n rest Hn Hv Hfit) as Hdec.
  apply bind_ok_inv in Hdec as (t & Ht & Hof). apply (inj Ok) in Hof. rewrite Ht, bind_ok.
  eexists. split_and!; [done | exact Hof | |].
  - unfold hash, encodeHashFields. cbn [m_blockHeader]. rewrite Hdata, len_app.
    rewrite (proj2 (Z.ltb_lt 0 _)); [cbn; by rewrite Hdata |].
    pose proof (image_nonempty f n). pose proof (len_nonneg rest). lia.
  - unfold hash, encodeHashFields, setNumber. cbn [assign noteDirty m_blockHeader hashfieldsdata fields].
    rewrite Hof. cbn [len length Z.of_nat Z.ltb Z.compare].
    assert (Hset : (let 'mkFields a b c d _ f g h i j k := f in mkFields a b c d (Some n) f g h i j k) = f)
      by (destruct f; cbn in *; by subst).
    rewrite Hset, (encodeFields_image f n) by done. rewrite bind_ok. eauto.
Qed.

Lemma verifyEach_spec (verify : bytes -> bytes -> bytes -> bool) (message : bytes)
    (sealers : list bytes) (sigs : list Signature) :
  verifyEach verify message sealers sigs = Ok () <->
  Forall (fun s => 0 <= index s /\ exists key,
    sealers !! Z.to_nat (index s) = Some key /\ verify key message (signature s) = true) sigs.
Proof.
  induction sigs as [| s sigs IH]; [by split |]. rewrite Forall_cons_iff, <- IH. cbn [verifyEach].
  destruct (Z.ltb_spec (index s) 0) as [Hneg | Hpos]; [split; [done | intros [[] _]; lia] |].
  destruct (Z.leb_spec (len sealers) (index s)) as [Hge | Hlt]; cbn [orb].
  - split; [done |]. intros [[_ (key & Hk & _)] _]. apply lookup_lt_Some in Hk. unfold len in Hge. lia.
  - destruct (sealers !! _) as [key|] eqn:Hk; [| split; [done | by intros [[_ (? & ? & _)] _]]].
    destruct (verify key message (signature s)) eqn:Hver.
    + split; [intros ->; split; eauto | by intros [_ ->]].
    + split; [done |]. intros [[_ (? & [= <-] & Hver')] _]. congruence.
Qed.

(** [verifySignatureList] accepts a header with signatures exactly when
    there are at least as many as sealers and each one verifies under the
    sealer it names: it does not ask the signers to be distinct. *)
Theorem verify_signatures_spec `{PlatformLaw} (cryptoHash : bytes -> bytes)
    (verify : bytes -> bytes -> bytes -> bool) (h h' : BlockHeader) (digest : bytes)
    (Hsigs : m_signatureList h ≠ [])
    (Hhash : hash cryptoHash h = Ok (digest, h')) :
  verifySignatureList cryptoHash verify h = Ok () <->
  len (m_sealerList (fields h)) <= len (m_signatureList h) /\
  Forall (fun s => 0 <= index s /\ exists key,
    m_sealerList (fields h) !! Z.to_nat (index s) = Some key /\
    verify key digest (signature s) = true) (m_signatureList h).
Proof.
  unfold verifySignatureList.
  destruct (Z.ltb_spec (len (m_signatureList h)) (len (m_sealerList (fields h)))) as [Hlt | Hge].
  - split; [done | intros [? _]; lia].
  - destruct (m_signatureList h) eqn:Hl; [done |]. rewrite Hhash, bind_ok, verifyEach_spec.
    split; [auto | by intros [_ ?]].
Qed.
End BlockHeaderFacts.

(* ------------------------------------------------------------------ *)
(** ** The hypotheses can be met *)

Module BlockHeaderWitnesses.
Import BlockHeader BlockHeaderFacts.

#[local] Instance raw_eq_dec : EqDecision RawBlockHeader.
Proof. solve_decision. Defined.

#[local] Instance raw_countable : Countable RawBlockHeader.
Proof.
  refine (inj_countable' (fun r => (version r, hashfieldsdata r, signaturelist r))
    (fun '(v, d, l) => mkRaw v d l) _). by intros [].
Defined.

(** A serialiser with an exact inverse. *)
Definition write (r : RawBlockHeader) : option bytes :=
  Some (replicate (Pos.to_nat (countable.encode r)) Byte.x00).
Definition read (data : bytes) : option RawBlockHeader :=
  countable.decode (Pos.of_nat (length data)).

Lemma read_write (r : RawBlockHeader) (data : bytes) : write r = Some data -> read data = Some r.
Proof.
  intros [= <-]. unfold read. rewrite length_replicate, Pos2Nat.id. apply countable.decode_encode.
Qed.

(** A digest, and a signature check that compares the signature with the key. *)
Definition digestOf (x : bytes) : bytes := resize 32 Byte.x00 (rev x).
Definition signedBy (key _message sig : bytes) : bool := bool_decide (key = sig).

Definition keyA : bytes := [Byte.x0a].
Definition keyB : bytes := [Byte.x0b].

Definition sampleOps : list op :=
  [ SetSealerList [keyA; keyB]; PopulateEmptyBlock 7 1 1000; Hash; SetGasUsed 21000
  ; SetParentInfo [mkParentInfo 6 zeroHash]; SetConsensusWeights [1; 1]
  ; SetExtraData [Byte.x2a]; SetSignatureList [mkSignature 0 keyA; mkSignature 0 keyA] ].

Definition sampleHeader : BlockHeader :=
  match calls (fun _ => None) digestOf sampleOps newBlockHeader with
  | Ok h => h
  | _ => newBlockHeader
  end.

Definition sampleImage : bytes := image (toTuple (fields sampleHeader) 7).

(** The header after [hash], its cache filled. *)
Definition hashedHeader : BlockHeader :=
  match hash digestOf sampleHeader with Ok (_, h) => h | _ => sampleHeader end.

Lemma sample_valid : valid (toTuple (fields sampleHeader) 7).
Proof. repeat (split || constructor); vm_compute; congruence. Qed.

Lemma header_hash_current_witness :
  exists data, encodeFields (fields sampleHeader) = Ok data /\ digestOf sampleImage = digestOf data /\
    fields hashedHeader = fields sampleHeader /\
    m_signatureList hashedHeader = m_signatureList sampleHeader.
Proof.
  apply (header_hash_current write digestOf sampleOps sampleHeader hashedHeader (digestOf sampleImage));
    vm_compute; reflexivity.
Defined.

Lemma header_roundtrip_witness :
  exists digest h1, hash digestOf sampleHeader = Ok (digest, h1) /\
    (encodeHeader write sampleHeader = Throw PBObjectEncodeException \/
     exists data h2 h3, encodeHeader write sampleHeader = Ok (data, h2) /\
       decodeHeader read data newBlockHeader = Ok h3 /\
       fields h3 = fields sampleHeader /\ m_signatureList h3 = m_signatureList sampleHeader /\
       version (m_blockHeader h3) = version (m_blockHeader sampleHeader) /\
       hash digestOf h3 = Ok (digest, h3)).
Proof.
  apply (header_roundtrip write read digestOf sampleOps sampleHeader read_write);
    [vm_compute; reflexivity |].
  exists 7. split; [vm_compute; reflexivity |]. split; [exact sample_valid | vm_compute; reflexivity].
Defined.

Definition trailing : RawBlockHeader := mkRaw 0 (sampleImage ++ [Byte.xff]) [].

Lemma header_trailing_bytes_witness :
  exists h, decodeHeader (fun _ => Some trailing) [] newBlockHeader = Ok h /\
    fields h = fields sampleHeader /\
    hash digestOf h = Ok (digestOf (sampleImage ++ [Byte.xff]), h) /\
    exists h', hash digestOf (setNumber 7 h) = Ok (digestOf sampleImage, h').
Proof.
  apply (header_trailing_bytes (fun _ => Some trailing) digestOf [] [Byte.xff] trailing
    (fields sampleHeader) 7 eq_refl sample_valid); vm_compute; reflexivity.
Defined.

Lemma verify_signatures_spec_witness :
  verifySignatureList digestOf signedBy sampleHeader = Ok () <->
  len (m_sealerList (fields sampleHeader)) <= len (m_signatureList sampleHeader) /\
  Forall (fun s => 0 <= index s /\ exists key,
    m_sealerList (fields sampleHeader) !! Z.to_nat (index s) = Some key /\
    signedBy key (digestOf sampleImage) (signature s) = true) (m_signatureList sampleHeader).
Proof.
  apply (verify_signatures_spec digestOf signedBy sampleHeader hashedHeader (digestOf sampleImage));
    [discriminate | vm_compute; reflexivity].
Defined.
End BlockHeaderWitnesses.
