(* ===== verification/Block.v ===== *)
(** * Blocks

    Model of the methods interfaces/protocol/Block.h implements for every block:
    the roots of its transactions and receipts, the hash of a listed transaction
    and the nonces.  What an implementation of the interface stores is seen
    through the interface's own accessors. *)

From Stdlib Require Import ZArith Lia List.
From Stdlib Require Import Strings.String Strings.Byte.
From stdpp Require Import base tactics decidable list option.
From S2P Require Import Prelude DataConvert ScaleStream ScaleTypes Merkle.
Import StreamFacts.

Module Block.

(** What the methods read of a transaction: its hash and its nonce. *)
Record TransactionView : Type := mkTransaction { tx_hash : bytes; tx_nonce : Z }.

(** A block as its accessors show it. *)
Record BlockView : Type := mkBlock
  { transactions : list TransactionView
  ; transactionsMetaData : list bytes  (** the hash of each entry *)
  ; receipts : list bytes              (** the hash of each receipt *) }.

Inductive block_exn : Type :=
| ScaleException (e : scale_exn)
| MerkleException (e : Merkle.merkle_exn).

Definition zeroHash : bytes := replicate 32 Byte.x00.

(** The body of the loop of [encodeToCalculateRoot]: the index in SCALE, as the
    [size_t] it is, and the hash. *)
Definition encodeLeaf (i : nat) (hash : bytes) : outcome block_exn bytes :=
  match encode (UInt (size := 8) (Z.of_nat i)) with
  | Ok data => Ok (data ++ hash)
  | Throw e => Throw (ScaleException e)
  | Undefined f => Undefined f
  end.

(** [encodeToCalculateRoot]; each turn of the parallel loop fills its own slot. *)
Fixpoint encodeFrom (i : nat) (hashes : list bytes) : outcome block_exn (list bytes) :=
  match hashes with
  | [] => Ok []
  | h :: hashes =>
      e ← encodeLeaf i h;
      es ← encodeFrom (S i) hashes;
      Ok (e :: es)
  end.
Definition encodeToCalculateRoot (hashes : list bytes) : outcome block_exn (list bytes) :=
  encodeFrom 0 hashes.

Section Block.
Variable hash : bytes -> bytes.
Variable schedule : nat -> list nat.

Definition merkleRoot (l : list bytes) : outcome block_exn bytes :=
  match Merkle.calculateMerkleProofRoot hash schedule l with
  | Ok (root, _) => Ok root
  | Throw e => Throw (MerkleException e)
  | Undefined f => Undefined f
  end.

Definition calculateTransactionRoot (b : BlockView) : outcome block_exn bytes :=
  if (len (transactions b) =? 0) && (len (transactionsMetaData b) =? 0) then Ok zeroHash
  else
    list ← (if 0 <? len (transactions b) then encodeToCalculateRoot (map tx_hash (transactions b))
            else if 0 <? len (transactionsMetaData b)
                 then encodeToCalculateRoot (transactionsMetaData b)
                 else Ok []);
    merkleRoot list.

Definition calculateReceiptRoot (b : BlockView) : outcome block_exn bytes :=
  if len (receipts b) =? 0 then Ok zeroHash
  else list ← encodeToCalculateRoot (receipts b); merkleRoot list.
End Block.

(** [transactionHash]: the zero hash where there is no entry. *)
Definition transactionHash (b : BlockView) (i : nat) : bytes :=
  default zeroHash (transactionsMetaData b !! i).

Definition nonces (b : BlockView) : list Z :=
  if len (transactions b) =? 0 then [] else map tx_nonce (transactions b).
End Block.

Module BlockFacts.
Import Block MerkleTree MerkleFacts.

(** The leaf of position [i]. *)
Definition leafOf (i : nat) (hash : bytes) : bytes := le_bytes 8 (Z.of_nat i) ++ hash.

Fixpoint leavesFrom (i : nat) (hashes : list bytes) : list bytes :=
  match hashes with [] => [] | h :: hashes => leafOf i h :: leavesFrom (S i) hashes end.

Lemma encodeLeaf_leaf (i : nat) (hash : bytes) :
  Z.of_nat i < 2 ^ 64 -> encodeLeaf i hash = Ok (leafOf i hash).
Proof.
  intros Hi. unfold encodeLeaf. rewrite encode_image; [done |].
  cbn. unfold in_type. simpl Z.of_nat at 2. lia.
Qed.

Lemma encodeFrom_leaves (i : nat) (hashes : list bytes) :
  Z.of_nat i + len hashes < 2 ^ 64 -> encodeFrom i hashes = Ok (leavesFrom i hashes).
Proof.
  revert i. induction hashes as [| h hashes IH]; intros i Hi; [done |].
  rewrite len_cons in Hi. pose proof (len_nonneg hashes). cbn [encodeFrom leavesFrom].
  rewrite encodeLeaf_leaf, bind_ok, IH by lia. done.
Qed.

Lemma length_leavesFrom (i : nat) (hashes : list bytes) :
  length (leavesFrom i hashes) = length hashes.
Proof. revert i. induction hashes; intros i; simpl; auto. Qed.

Lemma leavesFrom_size (n i : nat) (hashes : list bytes) :
  Forall (fun h => length h = n) hashes ->
  Forall (fun b => length b = (8 + n)%nat) (leavesFrom i hashes).
Proof.
  intros Hn. revert i. induction Hn as [| h hashes Hh _ IH]; intros i; constructor; [| apply IH].
  unfold leafOf. rewrite length_app, length_le_bytes. lia.
Qed.

Lemma leavesFrom_inj (i : nat) (hs ks : list bytes) : leavesFrom i hs = leavesFrom i ks -> hs = ks.
Proof.
  revert i ks. induction hs as [| h hs IH]; intros i [| k ks] Heq; try done.
  cbn [leavesFrom] in Heq. injection Heq as -> Heq. f_equal. eauto.
Qed.

(** The hashes the transaction root is computed from. *)
Definition txHashes (b : BlockView) : list bytes :=
  match transactions b with [] => transactionsMetaData b | txs => map tx_hash txs end.

Lemma len_cons_eqb {A} (x : A) (l : list A) : (len (x :: l) =? 0) = false.
Proof. rewrite len_cons. pose proof (len_nonneg l). apply Z.eqb_neq. lia. Qed.

Lemma len_cons_ltb {A} (x : A) (l : list A) : (0 <? len (x :: l)) = true.
Proof. rewrite len_cons. pose proof (len_nonneg l). apply Z.ltb_lt. lia. Qed.

Lemma transactionRoot_leaves (hash : bytes -> bytes) (schedule : nat -> list nat) (b : BlockView) :
  len (txHashes b) < 2 ^ 31 ->
  calculateTransactionRoot hash schedule b =
    match txHashes b with
    | [] => Ok zeroHash
    | hs => merkleRoot hash schedule (leavesFrom 0 hs)
    end.
Proof.
  unfold calculateTransactionRoot, txHashes, encodeToCalculateRoot.
  destruct (transactions b) as [| tx txs]; [destruct (transactionsMetaData b) as [| h hs] |];
    intros Hl; rewrite ?len_cons_eqb, ?len_cons_ltb; [done | |].
  - change (len (@nil TransactionView)) with 0. cbn [andb Z.eqb Z.ltb Z.compare].
    rewrite encodeFrom_leaves; [done |].
    simpl Z.of_nat. lia.
  - cbn [andb]. rewrite encodeFrom_leaves; [done |]. simpl Z.of_nat. lia.
Qed.

(** C16. The transaction root commits to the transactions: two blocks with the
    same number of them (complete, or listed by their hashes only) and the same
    root list the same hashes in the same order, when the hash function has no
    collision among the strings hashed for the two roots. *)
Theorem transaction_root_binding (hash : bytes -> bytes) (schedule : nat -> list nat) (m : nat)
    (b c : BlockView) (root : bytes)
    (Hschedule : forall n, schedule n ≡ₚ seq 0 n)
    (Hhash : forall x, length (hash x) = m)
    (Hb : Forall (fun h => length h = 32%nat) (txHashes b))
    (Hc : Forall (fun h => length h = 32%nat) (txHashes c))
    (Hlen : length (txHashes b) = length (txHashes c)) (Hsize : len (txHashes b) < 2 ^ 31)
    (Hfree : forall x y, hashed hash (leavesFrom 0 (txHashes b)) x ->
               hashed hash (leavesFrom 0 (txHashes c)) y -> hash x = hash y -> x = y)
    (Hrb : calculateTransactionRoot hash schedule b = Ok root)
    (Hrc : calculateTransactionRoot hash schedule c = Ok root) :
  txHashes b = txHashes c.
Proof.
  rewrite transactionRoot_leaves in Hrb, Hrc by (unfold len in *; lia).
  destruct (txHashes b) as [| h hs]; [by destruct (txHashes c) |].
  destruct (txHashes c) as [| k ks]; [done |].
  apply (leavesFrom_inj 0). unfold merkleRoot in *.
  destruct (Merkle.calculateMerkleProofRoot hash schedule (leavesFrom 0 (h :: hs)))
    as [[r1 x] | |] eqn:E1; [| done..].
  destruct (Merkle.calculateMerkleProofRoot hash schedule (leavesFrom 0 (k :: ks)))
    as [[r2 y] | |] eqn:E2; [| done..].
  apply (inj Ok) in Hrb as ->, Hrc as ->.
  apply (root_binding hash schedule (8 + 32) m _ _ root x y); auto using leavesFrom_size.
  - by rewrite !length_leavesFrom.
  - unfold len in *. by rewrite length_leavesFrom.
Qed.
End BlockFacts.

Module BlockWitnesses.
Import Block BlockFacts MerkleTree MerkleWitnesses.

(** A proposal that lists two hashes, and the block with the transactions. *)
Definition proposal : BlockView := mkBlock [] [leaf Byte.x01; leaf Byte.x02] [].
Definition complete : BlockView :=
  mkBlock [mkTransaction (leaf Byte.x01) 5; mkTransaction (leaf Byte.x02) 6]
    [leaf Byte.x01; leaf Byte.x02] [].

Definition leaves2 : list bytes := leavesFrom 0 (txHashes proposal).

Lemma hashed_leaves2 (x : bytes) :
  hashed sampleHash leaves2 x -> x = concat leaves2 \/ x = sampleHash (concat leaves2).
Proof.
  inversion 1 as [| l g Hl Hg | l y Hl Hy]; subst.
  - left. vm_compute in Hg. apply list_elem_of_singleton in Hg as ->. reflexivity.
  - right. change (parents sampleHash leaves2) with [sampleHash (concat leaves2)] in Hy.
    inversion Hy; subst; [done | simpl in *; lia | simpl in *; lia].
Qed.

Lemma leaves2_free (x y : bytes) :
  hashed sampleHash leaves2 x -> hashed sampleHash leaves2 y -> sampleHash x = sampleHash y -> x = y.
Proof. intros [-> | ->]%hashed_leaves2 [-> | ->]%hashed_leaves2; vm_compute; congruence. Qed.

Lemma transaction_root_binding_witness : txHashes proposal = txHashes complete.
Proof.
  refine (transaction_root_binding sampleHash backwards 32 proposal complete
    (sampleHash (sampleHash (concat leaves2))) backwards_perm sampleHash_length
    _ _ eq_refl _ leaves2_free _ _);
    [repeat constructor | repeat constructor | vm_compute; reflexivity..].
Defined.
End BlockWitnesses.
