(* ===== verification/PBBlock.v ===== *)
(** * Blocks in protobuf

    Model of libprotocol/protobuf/PBTransactionMetaData.h, PBBlock.{h,cpp},
    PBBlockFactory.h and PBBlockHeaderFactory.h: the message of a block with the
    cached encodings it keeps, the calls that change a block, and its encoder and
    decoder over those of headers, transactions and receipts.  [view] is what
    Block reads of it.

    A metadata object and the block's message share one raw message; the block
    lists it in the message only while it serialises, so the objects are modelled
    by value, and decoding into a block whose message lists some, which frees
    them twice, is [UseAfterFree]. *)

From Stdlib Require Import ZArith Lia List.
From Stdlib Require Import Strings.String Strings.Byte.
From stdpp Require Import base tactics decidable list option.
From S2P Require Import Prelude DataConvert FixedBytes ScaleStream ScaleTypes Merkle Protobuf.
From S2P Require Import Transaction Receipt BlockHeader Block.
Import Protobuf Crypto.

Module PBMetaData.

(** [PBRawTransactionMetaData]. *)
Record RawMetaData : Type := mkRaw { hash : bytes; to : bytes; attribute : Z; source : bytes }.

Record PBTransactionMetaData : Type := mkMeta { m_pbTxMetaData : RawMetaData; m_hash : bytes }.

Definition newMetaData : PBTransactionMetaData := mkMeta (mkRaw [] [] 0 []) zeroHash.

Definition setHash (v : bytes) (m : PBTransactionMetaData) : PBTransactionMetaData :=
  let r := m_pbTxMetaData m in mkMeta (mkRaw v (to r) (attribute r) (source r)) v.
Definition setTo (v : bytes) (m : PBTransactionMetaData) : PBTransactionMetaData :=
  let r := m_pbTxMetaData m in mkMeta (mkRaw (hash r) v (attribute r) (source r)) (m_hash m).
Definition setAttribute (v : Z) (m : PBTransactionMetaData) : PBTransactionMetaData :=
  let r := m_pbTxMetaData m in mkMeta (mkRaw (hash r) (to r) v (source r)) (m_hash m).
Definition setSource (v : bytes) (m : PBTransactionMetaData) : PBTransactionMetaData :=
  let r := m_pbTxMetaData m in mkMeta (mkRaw (hash r) (to r) (attribute r) v) (m_hash m).

(** [PBTransactionMetaData(_hash, _to)], the factory's [createTransactionMetaData]. *)
Definition createTransactionMetaData (h to : bytes) : PBTransactionMetaData :=
  setTo to (setHash h newMetaData).

(** [hash()]: the member when it is set, else the message's field if it is long
    enough, which the member then caches. *)
Definition getHash (m : PBTransactionMetaData) : bytes * PBTransactionMetaData :=
  if negb (bool_decide (m_hash m = zeroHash)) then (m_hash m, m)
  else
    let h := hash (m_pbTxMetaData m) in
    let m := if 32 <=? len h then mkMeta (m_pbTxMetaData m) (take 32 h) else m in
    (m_hash m, m).

(** The cached hash is the one of the message. *)
Definition coherent (m : PBTransactionMetaData) : Prop :=
  m_hash m = zeroHash \/
  (32 <= len (hash (m_pbTxMetaData m)) /\ m_hash m = take 32 (hash (m_pbTxMetaData m))).

Lemma getHash_reread (m : PBTransactionMetaData) :
  coherent m -> (getHash (mkMeta (m_pbTxMetaData m) zeroHash)).1 = (getHash m).1.
Proof.
  intros Hc. unfold getHash. cbn [m_hash m_pbTxMetaData].
  rewrite (bool_decide_eq_true_2 (zeroHash = zeroHash)) by done. cbn [negb].
  destruct Hc as [Hz | [Hl Hm]].
  - rewrite Hz, bool_decide_eq_true_2 by done. cbn [negb]. destruct (32 <=? _); [done |]. by rewrite Hz.
  - rewrite (proj2 (Z.leb_le _ _) Hl). cbn. rewrite <- Hm. by case_bool_decide.
Qed.

Lemma setHash_coherent (h : bytes) (m : PBTransactionMetaData) :
  length h = 32%nat -> coherent (setHash h m).
Proof.
  intros Hl. right. cbn. unfold len. rewrite Hl, take_ge by lia. done.
Qed.
End PBMetaData.

Module PBBlock.
Import PBMetaData.

Inductive pbblock_exn : Type :=
| PBException (e : pb_exn)
| HeaderException (e : BlockHeader.header_exn)
| TxException (e : Transaction.tx_exn)
| ReceiptException (e : Receipt.receipt_exn).

(** [PBRawBlock]. *)
Record RawBlock : Type := mkRawBlock
  { version : Z
  ; type : Z
  ; header : bytes
  ; transactions : list bytes
  ; receipts : list bytes
  ; transactionsmetadata : list RawMetaData
  ; noncelist : list bytes }.

(** Pointers that may be null are options. *)
Record PBBlock : Type := mkBlock
  { m_pbRawBlock : RawBlock
  ; m_blockHeader : option BlockHeader.BlockHeader
  ; m_transactions : list (option Transaction.PBTransaction)
  ; m_receipts : list (option Receipt.PBTransactionReceipt)
  ; m_transactionMetaDataList : list (option PBTransactionMetaData)
  ; m_nonceList : list Z }.

Definition newBlock : PBBlock := mkBlock (mkRawBlock 0 0 [] [] [] [] []) None [] [] [] [].

(* ------------------------------------------------------------------ *)
(** ** Calls that change a block *)

Definition withRaw (f : RawBlock -> RawBlock) (b : PBBlock) : PBBlock :=
  mkBlock (f (m_pbRawBlock b)) (m_blockHeader b) (m_transactions b) (m_receipts b)
    (m_transactionMetaDataList b) (m_nonceList b).

Definition setVersion (v : Z) : PBBlock -> PBBlock :=
  withRaw (fun '(mkRawBlock _ b c d e f g) => mkRawBlock v b c d e f g).
Definition setBlockType (v : Z) : PBBlock -> PBBlock :=
  withRaw (fun '(mkRawBlock a _ c d e f g) => mkRawBlock a v c d e f g).
Definition setRawHeader (v : bytes) : PBBlock -> PBBlock :=
  withRaw (fun '(mkRawBlock a b _ d e f g) => mkRawBlock a b v d e f g).
Definition setRawTransactions (v : list bytes) : PBBlock -> PBBlock :=
  withRaw (fun '(mkRawBlock a b c _ e f g) => mkRawBlock a b c v e f g).
Definition setRawReceipts (v : list bytes) : PBBlock -> PBBlock :=
  withRaw (fun '(mkRawBlock a b c d _ f g) => mkRawBlock a b c d v f g).
Definition setRawMetaData (v : list RawMetaData) : PBBlock -> PBBlock :=
  withRaw (fun '(mkRawBlock a b c d e _ g) => mkRawBlock a b c d e v g).
Definition setRawNonces (v : list bytes) : PBBlock -> PBBlock :=
  withRaw (fun '(mkRawBlock a b c d e f _) => mkRawBlock a b c d e f v).

Definition clearTransactionsCache : PBBlock -> PBBlock := setRawTransactions [].
Definition clearReceiptsCache : PBBlock -> PBBlock := setRawReceipts [].
Definition clearTransactionMetaDataCache : PBBlock -> PBBlock := setRawMetaData [].

Definition setBlockHeader (v : option BlockHeader.BlockHeader) (b : PBBlock) : PBBlock :=
  mkBlock (m_pbRawBlock b) v (m_transactions b) (m_receipts b) (m_transactionMetaDataList b)
    (m_nonceList b).

Definition setTransactions (v : list (option Transaction.PBTransaction)) (b : PBBlock) : PBBlock :=
  clearTransactionsCache (mkBlock (m_pbRawBlock b) (m_blockHeader b) v (m_receipts b)
    (m_transactionMetaDataList b) (m_nonceList b)).
Definition setReceipts (v : list (option Receipt.PBTransactionReceipt)) (b : PBBlock) : PBBlock :=
  clearReceiptsCache (mkBlock (m_pbRawBlock b) (m_blockHeader b) (m_transactions b) v
    (m_transactionMetaDataList b) (m_nonceList b)).

(** A slot of a vector that grows, with null pointers, when the index is beyond
    its end. *)
Definition assignAt {A} (index : nat) (v : option A) (l : list (option A)) : list (option A) :=
  let l := if (length l <=? index)%nat then resize (index + 1) None l else l in
  <[index := v]> l.

Definition setTransaction (index : nat) (v : option Transaction.PBTransaction) (b : PBBlock) : PBBlock :=
  setTransactions (assignAt index v (m_transactions b)) b.
Definition appendTransaction (v : option Transaction.PBTransaction) (b : PBBlock) : PBBlock :=
  setTransactions (m_transactions b ++ [v]) b.
Definition setReceipt (index : nat) (v : option Receipt.PBTransactionReceipt) (b : PBBlock) : PBBlock :=
  setReceipts (assignAt index v (m_receipts b)) b.
Definition appendReceipt (v : option Receipt.PBTransactionReceipt) (b : PBBlock) : PBBlock :=
  setReceipts (m_receipts b ++ [v]) b.
Definition appendTransactionMetaData (v : option PBTransactionMetaData) (b : PBBlock) : PBBlock :=
  mkBlock (m_pbRawBlock b) (m_blockHeader b) (m_transactions b) (m_receipts b)
    (m_transactionMetaDataList b ++ [v]) (m_nonceList b).

Definition setNonceList (v : list Z) (b : PBBlock) : PBBlock :=
  setRawNonces [] (mkBlock (m_pbRawBlock b) (m_blockHeader b) (m_transactions b) (m_receipts b)
    (m_transactionMetaDataList b) v).

(* ------------------------------------------------------------------ *)
(** ** Accessors *)

(** [transaction(_index)] and [receipt(_index)] compare with [<], so the index
    one past the end is read. *)
Definition slot {A} (l : list (option A)) (index : nat) : outcome pbblock_exn (option A) :=
  if (length l <? index)%nat then Ok None
  else match l !! index with
       | Some p => Ok p
       | None => Undefined OutOfRange
       end.
Definition transaction (index : nat) (b : PBBlock) := slot (m_transactions b) index.
Definition receipt (index : nat) (b : PBBlock) := slot (m_receipts b) index.
Definition transactionMetaData (index : nat) (b : PBBlock) : option PBTransactionMetaData :=
  if (length (m_transactionMetaDataList b) <=? index)%nat then None
  else mjoin (m_transactionMetaDataList b !! index).

(** A pointer is dereferenced. *)
Definition deref {A} (p : option A) : outcome pbblock_exn A :=
  match p with Some a => Ok a | None => Undefined NullDeref end.

(** A loop over a vector that replaces each element, with a value for each turn. *)
Fixpoint eachOf {A B C} (f : A -> outcome pbblock_exn (B * C)) (l : list A) :
    outcome pbblock_exn (list B * list C) :=
  match l with
  | [] => Ok ([], [])
  | x :: l =>
      '(y, x') ← f x;
      '(ys, l') ← eachOf f l;
      Ok (y :: ys, x' :: l')
  end.

(** The objects of a vector are encoded unless there are none or the message
    already holds their bytes; and decoded when the message holds some. *)
Definition encodeCached {A} (encodeOne : option A -> outcome pbblock_exn (bytes * option A))
    (l : list (option A)) (cache : list bytes) : outcome pbblock_exn (list bytes * list (option A)) :=
  if len l =? 0 then Ok (cache, l)
  else if 0 <? len cache then Ok (cache, l)
  else eachOf encodeOne l.

Definition decodeCached {A} (decodeOne : bytes -> outcome pbblock_exn (() * option A))
    (cache : list bytes) (l : list (option A)) : outcome pbblock_exn (list (option A)) :=
  if len cache =? 0 then Ok l
  else '(_, l) ← eachOf decodeOne cache; Ok l.

(* ------------------------------------------------------------------ *)
(** ** Encoder and decoder

    The branches of [parallel_invoke] and the turns of [parallel_for] write to
    members and slots of their own; they are taken in order, so that of several
    exceptions the first is the one reported. *)

Section Codec.
Context `{Platform, CryptoSuite}.
Context `{PBMessage RawBlock, PBMessage BlockHeader.RawBlockHeader}.
Context `{PBMessage Transaction.RawTransaction, PBMessage Transaction.RawHashFields}.
Context `{PBMessage Receipt.RawReceipt}.

Definition encodeHeaderField (b : PBBlock) : outcome pbblock_exn PBBlock :=
  match m_blockHeader b with
  | None => Ok b
  | Some h =>
      '(data, h') ← mapThrow HeaderException (BlockHeader.encodeHeader SerializeToArray h);
      Ok (setRawHeader data (setBlockHeader (Some h') b))
  end.

Definition encodeOneTransaction (p : option Transaction.PBTransaction) :
    outcome pbblock_exn (bytes * option Transaction.PBTransaction) :=
  t ← deref p;
  '(data, t') ← mapThrow TxException (Transaction.encode false t);
  Ok (data, Some t').

Definition encodeTransactions (b : PBBlock) : outcome pbblock_exn PBBlock :=
  '(datas, txs) ← encodeCached encodeOneTransaction (m_transactions b) (transactions (m_pbRawBlock b));
  Ok (setRawTransactions datas (mkBlock (m_pbRawBlock b) (m_blockHeader b) txs (m_receipts b)
        (m_transactionMetaDataList b) (m_nonceList b))).

Definition encodeOneReceipt (p : option Receipt.PBTransactionReceipt) :
    outcome pbblock_exn (bytes * option Receipt.PBTransactionReceipt) :=
  r ← deref p;
  '(data, r') ← mapThrow ReceiptException (Receipt.encodeTo r);
  Ok (data, Some r').

Definition encodeReceipts (b : PBBlock) : outcome pbblock_exn PBBlock :=
  '(datas, rs) ← encodeCached encodeOneReceipt (m_receipts b) (receipts (m_pbRawBlock b));
  Ok (setRawReceipts datas (mkBlock (m_pbRawBlock b) (m_blockHeader b) (m_transactions b) rs
        (m_transactionMetaDataList b) (m_nonceList b))).

Definition encodeTransactionsMetaData (b : PBBlock) : outcome pbblock_exn PBBlock :=
  let b := clearTransactionMetaDataCache b in
  '(raws, _) ← eachOf (fun p => m ← deref p; Ok (m_pbTxMetaData m, tt)) (m_transactionMetaDataList b);
  Ok (setRawMetaData raws b).

Definition encodeNonceList (b : PBBlock) : PBBlock :=
  if len (m_nonceList b) =? 0 then b
  else if 0 <? len (noncelist (m_pbRawBlock b)) then b
  else setRawNonces (map BigEndian.toBigEndian_u256 (m_nonceList b)) b.

Definition encode (b : PBBlock) : outcome pbblock_exn (bytes * PBBlock) :=
  b ← encodeHeaderField b;
  b ← encodeTransactions b;
  b ← encodeReceipts b;
  b ← encodeTransactionsMetaData b;
  let b := encodeNonceList b in
  data ← mapThrow PBException (encodePBObject (m_pbRawBlock b));
  Ok (data, b).

(** [createBlockHeader(_data)]. *)
Definition createBlockHeader (data : bytes) : outcome BlockHeader.header_exn BlockHeader.BlockHeader :=
  BlockHeader.decodeHeader ParseFromArray data BlockHeader.newBlockHeader.

Definition decodeHeaderField (b : PBBlock) : outcome pbblock_exn PBBlock :=
  if 0 <? len (header (m_pbRawBlock b)) then
    h ← mapThrow HeaderException (createBlockHeader (header (m_pbRawBlock b)));
    Ok (setBlockHeader (Some h) b)
  else Ok b.

Definition decodeOneTransaction (calculateHash checkSig : bool) (txData : bytes) :
    outcome pbblock_exn (() * option Transaction.PBTransaction) :=
  t ← mapThrow TxException (Transaction.createTransaction txData checkSig);
  _ ← (if calculateHash then mapThrow TxException (Transaction.hash t) else Ok []);
  Ok (tt, Some t).

Definition decodeTransactions (calculateHash checkSig : bool) (b : PBBlock) :
    outcome pbblock_exn PBBlock :=
  txs ← decodeCached (decodeOneTransaction calculateHash checkSig) (transactions (m_pbRawBlock b))
          (m_transactions b);
  Ok (mkBlock (m_pbRawBlock b) (m_blockHeader b) txs (m_receipts b) (m_transactionMetaDataList b)
        (m_nonceList b)).

(** [indeterminate] is the memory of the member a receipt does not initialise. *)
Definition decodeOneReceipt (indeterminate : Z) (calculateHash : bool) (receiptData : bytes) :
    outcome pbblock_exn (() * option Receipt.PBTransactionReceipt) :=
  r ← mapThrow ReceiptException (Receipt.fromData indeterminate receiptData);
  r ← (if calculateHash then '(_, r') ← mapThrow ReceiptException (Receipt.hash r); Ok r' else Ok r);
  Ok (tt, Some r).

Definition decodeReceipts (indeterminate : Z) (calculateHash : bool) (b : PBBlock) :
    outcome pbblock_exn PBBlock :=
  rs ← decodeCached (decodeOneReceipt indeterminate calculateHash) (receipts (m_pbRawBlock b))
         (m_receipts b);
  Ok (mkBlock (m_pbRawBlock b) (m_blockHeader b) (m_transactions b) rs (m_transactionMetaDataList b)
        (m_nonceList b)).

Definition decodeTransactionsMetaData (b : PBBlock) : PBBlock :=
  mkBlock (m_pbRawBlock b) (m_blockHeader b) (m_transactions b) (m_receipts b)
    (map (fun raw => Some (mkMeta raw zeroHash)) (transactionsmetadata (m_pbRawBlock b)))
    (m_nonceList b).

Definition decodeNonceList (b : PBBlock) : PBBlock :=
  let nonces := noncelist (m_pbRawBlock b) in
  if len nonces =? 0 then b
  else mkBlock (m_pbRawBlock b) (m_blockHeader b) (m_transactions b) (m_receipts b)
         (m_transactionMetaDataList b) (map (BigEndian.fromBigEndian 256) nonces).

Definition decode (indeterminate : Z) (data : bytes) (calculateHash checkSig : bool) (b : PBBlock) :
    outcome pbblock_exn PBBlock :=
  if 0 <? len (transactionsmetadata (m_pbRawBlock b)) then Undefined UseAfterFree
  else
    raw ← mapThrow PBException (decodePBObject data);
    b ← decodeHeaderField (withRaw (fun _ => raw) b);
    b ← decodeTransactions calculateHash checkSig b;
    b ← decodeReceipts indeterminate calculateHash b;
    Ok (decodeNonceList (decodeTransactionsMetaData b)).

(** The constructor from bytes, the factory's [createBlock(_data, ...)]. *)
Definition createBlock (indeterminate : Z) (data : bytes) (calculateHash checkSig : bool) :
    outcome pbblock_exn PBBlock :=
  decode indeterminate data calculateHash checkSig newBlock.

(* ------------------------------------------------------------------ *)
(** ** What the methods of the interface read *)

Definition viewTransaction (p : option Transaction.PBTransaction) :
    outcome pbblock_exn Block.TransactionView :=
  t ← deref p;
  h ← mapThrow TxException (Transaction.hash t);
  Ok (Block.mkTransaction h (Transaction.m_nonce t)).

Definition viewReceipt (p : option Receipt.PBTransactionReceipt) : outcome pbblock_exn bytes :=
  r ← deref p;
  '(h, _) ← mapThrow ReceiptException (Receipt.hash r);
  Ok h.

Definition viewMetaData (p : option PBTransactionMetaData) : outcome pbblock_exn bytes :=
  m ← deref p; Ok (getHash m).1.

Fixpoint viewAll {A B} (f : A -> outcome pbblock_exn B) (l : list A) : outcome pbblock_exn (list B) :=
  match l with
  | [] => Ok []
  | x :: l => y ← f x; ys ← viewAll f l; Ok (y :: ys)
  end.

Definition view (b : PBBlock) : outcome pbblock_exn Block.BlockView :=
  txs ← viewAll viewTransaction (m_transactions b);
  metas ← viewAll viewMetaData (m_transactionMetaDataList b);
  rs ← viewAll viewReceipt (m_receipts b);
  Ok (Block.mkBlock txs metas rs).
End Codec.
End PBBlock.

(* ------------------------------------------------------------------ *)
(** ** Properties *)

Module PBBlockFacts.
Import PBMetaData PBBlock.

(** *** Loops *)

Lemma eachOf_inv {A B C} (f : A -> outcome pbblock_exn (B * C)) (P : A -> Prop) (R : A -> B -> C -> Prop)
    (l : list A) (ys : list B) (l' : list C) :
  (forall x y x', P x -> f x = Ok (y, x') -> R x y x') -> Forall P l -> eachOf f l = Ok (ys, l') ->
  Forall3 R l ys l'.
Proof.
  intros HR Hl. revert ys l'. induction Hl as [| x l Hx _ IH]; intros ys l' He; cbn [eachOf] in He.
  - injection He as <- <-. constructor.
  - apply bind_ok_inv in He as ([y x'] & Hf & He). apply bind_ok_inv in He as ([ys1 l1] & He & [= <- <-]).
    constructor; auto.
Qed.

Lemma eachOf_total {A C D} (g : A -> outcome pbblock_exn (() * C)) (S : D -> C -> Prop)
    (l : list A) (k : list D) :
  Forall2 (fun x d => exists c, g x = Ok (tt, c) /\ S d c) l k ->
  exists u k', eachOf g l = Ok (u, k') /\ Forall2 S k k'.
Proof.
  induction 1 as [| x d l k (c & Hg & Hs) _ (u & k' & He & Hk)]; [by exists [], [] |].
  exists (tt :: u), (c :: k'). cbn [eachOf]. rewrite Hg, bind_ok, He. split; [done |]. by constructor.
Qed.

Lemma viewAll_same {A B C} (f : A -> outcome pbblock_exn C) (g : B -> outcome pbblock_exn C)
    (l : list A) (k : list B) :
  Forall2 (fun x y => f x = g y) l k -> viewAll f l = viewAll g k.
Proof. induction 1 as [| x y l k Hxy _ IH]; [done |]. cbn [viewAll]. by rewrite Hxy, IH. Qed.

(** Two pointers to related objects. *)
Definition both {A} (R : A -> A -> Prop) (p q : option A) : Prop :=
  exists x y, p = Some x /\ q = Some y /\ R x y.

(** A vector of objects whose bytes the message caches, for an encoder that
    maps good objects to bytes that carry them. *)
Section Cached.
Context {A : Type} (good : A -> Prop) (same : A -> A -> Prop).
Context (carries : bytes -> option A -> Prop) (encodeOne : option A -> outcome pbblock_exn (bytes * option A)).
Hypothesis same_refl : forall x, same x x.
Hypothesis carries_some : forall d p, carries d p -> exists x, p = Some x.
Hypothesis encodeOne_carries : forall p d q, encodeOne p = Ok (d, q) ->
  (forall x, p = Some x -> good x) ->
  exists x y, p = Some x /\ q = Some y /\ good y /\ same x y /\ carries d q.

Lemma encodeCached_spec (l l' : list (option A)) (cache cache' : list bytes) :
  Forall (fun p => forall x, p = Some x -> good x) l ->
  cache = [] \/ Forall2 carries cache l ->
  encodeCached encodeOne l cache = Ok (cache', l') ->
  Forall (fun p => forall x, p = Some x -> good x) l' /\ Forall2 (both same) l l' /\
  Forall2 carries cache' l'.
Proof using All.
  intros Hl Hc He.
  assert (forall c, Forall2 carries c l -> Forall2 (both same) l l) as Hrefl.
  { clear - same_refl carries_some. intros c. induction 1 as [| d p c l Hd _ IH]; constructor; [| done].
    destruct (carries_some d p Hd) as [x ->]. by exists x, x. }
  unfold encodeCached in He. destruct (Z.eqb_spec (len l) 0) as [Hz | Hz].
  - injection He as <- <-. destruct l; [| rewrite len_cons in Hz; pose proof (len_nonneg l); lia].
    destruct Hc as [-> | Hc]; [done |]. inversion Hc. done.
  - destruct (Z.ltb_spec 0 (len cache)) as [Hlt | Hge].
    + injection He as <- <-. destruct Hc as [-> | Hc]; [done |]. eauto.
    + clear Hc Hrefl. eapply (eachOf_inv _ _ (fun p d q => exists x y, p = Some x /\ q = Some y /\
        good y /\ same x y /\ carries d q)) in He; [| intros p d q Hp Hq; exact (encodeOne_carries p d q Hq Hp) | exact Hl].
      clear - He. induction He as [| p d q l ds qs (x & y & -> & -> & Hg & Hs & Hcar) _ (IH1 & IH2 & IH3)];
        [done |]. split_and!; constructor; auto; [by intros ? [= <-] | by exists x, y].
Qed.

Lemma decodeCached_spec (decodeOne : bytes -> outcome pbblock_exn (() * option A)) (R : A -> A -> Prop)
    (cache : list bytes) (l : list (option A)) :
  (forall d p, carries d p -> exists q, decodeOne d = Ok (tt, q) /\ both R p q) ->
  Forall2 carries cache l ->
  exists l', decodeCached decodeOne cache [] = Ok l' /\ Forall2 (both R) l l'.
Proof using.
  intros Hd Hc. unfold decodeCached. destruct (Z.eqb_spec (len cache) 0) as [Hz | Hz].
  - destruct Hc; [by exists [] |]. rewrite len_cons in Hz. pose proof (len_nonneg l). lia.
  - destruct (eachOf_total decodeOne (both R) cache l) as (u & l' & He & Hl).
    + eapply List.Forall2_impl; [exact Hd | exact Hc].
    + exists l'. by rewrite He.
Qed.
End Cached.

Section Facts.
Context `{PlatformLaw, CryptoLaw}.
Context `{PBLaw RawBlock, PBLaw BlockHeader.RawBlockHeader}.
Context `{PBLaw Transaction.RawTransaction, PBLaw Transaction.RawHashFields}.
Context `{PBLaw Receipt.RawReceipt}.
(** The flags the block will be decoded with. *)
Variable calculateHash checkSig : bool.

(** *** Transactions *)

(** What one transaction of a block and its decoded copy agree on. *)
Definition sameTx (t u : Transaction.PBTransaction) : Prop :=
  Transaction.m_transactionHashFields t = Transaction.m_transactionHashFields u /\
  Transaction.m_nonce t = Transaction.m_nonce u /\
  TransactionFacts.signedPart (Transaction.m_transaction t) =
  TransactionFacts.signedPart (Transaction.m_transaction u).

(** A transaction the decoder will accept: coherent, and with a hash and a
    signature that can be checked where the flags ask for it. *)
Definition goodTx (t : Transaction.PBTransaction) : Prop :=
  TransactionFacts.coherent t /\
  (calculateHash = true -> exists h, Transaction.hash t = Ok h) /\
  (checkSig = true ->
   let raw := Transaction.m_transaction t in
   Transaction.hash t = Ok (hashImpl (Transaction.hashfieldsdata raw)) /\
   exists pub, recover (hashImpl (Transaction.hashfieldsdata raw)) (Transaction.signaturedata raw) = Some pub).

(** The bytes decode to a copy of the transaction. *)
Definition txCarries (data : bytes) (p : option Transaction.PBTransaction) : Prop :=
  exists t u, p = Some t /\ decodeOneTransaction calculateHash checkSig data = Ok (tt, Some u) /\ sameTx t u.

Lemma sameTx_hash (t u : Transaction.PBTransaction) :
  sameTx t u -> Transaction.hash t = Transaction.hash u.
Proof. intros (_ & _ & Hs). by apply TransactionFacts.hash_signedPart. Qed.

Lemma encode_carries (t t' : Transaction.PBTransaction) (data : bytes) :
  goodTx t -> Transaction.encode false t = Ok (data, t') ->
  goodTx t' /\ sameTx t t' /\ txCarries data (Some t').
Proof.
  intros (Hc & Hh & Hs) He.
  destruct (TransactionFacts.encode_coherent false t t' data Hc He) as (Hc' & Hraw & Hn & Hf).
  destruct (TransactionFacts.encode_decode t t' data Hc He) as (u & Hd & Huf & Hun & Hus & Hub & _).
  assert (sameTx t t') as Hsame by (unfold sameTx; by rewrite Hraw, Hn, Hf).
  assert (Transaction.hash t' = Transaction.hash t) as Hht by (symmetry; by apply sameTx_hash).
  split; [unfold goodTx; rewrite Hht, Hraw; done |]. split; [done |].
  assert (exists v, Transaction.createTransaction data checkSig = Ok v /\
    Transaction.m_transaction v = Transaction.m_transaction u /\
    Transaction.m_nonce v = Transaction.m_nonce u /\
    Transaction.m_transactionHashFields v = Transaction.m_transactionHashFields u) as (v & Hv & Hvr & Hvn & Hvf).
  { unfold Transaction.createTransaction, Transaction.fromData. rewrite Hd, bind_ok.
    destruct checkSig; [| by exists u]. destruct (Hs eq_refl) as (Hh1 & pub & Hr).
    exists (Transaction.forceSender (calculateAddress pub) u). split; [| done].
    apply TransactionFacts.verify_spec; [unfold Transaction.sender; by rewrite Hub |].
    unfold TransactionFacts.signedPart in Hus. injection Hus as Ed Eh Es.
    exists pub. rewrite Ed, Es. split_and!; [| done | done].
    rewrite <- Hh1. unfold Transaction.hash. by rewrite Eh. }
  exists t', v. split; [done |].
  assert (sameTx t' v) as Hsv by (unfold sameTx; rewrite Hraw, Hn, Hf, Hvr, Hvn, Hvf; done).
  split; [| done]. unfold decodeOneTransaction. rewrite Hv. cbn [mapThrow]. rewrite bind_ok.
  rewrite <- (sameTx_hash t' v Hsv), Hht. destruct calculateHash; [| done].
  destruct (Hh eq_refl) as [h ->]. done.
Qed.

(** *** Receipts *)

Definition goodReceipt (r : Receipt.PBTransactionReceipt) : Prop :=
  ReceiptFacts.coherent r /\ ReceiptFacts.encodable (Receipt.content r).

Definition receiptCarries (data : bytes) (p : option Receipt.PBTransactionReceipt) : Prop :=
  exists r, p = Some r /\ forall garbage, exists u,
    decodeOneReceipt garbage calculateHash data = Ok (tt, Some u) /\
    goodReceipt u /\ Receipt.content r = Receipt.content u /\
    Receipt.version (Receipt.m_receipt u) = Receipt.version (Receipt.m_receipt r).

Lemma good_hash (r : Receipt.PBTransactionReceipt) :
  goodReceipt r ->
  Receipt.hash r = Ok (hashImpl (ReceiptFacts.imageOf (Receipt.content r)), ReceiptFacts.filled r).
Proof. intros [Hc He]. unfold Receipt.hash. by rewrite ReceiptFacts.encode_true_spec. Qed.

Lemma good_filled (r : Receipt.PBTransactionReceipt) :
  goodReceipt r ->
  goodReceipt (ReceiptFacts.filled r) /\ Receipt.content (ReceiptFacts.filled r) = Receipt.content r.
Proof.
  intros [Hc He]. destruct (ReceiptFacts.filled_spec r Hc) as (_ & Hk & _ & Hc' & _).
  split; [| done]. split; [done |]. by rewrite Hk.
Qed.

Lemma encodeTo_carries (r r' : Receipt.PBTransactionReceipt) (data : bytes) :
  goodReceipt r -> Receipt.encodeTo r = Ok (data, r') ->
  goodReceipt r' /\ Receipt.content r = Receipt.content r' /\ receiptCarries data (Some r').
Proof.
  intros Hg Hr. pose proof Hg as [Hc He]. unfold Receipt.encodeTo in Hr.
  rewrite ReceiptFacts.encodeHashFields_spec, bind_ok in Hr by done.
  apply bind_ok_inv in Hr as (d & Hd & [= <- <-]). apply mapThrow_ok, encodePBObject_inv in Hd.
  destruct (good_filled r Hg) as [Hg' Hk]. split; [done |]. split; [done |].
  exists (ReceiptFacts.filled r). split; [done |]. intros garbage.
  destruct (ReceiptFacts.filled_spec r Hc) as (Hf & _).
  destruct (ReceiptFacts.decode_spec garbage (Receipt.content r)
    (Receipt.version (Receipt.m_receipt (ReceiptFacts.filled r))) d He) as (u & Hu & Huk & Huv & Huh & Huc).
  { rewrite <- Hf, Hd. by destruct (Receipt.m_receipt _). }
  exists u. split; [| split_and!; [split; [done | by rewrite Huk] | by rewrite Huk, Hk | done]].
  unfold decodeOneReceipt. rewrite Hu. cbn [mapThrow]. rewrite bind_ok, Huh. by destruct calculateHash.
Qed.

(** *** Blocks in use *)

Definition goodHeader (h : BlockHeader.BlockHeader) : Prop :=
  BlockHeaderFacts.coherent h /\ BlockHeaderFacts.encodable (BlockHeader.fields h).

(** The objects of a block are good, and what its message caches carries them. *)
Record Inv (b : PBBlock) : Prop := mkInv
  { inv_header : match m_blockHeader b with
                 | None => header (m_pbRawBlock b) = []
                 | Some h => goodHeader h
                 end
  ; inv_txs : Forall (fun p => forall t, p = Some t -> goodTx t) (m_transactions b)
  ; inv_txCache : transactions (m_pbRawBlock b) = [] \/
                  Forall2 txCarries (transactions (m_pbRawBlock b)) (m_transactions b)
  ; inv_receipts : Forall (fun p => forall r, p = Some r -> goodReceipt r) (m_receipts b)
  ; inv_receiptCache : receipts (m_pbRawBlock b) = [] \/
                       Forall2 receiptCarries (receipts (m_pbRawBlock b)) (m_receipts b)
  ; inv_metas : Forall (fun p => forall m, p = Some m -> PBMetaData.coherent m)
                  (m_transactionMetaDataList b)
  ; inv_nonces : Forall (fun n => 0 <= n < 2 ^ 256) (m_nonceList b)
  ; inv_nonceCache : noncelist (m_pbRawBlock b) = [] \/
                     noncelist (m_pbRawBlock b) = map BigEndian.toBigEndian_u256 (m_nonceList b) }.

(** What a block and its decoded copy agree on. *)
Definition sameHeader (h k : BlockHeader.BlockHeader) : Prop :=
  BlockHeader.fields h = BlockHeader.fields k /\
  BlockHeader.m_signatureList h = BlockHeader.m_signatureList k /\
  BlockHeader.version (BlockHeader.m_blockHeader h) = BlockHeader.version (BlockHeader.m_blockHeader k) /\
  BlockHeaderFacts.coherent k.

Record sameBlock (b c : PBBlock) : Prop := mkSame
  { same_version : version (m_pbRawBlock b) = version (m_pbRawBlock c)
  ; same_type : type (m_pbRawBlock b) = type (m_pbRawBlock c)
  ; same_header : m_blockHeader b = None /\ m_blockHeader c = None \/
                  both sameHeader (m_blockHeader b) (m_blockHeader c)
  ; same_txs : Forall2 (both sameTx) (m_transactions b) (m_transactions c)
  ; same_receipts : Forall2 (both (fun r s => Receipt.content r = Receipt.content s /\
                      goodReceipt r /\ goodReceipt s)) (m_receipts b) (m_receipts c)
  ; same_metas : Forall2 (both (fun m n => m_pbTxMetaData m = m_pbTxMetaData n /\
                   m_hash n = zeroHash /\ PBMetaData.coherent m))
                   (m_transactionMetaDataList b) (m_transactionMetaDataList c)
  ; same_nonces : m_nonceList b = m_nonceList c }.

Lemma sameBlock_view (b c : PBBlock) : sameBlock b c -> view b = view c.
Proof.
  intros [_ _ _ Ht Hr Hm _]. unfold view.
  rewrite (viewAll_same viewTransaction viewTransaction _ (m_transactions c)),
    (viewAll_same viewMetaData viewMetaData _ (m_transactionMetaDataList c)),
    (viewAll_same viewReceipt viewReceipt _ (m_receipts c)); [done | ..].
  - eapply List.Forall2_impl; [| exact Hr]. intros p q (r & s & -> & -> & Hk & Hgr & Hgs).
    unfold viewReceipt, deref. rewrite !bind_ok, !good_hash, Hk by done. done.
  - eapply List.Forall2_impl; [| exact Hm]. intros p q (m & n & -> & -> & Hraw & Hz & Hc).
    unfold viewMetaData, deref. rewrite !bind_ok, <- getHash_reread by done.
    destruct n as [raw z]. cbn in Hraw, Hz. by subst.
  - eapply List.Forall2_impl; [| exact Ht]. intros p q (t & u & -> & -> & Hs).
    unfold viewTransaction, deref. rewrite !bind_ok, (sameTx_hash t u Hs). by destruct Hs as (_ & -> & _).
Qed.


(** *** The encoder *)

Lemma encodeOneTransaction_carries p d q :
  encodeOneTransaction p = Ok (d, q) -> (forall t, p = Some t -> goodTx t) ->
  exists t t', p = Some t /\ q = Some t' /\ goodTx t' /\ sameTx t t' /\ txCarries d q.
Proof.
  intros He Hp. apply bind_ok_inv in He as (t & Ht & He). destruct p as [t0 |]; [| done].
  injection Ht as ->. apply bind_ok_inv in He as ([d' t'] & Hd & [= <- <-]). apply mapThrow_ok in Hd.
  destruct (encode_carries t t' d' (Hp t eq_refl) Hd) as (? & ? & ?). eauto 10.
Qed.

Lemma encodeOneReceipt_carries p d q :
  encodeOneReceipt p = Ok (d, q) -> (forall r, p = Some r -> goodReceipt r) ->
  exists r r', p = Some r /\ q = Some r' /\ goodReceipt r' /\
    Receipt.content r = Receipt.content r' /\ receiptCarries d q.
Proof.
  intros He Hp. apply bind_ok_inv in He as (r & Hr & He). destruct p as [r0 |]; [| done].
  injection Hr as ->. apply bind_ok_inv in He as ([d' r'] & Hd & [= <- <-]). apply mapThrow_ok in Hd.
  destruct (encodeTo_carries r r' d' (Hp r eq_refl) Hd) as (? & ? & ?). eauto 10.
Qed.

Lemma txCarries_some d p : txCarries d p -> exists t, p = Some t.
Proof. intros (t & _ & -> & _). eauto. Qed.
Lemma receiptCarries_some d p : receiptCarries d p -> exists r, p = Some r.
Proof. intros (r & -> & _). eauto. Qed.

Definition sameContent (r s : Receipt.PBTransactionReceipt) : Prop :=
  Receipt.content r = Receipt.content s.

(** The message and the block after [encode]. *)
Record encoded (b : PBBlock) (b' : PBBlock) : Prop := mkEncoded
  { e_version : version (m_pbRawBlock b') = version (m_pbRawBlock b)
  ; e_type : type (m_pbRawBlock b') = type (m_pbRawBlock b)
  ; e_header : m_blockHeader b = None /\ m_blockHeader b' = None /\ header (m_pbRawBlock b') = [] \/
      exists h h', m_blockHeader b = Some h /\ m_blockHeader b' = Some h' /\ goodHeader h /\
        BlockHeader.encodeHeader SerializeToArray h = Ok (header (m_pbRawBlock b'), h')
  ; e_goodTxs : Forall (fun p => forall t, p = Some t -> goodTx t) (m_transactions b')
  ; e_txs : Forall2 (both sameTx) (m_transactions b) (m_transactions b')
  ; e_txCache : Forall2 txCarries (transactions (m_pbRawBlock b')) (m_transactions b')
  ; e_goodReceipts : Forall (fun p => forall r, p = Some r -> goodReceipt r) (m_receipts b')
  ; e_receipts : Forall2 (both sameContent) (m_receipts b) (m_receipts b')
  ; e_receiptCache : Forall2 receiptCarries (receipts (m_pbRawBlock b')) (m_receipts b')
  ; e_metas : m_transactionMetaDataList b' = m_transactionMetaDataList b
  ; e_metaCache : Forall2 (fun raw p => exists m, p = Some m /\ raw = m_pbTxMetaData m)
      (transactionsmetadata (m_pbRawBlock b')) (m_transactionMetaDataList b')
  ; e_nonces : m_nonceList b' = m_nonceList b
  ; e_nonceCache : noncelist (m_pbRawBlock b') = map BigEndian.toBigEndian_u256 (m_nonceList b') }.

Lemma encodeMetaData_spec (l : list (option PBTransactionMetaData)) raws us :
  eachOf (fun p => m ← deref p; Ok (m_pbTxMetaData m, tt)) l = Ok (raws, us) ->
  Forall2 (fun raw p => exists m, p = Some m /\ raw = m_pbTxMetaData m) raws l.
Proof.
  intros He. eapply (eachOf_inv _ (fun _ => True) (fun p raw _ => exists m, p = Some m /\
    raw = m_pbTxMetaData m)) in He.
  - clear - He. induction He; constructor; auto.
  - intros p raw u _ Hp. apply bind_ok_inv in Hp as (m & Hm & [= <- <-]). destruct p; [| done].
    injection Hm as ->. eauto.
  - clear. by induction l; constructor.
Qed.

Lemma encodeNonceList_spec (b : PBBlock) :
  noncelist (m_pbRawBlock b) = [] \/
  noncelist (m_pbRawBlock b) = map BigEndian.toBigEndian_u256 (m_nonceList b) ->
  encodeNonceList b = setRawNonces (map BigEndian.toBigEndian_u256 (m_nonceList b)) b.
Proof.
  intros Hc. unfold encodeNonceList. destruct b as [[v ty h ts rs ms ns] hd tx re me nl]. cbn in Hc |- *.
  destruct nl as [| n nl]; [cbn; destruct Hc as [-> | ->]; done |].
  rewrite (proj2 (Z.eqb_neq _ 0)) by (rewrite len_cons; pose proof (len_nonneg nl); lia).
  destruct Hc as [-> | ->]; [done |]. cbn [map].
  by rewrite len_cons, (proj2 (Z.ltb_lt 0 _)) by (pose proof (len_nonneg (map BigEndian.toBigEndian_u256 nl)); lia).
Qed.

Lemma encode_spec (b b' : PBBlock) (data : bytes) :
  Inv b -> encode b = Ok (data, b') -> encoded b b' /\ ParseFromArray data = Some (m_pbRawBlock b').
Proof.
  intros [Hh Ht Htc Hr Hrc Hm Hn Hnc] He. unfold encode in He.
  apply bind_ok_inv in He as (b1 & H1' & He). apply bind_ok_inv in He as (b2 & H2' & He).
  apply bind_ok_inv in He as (b3 & H3' & He). apply bind_ok_inv in He as (b4 & H4' & He).
  apply bind_ok_inv in He as (d & Hd & [= <- <-]). apply mapThrow_ok, encodePBObject_inv in Hd.
  split; [| exact Hd]. clear Hd. destruct b as [[v ty hd ts rs ms ns] h tx re me nl]. cbn in *.
  assert (exists h' hd', b1 = mkBlock (mkRawBlock v ty hd' ts rs ms ns) h' tx re me nl /\
    (h = None /\ h' = None /\ hd' = [] \/ exists k k', h = Some k /\ h' = Some k' /\ goodHeader k /\
     BlockHeader.encodeHeader SerializeToArray k = Ok (hd', k'))) as (h' & hd' & -> & Hhead).
  { unfold encodeHeaderField in H1'. cbn in H1'. destruct h as [k |].
    - apply bind_ok_inv in H1' as ([d' k'] & Hk & [= <-]). apply mapThrow_ok in Hk. eauto 10.
    - injection H1' as <-. eauto 10. }
  apply bind_ok_inv in H2' as ([ts' tx'] & H2' & [= <-]). cbn in H2'.
  destruct (encodeCached_spec goodTx sameTx txCarries encodeOneTransaction (fun _ => conj eq_refl (conj eq_refl eq_refl))
    txCarries_some encodeOneTransaction_carries tx tx' ts ts' Ht Htc H2') as (Ht1 & Ht2 & Ht3).
  apply bind_ok_inv in H3' as ([rs' re'] & H3' & [= <-]). cbn in H3'.
  destruct (encodeCached_spec goodReceipt sameContent receiptCarries encodeOneReceipt (fun _ => eq_refl)
    receiptCarries_some encodeOneReceipt_carries re re' rs rs' Hr Hrc H3') as (Hr1 & Hr2 & Hr3).
  apply bind_ok_inv in H4' as ([ms' us] & H4' & [= <-]). cbn in H4'. apply encodeMetaData_spec in H4'.
  rewrite encodeNonceList_spec by exact Hnc. by constructor.
Qed.

Lemma goodHeader_encoded (h h' : BlockHeader.BlockHeader) (data : bytes) :
  goodHeader h -> BlockHeader.encodeHeader SerializeToArray h = Ok (data, h') -> goodHeader h'.
Proof.
  intros [Hc He] Hh.
  destruct (BlockHeaderFacts.encodeHeader_decode SerializeToArray ParseFromArray hashImpl h h' data
    (fun r d => parse_serialize r d) Hc He Hh) as (Hc' & Hf & _). split; [done |]. by rewrite Hf.
Qed.

Lemma encode_inv (b b' : PBBlock) : Inv b -> encoded b b' -> Inv b'.
Proof.
  intros Hi []. constructor; auto.
  - destruct e_header0 as [(_ & -> & ->) | (h & h' & _ & -> & Hg & He)]; [done |].
    eauto using goodHeader_encoded.
  - rewrite e_metas0. apply Hi.
  - rewrite e_nonces0. apply Hi.
Qed.

(** *** Runs *)

(** The calls a client makes on a block, other than [decode]. *)
Inductive op : Type :=
| SetVersion (v : Z) | SetBlockType (v : Z) | SetBlockHeader (h : BlockHeader.BlockHeader)
| SetTransactions (l : list Transaction.PBTransaction)
| SetTransaction (i : nat) (t : Transaction.PBTransaction)
| AppendTransaction (t : Transaction.PBTransaction)
| SetReceipts (l : list Receipt.PBTransactionReceipt)
| SetReceipt (i : nat) (r : Receipt.PBTransactionReceipt)
| AppendReceipt (r : Receipt.PBTransactionReceipt)
| AppendMetaData (m : PBTransactionMetaData) | SetNonceList (l : list Z) | Encode.

Definition call (o : op) (b : PBBlock) : outcome pbblock_exn PBBlock :=
  match o with
  | SetVersion v => Ok (setVersion v b)
  | SetBlockType v => Ok (setBlockType v b)
  | SetBlockHeader h => Ok (setBlockHeader (Some h) b)
  | SetTransactions l => Ok (setTransactions (map Some l) b)
  | SetTransaction i t => Ok (setTransaction i (Some t) b)
  | AppendTransaction t => Ok (appendTransaction (Some t) b)
  | SetReceipts l => Ok (setReceipts (map Some l) b)
  | SetReceipt i r => Ok (setReceipt i (Some r) b)
  | AppendReceipt r => Ok (appendReceipt (Some r) b)
  | AppendMetaData m => Ok (appendTransactionMetaData (Some m) b)
  | SetNonceList l => Ok (setNonceList l b)
  | Encode => '(_, b') ← encode b; Ok b'
  end.

Fixpoint calls (os : list op) (b : PBBlock) : outcome pbblock_exn PBBlock :=
  match os with
  | [] => Ok b
  | o :: os => b' ← call o b; calls os b'
  end.

(** The objects handed to a block can be encoded and will be accepted. *)
Definition goodOp (o : op) : Prop :=
  match o with
  | SetBlockHeader h => goodHeader h
  | SetTransactions l => Forall goodTx l
  | SetTransaction _ t | AppendTransaction t => goodTx t
  | SetReceipts l => Forall goodReceipt l
  | SetReceipt _ r | AppendReceipt r => goodReceipt r
  | AppendMetaData m => PBMetaData.coherent m
  | SetNonceList l => Forall (fun n => 0 <= n < 2 ^ 256) l
  | _ => True
  end.

Lemma forall_some {A} (P : A -> Prop) (l : list A) :
  Forall P l -> Forall (fun p => forall x, p = Some x -> P x) (map Some l).
Proof. induction 1; constructor; [by intros ? [= <-] | done]. Qed.

Lemma forall_snoc {A} (P : A -> Prop) (l : list (option A)) (x : A) :
  Forall (fun p => forall x, p = Some x -> P x) l -> P x ->
  Forall (fun p => forall x, p = Some x -> P x) (l ++ [Some x]).
Proof. intros Hl Hx. apply Forall_app. split; [done |]. constructor; [by intros ? [= <-] | constructor]. Qed.

Lemma forall_assignAt {A} (P : A -> Prop) (l : list (option A)) (i : nat) (x : A) :
  Forall (fun p => forall x, p = Some x -> P x) l -> P x ->
  Forall (fun p => forall x, p = Some x -> P x) (assignAt i (Some x) l).
Proof.
  intros Hl Hx. unfold assignAt. apply Forall_insert; [| by intros ? [= <-]].
  destruct (length l <=? i)%nat; [| done]. by apply Forall_resize.
Qed.

Lemma call_inv (o : op) (b b' : PBBlock) : Inv b -> goodOp o -> call o b = Ok b' -> Inv b'.
Proof.
  intros Hi Hg Ho. destruct o; cbn [call goodOp] in *;
    lazymatch type of Ho with
    | Ok _ = Ok _ => apply (inj Ok) in Ho; subst b'; destruct Hi as [];
        destruct b as [[] hd tx re me nl]; constructor; cbn in *;
        auto using forall_some, forall_snoc, forall_assignAt
    | _ => apply bind_ok_inv in Ho as ([d b1] & He & [= <-]);
           apply encode_spec in He as [He _]; eauto using encode_inv
    end.
Qed.

Lemma calls_inv (os : list op) (b b' : PBBlock) :
  Inv b -> Forall goodOp os -> calls os b = Ok b' -> Inv b'.
Proof.
  intros Hi Hg. revert b Hi. induction Hg as [| o os Ho _ IH]; intros b Hi Hr; cbn [calls] in Hr.
  - by injection Hr as <-.
  - apply bind_ok_inv in Hr as (b1 & Hc & Hr). eauto using call_inv.
Qed.

Lemma new_inv : Inv newBlock.
Proof. constructor; try (by left); try constructor. Qed.

(** *** The decoder *)

Lemma sameTx_trans (t u v : Transaction.PBTransaction) : sameTx t u -> sameTx u v -> sameTx t v.
Proof. unfold sameTx. intros (-> & -> & ->) (-> & -> & ->). done. Qed.

Lemma both_trans {A} (R S T : A -> A -> Prop) (k l m : list (option A)) :
  (forall x y z, R x y -> S y z -> T x z) ->
  Forall2 (both R) k l -> Forall2 (both S) l m -> Forall2 (both T) k m.
Proof.
  intros Htrans Hk. revert m. induction Hk as [| p q k l (x & y & -> & -> & Hxy) _ IH]; intros m Hl;
    inversion Hl as [| ? r ? m' (y' & z & Hy & -> & Hyz) Hm]; subst; constructor; [| by apply IH].
  injection Hy as <-. exists x, z. eauto.
Qed.

Lemma decodeNonceList_spec (b : PBBlock) (ns : list Z) :
  Forall (fun n => 0 <= n < 2 ^ 256) ns ->
  noncelist (m_pbRawBlock b) = map BigEndian.toBigEndian_u256 ns -> m_nonceList b = [] ->
  decodeNonceList b = mkBlock (m_pbRawBlock b) (m_blockHeader b) (m_transactions b) (m_receipts b)
    (m_transactionMetaDataList b) ns.
Proof.
  intros Hn Hc Hnil. unfold decodeNonceList. rewrite Hc. destruct ns as [| n ns].
  - cbn. rewrite <- Hnil. by destruct b.
  - rewrite (proj2 (Z.eqb_neq _ 0)); [| cbn [map]; rewrite len_cons; pose proof (len_nonneg
      (map BigEndian.toBigEndian_u256 ns)); lia].
    f_equal. rewrite map_map. rewrite <- (map_id (n :: ns)) at 2. apply map_ext_Forall.
    eapply List.Forall_impl; [| exact Hn]. apply TransactionFacts.nonce_roundtrip.
Qed.

Lemma decodeHeader_spec (h h' : BlockHeader.BlockHeader) (data : bytes) :
  (forall r : BlockHeader.RawBlockHeader,
     BlockHeader.hashfieldsdata r ≠ [] -> SerializeToArray r ≠ Some []) ->
  goodHeader h -> BlockHeader.encodeHeader SerializeToArray h = Ok (data, h') ->
  0 < len data /\ exists k, createBlockHeader data = Ok k /\ sameHeader h k.
Proof.
  intros Hempty [Hc He] Hh.
  destruct (BlockHeaderFacts.encodeHeader_decode SerializeToArray ParseFromArray hashImpl h h' data
    (fun r d => parse_serialize r d) Hc He Hh) as (_ & _ & Hpos & k & Hk & Hkc & Hf & Hs & Hv & _).
  split; [| by exists k].
  apply bind_ok_inv in Hh as (h1 & _ & Hser). cbv zeta in Hser.
  destruct (SerializeToArray _) as [d |] eqn:Hd; [| done]. injection Hser as <- <-.
  destruct d as [| x d]; [| rewrite len_cons; pose proof (len_nonneg d); lia].
  exfalso. eapply Hempty; [| exact Hd]. intros Hnil. by rewrite Hnil in Hpos.
Qed.

Lemma createBlock_spec (garbage : Z) (b b' : PBBlock) (data : bytes) :
  (forall r : BlockHeader.RawBlockHeader,
     BlockHeader.hashfieldsdata r ≠ [] -> SerializeToArray r ≠ Some []) ->
  Inv b -> encoded b b' -> ParseFromArray data = Some (m_pbRawBlock b') ->
  exists b2, createBlock garbage data calculateHash checkSig = Ok b2 /\ sameBlock b b2.
Proof.
  intros Hempty Hi [] Hp. unfold createBlock, decode.
  rewrite (proj2 (decodePBObject_ok _ _) Hp). cbn [mapThrow newBlock m_pbRawBlock transactionsmetadata
    len length Z.of_nat Z.ltb Z.compare]. rewrite bind_ok. set (raw := m_pbRawBlock b') in *.
  assert (exists hd, decodeHeaderField (withRaw (fun _ => raw) newBlock) =
    Ok (setBlockHeader hd (withRaw (fun _ => raw) newBlock)) /\
    (m_blockHeader b = None /\ hd = None \/ both sameHeader (m_blockHeader b) hd)) as (hd & -> & Hhd).
  { unfold decodeHeaderField. cbn [withRaw newBlock m_pbRawBlock].
    destruct e_header0 as [(Hb & _ & ->) | (h & h' & Hb & _ & Hg & He)]; [by exists None; auto |].
    destruct (decodeHeader_spec h h' _ Hempty Hg He) as (Hpos & k & Hk & Hs).
    rewrite (proj2 (Z.ltb_lt _ _) Hpos), Hk. exists (Some k). split; [done |]. right. by exists h, k. }
  rewrite bind_ok. unfold decodeTransactions. cbn [setBlockHeader withRaw newBlock m_pbRawBlock m_transactions].
  destruct (decodeCached_spec txCarries (decodeOneTransaction calculateHash checkSig) sameTx
    (transactions raw) (m_transactions b')) as (txs & -> & Htx).
  { intros d p (t & u & -> & Hd & Hs). exists (Some u). split; [done |]. by exists t, u. }
  { exact e_txCache0. }
  rewrite bind_ok. cbn beta. rewrite bind_ok. unfold decodeReceipts.
  cbn [m_pbRawBlock m_receipts setBlockHeader withRaw newBlock].
  destruct (decodeCached_spec receiptCarries (decodeOneReceipt garbage calculateHash)
    (fun r s => Receipt.content r = Receipt.content s /\ goodReceipt s)
    (receipts raw) (m_receipts b')) as (rs & -> & Hrs).
  { intros d p (r & -> & Hr). destruct (Hr garbage) as (u & Hu & Hg & Hk & _).
    exists (Some u). split; [done |]. by exists r, u. }
  { exact e_receiptCache0. }
  rewrite bind_ok. cbn beta. rewrite bind_ok.
  rewrite (decodeNonceList_spec _ (m_nonceList b)); [| apply Hi | cbn; by rewrite e_nonceCache0, e_nonces0 | done].
  eexists. split; [done |]. cbn. constructor; cbn; try done.
  - eauto using both_trans, sameTx_trans.
  - assert (Forall2 (both (fun r s => Receipt.content r = Receipt.content s /\ goodReceipt r))
      (m_receipts b) (m_receipts b')) as Hgood.
    { pose proof (inv_receipts b Hi) as Hg. clear - e_receipts0 Hg.
      induction e_receipts0 as [| p q l k (r & s & -> & -> & Hk) _ IH]; constructor.
      - exists r, s. inversion Hg; subst. auto.
      - apply IH. by inversion Hg. }
    eapply both_trans; [| exact Hgood | exact Hrs]. intros x y z [-> ?] [-> ?]. done.
  - rewrite e_metas0 in e_metaCache0. pose proof (inv_metas b Hi) as Hm. fold raw in e_metaCache0.
    clear - e_metaCache0 Hm. revert Hm.
    induction e_metaCache0 as [| w p ws l (m & -> & ->) _ IH]; intros Hm; constructor.
    + exists m. eexists. inversion Hm; subst. split_and!; eauto.
    + apply IH. by inversion Hm.
Qed.
End Facts.


(** A transaction or a receipt is asked for by index: within the vector it is
    returned, beyond the index one past its end there is none, and at that index
    itself the code reads outside of the vector. *)
Theorem index_past_end {A} (l : list (option A)) (i : nat) :
  slot l i = match (i ?= length l)%nat with
             | Lt => Ok (default None (l !! i))
             | Eq => Undefined OutOfRange
             | Gt => Ok None
             end.
Proof.
  unfold slot. destruct (Nat.compare_spec i (length l)) as [-> | Hlt | Hgt].
  - rewrite Nat.ltb_irrefl. by rewrite lookup_ge_None_2.
  - rewrite (proj2 (Nat.ltb_ge _ _)) by lia. destruct (lookup_lt_is_Some_2 l i Hlt) as [p ->]. done.
  - by rewrite (proj2 (Nat.ltb_lt _ _)).
Qed.
End PBBlockFacts.

(* ------------------------------------------------------------------ *)
(** ** The hypotheses can be met *)

Module PBBlockWitnesses.
Import PBMetaData PBBlock PBBlockFacts SampleCrypto SampleTransactions SampleReceipts.

(** Serialisers with an exact inverse for the remaining messages. *)
Definition listField (l : list bytes) : bytes := writeFields l.

Fixpoint traverse {A} (f : bytes -> option A) (l : list bytes) : option (list A) :=
  match l with
  | [] => Some []
  | x :: l => y ← f x; ys ← traverse f l; Some (y :: ys)
  end.

Lemma traverse_map {A} (f : bytes -> option A) (g : A -> bytes) (l : list A) :
  (forall a, f (g a) = Some a) -> traverse f (map g l) = Some l.
Proof. intros Hf. induction l as [| a l IH]; [done |]. cbn. by rewrite Hf, IH. Qed.

Definition writeSignature (s : Z * bytes) : bytes := writeFields [numberBytes s.1; s.2].
Definition readSignature (d : bytes) : option (Z * bytes) :=
  l ← readFields [] d;
  match l with [i; s] => i ← bytesNumber i; Some (i, s) | _ => None end.

Lemma readSignature_write (s : Z * bytes) : readSignature (writeSignature s) = Some s.
Proof.
  unfold readSignature, writeSignature. rewrite readFields_writeFields. cbn.
  rewrite bytesNumber_numberBytes. by destruct s.
Qed.

Definition headerMessage : PBMessage BlockHeader.RawBlockHeader :=
  fieldsMessage
    (fun '(BlockHeader.mkRaw v d l) => numberBytes v :: d :: map writeSignature l)
    (fun l => match l with
              | v :: d :: l => v ← bytesNumber v; l ← traverse readSignature l;
                               Some (BlockHeader.mkRaw v d l)
              | _ => None
              end).

Lemma headerMessage_law : @PBLaw BlockHeader.RawBlockHeader headerMessage.
Proof.
  apply fieldsMessage_law. intros []. rewrite bytesNumber_numberBytes. cbn.
  rewrite (traverse_map readSignature writeSignature) by apply readSignature_write. done.
Qed.

Definition writeMeta (m : RawMetaData) : bytes :=
  writeFields [hash m; to m; numberBytes (attribute m); source m].
Definition readMeta (d : bytes) : option RawMetaData :=
  l ← readFields [] d;
  match l with [h; t; a; s] => a ← bytesNumber a; Some (mkRaw h t a s) | _ => None end.

Lemma readMeta_write (m : RawMetaData) : readMeta (writeMeta m) = Some m.
Proof.
  unfold readMeta, writeMeta. rewrite readFields_writeFields. cbn.
  rewrite bytesNumber_numberBytes. by destruct m.
Qed.

Definition blockMessage : PBMessage RawBlock :=
  fieldsMessage
    (fun '(mkRawBlock v t h ts rs ms ns) =>
       [numberBytes v; numberBytes t; h; writeFields ts; writeFields rs;
        writeFields (map writeMeta ms); writeFields ns])
    (fun l => match l with
              | [v; t; h; ts; rs; ms; ns] =>
                  v ← bytesNumber v; t ← bytesNumber t; ts ← readFields [] ts; rs ← readFields [] rs;
                  ms ← readFields [] ms; ms ← traverse readMeta ms; ns ← readFields [] ns;
                  Some (mkRawBlock v t h ts rs ms ns)
              | _ => None
              end).

Lemma blockMessage_law : @PBLaw RawBlock blockMessage.
Proof.
  apply fieldsMessage_law. intros []. rewrite !bytesNumber_numberBytes. cbn.
  rewrite !readFields_writeFields. cbn. rewrite (traverse_map readMeta writeMeta) by apply readMeta_write.
  done.
Qed.

#[local] Existing Instances headerMessage headerMessage_law blockMessage blockMessage_law.

Definition sampleHeader : BlockHeader.BlockHeader :=
  BlockHeader.setTxsRoot zeroHash (BlockHeader.setNumber 9 BlockHeader.newBlockHeader).

Lemma goodHeader_sample : goodHeader sampleHeader.
Proof.
  split; [split; by left |]. exists 9. split; [done |].
  split; [repeat (split || constructor); vm_compute; congruence | vm_compute; reflexivity].
Qed.

Lemma goodTx_sample : goodTx true true signedTx.
Proof.
  split; [split_and!; [vm_compute; reflexivity.. | by left] |]. split.
  - intros _. eexists. vm_compute. reflexivity.
  - intros _. split; [vm_compute; reflexivity |]. eexists. vm_compute. reflexivity.
Qed.

Lemma goodReceipt_sample : goodReceipt sampleReceipt.
Proof.
  split; [by left |].
  split; [repeat (split || constructor); vm_compute; congruence | vm_compute; reflexivity].
Qed.

Definition sampleOps : list op :=
  [ SetVersion 2; SetBlockHeader sampleHeader; AppendTransaction signedTx; Encode
  ; SetTransaction 1 signedTx; SetReceipts [sampleReceipt]
  ; AppendMetaData (createTransactionMetaData zeroHash (text "to")); SetNonceList [7; 8]; Encode ].

Definition sampleBlock : PBBlock := get (calls sampleOps newBlock) newBlock.
Definition sampleEncoded : bytes * PBBlock := get (encode sampleBlock) ([], newBlock).

End PBBlockWitnesses.
