(* ===== verification/Json.v ===== *)
(** * JSON values

    The part of the jsoncpp library the code uses, as a class: [Json::Reader],
    [Json::FastWriter], the ways to build a [Json::Value] and to read one.  A read
    of a value of the wrong type throws [Json::LogicError], here [None].  [JsonLaw]
    says that reads give what was built, and that a text that was written is
    parsed to the value, for strings that JSON can carry; the kind of integer a
    value holds, which the reads ignore, is not told apart. *)

From Stdlib Require Import ZArith Lia List.
From Stdlib Require Import Strings.String Strings.Byte.
From stdpp Require Import base tactics decidable list option.
From S2P Require Import Prelude Protobuf.

Module Json.

Class JsonLib (V : Type) : Type :=
  { parse : bytes -> option V
  ; write : V -> bytes
  ; ofString : bytes -> V
  ; ofNumber : Z -> V
  ; ofArray : list V -> V
  ; ofObject : list (bytes * V) -> V   (** a null value whose fields are assigned in order *)
  ; isMember : V -> bytes -> option bool
  ; at_ : V -> bytes -> option V       (** [operator[]] *)
  ; isArray : V -> bool
  ; isObject : V -> bool
  ; elements : V -> list V             (** [size] and [operator[]]; empty for other types *)
  ; asString : V -> option bytes
  ; asUInt : V -> option Z
  ; asInt : V -> option Z
  ; asBool : V -> option bool
  ; textual : bytes -> Prop }.

(** Values made of strings, 64-bit numbers, arrays and objects without repeated keys. *)
Inductive built {V} `{JsonLib V} : V -> Prop :=
| BuiltString s : textual s -> built (ofString s)
| BuiltNumber n : - 2 ^ 63 <= n < 2 ^ 64 -> built (ofNumber n)
| BuiltArray l : (forall v, In v l -> built v) -> built (ofArray l)
| BuiltObject fs :
    NoDup (map fst fs) -> (forall k v, In (k, v) fs -> textual k /\ built v) -> built (ofObject fs).

Class JsonLaw (V : Type) `{JsonLib V} : Prop :=
  { textual_ascii s : Forall (fun c => (32 <=? b2z c) && (b2z c <? 127) = true) s -> textual s
  ; parse_write v : built v -> parse (write v) = Some v
  ; asString_ofString s : asString (ofString s) = Some s
  ; asUInt_ofNumber n : 0 <= n < 2 ^ 32 -> asUInt (ofNumber n) = Some n
  ; asInt_ofNumber n : - 2 ^ 31 <= n < 2 ^ 31 -> asInt (ofNumber n) = Some n
  ; isArray_ofArray l : isArray (ofArray l) = true
  ; elements_ofArray l : elements (ofArray l) = l
  ; isObject_ofObject fs : isObject (ofObject fs) = true
  ; isMember_ofObject fs k : isMember (ofObject fs) k = Some (bool_decide (k ∈ map fst fs))
  ; at_ofObject fs k v : NoDup (map fst fs) -> In (k, v) fs -> at_ (ofObject fs) k = Some v }.
End Json.

(* ------------------------------------------------------------------ *)
(** ** A library with these laws *)

(** Values are their own text: a tag and the parts, in the format of the sample
    messages. *)
Module SampleJson.
Import Protobuf Json.

Definition tag (b : byte) (parts : list bytes) : bytes := writeFields ([b] :: parts).
Definition untag (v : bytes) : option (byte * list bytes) :=
  match readFields [] v with
  | Some ([b] :: parts) => Some (b, parts)
  | _ => None
  end.

Lemma untag_tag b parts : untag (tag b parts) = Some (b, parts).
Proof. unfold untag, tag. by rewrite readFields_writeFields. Qed.

Fixpoint pairsOf (parts : list bytes) : list (bytes * bytes) :=
  match parts with
  | k :: v :: parts => (k, v) :: pairsOf parts
  | _ => []
  end.

Definition fields (v : bytes) : option (list (bytes * bytes)) :=
  match untag v with
  | Some ("o"%byte, parts) => Some (pairsOf parts)
  | _ => None
  end.

Definition lookupField (k : bytes) (fs : list (bytes * bytes)) : option bytes :=
  snd <$> List.find (fun f => bool_decide (k = f.1)) fs.

Definition scalar (b : byte) (v : bytes) : option bytes :=
  match untag v with
  | Some (c, [s]) => if bool_decide (b = c) then Some s else None
  | _ => None
  end.

Definition null : bytes := tag "z" [].

#[export] Instance sampleJson : JsonLib bytes :=
  { parse := fun s => match untag s with Some _ => Some s | None => None end
  ; write := fun v => v
  ; ofString := fun s => tag "s" [s]
  ; ofNumber := fun n => tag "n" [numberBytes n]
  ; ofArray := fun l => tag "a" l
  ; ofObject := fun fs => tag "o" (flat_map (fun f => [f.1; f.2]) fs)
  ; isMember := fun v k => (fun fs => bool_decide (k ∈ map fst fs)) <$> fields v
  ; at_ := fun v k => fs ← fields v; Some (default null (lookupField k fs))
  ; isArray := fun v => match untag v with Some ("a"%byte, _) => true | _ => false end
  ; isObject := fun v => match untag v with Some ("o"%byte, _) => true | _ => false end
  ; elements := fun v => match untag v with Some ("a"%byte, l) => l | _ => [] end
  ; asString := scalar "s"
  ; asUInt := fun v => scalar "n" v ≫= bytesNumber
  ; asInt := fun v => scalar "n" v ≫= bytesNumber
  ; asBool := fun v => s ← scalar "b" v; Some (bool_decide (s = [Byte.x01]))
  ; textual := fun _ => True }.

Lemma pairsOf_flat fs : pairsOf (flat_map (fun f : bytes * bytes => [f.1; f.2]) fs) = fs.
Proof. induction fs as [| [k v] fs IH]; [done |]. cbn. by rewrite IH. Qed.

Lemma fields_ofObject fs : fields (ofObject fs) = Some fs.
Proof. unfold fields. cbn [ofObject sampleJson]. by rewrite untag_tag, pairsOf_flat. Qed.

Lemma lookupField_in fs k v : NoDup (map fst fs) -> In (k, v) fs -> lookupField k fs = Some v.
Proof.
  unfold lookupField. induction fs as [| [k' v'] fs IH]; [done |]. cbn [map fst List.find].
  intros Hnd [[= -> ->] | Hin]; inversion Hnd as [| x l Hk Hn]; subst.
  - by rewrite bool_decide_true.
  - rewrite bool_decide_false; [by apply IH |]. intros ->. apply Hk.
    apply list_elem_of_In, in_map_iff. by exists (k', v).
Qed.

#[export] Instance sampleJson_law : JsonLaw bytes.
Proof.
  split; cbn [sampleJson parse write ofString ofNumber ofArray ofObject isMember at_ isArray isObject
              elements asString asUInt asInt textual].
  - done.
  - intros v Hv. destruct Hv; cbn [ofString ofNumber ofArray ofObject sampleJson];
      by rewrite untag_tag.
  - intros s. unfold scalar. by rewrite untag_tag.
  - intros n _. unfold scalar. rewrite untag_tag. apply bytesNumber_numberBytes.
  - intros n _. unfold scalar. rewrite untag_tag. apply bytesNumber_numberBytes.
  - intros l. by rewrite untag_tag.
  - intros l. by rewrite untag_tag.
  - intros fs. by rewrite untag_tag.
  - intros fs k. by rewrite (fields_ofObject fs : fields (tag _ _) = _).
  - intros fs k v Hn Hin. rewrite (fields_ofObject fs : fields (tag _ _) = _). cbn.
    by rewrite (lookupField_in _ _ _ Hn Hin).
Qed.
End SampleJson.
