(* ===== verification/Ledger.v ===== *)
(** * The ledger's configuration and its fetcher

    Model of interfaces/consensus/{ConsensusNodeInterface,ConsensusNode}.h,
    interfaces/ledger/LedgerConfig.h, the constants of LedgerTypeDef.h and
    libtool/LedgerConfigFetcher.{h,cpp}.

    The fetcher asks a ledger, which answers later through a callback: the requests
    in flight are part of the state, each with what its callback has captured, and
    the ledger's answers are events that may come in any order or never.  A
    request is the last thing each method does, so a ledger that answers before
    its method returns is one whose answer is the next event.  Each callback is one
    step.  The ledger is not part of this repository: it is a parameter, as is
    [boost::lexical_cast]. *)

From Stdlib Require Import ZArith Lia List.
From Stdlib Require Import Strings.String Strings.Byte.
From stdpp Require Import base tactics decidable list option relations.
From S2P Require Import Prelude Protobuf.

(* ------------------------------------------------------------------ *)
(** ** Consensus nodes and the configuration *)

Module LedgerConfig.

Record ConsensusNode : Type := mkNode { nodeID : bytes; weight : Z }.

#[export] Instance ConsensusNode_eq_dec : EqDecision ConsensusNode.
Proof. solve_decision. Defined.

(** The constructor without a weight. *)
Definition newConsensusNode (nodeID : bytes) : ConsensusNode := mkNode nodeID 100.

(** [operator<] on vectors of bytes. *)
Fixpoint lessBytes (a b : bytes) : bool :=
  match a, b with
  | _, [] => false
  | [], _ :: _ => true
  | x :: a, y :: b => (b2z x <? b2z y) || ((b2z x =? b2z y) && lessBytes a b)
  end.

(** [ConsensusNodeComparator]. *)
Definition consensusNodeLess (l r : ConsensusNode) : bool :=
  if bool_decide (nodeID l = nodeID r) then weight l <? weight r
  else lessBytes (nodeID l) (nodeID r).

Definition SYSTEM_KEY_TX_COUNT_LIMIT : bytes := list_byte_of_string "tx_count_limit".
Definition SYSTEM_KEY_CONSENSUS_LEADER_PERIOD : bytes :=
  list_byte_of_string "consensus_leader_period".
Definition CONSENSUS_SEALER : bytes := list_byte_of_string "consensus_sealer".
Definition CONSENSUS_OBSERVER : bytes := list_byte_of_string "consensus_observer".
Global Arguments SYSTEM_KEY_TX_COUNT_LIMIT : simpl never.
Global Arguments SYSTEM_KEY_CONSENSUS_LEADER_PERIOD : simpl never.
Global Arguments CONSENSUS_SEALER : simpl never.
Global Arguments CONSENSUS_OBSERVER : simpl never.

Record LedgerConfig : Type := mkLedgerConfig
  { m_consensusNodeList : list ConsensusNode
  ; m_observerNodeList : list ConsensusNode
  ; m_hash : bytes
  ; m_blockNumber : Z
  ; m_blockTxCountLimit : Z
  ; m_leaderSwitchPeriod : Z
  ; m_sealerId : Z
  ; m_txsSize : Z }.

(** The constructor leaves the block number and the limit as the memory was. *)
Definition newLedgerConfig (number limit : Z) : LedgerConfig :=
  mkLedgerConfig [] [] Crypto.zeroHash number limit 1 (-1) (-1).

Definition setConsensusNodeList (v : list ConsensusNode) (c : LedgerConfig) : LedgerConfig :=
  mkLedgerConfig v (m_observerNodeList c) (m_hash c) (m_blockNumber c) (m_blockTxCountLimit c)
    (m_leaderSwitchPeriod c) (m_sealerId c) (m_txsSize c).
Definition setObserverNodeList (v : list ConsensusNode) (c : LedgerConfig) : LedgerConfig :=
  mkLedgerConfig (m_consensusNodeList c) v (m_hash c) (m_blockNumber c) (m_blockTxCountLimit c)
    (m_leaderSwitchPeriod c) (m_sealerId c) (m_txsSize c).
Definition setHash (v : bytes) (c : LedgerConfig) : LedgerConfig :=
  mkLedgerConfig (m_consensusNodeList c) (m_observerNodeList c) v (m_blockNumber c)
    (m_blockTxCountLimit c) (m_leaderSwitchPeriod c) (m_sealerId c) (m_txsSize c).
Definition setBlockNumber (v : Z) (c : LedgerConfig) : LedgerConfig :=
  mkLedgerConfig (m_consensusNodeList c) (m_observerNodeList c) (m_hash c) v
    (m_blockTxCountLimit c) (m_leaderSwitchPeriod c) (m_sealerId c) (m_txsSize c).
Definition setBlockTxCountLimit (v : Z) (c : LedgerConfig) : LedgerConfig :=
  mkLedgerConfig (m_consensusNodeList c) (m_observerNodeList c) (m_hash c) (m_blockNumber c)
    v (m_leaderSwitchPeriod c) (m_sealerId c) (m_txsSize c).
Definition setLeaderSwitchPeriod (v : Z) (c : LedgerConfig) : LedgerConfig :=
  mkLedgerConfig (m_consensusNodeList c) (m_observerNodeList c) (m_hash c) (m_blockNumber c)
    (m_blockTxCountLimit c) v (m_sealerId c) (m_txsSize c).
Definition setSealerId (v : Z) (c : LedgerConfig) : LedgerConfig :=
  mkLedgerConfig (m_consensusNodeList c) (m_observerNodeList c) (m_hash c) (m_blockNumber c)
    (m_blockTxCountLimit c) (m_leaderSwitchPeriod c) v (m_txsSize c).
Definition setTxsSize (v : Z) (c : LedgerConfig) : LedgerConfig :=
  mkLedgerConfig (m_consensusNodeList c) (m_observerNodeList c) (m_hash c) (m_blockNumber c)
    (m_blockTxCountLimit c) (m_leaderSwitchPeriod c) (m_sealerId c) v.
End LedgerConfig.

(* ------------------------------------------------------------------ *)
(** ** The fetcher *)

Module LedgerConfigFetcher.
Import LedgerConfig.

(** The seven flags of the fetcher, [m_fetch...Finished]. *)
Inductive info : Type :=
| BlockInfo | ConsensusInfo | ObserverInfo | BlockTxCountLimit | NonceList | GenesisHash
| ConsensusLeaderPeriod.

#[export] Instance info_eq_dec : EqDecision info.
Proof. solve_decision. Defined.

Definition infos : list info :=
  [BlockInfo; ConsensusInfo; ObserverInfo; BlockTxCountLimit; NonceList; GenesisHash;
   ConsensusLeaderPeriod].

(** The callbacks given to [fetchBlockHash], [fetchSystemConfig] and
    [fetchNodeListByNodeType]. *)
Inductive onHash : Type := BlockHash | Genesis.
Inductive onValue : Type := LeaderPeriod | TxCountLimit.
Inductive onNodes : Type := Consensus | Observer.

(** A question to the ledger, with the captures of its callback. *)
Inductive request : Type :=
| GetBlockNumber (fetchedTime : nat)
| GetBlockHashByNumber (blockNumber : Z) (callback : onHash) (fetchedTime : nat)
| GetSystemConfigByKey (key : bytes) (onRecvValue : onValue) (fetchedTime : nat)
| GetNodeListByType (type : bytes) (onRecvNodeList : onNodes) (fetchedTime : nat)
| GetNonceList (startNumber offset : Z) (fetchedTime : nat).

(** What a successful answer carries; node lists and nonce maps are pointers. *)
Definition result (r : request) : Type :=
  match r with
  | GetBlockNumber _ => Z
  | GetBlockHashByNumber _ _ _ => bytes
  | GetSystemConfigByKey _ _ _ => bytes
  | GetNodeListByType _ _ _ => option (list ConsensusNode)
  | GetNonceList _ _ _ => option (list (Z * list Z))
  end.

Record Fetcher : Type := mkFetcher
  { m_ledgerConfig : LedgerConfig
  ; m_nonceList : option (list (Z * list Z))
  ; m_genesisHash : bytes
  ; finished : info -> bool
  ; pending : list request }.

Definition newFetcher (number limit : Z) : Fetcher :=
  mkFetcher (newLedgerConfig number limit) None Crypto.zeroHash (fun _ => true) [].

Definition c_maxRetryTime : nat := 5.
Definition m_timeout : Z := 10000.

Definition fetchFinished (f : Fetcher) : bool := forallb (finished f) infos.

Definition setFinished (i : info) (b : bool) (f : Fetcher) : Fetcher :=
  mkFetcher (m_ledgerConfig f) (m_nonceList f) (m_genesisHash f)
    (fun j => if bool_decide (i = j) then b else finished f j) (pending f).
Definition updateConfig (g : LedgerConfig -> LedgerConfig) (f : Fetcher) : Fetcher :=
  mkFetcher (g (m_ledgerConfig f)) (m_nonceList f) (m_genesisHash f) (finished f) (pending f).
Definition setNonceList (m : option (list (Z * list Z))) (f : Fetcher) : Fetcher :=
  mkFetcher (m_ledgerConfig f) m (m_genesisHash f) (finished f) (pending f).
Definition setGenesisHash (h : bytes) (f : Fetcher) : Fetcher :=
  mkFetcher (m_ledgerConfig f) (m_nonceList f) h (finished f) (pending f).
Definition ask (r : request) (f : Fetcher) : Fetcher :=
  mkFetcher (m_ledgerConfig f) (m_nonceList f) (m_genesisHash f) (finished f) (pending f ++ [r]).
Definition withdraw (i : nat) (f : Fetcher) : Fetcher :=
  mkFetcher (m_ledgerConfig f) (m_nonceList f) (m_genesisHash f) (finished f)
    (delete i (pending f)).

(** *** The methods, up to the question they ask *)

Definition fetchBlockHash (blockNumber : Z) (callback : onHash) (fetchedTime : nat) :
  Fetcher -> Fetcher := ask (GetBlockHashByNumber blockNumber callback fetchedTime).
Definition fetchSystemConfig (key : bytes) (onRecvValue : onValue) (fetchedTime : nat) :
  Fetcher -> Fetcher := ask (GetSystemConfigByKey key onRecvValue fetchedTime).
Definition fetchNodeListByNodeType (type : bytes) (onRecvNodeList : onNodes)
    (fetchedTime : nat) : Fetcher -> Fetcher :=
  ask (GetNodeListByType type onRecvNodeList fetchedTime).

Definition fetchBlockNumberAndHash (fetchedTime : nat) (f : Fetcher) : Fetcher :=
  ask (GetBlockNumber fetchedTime) (setFinished BlockInfo false f).
Definition fetchGenesisHash (f : Fetcher) : Fetcher :=
  fetchBlockHash 0 Genesis 0 (setFinished GenesisHash false f).
Definition fetchConsensusNodeList (f : Fetcher) : Fetcher :=
  fetchNodeListByNodeType CONSENSUS_SEALER Consensus 0 (setFinished ConsensusInfo false f).
Definition fetchObserverNodeList (f : Fetcher) : Fetcher :=
  fetchNodeListByNodeType CONSENSUS_OBSERVER Observer 0 (setFinished ObserverInfo false f).
Definition fetchConsensusLeaderPeriod (f : Fetcher) : Fetcher :=
  fetchSystemConfig SYSTEM_KEY_CONSENSUS_LEADER_PERIOD LeaderPeriod 0
    (setFinished ConsensusLeaderPeriod false f).
Definition fetchBlockTxCountLimit (f : Fetcher) : Fetcher :=
  fetchSystemConfig SYSTEM_KEY_TX_COUNT_LIMIT TxCountLimit 0
    (setFinished BlockTxCountLimit false f).
Definition fetchNonceList (startNumber offset : Z) (fetchedTime : nat) (f : Fetcher) : Fetcher :=
  ask (GetNonceList startNumber offset fetchedTime) (setFinished NonceList false f).

(** A failure is answered by asking again until [c_maxRetryTime]. *)
Definition retry (fetchedTime : nat) (again : nat -> Fetcher -> Fetcher) (f : Fetcher) : Fetcher :=
  if (c_maxRetryTime <=? fetchedTime)%nat then f else again (fetchedTime + 1)%nat f.

Section Callbacks.
Context (lexicalCast : bytes -> option Z).

(** The callbacks of [fetchBlockNumberAndHash] and [fetchGenesisHash]. *)
Definition recvBlockHash (h : bytes) (f : Fetcher) : Fetcher :=
  setFinished BlockInfo true (updateConfig (setHash h) f).
Definition recvGenesisHash (h : bytes) (f : Fetcher) : Fetcher :=
  setFinished GenesisHash true (setGenesisHash h f).
Definition recvHash (callback : onHash) : bytes -> Fetcher -> Fetcher :=
  match callback with BlockHash => recvBlockHash | Genesis => recvGenesisHash end.

(** Those of [fetchConsensusLeaderPeriod] and [fetchBlockTxCountLimit]: a value that
    is not a number throws, which is caught and logged. *)
Definition recvLeaderPeriod (v : bytes) (f : Fetcher) : Fetcher :=
  match lexicalCast v with
  | None => f
  | Some n => setFinished ConsensusLeaderPeriod true (updateConfig (setLeaderSwitchPeriod n) f)
  end.
Definition recvTxCountLimit (v : bytes) (f : Fetcher) : Fetcher :=
  match lexicalCast v with
  | None => f
  | Some n => setFinished BlockTxCountLimit true (updateConfig (setBlockTxCountLimit n) f)
  end.
Definition recvValue (callback : onValue) : bytes -> Fetcher -> Fetcher :=
  match callback with LeaderPeriod => recvLeaderPeriod | TxCountLimit => recvTxCountLimit end.

(** [*_nodeList = *_nodes] and the callbacks of [fetchConsensusNodeList] and
    [fetchObserverNodeList]. *)
Definition recvConsensusNodes (nodes : list ConsensusNode) (f : Fetcher) : Fetcher :=
  setFinished ConsensusInfo true (updateConfig (setConsensusNodeList nodes) f).
Definition recvObserverNodes (nodes : list ConsensusNode) (f : Fetcher) : Fetcher :=
  setFinished ObserverInfo true (updateConfig (setObserverNodeList nodes) f).
Definition recvNodes (callback : onNodes) : list ConsensusNode -> Fetcher -> Fetcher :=
  match callback with Consensus => recvConsensusNodes | Observer => recvObserverNodes end.

(** The ledger's answers, [None] for an error.  [lock] tells whether the fetcher
    still exists. *)
Definition onGetBlockNumber (lock : bool) (t : nat) (a : option Z) (f : Fetcher) :
    outcome Empty_set Fetcher :=
  if lock then
    match a with
    | Some n => Ok (fetchBlockHash n BlockHash 0 (updateConfig (setBlockNumber n) f))
    | None => Ok (retry t fetchBlockNumberAndHash f)
    end
  else Ok f.

Definition onGetBlockHash (lock : bool) (n : Z) (callback : onHash) (t : nat) (a : option bytes)
    (f : Fetcher) : outcome Empty_set Fetcher :=
  if lock then
    match a with
    | Some h => Ok (recvHash callback h f)
    | None => Ok (retry t (fetchBlockHash n callback) f)
    end
  else Ok f.

Definition onGetSystemConfig (lock : bool) (key : bytes) (callback : onValue) (t : nat)
    (a : option bytes) (f : Fetcher) : outcome Empty_set Fetcher :=
  if lock then
    match a with
    | Some v => Ok (recvValue callback v f)
    | None => Ok (retry t (fetchSystemConfig key callback) f)
    end
  else Ok f.

Definition onGetNodeList (lock : bool) (type : bytes) (callback : onNodes) (t : nat)
    (a : option (option (list ConsensusNode))) (f : Fetcher) : outcome Empty_set Fetcher :=
  if lock then
    match a with
    | Some (Some nodes) => Ok (recvNodes callback nodes f)
    | Some None => Undefined NullDeref
    | None => Ok (retry t (fetchNodeListByNodeType type callback) f)
    end
  else Ok f.

Definition onGetNonceList (lock : bool) (start offset : Z) (t : nat)
    (a : option (option (list (Z * list Z)))) (f : Fetcher) : outcome Empty_set Fetcher :=
  if lock then
    match a with
    | Some m => Ok (setFinished NonceList true (setNonceList m f))
    | None => Ok (retry t (fetchNonceList start offset) f)
    end
  else Ok f.

Definition answer (lock : bool) (r : request) :
    option (result r) -> Fetcher -> outcome Empty_set Fetcher :=
  match r return option (result r) -> Fetcher -> outcome Empty_set Fetcher with
  | GetBlockNumber t => onGetBlockNumber lock t
  | GetBlockHashByNumber n callback t => onGetBlockHash lock n callback t
  | GetSystemConfigByKey key callback t => onGetSystemConfig lock key callback t
  | GetNodeListByType type callback t => onGetNodeList lock type callback t
  | GetNonceList start offset t => onGetNonceList lock start offset t
  end.

(** *** Events *)

Inductive operation : Type :=
| FetchBlockNumberAndHash (fetchedTime : nat)
| FetchConsensusNodeList
| FetchObserverNodeList
| FetchBlockTxCountLimit
| FetchGenesisHash
| FetchNonceList (startNumber offset : Z) (fetchedTime : nat)
| FetchConsensusLeaderPeriod.

Definition perform (o : operation) : Fetcher -> Fetcher :=
  match o with
  | FetchBlockNumberAndHash t => fetchBlockNumberAndHash t
  | FetchConsensusNodeList => fetchConsensusNodeList
  | FetchObserverNodeList => fetchObserverNodeList
  | FetchBlockTxCountLimit => fetchBlockTxCountLimit
  | FetchGenesisHash => fetchGenesisHash
  | FetchNonceList s d t => fetchNonceList s d t
  | FetchConsensusLeaderPeriod => fetchConsensusLeaderPeriod
  end.

(** The ledger answers one of the requests in flight, as [ledger] allows. *)
Inductive answered (ledger : forall r, option (result r) -> Prop) : Fetcher -> Fetcher -> Prop :=
| Answered i r a f f' :
    pending f !! i = Some r -> ledger r a -> answer true r a (withdraw i f) = Ok f' ->
    answered ledger f f'.

(** Or a user asks for more, where [may] allows it. *)
Inductive step (ledger : forall r, option (result r) -> Prop) (may : operation -> Fetcher -> Prop) :
  Fetcher -> Fetcher -> Prop :=
| Answers f f' : answered ledger f f' -> step ledger may f f'
| Asks o f : may o f -> step ledger may f (perform o f).
End Callbacks.

Inductive fetcher_exn : Type := LedgerConfigFetcherException.

(** [waitFetchFinished]: the readings of the clock and of the fetcher at the top of
    the loop; [None] while it still waits. *)
Fixpoint waitFetchFinished (startT : Z) (polls : list (Z * Fetcher)) : option (outcome fetcher_exn unit) :=
  match polls with
  | [] => None
  | (now, f) :: polls =>
      if u64 (now - startT) <? m_timeout then
        if fetchFinished f then Some (Ok tt) else waitFetchFinished startT polls
      else Some (Throw LedgerConfigFetcherException)
  end.
End LedgerConfigFetcher.

(* ------------------------------------------------------------------ *)
(** ** Properties *)

Module LedgerFacts.
Import LedgerConfig LedgerConfigFetcher.

Definition infoOf (r : request) : info :=
  match r with
  | GetBlockNumber _ | GetBlockHashByNumber _ BlockHash _ => BlockInfo
  | GetBlockHashByNumber _ Genesis _ => GenesisHash
  | GetSystemConfigByKey _ LeaderPeriod _ => ConsensusLeaderPeriod
  | GetSystemConfigByKey _ TxCountLimit _ => BlockTxCountLimit
  | GetNodeListByType _ Consensus _ => ConsensusInfo
  | GetNodeListByType _ Observer _ => ObserverInfo
  | GetNonceList _ _ _ => NonceList
  end.

Definition fetchedTimeOf (r : request) : nat :=
  match r with
  | GetBlockNumber t | GetBlockHashByNumber _ _ t | GetSystemConfigByKey _ _ t
  | GetNodeListByType _ _ t | GetNonceList _ _ t => t
  end.

(** The answers a request can still take, its retries included: a block number is
    followed by a block hash. *)
Definition tries (t : nat) : nat := Nat.max 1 (1 + c_maxRetryTime - t).
Definition answersLeft (r : request) : nat :=
  match r with
  | GetBlockNumber t => tries t + tries 0
  | _ => tries (fetchedTimeOf r)
  end.
Definition load (f : Fetcher) : nat := sum_list_with answersLeft (pending f).

Definition infoOfOperation (o : operation) : info :=
  match o with
  | FetchBlockNumberAndHash _ => BlockInfo
  | FetchConsensusNodeList => ConsensusInfo
  | FetchObserverNodeList => ObserverInfo
  | FetchBlockTxCountLimit => BlockTxCountLimit
  | FetchGenesisHash => GenesisHash
  | FetchNonceList _ _ _ => NonceList
  | FetchConsensusLeaderPeriod => ConsensusLeaderPeriod
  end.

Lemma infos_complete (i : info) : i ∈ infos.
Proof. apply list_elem_of_In. destruct i; simpl; tauto. Qed.

Lemma fetchFinished_all (f : Fetcher) : fetchFinished f = true <-> forall i, finished f i = true.
Proof.
  unfold fetchFinished. rewrite forallb_forall. split; intros H i; [|auto].
  apply H, list_elem_of_In, infos_complete.
Qed.

Lemma finished_setFinished (i j : info) (b : bool) (f : Fetcher) :
  finished (setFinished i b f) j = if bool_decide (i = j) then b else finished f j.
Proof. reflexivity. Qed.

Lemma pending_delete (f : Fetcher) i r :
  pending f !! i = Some r -> pending f ≡ₚ r :: pending (withdraw i f).
Proof. apply delete_Permutation. Qed.

Section Facts.
Context (lexicalCast : bytes -> option Z).
Local Abbreviation answer := (answer lexicalCast).
Local Abbreviation answered := (answered lexicalCast).
Local Abbreviation step := (step lexicalCast).

(** A request that is answered leaves nothing, or one request with fewer answers
    left and the same purpose. *)
Lemma answer_pending r a f f' :
  answer true r a f = Ok f' ->
  pending f' = pending f \/
  exists r', pending f' = pending f ++ [r'] /\ infoOf r' = infoOf r /\
             (answersLeft r' < answersLeft r)%nat.
Proof.
  assert (forall t again, (t < c_maxRetryTime)%nat -> tries (t + 1) + again < tries t + again)%nat as Ht.
  { unfold tries, c_maxRetryTime. lia. }
  assert (forall t, tries 0 < tries t + tries 0)%nat as H0 by (unfold tries; lia).
  destruct r as [t | n [] t | k [] t | ty [] t | s d t], a as [a |]; cbn -[tries]; try destruct a;
    intros [= <-]; unfold retry, recvLeaderPeriod, recvTxCountLimit;
    repeat case_match; cbn -[tries]; try (by left); right; eexists; split_and!; try done;
    cbn -[tries]; rewrite ?Nat.leb_gt in *; try (by apply H0);
    try (specialize (Ht t (tries 0)); lia); specialize (Ht t 0%nat); lia.
Qed.

Lemma answered_load ledger f f' : answered ledger f f' -> (load f' < load f)%nat.
Proof.
  intros [i r a g g' Hi Hr Ha]. unfold load.
  rewrite (pending_delete g i r Hi). cbn [sum_list_with].
  assert (answersLeft r <> 0)%nat by (destruct r; unfold answersLeft, tries; simpl; lia).
  apply answer_pending in Ha as [-> | (r' & -> & _ & Hlt)];
    rewrite ?sum_list_with_app; cbn [sum_list_with]; lia.
Qed.

Lemma nsteps_load ledger n f f' : nsteps (answered ledger) n f f' -> (n + load f' <= load f)%nat.
Proof. induction 1 as [| n x y z Hxy _ IH]; [lia |]. apply answered_load in Hxy. lia. Qed.

(** C18. A fetch ends: whatever the ledger answers, it is asked at most six times, and
    for the block number and its hash at most twelve. *)
Theorem fetch_terminates ledger (o : operation) (f f' : Fetcher) (n : nat)
    (Hidle : pending f = []) (Hrun : nsteps (answered ledger) n (perform o f) f') :
  (n <= match o with FetchBlockNumberAndHash _ => 12 | _ => 6 end)%nat.
Proof.
  apply nsteps_load in Hrun.
  enough (load (perform o f) <= match o with FetchBlockNumberAndHash _ => 12 | _ => 6 end)%nat by lia.
  unfold load. destruct o; cbn -[tries]; rewrite Hidle; cbn -[tries];
    unfold tries, c_maxRetryTime; lia.
Qed.

(** *** Completion *)

(** An answer that does not end its request in vain: an error only while a retry
    is left, a number that can be read, a list that is there. *)
Definition useful (r : request) : option (result r) -> Prop :=
  match r return option (result r) -> Prop with
  | GetBlockNumber t => fun a => a = None -> (t < c_maxRetryTime)%nat
  | GetBlockHashByNumber _ _ t => fun a => a = None -> (t < c_maxRetryTime)%nat
  | GetSystemConfigByKey _ _ t => fun a =>
      match a with Some v => is_Some (lexicalCast v) | None => (t < c_maxRetryTime)%nat end
  | GetNodeListByType _ _ t => fun a =>
      match a with Some nodes => is_Some nodes | None => (t < c_maxRetryTime)%nat end
  | GetNonceList _ _ t => fun a => a = None -> (t < c_maxRetryTime)%nat
  end.

Lemma retry_more t again f : (t < c_maxRetryTime)%nat -> retry t again f = again (t + 1)%nat f.
Proof. intros Ht. unfold retry. by rewrite (proj2 (Nat.leb_gt _ _) Ht). Qed.

(** Flags of other requests stay, and the answered request has its flag set or goes on. *)
Lemma useful_answer r a f f' :
  useful r a -> answer true r a f = Ok f' ->
  (forall i, i <> infoOf r -> finished f' i = finished f i) /\
  (finished f' (infoOf r) = true /\ pending f' = pending f \/
   exists r', pending f' = pending f ++ [r'] /\ infoOf r' = infoOf r).
Proof.
  destruct r as [t | n [] t | k [] t | ty [] t | s d t], a as [a |]; cbn; intros Hu Ha;
    rewrite ?retry_more in Ha by auto; unfold recvValue, recvLeaderPeriod, recvTxCountLimit in Ha;
    repeat case_match; simplify_eq; try (by destruct Hu);
    (split; [intros j Hj; cbn; try case_bool_decide; congruence | cbn; eauto]).
Qed.

(** What is not finished is being asked. *)
Definition busyInv (f : Fetcher) : Prop :=
  forall i, finished f i = false -> exists r, r ∈ pending f /\ infoOf r = i.

Lemma busyInv_answered f f' : busyInv f -> answered useful f f' -> busyInv f'.
Proof.
  intros Hf Hs. revert Hf. destruct Hs as [k r a g g' Hk Hr Ha]. intros Hf i Hi.
  destruct (useful_answer _ _ _ _ Hr Ha) as [Hother Hown].
  destruct (decide (i = infoOf r)) as [-> | Hne].
  - destruct Hown as [[Hown _] | (r' & -> & Hr')]; [congruence |]. set_solver.
  - rewrite (Hother i Hne) in Hi. destruct (Hf i Hi) as (r0 & Hr0 & Hi0). exists r0. split; [| done].
    assert (r0 ∈ pending (withdraw k g)) as Hin.
    { rewrite (pending_delete g k r Hk) in Hr0. apply elem_of_cons in Hr0 as [-> |]; [congruence | done]. }
    destruct Hown as [[_ ->] | (r' & -> & _)]; set_solver.
Qed.

Lemma perform_pending o f : exists r, pending (perform o f) = pending f ++ [r] /\ infoOf r = infoOfOperation o.
Proof. destruct o; simpl; eauto. Qed.

Lemma perform_finished o f i :
  finished (perform o f) i = if bool_decide (infoOfOperation o = i) then false else finished f i.
Proof. by destruct o. Qed.

Lemma busyInv_perform o f : busyInv f -> busyInv (perform o f).
Proof.
  intros Hf i. rewrite perform_finished. destruct (perform_pending o f) as (r & -> & Hr).
  case_bool_decide as Hi; intros Hfin.
  - exists r. split; [set_solver | congruence].
  - destruct (Hf i Hfin) as (r0 & Hr0 & Hi0). exists r0. split; [set_solver | done].
Qed.

Lemma busyInv_reachable may number limit f :
  rtc (step useful may) (newFetcher number limit) f -> busyInv f.
Proof.
  apply rtc_invariant; [| done]. intros x y Hx Hs. revert Hx.
  destruct Hs as [g g' Ha | o g _]; intros Hx; [by eapply busyInv_answered | by apply busyInv_perform].
Qed.

(** C17. Whatever is fetched and however the requests overlap, when no request has run
    out of its retries or brought a useless value, and none is in flight, the
    fetcher reports that it has finished. *)
Theorem useful_answers_finish may (number limit : Z) (f : Fetcher)
    (Hrun : rtc (step useful may) (newFetcher number limit) f) (Hquiet : pending f = []) :
  fetchFinished f = true.
Proof.
  apply fetchFinished_all. intros i. destruct (finished f i) eqn:Hi; [done |].
  destruct (busyInv_reachable may number limit f Hrun i Hi) as (r & Hr & _).
  rewrite Hquiet in Hr. by apply elem_of_nil in Hr.
Qed.

(** *** The block number and its hash *)

(** The ledger gives the hashes of one chain, whose height may change. *)
Definition truthful (chain : Z -> bytes) (r : request) : option (result r) -> Prop :=
  match r return option (result r) -> Prop with
  | GetBlockHashByNumber n _ _ => fun a => forall h, a = Some h -> h = chain n
  | _ => fun _ => True
  end.

Definition blockPending (f : Fetcher) : list request :=
  filter (fun r => infoOf r = BlockInfo) (pending f).

(** The block number and hash are asked for only when no request for them is in
    flight. *)
Definition serial (o : operation) (f : Fetcher) : Prop :=
  infoOfOperation o = BlockInfo -> blockPending f = [].

Definition consistent (chain : Z -> bytes) (f : Fetcher) : Prop :=
  match blockPending f with
  | [] => finished f BlockInfo = true ->
          m_hash (m_ledgerConfig f) = chain (m_blockNumber (m_ledgerConfig f))
  | [GetBlockNumber _] => finished f BlockInfo = false
  | [GetBlockHashByNumber n _ _] =>
      finished f BlockInfo = false /\ m_blockNumber (m_ledgerConfig f) = n
  | _ => False
  end.

Lemma blockPending_other f i r :
  pending f !! i = Some r -> infoOf r <> BlockInfo -> blockPending (withdraw i f) = blockPending f.
Proof.
  intros Hi Hr. unfold blockPending, withdraw. cbn [pending].
  rewrite <- (take_drop_middle _ _ _ Hi) at 2. rewrite delete_take_drop, !filter_app.
  by rewrite filter_cons_False.
Qed.

Lemma blockPending_own f i r :
  pending f !! i = Some r -> infoOf r = BlockInfo ->
  blockPending f ≡ₚ r :: blockPending (withdraw i f).
Proof.
  intros Hi Hr. unfold blockPending at 1. rewrite (pending_delete _ _ _ Hi).
  by rewrite filter_cons_True.
Qed.

(** Answers to the other requests touch nothing of the block's. *)
Lemma answer_other r a f f' :
  infoOf r <> BlockInfo -> answer true r a f = Ok f' ->
  blockPending f' = blockPending f /\ finished f' BlockInfo = finished f BlockInfo /\
  m_hash (m_ledgerConfig f') = m_hash (m_ledgerConfig f) /\
  m_blockNumber (m_ledgerConfig f') = m_blockNumber (m_ledgerConfig f).
Proof.
  unfold blockPending.
  destruct r as [t | n [] t | k [] t | ty [] t | s d t], a as [a |]; cbn; intros Hr Ha; try done;
    unfold recvValue, recvLeaderPeriod, recvTxCountLimit, retry in Ha; repeat case_match; simplify_eq; cbn; rewrite ?filter_app;
    cbn; rewrite ?app_nil_r; done.
Qed.

Lemma consistent_answered chain f f' :
  consistent chain f -> answered (truthful chain) f f' -> consistent chain f'.
Proof.
  intros Hf Hs. revert Hf. destruct Hs as [i r a g g' Hi Hr Ha]. intros Hg.
  destruct (decide (infoOf r = BlockInfo)) as [Hb | Hb].
  - pose proof (blockPending_own g i r Hi Hb) as Hown. unfold consistent in Hg.
    destruct (blockPending g) as [| r0 [| r1 l]] eqn:Hbp.
    + by apply Permutation_nil_cons in Hown.
    + symmetry in Hown. apply Permutation_singleton_r in Hown as [= -> Hw].
      unfold consistent, blockPending in *. destruct r0 as [t | n [] t | | |]; try done;
        destruct a as [h |]; cbn in Ha; unfold retry in Ha; try destruct (_ <=? _)%nat;
        injection Ha as <-; cbn in *; rewrite ?filter_app, Hw; cbn;
        rewrite ?decide_True, ?bool_decide_true by done; cbn;
        try (intros; exfalso; intuition congruence); intuition (subst; eauto).
    + by destruct r0.
  - unfold consistent in *. rewrite <- (blockPending_other g i r Hi Hb) in Hg.
    apply answer_other in Ha as (-> & -> & -> & ->); done.
Qed.

Lemma consistent_perform chain o f : serial o f -> consistent chain f -> consistent chain (perform o f).
Proof.
  unfold serial, consistent, blockPending. intros Hs Hf.
  destruct o; cbn; rewrite filter_app; cbn; rewrite ?app_nil_r; try done.
  by rewrite Hs.
Qed.

(** C14. When fetches of the block number and hash do not overlap, a finished fetcher
    has the hash of the block whose number it has, however the ledger grows in the
    meantime and whatever fails. *)
Theorem serial_block_info_consistent (chain : Z -> bytes) (number limit : Z) (f : Fetcher)
    (Hrun : rtc (step (truthful chain) serial)
              (fetchBlockNumberAndHash 0 (newFetcher number limit)) f)
    (Hfinished : fetchFinished f = true) (Hquiet : pending f = []) :
  m_hash (m_ledgerConfig f) = chain (m_blockNumber (m_ledgerConfig f)).
Proof.
  assert (consistent chain f) as Hf.
  { revert Hrun. apply rtc_invariant; [| done]. intros x y Hx Hs. revert Hx.
    destruct Hs as [g g' Ha | o g Ho]; intros Hx;
      [by eapply consistent_answered | by apply consistent_perform]. }
  unfold consistent, blockPending in Hf. rewrite Hquiet in Hf. apply Hf.
  by apply fetchFinished_all.
Qed.

(** *** A ledger that does not change *)

Record ledgerData : Type := mkLedgerData
  { number : Z; chain : Z -> bytes; nodes : bytes -> list ConsensusNode;
    config : bytes -> bytes; nonces : Z -> Z -> list (Z * list Z) }.

(** Its answers, when they are not errors. *)
Definition quiet (L : ledgerData) (r : request) : option (result r) -> Prop :=
  match r return option (result r) -> Prop with
  | GetBlockNumber _ => fun a => forall v, a = Some v -> v = number L
  | GetBlockHashByNumber n _ _ => fun a => forall v, a = Some v -> v = chain L n
  | GetSystemConfigByKey k _ _ => fun a => forall v, a = Some v -> v = config L k
  | GetNodeListByType t _ _ => fun a => forall v, a = Some v -> v = Some (nodes L t)
  | GetNonceList s d _ => fun a => forall v, a = Some v -> v = Some (nonces L s d)
  end.

(** The fetcher's data on [i] are the ledger's. *)
Definition holds (L : ledgerData) (i : info) (f : Fetcher) : Prop :=
  let c := m_ledgerConfig f in
  match i with
  | BlockInfo => m_blockNumber c = number L /\ m_hash c = chain L (number L)
  | ConsensusInfo => m_consensusNodeList c = nodes L CONSENSUS_SEALER
  | ObserverInfo => m_observerNodeList c = nodes L CONSENSUS_OBSERVER
  | BlockTxCountLimit =>
      lexicalCast (config L SYSTEM_KEY_TX_COUNT_LIMIT) = Some (m_blockTxCountLimit c)
  | NonceList => exists s d, m_nonceList f = Some (nonces L s d)
  | GenesisHash => m_genesisHash f = chain L 0
  | ConsensusLeaderPeriod =>
      lexicalCast (config L SYSTEM_KEY_CONSENSUS_LEADER_PERIOD) = Some (m_leaderSwitchPeriod c)
  end.

(** The requests in flight ask for what their callbacks take. *)
Definition apt (L : ledgerData) (f : Fetcher) (r : request) : Prop :=
  match r with
  | GetBlockNumber _ | GetNonceList _ _ _ => True
  | GetBlockHashByNumber n BlockHash _ =>
      n = number L /\ m_blockNumber (m_ledgerConfig f) = number L
  | GetBlockHashByNumber n Genesis _ => n = 0
  | GetSystemConfigByKey k LeaderPeriod _ => k = SYSTEM_KEY_CONSENSUS_LEADER_PERIOD
  | GetSystemConfigByKey k TxCountLimit _ => k = SYSTEM_KEY_TX_COUNT_LIMIT
  | GetNodeListByType t Consensus _ => t = CONSENSUS_SEALER
  | GetNodeListByType t Observer _ => t = CONSENSUS_OBSERVER
  end.

(** [fetched] are the data a user has asked for. *)
Definition quietInv (L : ledgerData) (fetched : info -> Prop) (f : Fetcher) : Prop :=
  Forall (apt L f) (pending f) /\ forall i, fetched i -> finished f i = true -> holds L i f.

Lemma apt_mono L f g r :
  (m_blockNumber (m_ledgerConfig f) = number L -> m_blockNumber (m_ledgerConfig g) = number L) ->
  apt L f r -> apt L g r.
Proof. intros H. destruct r as [| n [] | | |]; simpl; intuition. Qed.

(** An answer keeps the data true, and leaves an apt request if any. *)
Lemma quiet_answer L i r a f f' :
  quiet L r a -> apt L f r -> answer true r a f = Ok f' ->
  (m_blockNumber (m_ledgerConfig f) = number L -> m_blockNumber (m_ledgerConfig f') = number L) /\
  ((finished f i = true -> holds L i f) -> finished f' i = true -> holds L i f') /\
  (pending f' = pending f \/ exists r', pending f' = pending f ++ [r'] /\ apt L f' r').
Proof.
  destruct r as [t | n [] t | k [] t | ty [] t | s d t], a as [a |]; cbn; intros Hq Hr Ha;
    unfold recvValue, recvLeaderPeriod, recvTxCountLimit, retry in Ha; try destruct (_ <=? _)%nat; try destruct (lexicalCast a) eqn:Hc;
    try (destruct a as [a |]; [| discriminate Ha]); injection Ha as <-;
    try specialize (Hq _ eq_refl); subst; cbn; destruct i; cbn in *; naive_solver.
Qed.

Lemma quietInv_perform L fetched o f :
  quietInv L fetched f -> quietInv L (fun i => fetched i \/ i = infoOfOperation o) (perform o f).
Proof.
  intros [Hp Hi]. split.
  - destruct o; cbn; apply Forall_app; (split; [| by apply Forall_singleton]);
      (eapply List.Forall_impl; [| exact Hp]; intros r0; by apply apt_mono).
  - intros i. rewrite perform_finished. case_bool_decide as Hio; [done |].
    intros [Hfi | ->]; [| done]. specialize (Hi i Hfi). destruct o, i; cbn in *; auto.
Qed.

Lemma quietInv_step L may fetched f f' :
  quietInv L fetched f -> step (quiet L) may f f' -> quietInv L fetched f'.
Proof.
  intros Hf Hs. revert Hf. destruct Hs as [g g' Hs | o g _]; intros Hf.
  - revert Hf. destruct Hs as [k r a g g' Hk Hr Ha]. intros [Hp Hi].
    rewrite (pending_delete _ _ _ Hk) in Hp. apply Forall_cons in Hp as [Hr' Hp].
    apply (apt_mono L g (withdraw k g)) in Hr'; [| done].
    destruct (quiet_answer L BlockInfo _ _ _ _ Hr Hr' Ha) as (Hn & _ & Hp').
    split.
    + assert (Forall (apt L g') (pending (withdraw k g))) as Hold.
      { eapply List.Forall_impl; [| exact Hp]. intros r0. by apply apt_mono. }
      destruct Hp' as [-> | (r' & -> & Hr'')]; [done |].
      apply Forall_app. by split; [| apply Forall_singleton].
    + intros i Hfi. by apply (quiet_answer L i _ _ _ _ Hr Hr' Ha), Hi.
  - destruct (quietInv_perform L fetched o g Hf) as [Hp Hi]. split; [done | auto].
Qed.

(** While the ledger does not change, what the fetcher reports as finished is what
    the ledger holds, however the fetches overlap and whatever fails. *)
Theorem quiet_ledger_fetched (L : ledgerData) may (o : operation) (n limit : Z) (f0 f : Fetcher)
    (Hbefore : rtc (step (quiet L) may) (newFetcher n limit) f0)
    (Hrun : rtc (step (quiet L) may) (perform o f0) f)
    (Hfinished : finished f (infoOfOperation o) = true) :
  holds L (infoOfOperation o) f.
Proof.
  assert (quietInv L (fun _ => False) f0) as H0.
  { revert Hbefore. apply rtc_invariant; [intros x y; apply quietInv_step | by split]. }
  apply (quietInv_perform _ _ o) in H0.
  apply (rtc_invariant _ _ _ _ (quietInv_step L may _) H0) in Hrun as [_ Hi]. auto.
Qed.

(** *** Waiting *)

Definition late (startT : Z) (poll : Z * Fetcher) : Prop := m_timeout <= u64 (poll.1 - startT).

(** [waitFetchFinished] returns once the clock has passed its time-out, and its
    result tells whether the fetcher was seen finished before. *)
Lemma wait_outcome startT (polls rest : list (Z * Fetcher)) (last : Z * Fetcher) :
  Forall (fun p => ~ late startT p) polls -> late startT last ->
  waitFetchFinished startT (polls ++ last :: rest) =
  Some (if existsb (fun p => fetchFinished p.2) polls then Ok tt
        else Throw LedgerConfigFetcherException).
Proof.
  unfold late. intros Hin Hlast. induction Hin as [| [now f] polls Hp _ IH].
  - destruct last as [now f]. cbn [fst] in Hlast. cbn -[uwrap m_timeout fetchFinished].
    by rewrite (proj2 (Z.ltb_ge _ _)).
  - cbn [fst] in Hp. cbn -[uwrap m_timeout fetchFinished]. rewrite (proj2 (Z.ltb_lt _ _)) by lia. by destruct (fetchFinished f).
Qed.

(** A flag that no request in flight will set. *)
Definition lost (i : info) (f : Fetcher) : Prop :=
  finished f i = false /\ Forall (fun r => infoOf r <> i) (pending f).

Lemma answer_flag r a i f f' :
  infoOf r <> i -> answer true r a f = Ok f' -> finished f' i = finished f i.
Proof.
  destruct r as [t | n [] t | k [] t | ty [] t | s d t], a as [a |]; cbn; intros Hi Ha;
    unfold recvValue, recvLeaderPeriod, recvTxCountLimit, retry in Ha; repeat case_match; simplify_eq; cbn; try done;
    by rewrite bool_decide_false.
Qed.

Lemma lost_answered ledger i f f' : lost i f -> answered ledger f f' -> lost i f'.
Proof.
  intros Hf Hs. revert Hf. destruct Hs as [k r a g g' Hk Hr Ha]. intros [Hi Hp].
  rewrite (pending_delete _ _ _ Hk) in Hp. apply Forall_cons in Hp as [Hr' Hp].
  split; [by rewrite (answer_flag _ _ _ _ _ Hr' Ha) |].
  apply answer_pending in Ha as [-> | (r' & -> & Hr'' & _)]; [done |].
  apply Forall_app. split; [done |]. apply Forall_singleton. congruence.
Qed.

(** When a fetch has used up its retries, or its value could not be read, waiting
    throws once the ten seconds are over, whatever else the ledger answers. *)
Theorem lost_fetch_times_out ledger (i : info) (startT : Z) (f : Fetcher)
    (polls rest : list (Z * Fetcher)) (last : Z * Fetcher)
    (Hlost : lost i f)
    (Hpolls : Forall (fun p => rtc (answered ledger) f p.2 /\ ~ late startT p) polls)
    (Hlast : late startT last) :
  waitFetchFinished startT (polls ++ last :: rest) = Some (Throw LedgerConfigFetcherException).
Proof.
  rewrite wait_outcome; [| by eapply List.Forall_impl; [| exact Hpolls]; intros p [_ Hp] | done].
  replace (existsb _ polls) with false; [done |]. symmetry.
  apply not_true_iff_false. rewrite existsb_exists. intros (p & Hp & Hfin).
  rewrite List.Forall_forall in Hpolls. destruct (Hpolls p Hp) as [Hrun _].
  apply (rtc_invariant _ _ _ _ (lost_answered ledger i) Hlost) in Hrun as [Hi _].
  rewrite fetchFinished_all in Hfin. congruence.
Qed.

(** *** Overlapping fetches *)

Definition respond (i : nat) (r : request) (a : option (result r)) (f : Fetcher) : Fetcher :=
  match answer true r a (withdraw i f) with Ok f' => f' | _ => f end.

Lemma respond_step (ledger : forall r, option (result r) -> Prop) may i r a f :
  pending f !! i = Some r -> ledger r a -> is_ok (answer true r a (withdraw i f)) = true ->
  step ledger may f (respond i r a f).
Proof.
  intros Hi Hr Hok. apply Answers. unfold respond.
  destruct (answer true r a (withdraw i f)) as [f' | |] eqn:Ha; [| done..]. by econstructor.
Qed.

(** Two fetches overlap, and a block is added between them: the answer to the first
    request for a hash comes last. *)
Definition twoFetches : Fetcher :=
  fetchBlockNumberAndHash 0 (fetchBlockNumberAndHash 0 (newFetcher 0 0)).
Definition sampleChain (n : Z) : bytes := be_bytes 32 n.
Definition numbered : Fetcher :=
  respond 0 (GetBlockNumber 0) (Some 2) (respond 0 (GetBlockNumber 0) (Some 1) twoFetches).
Definition torn : Fetcher :=
  respond 0 (GetBlockHashByNumber 1 BlockHash 0) (Some (sampleChain 1))
    (respond 1 (GetBlockHashByNumber 2 BlockHash 0) (Some (sampleChain 2)) numbered).

Lemma torn_run : rtc (step (truthful sampleChain) (fun _ _ => True)) (newFetcher 0 0) torn.
Proof.
  eapply rtc_l; [by apply (Asks _ _ _ (FetchBlockNumberAndHash 0)) |].
  eapply rtc_l; [by apply (Asks _ _ _ (FetchBlockNumberAndHash 0)) |].
  eapply rtc_l; [by apply (respond_step _ _ 0 (GetBlockNumber 0) (Some 1)) |].
  eapply rtc_l; [by apply (respond_step _ _ 0 (GetBlockNumber 0) (Some 2)) |].
  eapply rtc_l;
    [apply (respond_step _ _ 1 (GetBlockHashByNumber 2 BlockHash 0) (Some (sampleChain 2)));
     [done | by intros h [= <-] | done] |].
  apply rtc_once, (respond_step _ _ 0 (GetBlockHashByNumber 1 BlockHash 0) (Some (sampleChain 1)));
    [done | by intros h [= <-] | done].
Qed.

(** When fetches of the block number and hash overlap, the fetcher can report that
    it has finished with the number of one block and the hash of another. *)
Theorem overlapping_fetches_torn :
  exists f, rtc (step (truthful sampleChain) (fun _ _ => True)) (newFetcher 0 0) f /\
    pending f = [] /\ fetchFinished f = true /\
    m_hash (m_ledgerConfig f) <> sampleChain (m_blockNumber (m_ledgerConfig f)).
Proof.
  exists torn. split; [exact torn_run |]. split; [done |]. split; [done |].
  vm_compute. discriminate.
Qed.
End Facts.
End LedgerFacts.

(* ------------------------------------------------------------------ *)
(** ** The hypotheses can be met *)

Module LedgerWitnesses.
Import LedgerConfig LedgerConfigFetcher LedgerFacts.

(** A cast that reads one decimal digit. *)
Definition castDigit (s : bytes) : option Z :=
  match s with
  | [b] => if (48 <=? b2z b) && (b2z b <=? 57) then Some (b2z b - 48) else None
  | _ => None
  end.

Definition sampleLedger : ledgerData :=
  mkLedgerData 7 sampleChain (fun _ => [newConsensusNode [Byte.x01]]) (fun _ => [Byte.x33])
    (fun _ _ => []).

Abbreviation respond := (respond castDigit).
Abbreviation step := (step castDigit).

(** The ledger fails once, then gives the block number and hash. *)
Definition asked : Fetcher := fetchBlockNumberAndHash 0 (newFetcher 0 0).
Definition refused : Fetcher := respond 0 (GetBlockNumber 0) None asked.
Definition fetchedNumber : Fetcher := respond 0 (GetBlockNumber 1) (Some 7) refused.
Definition fetchedBlock : Fetcher :=
  respond 0 (GetBlockHashByNumber 7 BlockHash 0) (Some (sampleChain 7)) fetchedNumber.

Lemma fetchedBlock_run (ledger : forall r, option (result r) -> Prop) may :
  ledger (GetBlockNumber 0) None -> ledger (GetBlockNumber 1) (Some 7) ->
  ledger (GetBlockHashByNumber 7 BlockHash 0) (Some (sampleChain 7)) ->
  rtc (step ledger may) asked fetchedBlock.
Proof.
  intros H1 H2 H3. eapply rtc_l; [by apply (respond_step _ _ _ 0 (GetBlockNumber 0) None) |].
  eapply rtc_l; [by apply (respond_step _ _ _ 0 (GetBlockNumber 1) (Some 7)) |].
  by apply rtc_once, (respond_step _ _ _ 0 (GetBlockHashByNumber 7 BlockHash 0)
    (Some (sampleChain 7))).
Qed.

Lemma fetch_terminates_witness :
  (1 <= match FetchBlockNumberAndHash 0 with FetchBlockNumberAndHash _ => 12 | _ => 6 end)%nat.
Proof.
  apply (fetch_terminates castDigit (fun _ _ => True) (FetchBlockNumberAndHash 0)
    (newFetcher 0 0) refused 1 eq_refl).
  eapply nsteps_l; [| apply nsteps_O].
  by apply (Answered castDigit (fun _ _ => True) 0 (GetBlockNumber 0) None asked refused).
Defined.

Lemma useful_answers_finish_witness : fetchFinished fetchedBlock = true.
Proof.
  apply (useful_answers_finish castDigit (fun _ _ => True) 0 0 fetchedBlock); [| reflexivity].
  eapply rtc_l; [by apply (Asks _ _ _ (FetchBlockNumberAndHash 0)) |].
  apply fetchedBlock_run; simpl; intros; [unfold c_maxRetryTime; lia | done | done].
Defined.

Lemma serial_block_info_consistent_witness :
  m_hash (m_ledgerConfig fetchedBlock) = sampleChain (m_blockNumber (m_ledgerConfig fetchedBlock)).
Proof.
  apply (serial_block_info_consistent castDigit sampleChain 0 0 fetchedBlock); [| reflexivity..].
  by apply fetchedBlock_run; simpl; intros; simplify_eq.
Defined.

Lemma quiet_ledger_fetched_witness : holds castDigit sampleLedger BlockInfo fetchedBlock.
Proof.
  apply (quiet_ledger_fetched castDigit sampleLedger (fun _ _ => True) (FetchBlockNumberAndHash 0)
    0 0 (newFetcher 0 0) fetchedBlock); [apply rtc_refl | | reflexivity].
  by apply fetchedBlock_run; simpl; intros; simplify_eq.
Defined.

(** A limit that is not a number is never read. *)
Definition unreadable : Fetcher :=
  respond 0 (GetSystemConfigByKey SYSTEM_KEY_TX_COUNT_LIMIT TxCountLimit 0) (Some [])
    (fetchBlockTxCountLimit (newFetcher 0 0)).

Lemma lost_fetch_times_out_witness :
  waitFetchFinished 5 ([(5, unreadable); (9000, unreadable)] ++ (10006, unreadable) :: []) =
  Some (Throw LedgerConfigFetcherException).
Proof.
  apply (lost_fetch_times_out castDigit (fun _ _ => True) BlockTxCountLimit 5 unreadable).
  - split; [reflexivity | by apply Forall_nil].
  - repeat apply Forall_cons_2; [| | apply Forall_nil_2];
      (split; [apply rtc_refl | unfold late; vm_compute; intuition discriminate]).
  - unfold late. vm_compute. discriminate.
Defined.
End LedgerWitnesses.
