(* ===== verification/NodeConfig.v ===== *)
(** * The configuration of a node

    Model of libtool/NodeConfig.{h,cpp} and interfaces/protocol/ServiceDesc.h: the
    sections of the configuration file and of the genesis file, their defaults and
    checks, and the genesis data derived from them.

    Boost's property tree, string algorithms and casts, and the factory of keys,
    are parameters: [PropertyTree] and [BoostText] say which of their functions the
    code calls, [BoostTextLaw] what is documented of them. *)

From Stdlib Require Import ZArith Lia List.
From Stdlib Require Import Strings.String Strings.Byte.
From stdpp Require Import base tactics decidable list option.
From S2P Require Import Prelude DataConvert Numbers Utilities Ledger.

Abbreviation str := list_byte_of_string.

(* ------------------------------------------------------------------ *)
(** ** Descriptions of services *)

Module ServiceDesc.

Definition dot : bytes := str ".".

Definition NATIVE_SERVANT_NAME : bytes := str "NativeNodeObj".
Definition LEDGER_SERVANT_NAME : bytes := str "LedgerServiceObj".
Definition EXECUTOR_SERVANT_NAME : bytes := str "ExecutorServiceObj".
Definition EXECUTOR_SERVICE_NAME : bytes := str "ExecutorService".
Definition SCHEDULER_SERVANT_NAME : bytes := str "SchedulerServiceObj".
Definition SCHEDULER_SERVICE_NAME : bytes := str "SchedulerService".
Definition FRONT_SERVANT_NAME : bytes := str "FrontServiceObj".
Definition FRONT_SERVICE_NAME : bytes := str "FrontService".
Definition GATEWAY_SERVANT_NAME : bytes := str "GatewayServiceObj".
Definition TXPOOL_SERVANT_NAME : bytes := str "TxPoolServiceObj".
Definition TXPOOL_SERVICE_NAME : bytes := str "TxPoolService".
Definition CONSENSUS_SERVANT_NAME : bytes := str "PBFTServiceObj".
Definition CONSENSUS_SERVICE_NAME : bytes := str "PBFTService".
Definition RPC_SERVANT_NAME : bytes := str "RpcServiceObj".
Definition UNKNOWN_SERVANT : bytes := str "Unknown".

Definition getPrxDesc (serviceName objName : bytes) : bytes := serviceName ++ dot ++ objName.

(** The enumeration has [int32_t] values; [NATIVE] is 0 and [TXPOOL] 8. *)
Definition getServiceObjByType (type : Z) : bytes :=
  match type with
  | 0 => NATIVE_SERVANT_NAME
  | 1 => EXECUTOR_SERVANT_NAME
  | 2 => LEDGER_SERVANT_NAME
  | 3 => SCHEDULER_SERVANT_NAME
  | 4 => FRONT_SERVANT_NAME
  | 5 => CONSENSUS_SERVANT_NAME
  | 6 => GATEWAY_SERVANT_NAME
  | 7 => RPC_SERVANT_NAME
  | 8 => TXPOOL_SERVANT_NAME
  | _ => UNKNOWN_SERVANT
  end.
End ServiceDesc.

(* ------------------------------------------------------------------ *)
(** ** Boost *)

Module Boost.

(** [get_optional<std::string>(path)], [get_child_optional(path)] with the keys and
    data of the children in order, and [read_ini], [None] for a parse error. *)
Class PropertyTree (T : Type) : Type :=
  { data : T -> bytes -> option bytes
  ; children : T -> bytes -> option (list (bytes * bytes))
  ; read_ini : bytes -> option T }.

(** [split] at the characters of a class of one, [to_lower], [trim],
    [lexical_cast<int64_t>], and the translators of the tree for [int] and
    [bool]; [None] when a text cannot be read. *)
Class BoostText : Type :=
  { split : byte -> bytes -> list bytes
  ; to_lower : bytes -> bytes
  ; trim : bytes -> bytes
  ; lexical_cast : bytes -> option Z
  ; readInt : bytes -> option Z
  ; readBool : bytes -> option bool }.

Definition join (d : byte) (parts : list bytes) : bytes :=
  match parts with
  | [] => []
  | p :: ps => p ++ flat_map (fun q => d :: q) ps
  end.

(** The parts of a split text are not empty as a list, have no delimiter in them
    and give the text back; lower-case letters and digits are their own lower
    case; texts without blanks are not trimmed; and decimal numbers are read. *)
Class BoostTextLaw (B : BoostText) : Prop :=
  { split_some d s : split d s <> []
  ; split_join d s : join d (split d s) = s
  ; split_free d s p : In p (split d s) -> ~ In d p
  ; to_lower_id s :
      Forall (fun c => Numbers.isDecimal c || ((97 <=? b2z c) && (b2z c <=? 122)) = true) s ->
      to_lower s = s
  ; trim_id s : Forall (fun c => Numbers.isDecimal c = true) s -> trim s = s
  ; lexical_cast_range s n : lexical_cast s = Some n -> - 2 ^ 63 <= n < 2 ^ 63
  ; lexical_cast_decimal n :
      - 2 ^ 63 <= n < 2 ^ 63 -> lexical_cast (Numbers.to_string n) = Some n }.

Section Get.
Context {T : Type} `{PropertyTree T} `{BoostText}.

(** [get<...>(path, default)]: the default also when the text cannot be read. *)
Definition getString (pt : T) (path d : bytes) : bytes := default d (data pt path).
Definition getInt (pt : T) (path : bytes) (d : Z) : Z :=
  match data pt path with Some s => default d (readInt s) | None => d end.
Definition getBool (pt : T) (path : bytes) (d : bool) : bool :=
  match data pt path with Some s => default d (readBool s) | None => d end.
End Get.
End Boost.

(* ------------------------------------------------------------------ *)
(** ** NodeConfig *)

Module NodeConfig.
Import Boost ServiceDesc.

Inductive config_exn : Type :=
| InvalidConfig
| BadLexicalCast
| BadHexCharacter
| IniParserError.

(** The members, by the method that sets them. *)
Record TxPoolConfig : Type := mkTxPool
  { m_txpoolLimit : Z; m_notifyWorkerNum : Z; m_verifierWorkerNum : Z }.
Record ChainConfig : Type := mkChain
  { m_smCryptoType : bool; m_groupId : bytes; m_chainId : bytes; m_blockLimit : Z }.
Record RpcConfig : Type := mkRpc
  { m_rpcListenIP : bytes; m_rpcListenPort : Z; m_rpcThreadPoolSize : Z;
    m_rpcSmSsl : bool; m_rpcDisableSsl : bool }.
Record GatewayConfig : Type := mkGateway
  { m_p2pListenIP : bytes; m_p2pListenPort : Z; m_p2pSmSsl : bool;
    m_p2pNodeDir : bytes; m_p2pNodeFileName : bytes }.
Record CertConfig : Type := mkCert
  { m_certPath : bytes; m_caCert : bytes; m_nodeCert : bytes; m_nodeKey : bytes;
    m_smCaCert : bytes; m_smNodeCert : bytes; m_smNodeKey : bytes;
    m_enSmNodeCert : bytes; m_enSmNodeKey : bytes }.
Record ExecutorConfig : Type := mkExecutor
  { m_isWasm : bool; m_isAuthCheck : bool; m_authAdminAddress : bytes }.
Record NodeServiceConfig : Type := mkNodeService
  { m_nodeName : bytes; m_schedulerServiceName : bytes; m_txpoolServiceName : bytes;
    m_consensusServiceName : bytes; m_frontServiceName : bytes; m_executorServiceName : bytes }.
Record LedgerSection : Type := mkLedgerSection
  { m_consensusType : bytes; m_ledgerConfig : LedgerConfig.LedgerConfig; m_txGasLimit : Z;
    m_genesisData : bytes }.

(** [m_keyFactory] makes the key of some bytes, given here by what its [data()]
    returns; the constructor without arguments leaves it null. *)
Record NodeConfig : Type := mkNodeConfig
  { m_keyFactory : option (bytes -> bytes)
  ; txpool : TxPoolConfig
  ; chain : ChainConfig
  ; rpc : RpcConfig
  ; gateway : GatewayConfig
  ; cert : CertConfig
  ; executor : ExecutorConfig
  ; nodeService : NodeServiceConfig
  ; ledger : LedgerSection
  ; m_minSealTime : Z
  ; m_checkPointTimeoutInterval : Z
  ; m_privateKeyPath : bytes
  ; m_storagePath : bytes
  ; m_rpcServiceName : bytes
  ; m_gatewayServiceName : bytes }.

Definition setTxpool v c := mkNodeConfig (m_keyFactory c) v (chain c) (rpc c) (gateway c) (cert c)
  (executor c) (nodeService c) (ledger c) (m_minSealTime c) (m_checkPointTimeoutInterval c)
  (m_privateKeyPath c) (m_storagePath c) (m_rpcServiceName c) (m_gatewayServiceName c).
Definition setChain v c := mkNodeConfig (m_keyFactory c) (txpool c) v (rpc c) (gateway c) (cert c)
  (executor c) (nodeService c) (ledger c) (m_minSealTime c) (m_checkPointTimeoutInterval c)
  (m_privateKeyPath c) (m_storagePath c) (m_rpcServiceName c) (m_gatewayServiceName c).
Definition setRpc v c := mkNodeConfig (m_keyFactory c) (txpool c) (chain c) v (gateway c) (cert c)
  (executor c) (nodeService c) (ledger c) (m_minSealTime c) (m_checkPointTimeoutInterval c)
  (m_privateKeyPath c) (m_storagePath c) (m_rpcServiceName c) (m_gatewayServiceName c).
Definition setGateway v c := mkNodeConfig (m_keyFactory c) (txpool c) (chain c) (rpc c) v (cert c)
  (executor c) (nodeService c) (ledger c) (m_minSealTime c) (m_checkPointTimeoutInterval c)
  (m_privateKeyPath c) (m_storagePath c) (m_rpcServiceName c) (m_gatewayServiceName c).
Definition setCert v c := mkNodeConfig (m_keyFactory c) (txpool c) (chain c) (rpc c) (gateway c) v
  (executor c) (nodeService c) (ledger c) (m_minSealTime c) (m_checkPointTimeoutInterval c)
  (m_privateKeyPath c) (m_storagePath c) (m_rpcServiceName c) (m_gatewayServiceName c).
Definition setExecutor v c := mkNodeConfig (m_keyFactory c) (txpool c) (chain c) (rpc c) (gateway c)
  (cert c) v (nodeService c) (ledger c) (m_minSealTime c) (m_checkPointTimeoutInterval c)
  (m_privateKeyPath c) (m_storagePath c) (m_rpcServiceName c) (m_gatewayServiceName c).
Definition setNodeService v c := mkNodeConfig (m_keyFactory c) (txpool c) (chain c) (rpc c)
  (gateway c) (cert c) (executor c) v (ledger c) (m_minSealTime c) (m_checkPointTimeoutInterval c)
  (m_privateKeyPath c) (m_storagePath c) (m_rpcServiceName c) (m_gatewayServiceName c).
Definition setLedger v c := mkNodeConfig (m_keyFactory c) (txpool c) (chain c) (rpc c) (gateway c)
  (cert c) (executor c) (nodeService c) v (m_minSealTime c) (m_checkPointTimeoutInterval c)
  (m_privateKeyPath c) (m_storagePath c) (m_rpcServiceName c) (m_gatewayServiceName c).
Definition setMinSealTime v c := mkNodeConfig (m_keyFactory c) (txpool c) (chain c) (rpc c)
  (gateway c) (cert c) (executor c) (nodeService c) (ledger c) v (m_checkPointTimeoutInterval c)
  (m_privateKeyPath c) (m_storagePath c) (m_rpcServiceName c) (m_gatewayServiceName c).
Definition setCheckPointTimeoutInterval v c := mkNodeConfig (m_keyFactory c) (txpool c) (chain c)
  (rpc c) (gateway c) (cert c) (executor c) (nodeService c) (ledger c) (m_minSealTime c) v
  (m_privateKeyPath c) (m_storagePath c) (m_rpcServiceName c) (m_gatewayServiceName c).
Definition setPrivateKeyPath v c := mkNodeConfig (m_keyFactory c) (txpool c) (chain c) (rpc c)
  (gateway c) (cert c) (executor c) (nodeService c) (ledger c) (m_minSealTime c)
  (m_checkPointTimeoutInterval c) v (m_storagePath c) (m_rpcServiceName c) (m_gatewayServiceName c).
Definition setStoragePath v c := mkNodeConfig (m_keyFactory c) (txpool c) (chain c) (rpc c)
  (gateway c) (cert c) (executor c) (nodeService c) (ledger c) (m_minSealTime c)
  (m_checkPointTimeoutInterval c) (m_privateKeyPath c) v (m_rpcServiceName c)
  (m_gatewayServiceName c).
Definition setRpcServiceName v c := mkNodeConfig (m_keyFactory c) (txpool c) (chain c) (rpc c)
  (gateway c) (cert c) (executor c) (nodeService c) (ledger c) (m_minSealTime c)
  (m_checkPointTimeoutInterval c) (m_privateKeyPath c) (m_storagePath c) v (m_gatewayServiceName c).
Definition setGatewayServiceName v c := mkNodeConfig (m_keyFactory c) (txpool c) (chain c) (rpc c)
  (gateway c) (cert c) (executor c) (nodeService c) (ledger c) (m_minSealTime c)
  (m_checkPointTimeoutInterval c) (m_privateKeyPath c) (m_storagePath c) (m_rpcServiceName c) v.

Definition MAX_BLOCK_LIMIT : Z := 5000.
Definition TX_GAS_LIMIT_MIN : Z := 100000.

(** [BOOST_THROW_EXCEPTION(InvalidConfig())] when a check fails. *)
Definition check (b : bool) : outcome config_exn unit := if b then Throw InvalidConfig else Ok tt.

Definition getDefaultServiceName (c : NodeConfig) (nodeName serviceName : bytes) : bytes :=
  m_chainId (chain c) ++ dot ++ nodeName ++ serviceName.

(** [generateGenesisData]: the numbers through a stream, the keys in hex. *)
Definition nodeText (n : LedgerConfig.ConsensusNode) : bytes :=
  Hex.toHexString (LedgerConfig.nodeID n) [] ++ str "," ++
  Numbers.to_string (LedgerConfig.weight n) ++ str ";".

Definition generateGenesisData (l : LedgerConfig.LedgerConfig) (txGasLimit : Z) : bytes :=
  Numbers.to_string (LedgerConfig.m_blockTxCountLimit l) ++ str "-" ++
  Numbers.to_string (LedgerConfig.m_leaderSwitchPeriod l) ++ str "-" ++
  Numbers.to_string txGasLimit ++ str "-" ++
  flat_map nodeText (LedgerConfig.m_consensusNodeList l).

Section Load.
Context {T : Type} `{PropertyTree T} `{BoostText}.

Definition checkAndGetValue (pt : T) (key defaultValue : bytes) : outcome config_exn Z :=
  match lexical_cast (getString pt key defaultValue) with
  | Some n => Ok n
  | None => Throw InvalidConfig
  end.

Definition checkService (serviceName : bytes) : outcome config_exn unit :=
  check (bool_decide (serviceName = [])) ;;
  let serviceNameList := split "." serviceName in
  check (negb (length serviceNameList =? 2)%nat) ;;
  check (negb (forallb Chars.isalNumStr serviceNameList)).

Definition getServiceName (pt : T) (configSection objName defaultValue : bytes) (require : bool) :
    outcome config_exn bytes :=
  let serviceName := getString pt configSection defaultValue in
  if negb require then Ok serviceName
  else checkService serviceName ;; Ok (getPrxDesc serviceName objName).

Definition loadRpcServiceConfig (pt : T) (c : NodeConfig) : outcome config_exn NodeConfig :=
  name ← getServiceName pt (str "service.rpc") RPC_SERVANT_NAME [] true ;
  Ok (setRpcServiceName name c).

Definition loadGatewayServiceConfig (pt : T) (c : NodeConfig) : outcome config_exn NodeConfig :=
  name ← getServiceName pt (str "service.gateway") GATEWAY_SERVANT_NAME [] true ;
  Ok (setGatewayServiceName name c).

Definition loadServiceConfig (pt : T) (c : NodeConfig) : outcome config_exn NodeConfig :=
  loadGatewayServiceConfig pt c ≫= loadRpcServiceConfig pt.

Definition loadNodeServiceConfig (nodeID : bytes) (pt : T) (c : NodeConfig) :
    outcome config_exn NodeConfig :=
  let nodeName := getString pt (str "service.node_name") [] in
  let nodeName := if bool_decide (nodeName = []) then nodeID else nodeName in
  check (negb (Chars.isalNumStr nodeName)) ;;
  let name section servant service :=
    getServiceName pt section servant (getDefaultServiceName c nodeName service) false in
  scheduler ← name (str "service.scheduler") SCHEDULER_SERVANT_NAME SCHEDULER_SERVICE_NAME ;
  txpool ← name (str "service.txpool") TXPOOL_SERVANT_NAME TXPOOL_SERVICE_NAME ;
  consensus ← name (str "service.consensus") CONSENSUS_SERVANT_NAME CONSENSUS_SERVICE_NAME ;
  front ← name (str "service.front") FRONT_SERVANT_NAME FRONT_SERVICE_NAME ;
  executor ← name (str "service.executor") EXECUTOR_SERVANT_NAME EXECUTOR_SERVICE_NAME ;
  Ok (setNodeService (mkNodeService nodeName scheduler txpool consensus front executor) c).

(** [int] values end up in a [uint16_t] and a [uint32_t]. *)
Definition loadRpcConfig (pt : T) (c : NodeConfig) : NodeConfig :=
  let listenIP := getString pt (str "rpc.listen_ip") (str "0.0.0.0") in
  let listenPort := getInt pt (str "rpc.listen_port") 20200 in
  let threadCount := getInt pt (str "rpc.thread_count") 8 in
  let smSsl := getBool pt (str "rpc.sm_ssl") false in
  let disableSsl := getBool pt (str "rpc.disable_ssl") false in
  setRpc (mkRpc listenIP (u16 listenPort) (u32 threadCount) smSsl disableSsl) c.

Definition loadGatewayConfig (pt : T) (c : NodeConfig) : NodeConfig :=
  let listenIP := getString pt (str "p2p.listen_ip") (str "0.0.0.0") in
  let listenPort := getInt pt (str "p2p.listen_port") 30300 in
  let nodesDir := getString pt (str "p2p.nodes_path") (str "./") in
  let nodesFile := getString pt (str "p2p.nodes_file") (str "nodes.json") in
  let smSsl := getBool pt (str "p2p.sm_ssl") false in
  setGateway (mkGateway listenIP (u16 listenPort) smSsl nodesDir nodesFile) c.

Definition loadCertConfig (pt : T) (c : NodeConfig) : NodeConfig :=
  let certPath := getString pt (str "cert.ca_path") (str "./") in
  let file key d := certPath ++ str "/" ++ getString pt key d in
  setCert
    (mkCert certPath (file (str "cert.ca_cert") (str "ca.crt")) (file (str "cert.node_cert") (str "ssl.crt"))
       (file (str "cert.node_key") (str "ssl.key")) (file (str "cert.sm_ca_cert") (str "sm_ca.crt"))
       (file (str "cert.sm_node_cert") (str "sm_ssl.crt")) (file (str "cert.sm_node_key") (str "sm_ssl.key"))
       (file (str "cert.sm_ennode_cert") (str "sm_enssl.crt")) (file (str "cert.sm_ennode_key") (str "sm_enssl.key"))) c.

(** The members are of type [size_t]: the checks see the converted value. *)
Definition loadTxPoolConfig (pt : T) (c : NodeConfig) : outcome config_exn NodeConfig :=
  limit ← checkAndGetValue pt (str "txpool.limit") (str "15000") ;
  check (u64 limit <=? 0) ;;
  notify ← checkAndGetValue pt (str "txpool.notify_worker_num") (str "2") ;
  check (u64 notify <=? 0) ;;
  verifier ← checkAndGetValue pt (str "txpool.verify_worker_num") (str "2") ;
  check (u64 verifier <=? 0) ;;
  Ok (setTxpool (mkTxPool (u64 limit) (u64 notify) (u64 verifier)) c).

Definition loadChainConfig (pt : T) (c : NodeConfig) : outcome config_exn NodeConfig :=
  let smCryptoType := getBool pt (str "chain.sm_crypto") false in
  let groupId := getString pt (str "chain.group_id") (str "group") in
  let chainId := getString pt (str "chain.chain_id") (str "chain") in
  check (negb (Chars.isalNumStr chainId)) ;;
  blockLimit ← checkAndGetValue pt (str "chain.block_limit") (str "1000") ;
  check ((u64 blockLimit <=? 0) || (MAX_BLOCK_LIMIT <? u64 blockLimit)) ;;
  Ok (setChain (mkChain smCryptoType groupId chainId (u64 blockLimit)) c).

Definition loadSecurityConfig (pt : T) (c : NodeConfig) : NodeConfig :=
  setPrivateKeyPath (getString pt (str "security.private_key_path") (str "node.pem")) c.

Definition loadSealerConfig (pt : T) (c : NodeConfig) : outcome config_exn NodeConfig :=
  minSealTime ← checkAndGetValue pt (str "consensus.min_seal_time") (str "500") ;
  check ((u64 minSealTime <=? 0) || (3000 <? u64 minSealTime)) ;;
  Ok (setMinSealTime (u64 minSealTime) c).

Definition loadStorageConfig (pt : T) (c : NodeConfig) : NodeConfig :=
  setStoragePath (getString pt (str "storage.data_path") (str "data/" ++ m_groupId (chain c))) c.

Definition loadConsensusConfig (pt : T) (c : NodeConfig) : outcome config_exn NodeConfig :=
  interval ← checkAndGetValue pt (str "consensus.checkpoint_timeout") (str "3000") ;
  check (u64 interval <? 3000) ;;
  Ok (setCheckPointTimeoutInterval (u64 interval) c).

Definition loadExecutorConfig (pt : T) (c : NodeConfig) : NodeConfig :=
  setExecutor
    (mkExecutor (getBool pt (str "executor.is_wasm") false)
       (getBool pt (str "executor.is_auth_check") false)
       (getString pt (str "executor.auth_admin_account") [])) c.

Definition loadConfig (pt : T) (c : NodeConfig) : outcome config_exn NodeConfig :=
  c ← loadChainConfig pt c ;
  let c := loadCertConfig pt c in
  let c := loadRpcConfig pt c in
  let c := loadGatewayConfig pt c in
  c ← loadTxPoolConfig pt c ;
  let c := loadSecurityConfig pt c in
  c ← loadSealerConfig pt c ;
  c ← loadConsensusConfig pt c ;
  let c := loadStorageConfig pt c in
  Ok (loadExecutorConfig pt c).

(** One entry of the list of nodes: the key in hex, and a weight when there are
    exactly two parts. *)
Definition parseNode (c : NodeConfig) (text : bytes) : outcome config_exn LedgerConfig.ConsensusNode :=
  let nodeInfo := split ":" text in
  match nodeInfo with
  | [] => Throw InvalidConfig
  | first :: rest =>
      let nodeId := to_lower first in
      weight ← match rest with
               | [weightInfoStr] =>
                   match lexical_cast (trim weightInfoStr) with
                   | Some w => Ok w
                   | None => Throw BadLexicalCast
                   end
               | _ => Ok 1
               end ;
      check (weight <=? 0) ;;
      key ← mapThrow (fun _ => BadHexCharacter) (Hex.fromHexString nodeId) ;
      match m_keyFactory c with
      | Some createKey => Ok (LedgerConfig.mkNode (createKey key) (u64 weight))
      | None => Undefined NullDeref
      end
  end.

(** [key.find(prefix) == 0]. *)
Definition startsWith (prefix key : bytes) : bool :=
  bool_decide (take (length prefix) key = prefix).

Fixpoint parseNodes (c : NodeConfig) (subSectionName : bytes) (entries : list (bytes * bytes)) :
    outcome config_exn (list LedgerConfig.ConsensusNode) :=
  match entries with
  | [] => Ok []
  | (key, text) :: entries =>
      if negb (startsWith subSectionName key) then parseNodes c subSectionName entries
      else
        n ← parseNode c text ;
        nodes ← parseNodes c subSectionName entries ;
        Ok (n :: nodes)
  end.

Definition parseConsensusNodeList (pt : T) (c : NodeConfig) (sectionName subSectionName : bytes) :
    outcome config_exn (option (list LedgerConfig.ConsensusNode)) :=
  match children pt sectionName with
  | None => Ok None
  | Some entries => nodes ← parseNodes c subSectionName entries ; Ok (Some nodes)
  end.

Definition loadLedgerConfig (pt : T) (c : NodeConfig) : outcome config_exn NodeConfig :=
  let consensusType := getString pt (str "consensus.consensus_type") (str "pbft") in
  blockTxCountLimit ← checkAndGetValue pt (str "consensus.block_tx_count_limit") (str "1000") ;
  check (blockTxCountLimit <=? 0) ;;
  let l := LedgerConfig.setBlockTxCountLimit (u64 blockTxCountLimit) (m_ledgerConfig (ledger c)) in
  txGasLimit ← checkAndGetValue pt (str "tx.gas_limit") (str "300000000") ;
  check (txGasLimit <=? TX_GAS_LIMIT_MIN) ;;
  consensusNodeList ← parseConsensusNodeList pt c (str "consensus") (str "node.") ;
  match consensusNodeList with
  | None | Some [] => Throw InvalidConfig
  | Some nodes =>
      let l := LedgerConfig.setConsensusNodeList nodes l in
      consensusLeaderPeriod ← checkAndGetValue pt (str "consensus.leader_period") (str "1") ;
      check (consensusLeaderPeriod <=? 0) ;;
      let l := LedgerConfig.setLeaderSwitchPeriod (u64 consensusLeaderPeriod) l in
      Ok (setLedger
            (mkLedgerSection consensusType l (u64 txGasLimit) (generateGenesisData l (u64 txGasLimit))) c)
  end.

Definition loadGenesisConfig (pt : T) (c : NodeConfig) : outcome config_exn NodeConfig :=
  loadLedgerConfig pt c.

Definition loadConfigFromString (content : bytes) (c : NodeConfig) : outcome config_exn NodeConfig :=
  match read_ini content with Some pt => loadConfig pt c | None => Throw IniParserError end.
Definition loadGenesisConfigFromString (content : bytes) (c : NodeConfig) :
    outcome config_exn NodeConfig :=
  match read_ini content with Some pt => loadGenesisConfig pt c | None => Throw IniParserError end.

(** From a path, given what the file system has there; [read_ini] throws the same for a
    file it cannot open. *)
Definition loadConfigFile (files : bytes -> option bytes) (configPath : bytes) (c : NodeConfig) :
    outcome config_exn NodeConfig :=
  match files configPath with
  | Some content => loadConfigFromString content c
  | None => Throw IniParserError
  end.
Definition loadGenesisConfigFile (files : bytes -> option bytes) (genesisConfigPath : bytes)
    (c : NodeConfig) : outcome config_exn NodeConfig :=
  match files genesisConfigPath with
  | Some content => loadGenesisConfigFromString content c
  | None => Throw IniParserError
  end.
End Load.
End NodeConfig.

(* ------------------------------------------------------------------ *)
(** ** Properties *)

Module NodeConfigFacts.
Import Boost ServiceDesc NodeConfig.

Lemma check_ok b u : check b = Ok u -> b = false.
Proof. by destruct b. Qed.

Section Bounds.
Context {T : Type} `{PropertyTree T} `{BoostText}.

Lemma checkAndGetValue_ok (pt : T) key d n :
  checkAndGetValue pt key d = Ok n -> lexical_cast (getString pt key d) = Some n.
Proof. unfold checkAndGetValue. case_match; by intros [= ->]. Qed.

Lemma chain_ok (pt : T) c c' :
  loadChainConfig pt c = Ok c' ->
  exists k, c' = setChain k c /\ 0 < m_blockLimit k <= MAX_BLOCK_LIMIT /\
            Chars.isalNumStr (m_chainId k) = true.
Proof.
  unfold loadChainConfig. intros E. inv_ok E. injection E as <-. eexists. split; [reflexivity |].
  cbn [m_blockLimit m_chainId]. apply check_ok in Ha, Ha1.
  apply orb_false_iff in Ha1 as [H1 H2]. apply Z.leb_gt in H1. apply Z.ltb_ge in H2.
  by apply negb_false_iff in Ha.
Qed.

Lemma txpool_ok (pt : T) c c' :
  loadTxPoolConfig pt c = Ok c' ->
  exists t, c' = setTxpool t c /\ 0 < m_txpoolLimit t /\ 0 < m_notifyWorkerNum t /\
            0 < m_verifierWorkerNum t.
Proof.
  unfold loadTxPoolConfig. intros E. inv_ok E. injection E as <-. eexists. split; [reflexivity |].
  cbn. apply check_ok in Ha0, Ha2, Ha4. rewrite !Z.leb_gt in *. done.
Qed.

Lemma sealer_ok (pt : T) c c' :
  loadSealerConfig pt c = Ok c' -> exists v, c' = setMinSealTime v c /\ 0 < v <= 3000.
Proof.
  unfold loadSealerConfig. intros E. inv_ok E. injection E as <-. eexists. split; [reflexivity |].
  apply check_ok, orb_false_iff in Ha0 as [H1 H2]. apply Z.leb_gt in H1. by apply Z.ltb_ge in H2.
Qed.

Lemma consensus_ok (pt : T) c c' :
  loadConsensusConfig pt c = Ok c' ->
  exists v, c' = setCheckPointTimeoutInterval v c /\ 3000 <= v.
Proof.
  unfold loadConsensusConfig. intros E. inv_ok E. injection E as <-. eexists. split; [reflexivity |].
  by apply check_ok, Z.ltb_ge in Ha0.
Qed.


(** What the checks of the unsigned members do: of the numbers a file can hold,
    only zero is refused for the limits of the pool, and only the numbers from 0 to
    2999 for the time-out of checkpoints; a negative number is accepted as a huge
    one. *)
Theorem unsigned_checks (pt : T) (c : NodeConfig) (limit notify verifier interval : Z)
    (Hlimit : lexical_cast (getString pt (str "txpool.limit") (str "15000")) = Some limit)
    (Hnotify : lexical_cast (getString pt (str "txpool.notify_worker_num") (str "2")) = Some notify)
    (Hverifier : lexical_cast (getString pt (str "txpool.verify_worker_num") (str "2")) = Some verifier)
    (Hinterval : lexical_cast (getString pt (str "consensus.checkpoint_timeout") (str "3000")) =
                 Some interval)
    (Hrange : Forall (fun n => - 2 ^ 63 <= n < 2 ^ 63) [limit; notify; verifier; interval]) :
  loadTxPoolConfig pt c =
    (if (limit =? 0) || (notify =? 0) || (verifier =? 0) then Throw InvalidConfig
     else Ok (setTxpool (mkTxPool (u64 limit) (u64 notify) (u64 verifier)) c)) /\
  loadConsensusConfig pt c =
    (if (0 <=? interval) && (interval <? 3000) then Throw InvalidConfig
     else Ok (setCheckPointTimeoutInterval (u64 interval) c)) /\
  (limit < 0 -> u64 limit = 2 ^ 64 + limit).
Proof.
  assert (forall n, n < 0 -> - 2 ^ 63 <= n -> u64 n = 2 ^ 64 + n) as Hneg.
  { intros n Hn Hr. unfold uwrap. rewrite <- (Z.mod_add _ 1) by lia. rewrite Z.mod_small; lia. }
  assert (forall n, 0 <= n -> n < 2 ^ 63 -> u64 n = n) as Hpos.
  { intros n Hn Hr. apply uwrap_small. lia. }
  assert (forall n, - 2 ^ 63 <= n < 2 ^ 63 -> (u64 n <=? 0) = (n =? 0)) as Hz.
  { intros n Hn. destruct (Z.lt_ge_cases n 0); [rewrite Hneg | rewrite Hpos]; lia. }
  rewrite !List.Forall_cons_iff in Hrange. destruct Hrange as (H1 & H2 & H3 & H4 & _).
  unfold loadTxPoolConfig, loadConsensusConfig, checkAndGetValue.
  rewrite Hlimit, Hnotify, Hverifier, Hinterval. cbn -[uwrap Z.leb Z.ltb].
  rewrite !Hz by done. split_and!.
  - by destruct (limit =? 0), (notify =? 0), (verifier =? 0).
  - replace (u64 interval <? 3000) with ((0 <=? interval) && (interval <? 3000)).
    { by destruct (_ && _). }
    destruct (Z.lt_ge_cases interval 0); [rewrite Hneg | rewrite Hpos]; lia.
  - intros Hn. apply Hneg; lia.
Qed.
End Bounds.

(** *** Splitting *)

Lemma join_cons d p q ps : join d (p :: q :: ps) = p ++ d :: join d (q :: ps).
Proof. reflexivity. Qed.

Lemma join_one d p : join d [p] = p.
Proof. apply app_nil_r. Qed.

(** A text has one list of parts. *)
Lemma join_inj d (ps qs : list bytes) :
  ps <> [] -> qs <> [] -> (forall p, In p ps -> ~ In d p) -> (forall q, In q qs -> ~ In d q) ->
  join d ps = join d qs -> ps = qs.
Proof.
  revert qs. induction ps as [| p ps IH]; intros qs Hp Hq Fp Fq E; [done |].
  destruct qs as [| q qs]; [done |].
  assert (~ In d p) as Np by (apply Fp; by left). assert (~ In d q) as Nq by (apply Fq; by left).
  destruct ps as [| p' ps], qs as [| q' qs]; rewrite ?join_cons, ?join_one in E.
  - by subst.
  - subst p. exfalso. apply Np, in_or_app. right. by left.
  - subst q. exfalso. apply Nq, in_or_app. right. by left.
  - apply app_sep_inj in E as [-> E]; [| done..]. f_equal. apply IH; [done.. | | | done].
    + intros r Hr. apply Fp. by right.
    + intros r Hr. apply Fq. by right.
Qed.

Section Split.
Context `{B : BoostText} {L : BoostTextLaw B}.

Lemma split_two d a b : ~ In d a -> ~ In d b -> split d (a ++ d :: b) = [a; b].
Proof using L.
  intros Ha Hb. apply (join_inj d); [apply split_some | done | intros p; apply split_free | |].
  - by intros q [<- | [<- | []]].
  - rewrite split_join, join_cons. by rewrite join_one.
Qed.

Lemma isalnum_dot a : Chars.isalNumStr a = true -> ~ In "."%byte a.
Proof.
  rewrite Chars.isalNumStr_forallb, forallb_forall. intros Hin Hd. by specialize (Hin _ Hd).
Qed.

(** A service name is accepted exactly when it is two parts of letters and digits,
    either of which may be empty, around a dot; otherwise the configuration is
    refused. *)
Theorem checkService_spec (name : bytes) :
  (checkService name = Ok tt <->
     exists a b, name = a ++ "."%byte :: b /\ Chars.isalNumStr a = true /\ Chars.isalNumStr b = true) /\
  (checkService name <> Ok tt -> checkService name = Throw InvalidConfig).
Proof using L.
  split; [split |].
  - unfold checkService. intros E. inv_ok E. apply check_ok, negb_false_iff, Nat.eqb_eq in Ha0.
    apply check_ok, negb_false_iff in E. rewrite <- (split_join "." name).
    destruct (split "." name) as [| p [| q [|]]]; try done. exists p, q.
    rewrite join_cons, join_one. cbn in E. rewrite !andb_true_iff in E. tauto.
  - intros (a & b & -> & Ha & Hb). unfold checkService.
    rewrite split_two by (by apply isalnum_dot). rewrite bool_decide_false by (by destruct a).
    cbn. by rewrite Ha, Hb.
  - unfold checkService, check. by repeat case_match.
Qed.
End Split.

(** *** Genesis data *)

Lemma decimal_free c n : Numbers.isDecimal c = false -> 0 <= n -> ~ In c (Numbers.to_string n).
Proof.
  intros Hc Hn Hin. rewrite Numbers.to_string_nonneg in Hin by done.
  pose proof (Numbers.show_decimal n) as Hd. rewrite List.Forall_forall in Hd.
  specialize (Hd _ Hin). congruence.
Qed.

Lemma hex_free c (d : bytes) :
  Forall (fun x => x <> c) Hex.hexCharsCollection -> ~ In c (Hex.toHexString d []).
Proof.
  intros Hc Hin. pose proof (Hex.toHexString_chars (fun x => x <> c) d Hc) as Hf.
  rewrite List.Forall_forall in Hf. by apply (Hf c Hin).
Qed.

(** A number with a separator behind it. *)
Lemma number_sep_inj c m n x y :
  Numbers.isDecimal c = false -> 0 <= m -> 0 <= n ->
  Numbers.to_string m ++ c :: x = Numbers.to_string n ++ c :: y -> m = n /\ x = y.
Proof.
  intros Hc Hm Hn E. apply app_sep_inj in E as [E ->]; [| by apply decimal_free..].
  split; [by apply Numbers.to_string_inj | done].
Qed.

Definition weighted (n : LedgerConfig.ConsensusNode) : Prop := 0 <= LedgerConfig.weight n.

Lemma nodeText_inj n m x y :
  weighted n -> weighted m -> nodeText n ++ x = nodeText m ++ y -> n = m /\ x = y.
Proof.
  destruct n as [i v], m as [j w]. unfold weighted, nodeText. cbn [LedgerConfig.nodeID LedgerConfig.weight].
  intros Hv Hw. rewrite <- !app_assoc. intros E.
  apply app_sep_inj in E as [E1 E]; [| apply hex_free; repeat constructor; discriminate..].
  apply Hex.toHexString_inj in E1 as ->.
  change (str ";" ++ ?z) with (";"%byte :: z) in E.
  by apply number_sep_inj in E as [-> ->].
Qed.

Lemma nodeTexts_inj ns ms :
  Forall weighted ns -> Forall weighted ms -> flat_map nodeText ns = flat_map nodeText ms -> ns = ms.
Proof.
  assert (forall n x, nodeText n ++ x <> []) as Hne.
  { intros n x E. apply (f_equal length) in E. unfold nodeText in E.
    rewrite !length_app in E. cbn in E. lia. }
  intros Hns. revert ms. induction Hns as [| n ns Hn _ IH]; intros ms Hms E.
  - destruct ms; [done |]. symmetry in E. by apply Hne in E.
  - destruct Hms as [| m ms Hm Hms]; [by apply Hne in E |]. cbn in E.
    apply nodeText_inj in E as [-> E]; [| done..]. f_equal. by apply IH.
Qed.

(** What is printed into the genesis data determines it. *)
Lemma generateGenesisData_inj l1 g1 l2 g2 :
  (forall l g, In (l, g) [(l1, g1); (l2, g2)] ->
     0 <= LedgerConfig.m_blockTxCountLimit l /\ 0 <= LedgerConfig.m_leaderSwitchPeriod l /\
     0 <= g /\ Forall weighted (LedgerConfig.m_consensusNodeList l)) ->
  generateGenesisData l1 g1 = generateGenesisData l2 g2 ->
  LedgerConfig.m_blockTxCountLimit l1 = LedgerConfig.m_blockTxCountLimit l2 /\
  LedgerConfig.m_leaderSwitchPeriod l1 = LedgerConfig.m_leaderSwitchPeriod l2 /\
  g1 = g2 /\ LedgerConfig.m_consensusNodeList l1 = LedgerConfig.m_consensusNodeList l2.
Proof.
  intros Hr. destruct (Hr l1 g1) as (? & ? & ? & ?); [by left |].
  destruct (Hr l2 g2) as (? & ? & ? & ?); [right; by left |].
  unfold generateGenesisData. intros E.
  apply number_sep_inj in E as [-> E]; [| done..]. apply number_sep_inj in E as [-> E]; [| done..].
  apply number_sep_inj in E as [-> E]; [| done..]. apply nodeTexts_inj in E; done.
Qed.

Section Genesis.
Context {T : Type} `{PropertyTree T} `{B : BoostText} {L : BoostTextLaw B}.

Definition goodNode (n : LedgerConfig.ConsensusNode) : Prop := 0 < LedgerConfig.weight n < 2 ^ 63.

Lemma parseNode_good c text n : parseNode c text = Ok n -> goodNode n.
Proof using L.
  unfold parseNode. destruct (split ":" text) as [| first rest]; [done |]. intros E. inv_ok E.
  destruct (m_keyFactory c); [| done]. injection E as <-. unfold goodNode. cbn [LedgerConfig.weight].
  apply check_ok, Z.leb_gt in Ha0.
  assert (a < 2 ^ 63) as Hb.
  { repeat case_match; simplify_eq; try lia.
    match goal with He : lexical_cast _ = _ |- _ => apply lexical_cast_range in He end. lia. }
  rewrite uwrap_small; lia.
Qed.

Lemma parseNodes_good c sub entries ns : parseNodes c sub entries = Ok ns -> Forall goodNode ns.
Proof using L.
  revert ns. induction entries as [| [k text] entries IH]; intros ns; cbn.
  - intros [= <-]. apply Forall_nil_2.
  - destruct (negb _); [auto |]. intros E. inv_ok E. injection E as <-.
    apply Forall_cons_2; [by eapply parseNode_good | by apply IH].
Qed.

Definition goodLedger (s : LedgerSection) : Prop :=
  let l := m_ledgerConfig s in
  0 < LedgerConfig.m_blockTxCountLimit l < 2 ^ 63 /\
  0 < LedgerConfig.m_leaderSwitchPeriod l < 2 ^ 63 /\
  TX_GAS_LIMIT_MIN < m_txGasLimit s < 2 ^ 63 /\
  LedgerConfig.m_consensusNodeList l <> [] /\ Forall goodNode (LedgerConfig.m_consensusNodeList l) /\
  m_genesisData s = generateGenesisData l (m_txGasLimit s).

Lemma genesis_good (pt : T) c c' : loadGenesisConfig pt c = Ok c' -> goodLedger (ledger c').
Proof using L.
  unfold loadGenesisConfig, loadLedgerConfig, parseConsensusNodeList. intros E. inv_ok E.
  destruct a3 as [[| n ns] |]; try done. inv_ok E. injection E as <-.
  destruct (children pt (str "consensus")); [| done]. inv_ok Ha3. injection Ha3 as ->.
  apply parseNodes_good in Ha6.
  repeat match goal with
  | Hc : check _ = Ok _ |- _ => apply check_ok, Z.leb_gt in Hc
  | Hc : checkAndGetValue _ _ _ = Ok _ |- _ =>
      apply checkAndGetValue_ok, lexical_cast_range in Hc
  end.
  unfold goodLedger, TX_GAS_LIMIT_MIN in *. cbn -[uwrap Z.pow goodNode].
  rewrite !uwrap_small by lia. split_and!; try lia; done.
Qed.

(** C38. A genesis file that is accepted has positive limits and periods, at least one
    node, and positive weights; nothing of it is negative or overflows. *)
Theorem accepted_genesis_bounds (pt : T) (c c' : NodeConfig)
    (Hload : loadGenesisConfig pt c = Ok c') : goodLedger (ledger c').
Proof using L. by eapply genesis_good. Qed.

(** C19. Nodes that agree on the genesis data agree on the limits, the leader period and
    the consensus nodes with their weights, in order. *)
Theorem genesis_data_binding (pt1 pt2 : T) (c1 c2 d1 d2 : NodeConfig)
    (Hload1 : loadGenesisConfig pt1 c1 = Ok d1) (Hload2 : loadGenesisConfig pt2 c2 = Ok d2)
    (Hsame : m_genesisData (ledger d1) = m_genesisData (ledger d2)) :
  let l1 := m_ledgerConfig (ledger d1) in
  let l2 := m_ledgerConfig (ledger d2) in
  LedgerConfig.m_blockTxCountLimit l1 = LedgerConfig.m_blockTxCountLimit l2 /\
  LedgerConfig.m_leaderSwitchPeriod l1 = LedgerConfig.m_leaderSwitchPeriod l2 /\
  m_txGasLimit (ledger d1) = m_txGasLimit (ledger d2) /\
  LedgerConfig.m_consensusNodeList l1 = LedgerConfig.m_consensusNodeList l2.
Proof using L.
  apply genesis_good in Hload1 as (H1 & H2 & H3 & _ & H4 & E1).
  apply genesis_good in Hload2 as (K1 & K2 & K3 & _ & K4 & E2).
  rewrite E1, E2 in Hsame. apply generateGenesisData_inj; [| done].
  unfold TX_GAS_LIMIT_MIN in *.
  assert (forall ns, Forall goodNode ns -> Forall weighted ns) as Hw.
  { intros ns. apply List.Forall_impl. unfold goodNode, weighted. lia. }
  intros l g [[= <- <-] | [[= <- <-] | []]]; split_and!; auto; lia.
Qed.

(** *** Round trip of the list of nodes *)

(** How a genesis file lists a node. *)
Definition entryOf (suffix : bytes) (n : LedgerConfig.ConsensusNode) : bytes * bytes :=
  (str "node." ++ suffix,
   Hex.toHexString (LedgerConfig.nodeID n) [] ++ ":"%byte :: Numbers.to_string (LedgerConfig.weight n)).

Lemma parseNode_entry c suffix n :
  m_keyFactory c = Some (fun key => key) -> goodNode n ->
  parseNode c (entryOf suffix n).2 = Ok n.
Proof using L.
  destruct n as [i w]. unfold goodNode, entryOf. cbn [LedgerConfig.weight LedgerConfig.nodeID snd].
  intros Hk Hw. unfold parseNode.
  rewrite split_two;
    [| apply hex_free; repeat constructor; discriminate | apply decimal_free; [done | lia]].
  rewrite to_lower_id by (apply Hex.toHexString_chars; repeat constructor).
  rewrite trim_id, lexical_cast_decimal;
    [| lia | rewrite Numbers.to_string_nonneg by lia; apply Numbers.show_decimal].
  rewrite bind_ok. unfold check. rewrite (proj2 (Z.leb_gt _ _)) by lia. rewrite bind_ok.
  rewrite Hex.fromHexString_toHexString. cbn [mapThrow]. rewrite bind_ok, Hk.
  rewrite uwrap_small by lia. done.
Qed.

(** A list of nodes written into a genesis file, whatever the suffixes of its keys
    and the other entries of the section, is read back in order. *)
Theorem genesis_nodes_roundtrip (pt : T) (c : NodeConfig) (entries : list (bytes * bytes))
    (nodes : list LedgerConfig.ConsensusNode) (suffixes : list bytes)
    (Hkeys : m_keyFactory c = Some (fun key => key)) (Hgood : Forall goodNode nodes)
    (Hlen : length suffixes = length nodes)
    (Hsection : children pt (str "consensus") = Some entries)
    (Hentries : List.filter (fun e => startsWith (str "node.") e.1) entries =
                zip_with entryOf suffixes nodes) :
  parseConsensusNodeList pt c (str "consensus") (str "node.") = Ok (Some nodes).
Proof using L.
  unfold parseConsensusNodeList. rewrite Hsection.
  enough (parseNodes c (str "node.") entries = Ok nodes) as -> by done.
  clear Hsection. revert nodes suffixes Hgood Hlen Hentries.
  induction entries as [| [k text] entries IH]; intros nodes suffixes Hgood Hlen Hentries.
  - destruct suffixes, nodes; done.
  - cbn [List.filter parseNodes fst] in *. destruct (startsWith (str "node.") k); [| by eapply IH].
    destruct suffixes as [| s suffixes], nodes as [| n nodes]; try done.
    cbn [zip_with] in Hentries. injection Hentries as _ -> Hentries.
    apply List.Forall_cons_iff in Hgood as [Hn Hgood]. injection Hlen as Hlen.
    cbn [negb]. pose proof (parseNode_entry c s n Hkeys Hn) as En. unfold entryOf in En.
    cbn [snd] in En. rewrite En, bind_ok, (IH _ _ Hgood Hlen Hentries). done.
Qed.
End Genesis.
End NodeConfigFacts.

(* ------------------------------------------------------------------ *)
(** ** The hypotheses can be met *)

Module SampleBoost.
Import Boost NodeConfigFacts.

Fixpoint splitAt (d : byte) (s : bytes) : list bytes :=
  match s with
  | [] => [[]]
  | c :: s =>
      if bool_decide (c = d) then [] :: splitAt d s
      else match splitAt d s with
           | [] => [[c]]
           | p :: ps => (c :: p) :: ps
           end
  end.

Definition lowerChar (c : byte) : byte :=
  if (65 <=? b2z c) && (b2z c <=? 90) then z2b (b2z c + 32) else c.

Fixpoint dropBlanks (s : bytes) : bytes :=
  match s with
  | c :: s' => if bool_decide (c = " "%byte) then dropBlanks s' else s
  | [] => []
  end.
Definition trimBlanks (s : bytes) : bytes := rev (dropBlanks (rev (dropBlanks s))).

(** An optional sign and decimal digits, within the range of [w] bits. *)
Definition readSigned (w : Z) (s : bytes) : option Z :=
  let '(sign, ds) := match s with
                     | c :: ds => if bool_decide (c = "-"%byte) then (-1, ds) else (1, s)
                     | [] => (1, [])
                     end in
  let n := sign * Numbers.digitsValue 10 ds in
  if negb (bool_decide (ds = [])) && forallb Numbers.isDecimal ds &&
     (- 2 ^ (w - 1) <=? n) && (n <? 2 ^ (w - 1)) then Some n else None.

#[export] Instance sampleText : BoostText :=
  { split := splitAt; to_lower := map lowerChar; trim := trimBlanks;
    lexical_cast := readSigned 64; readInt := readSigned 32;
    readBool := fun s => if bool_decide (s = str "true") then Some true
                         else if bool_decide (s = str "false") then Some false else None }.

Lemma splitAt_some d s : splitAt d s <> [].
Proof. destruct s as [| c s]; cbn; [done |]. by repeat case_match. Qed.

Lemma splitAt_join d s : join d (splitAt d s) = s.
Proof.
  induction s as [| c s IH]; [done |]. cbn [splitAt].
  pose proof (splitAt_some d s) as Hs. destruct (splitAt d s) as [| p ps]; [done |].
  case_bool_decide as Hc; [subst c; by rewrite join_cons, IH |].
  cbn in *. by rewrite IH.
Qed.

Lemma splitAt_free d s p : In p (splitAt d s) -> ~ In d p.
Proof.
  revert p. induction s as [| c s IH]; cbn [splitAt]; [intros p [<- | []] [] |].
  case_bool_decide as Hc; [intros p [<- | Hp]; [intros [] | by apply IH] |].
  destruct (splitAt d s) as [| q qs].
  - intros p [<- | []] [-> | []]. done.
  - intros p [<- | Hp]; [| apply IH; by right]. intros [-> | Hd]; [done |].
    by apply (IH q); [left |].
Qed.

Lemma trimBlanks_id s : Forall (fun c => Numbers.isDecimal c = true) s -> trimBlanks s = s.
Proof.
  assert (forall s, Forall (fun c => Numbers.isDecimal c = true) s -> dropBlanks s = s) as Hd.
  { intros t [| c t' Hc]; [done |]. cbn. case_bool_decide; [by subst |]. done. }
  intros Hs. unfold trimBlanks. rewrite (Hd s Hs), Hd; [apply rev_involutive |].
  by apply Forall_rev.
Qed.

Lemma readSigned_range w s n : readSigned w s = Some n -> - 2 ^ (w - 1) <= n < 2 ^ (w - 1).
Proof.
  unfold readSigned. destruct (match s with [] => _ | _ => _ end) as [sign ds].
  case_match eqn:E; [| done]. intros [= <-]. rewrite !andb_true_iff in E. lia.
Qed.

Lemma readSigned_decimal n :
  - 2 ^ 63 <= n < 2 ^ 63 -> readSigned 64 (Numbers.to_string n) = Some n.
Proof.
  intros Hn. assert (forall m, 0 <= m -> Numbers.digitsValue 10 (Numbers.show 10 m) = m) as Hv.
  { intros m Hm. apply Numbers.show_value; lia. }
  assert (forall m, forallb Numbers.isDecimal (Numbers.show 10 m) = true) as Hd.
  { intros m. apply forallb_forall, List.Forall_forall, Numbers.show_decimal. }
  assert (forall m, Numbers.show 10 m <> []) as Hne by (intros m; apply Numbers.show_nonempty; lia).
  unfold Numbers.to_string, readSigned. destruct (Z.ltb_spec n 0) as [Hs | Hs].
  - rewrite bool_decide_true by done. rewrite Hv, Hd, bool_decide_false by (done || lia).
    cbn -[Z.pow Z.mul]. rewrite (proj2 (Z.leb_le _ _)), (proj2 (Z.ltb_lt _ _)) by lia. f_equal. lia.
  - specialize (Hv n Hs). specialize (Hd n). specialize (Hne n).
    destruct (Numbers.show 10 n) as [| c ds]; [done |].
    rewrite bool_decide_false by (intros ->; by cbn in Hd).
    rewrite Hv, Hd, bool_decide_false by done.
    rewrite (proj2 (Z.leb_le _ _)), (proj2 (Z.ltb_lt _ _)) by (cbn -[Z.mul]; lia).
    cbn -[Z.mul]. f_equal. lia.
Qed.

#[export] Instance sampleText_law : BoostTextLaw sampleText.
Proof.
  split; cbn [split to_lower trim lexical_cast sampleText].
  - apply splitAt_some.
  - apply splitAt_join.
  - apply splitAt_free.
  - induction 1 as [| c s Hc _ IH]; [done |]. cbn [map]. rewrite IH. f_equal.
    unfold lowerChar. case_match eqn:E; [| done]. unfold Numbers.isDecimal in Hc. lia.
  - apply trimBlanks_id.
  - intros s n. apply readSigned_range.
  - apply readSigned_decimal.
Qed.

(** Files as lists of sections with their keys and values. *)
Definition sections : Type := list (bytes * list (bytes * bytes)).

Definition findKey {A} (k : bytes) (l : list (bytes * A)) : option A :=
  snd <$> List.find (fun e => bool_decide (k = e.1)) l.

#[export] Instance sampleTree : PropertyTree sections :=
  { data := fun pt path =>
      findKey path (flat_map (fun s => map (fun e => (s.1 ++ str "." ++ e.1, e.2)) s.2) pt);
    children := fun pt name => findKey name pt;
    read_ini := fun _ => None }.
End SampleBoost.

Module NodeConfigWitnesses.
Import Boost NodeConfig NodeConfigFacts SampleBoost.

(** A node before it has read its files. *)
Definition blank : NodeConfig :=
  mkNodeConfig (Some (fun key => key)) (mkTxPool 0 0 0) (mkChain false [] [] 0)
    (mkRpc [] 0 0 false false) (mkGateway [] 0 false [] []) (mkCert [] [] [] [] [] [] [] [] [])
    (mkExecutor false false []) (mkNodeService [] [] [] [] [] [])
    (mkLedgerSection [] (LedgerConfig.newLedgerConfig 0 0) 0 []) 0 0 [] [] [] [].

Definition ini : sections :=
  [(str "chain", [(str "chain_id", str "chain0"); (str "group_id", str "group0")]);
   (str "rpc", [(str "listen_port", str "65537")]);
   (str "txpool", [(str "limit", str "-1")])].

Definition genesis : sections :=
  [(str "consensus",
    [(str "leader_period", str "2"); (str "node.0", str "ab01:7"); (str "node.1", str "ff:1")])].

Definition sampleNodes : list LedgerConfig.ConsensusNode :=
  [LedgerConfig.mkNode [Byte.xab; Byte.x01] 7; LedgerConfig.mkNode [Byte.xff] 1].

Definition okOr {E A} (m : outcome E A) (d : A) : A := match m with Ok a => a | _ => d end.


Lemma unsigned_checks_witness :
  loadTxPoolConfig ini blank = Ok (setTxpool (mkTxPool (u64 (-1)) 2 2) blank) /\ u64 (-1) = 2 ^ 64 - 1.
Proof.
  destruct (unsigned_checks ini blank (-1) 2 2 3000) as (E1 & _ & E2);
    [reflexivity.. | repeat constructor; lia |].
  split; [exact E1 | exact (E2 ltac:(lia))].
Defined.

Lemma accepted_genesis_bounds_witness :
  goodLedger (ledger (okOr (loadGenesisConfig genesis blank) blank)).
Proof.
  apply (accepted_genesis_bounds genesis blank (okOr (loadGenesisConfig genesis blank) blank)).
  vm_compute. reflexivity.
Defined.

Lemma genesis_data_binding_witness :
  let d := okOr (loadGenesisConfig genesis blank) blank in
  m_txGasLimit (ledger d) = m_txGasLimit (ledger d).
Proof.
  apply (genesis_data_binding genesis genesis blank blank
    (okOr (loadGenesisConfig genesis blank) blank) (okOr (loadGenesisConfig genesis blank) blank));
    vm_compute; reflexivity.
Defined.

Lemma genesis_nodes_roundtrip_witness :
  parseConsensusNodeList genesis blank (str "consensus") (str "node.") = Ok (Some sampleNodes).
Proof.
  apply (genesis_nodes_roundtrip genesis blank
    [(str "leader_period", str "2"); (str "node.0", str "ab01:7"); (str "node.1", str "ff:1")]
    sampleNodes [str "0"; str "1"]); [reflexivity | | reflexivity..].
  repeat (apply List.Forall_cons || apply List.Forall_nil); unfold goodNode; simpl; lia.
Defined.

Lemma checkService_spec_witness :
  checkService (str "app.server1") = Ok tt /\ checkService (str ".") = Ok tt.
Proof.
  split.
  - apply (checkService_spec (L := sampleText_law)). by exists (str "app"), (str "server1").
  - apply (checkService_spec (L := sampleText_law)). by exists [], [].
Defined.
End NodeConfigWitnesses.
