(* ===== verification/Logging.v ===== *)
(** * Logging and files

    Model of libutilities/BoostLogInitializer, of the levels and macros of
    libutilities/BoostLog, and of libutilities/FileUtility.  The core of Boost.Log,
    which passes the records of all loggers to the registered sinks, is a class with
    its documented behaviour as laws; the clock and the contents of files are
    arguments. *)

From Stdlib Require Import ZArith Lia List.
From Stdlib Require Import Strings.String Strings.Byte.
From stdpp Require Import base tactics decidable list option relations.
From S2P Require Import Prelude DataConvert Numbers NodeConfig.
Import Boost.

Module Logging.

(** [boost::log::trivial::severity_level], and [LogLevel] with the same values. *)
Definition trace : Z := 0.
Definition debug : Z := 1.
Definition info : Z := 2.
Definition warning : Z := 3.
Definition error : Z := 4.
Definition fatal : Z := 5.

Definition FileLogger : bytes := str "FileLogger".
Definition StatFileLogger : bytes := str "StatFileLogger".

(** What the initializer asks of a sink.  [rotation] is the index bound to
    [canRotate], [serial] tells the sinks apart. *)
Record Sink : Type := mkSink
  { serial : nat
  ; rotation : nat
  ; file_name_pattern : bytes
  ; rotation_size : Z
  ; auto_flush : bool
  ; channel : bytes
  ; severity : Z }.

#[export] Instance Sink_eq_dec : EqDecision Sink.
Proof. solve_decision. Defined.

(** The core: sinks are registered and removed, and logging can be switched off. *)
Class LogCore (K : Type) : Type :=
  { add_sink : Sink -> K -> K
  ; remove_sink : Sink -> K -> K
  ; set_logging_enabled : bool -> K -> K
  ; registered : K -> list Sink
  ; enabled : K -> bool }.

Class LogCoreLaw (K : Type) `{LogCore K} : Prop :=
  { registered_add s k : s ∉ registered k -> registered (add_sink s k) = registered k ++ [s]
  ; registered_remove s k : registered (remove_sink s k) = filter (fun x => x <> s) (registered k)
  ; registered_enabled b k : registered (set_logging_enabled b k) = registered k
  ; enabled_add s k : enabled (add_sink s k) = enabled k
  ; enabled_remove s k : enabled (remove_sink s k) = enabled k
  ; enabled_set b k : enabled (set_logging_enabled b k) = b }.

(** [get<uint64_t>] of a tree, [None] when the text is not such a number. *)
Class LogText : Type := { readU64 : bytes -> option Z }.

(** [strcasecmp] of two strings being zero: the characters before the first zero are
    equal but for the case of ASCII letters. *)
Definition lowerChar (c : byte) : byte :=
  if (65 <=? b2z c) && (b2z c <=? 90) then z2b (b2z c + 32) else c.
Definition stringCmpIgnoreCase (lhs rhs : bytes) : bool :=
  bool_decide (map lowerChar (String32.takeNonZero lhs) = map lowerChar (String32.takeNonZero rhs)).

Definition getLogLevel (levelStr : bytes) : Z :=
  if stringCmpIgnoreCase levelStr (str "trace") then trace
  else if stringCmpIgnoreCase levelStr (str "debug") then debug
  else if stringCmpIgnoreCase levelStr (str "warning") then warning
  else if stringCmpIgnoreCase levelStr (str "error") then error
  else if stringCmpIgnoreCase levelStr (str "fatal") then fatal
  else info.

Record BoostLogInitializer : Type := mkInitializer
  { m_sinks : list Sink
  ; m_currentHourVec : list Z
  ; m_logPath : bytes
  ; m_running : bool }.

Definition newInitializer : BoostLogInitializer := mkInitializer [] [] [] false.

Definition setLogPath (logPath : bytes) (i : BoostLogInitializer) : BoostLogInitializer :=
  mkInitializer (m_sinks i) (m_currentHourVec i) logPath (m_running i).

(** [canRotate] at the given hour; the vector is indexed unchecked. *)
Definition canRotate {E} (hour : Z) (index : nat) (i : BoostLogInitializer) :
    outcome E (bool * BoostLogInitializer) :=
  match m_currentHourVec i !! index with
  | None => Undefined OutOfRange
  | Some h =>
      if hour =? h then Ok (false, i)
      else Ok (true, mkInitializer (m_sinks i) (<[index := hour]> (m_currentHourVec i)) (m_logPath i)
                       (m_running i))
  end.

(** The initializer with the core and the two global levels. *)
Record World (K : Type) : Type := mkWorld
  { initializer : BoostLogInitializer
  ; core : K
  ; c_fileLogLevel : Z
  ; c_statLogLevel : Z
  ; created : nat  (** how many sinks have been created, for their [serial] *) }.
Arguments mkWorld {K}.
Arguments initializer {K}.
Arguments core {K}.
Arguments c_fileLogLevel {K}.
Arguments c_statLogLevel {K}.
Arguments created {K}.

Section Operations.
Context {K T : Type} `{LogCore K, PropertyTree T, BoostText, LogText}.

Definition newWorld (k : K) : World K := mkWorld newInitializer k trace info 0.

Definition maxLogFileSize (pt : T) : Z :=
  match data pt (str "log.max_log_file_size") with
  | Some s => default 200 (readU64 s)
  | None => 200
  end.

(** [initLogSink]: the sink, registered with the core. *)
Definition initLogSink (hour : Z) (pt : T) (logLevel : Z) (logPath logPrefix chan : bytes) (w : World K) :
    World K :=
  let i := initializer w in
  let hours := m_currentHourVec i ++ [hour] in
  let fileName := logPath ++ str "/" ++ logPrefix ++ str "_%Y%m%d%H.%M.log" in
  let rotationSize := u64 (maxLogFileSize pt * 1048576) in
  let needFlush := getBool pt (str "log.flush") true in
  let sink := mkSink (created w) (length hours - 1) fileName rotationSize needFlush chan logLevel in
  let k := add_sink sink (core w) in
  let enableLog := getBool pt (str "log.enable") true in
  mkWorld (mkInitializer (m_sinks i ++ [sink]) hours (m_logPath i) (m_running i))
          (set_logging_enabled enableLog k) (c_fileLogLevel w) (c_statLogLevel w) (S (created w)).

(** The first statements of [initLog] and [initStatLog]. *)
Definition prepare (pt : T) (w : World K) : World K :=
  let i := initializer w in
  let path := match m_logPath i with [] => getString pt (str "log.log_path") (str "log") | p => p end in
  mkWorld (mkInitializer (m_sinks i) (m_currentHourVec i) path true) (core w)
          (c_fileLogLevel w) (c_statLogLevel w) (created w).

Definition initLog (hour : Z) (pt : T) (logger logPrefix : bytes) (w : World K) : World K :=
  let w := prepare pt w in
  let logLevel := getLogLevel (getString pt (str "log.level") (str "info")) in
  let w := initLogSink hour pt logLevel (m_logPath (initializer w)) logPrefix logger w in
  mkWorld (initializer w) (core w) logLevel (c_statLogLevel w) (created w).

Definition initStatLog (hour : Z) (pt : T) (logger logPrefix : bytes) (w : World K) : World K :=
  let w := prepare pt w in
  let logLevel := getLogLevel (getString pt (str "log.level") (str "info")) in
  let w := initLogSink hour pt logLevel (m_logPath (initializer w)) logPrefix logger w in
  mkWorld (initializer w) (core w) (c_fileLogLevel w) logLevel (created w).

(** [stopLogging] of one sink, and of the initializer: what is called of each sink, in
    order. *)
Inductive sink_call : Type := StopSink (s : Sink) | FlushSink (s : Sink).

Definition stopSink (s : Sink) (k : K) : K * list sink_call :=
  (remove_sink s k, [StopSink s; FlushSink s]).

Fixpoint stopSinks (ss : list Sink) (k : K) : K * list sink_call :=
  match ss with
  | [] => (k, [])
  | s :: ss => let '(k, calls) := stopSink s k in
               let '(k, calls') := stopSinks ss k in (k, calls ++ calls')
  end.

Definition stopLogging (w : World K) : World K * list sink_call :=
  let i := initializer w in
  if negb (m_running i) then (w, [])
  else
    let '(k, calls) := stopSinks (m_sinks i) (core w) in
    (mkWorld (mkInitializer [] (m_currentHourVec i) (m_logPath i) false) k
       (c_fileLogLevel w) (c_statLogLevel w) (created w), calls).

(** [BCOS_LOG(level)] and [BCOS_STAT_LOG(level)]: the channel of the record that is
    made, if one is. *)
Definition BCOS_LOG (level : Z) (w : World K) : option bytes :=
  if c_fileLogLevel w <=? level then Some FileLogger else None.
Definition BCOS_STAT_LOG (level : Z) (w : World K) : option bytes :=
  if c_statLogLevel w <=? level then Some StatFileLogger else None.

(** The filter of a sink, and the sinks a record is passed to. *)
Definition filters (s : Sink) (chan : bytes) (level : Z) : bool :=
  bool_decide (channel s = chan) && (severity s <=? level).
Definition receivers (chan : bytes) (level : Z) (k : K) : list Sink :=
  if enabled k then filter (fun s => filters s chan level = true) (registered k) else [].

(** [Sink::consume]: whether the program is aborted after a record with this severity,
    if it has one, was written. *)
Definition aborts (level : option Z) : bool := bool_decide (level = Some fatal).
End Operations.

(** *** Files *)

Inductive file_exn : Type := length_error.

(** [genericReadContents] for elements of the given size, of a file that cannot be
    opened or has the size [tellg] tells and these bytes; the elements as bytes. *)
Definition genericReadContents (elementSize : Z) (file : option (Z * bytes)) : outcome file_exn bytes :=
  match file with
  | None => Ok []
  | Some (length, contents) =>
      if length =? 0 then Ok []
      else
        let n := u64 (u64 (length + elementSize) - 1) / elementSize in
        if 2 ^ 63 - 1 <? n * elementSize then Throw length_error
        else
          let read := take (Z.to_nat length) contents in
          Ok (resize (Z.to_nat (n * elementSize)) Byte.x00 read)
  end.
Definition readContents : option (Z * bytes) -> outcome file_exn bytes := genericReadContents 1.
End Logging.

Module LoggingFacts.
Import Logging.

(** *** Rotation *)

(** Checks of sinks by index, each at an hour, one after the other. *)
Fixpoint runChecks {E} (cs : list (nat * Z)) (i : BoostLogInitializer) :
    outcome E (list bool * BoostLogInitializer) :=
  match cs with
  | [] => Ok ([], i)
  | (index, hour) :: cs =>
      '(b, i) ← canRotate hour index i; '(bs, i) ← runChecks cs i; Ok (b :: bs, i)
  end.

(** The hour a sink was last checked at, or created. *)
Fixpoint lastHour (index : nat) (cs : list (nat * Z)) (h : Z) : Z :=
  match cs with
  | [] => h
  | (j, hour) :: cs => lastHour index cs (if decide (j = index) then hour else h)
  end.

Lemma canRotate_spec {E} hour index i h :
  m_currentHourVec i !! index = Some h ->
  exists i', canRotate (E := E) hour index i = Ok (bool_decide (h <> hour), i') /\
    m_currentHourVec i' = <[index := hour]> (m_currentHourVec i) /\
    m_sinks i' = m_sinks i /\ m_running i' = m_running i.
Proof.
  intros Hh. unfold canRotate. rewrite Hh. destruct (Z.eqb_spec hour h) as [-> | Hne].
  - rewrite bool_decide_eq_false_2 by tauto. exists i. by rewrite list_insert_id.
  - rewrite bool_decide_eq_true_2 by congruence. by eexists.
Qed.

(** A log file is rotated exactly at the checks of its sink at another hour than the one
    before, whatever other sinks are checked in between; no check of a sink that exists
    is out of range. *)
Theorem rotates_on_hour_change {E} (cs : list (nat * Z)) (i : BoostLogInitializer) :
  Forall (fun c => c.1 < length (m_currentHourVec i))%nat cs ->
  exists bs i', runChecks (E := E) cs i = Ok (bs, i') /\ length bs = length cs /\
    forall k index hour h, cs !! k = Some (index, hour) -> m_currentHourVec i !! index = Some h ->
      bs !! k = Some (bool_decide (lastHour index (take k cs) h <> hour)).
Proof.
  revert i. induction cs as [| [index hour] cs IH]; intros i Hcs; [by exists [], i |].
  apply Forall_cons in Hcs as [Hi Hcs]. cbn in Hi.
  destruct (lookup_lt_is_Some_2 _ _ Hi) as [h Hh].
  destruct (canRotate_spec (E := E) hour index i h Hh) as (i1 & Hc & Hv & _ & _).
  destruct (IH i1) as (bs & i2 & Hr & Hl & Hb).
  { rewrite Hv, length_insert. done. }
  exists (bool_decide (h <> hour) :: bs), i2. cbn [runChecks]. rewrite Hc, bind_ok, Hr, bind_ok.
  split_and!; [done | cbn; congruence |]. intros [| k] idx hr h0 Hk Hh0.
  - injection Hk as <- <-. assert (h0 = h) as -> by congruence. done.
  - cbn [lookup list_lookup] in *. cbn [take lastHour].
    destruct (decide (index = idx)) as [<- | Hd].
    + apply (Hb k index hr hour Hk). rewrite Hv. by apply list_lookup_insert_eq.
    + apply (Hb k idx hr h0 Hk). rewrite Hv. by rewrite list_lookup_insert_ne.
Qed.

(** *** The sinks *)

Section Sinks.
Context {K T : Type} `{LogCoreLaw K, PropertyTree T, BoostText, LogText}.
Implicit Types (w : World K) (pt : T).

(** What can happen: calls of the initializer, and checks of a registered sink. *)
Inductive step : World K -> World K -> Prop :=
| InitLogs w hour pt logger logPrefix : step w (initLog hour pt logger logPrefix w)
| InitStatLogs w hour pt logger logPrefix : step w (initStatLog hour pt logger logPrefix w)
| Stops w : step w (stopLogging w).1
| SetsPath w path :
    step w (mkWorld (setLogPath path (initializer w)) (core w) (c_fileLogLevel w) (c_statLogLevel w) (created w))
| Checks w s hour b i :
    s ∈ registered (core w) ->
    canRotate (E := Empty_set) hour (rotation s) (initializer w) = Ok (b, i) ->
    step w (mkWorld i (core w) (c_fileLogLevel w) (c_statLogLevel w) (created w)).

Record sound w : Prop := mkSound
  { sound_registered : registered (core w) = m_sinks (initializer w)
  ; sound_serial : Forall (fun s => serial s < created w)%nat (m_sinks (initializer w))
  ; sound_rotation : Forall (fun s => rotation s < length (m_currentHourVec (initializer w)))%nat
      (m_sinks (initializer w))
  ; sound_distinct : NoDup (map rotation (m_sinks (initializer w)))
  ; sound_running : m_running (initializer w) = false -> m_sinks (initializer w) = [] }.

Lemma initLogSink_sound hour pt level path logPrefix chan w :
  sound w -> m_running (initializer w) = true ->
  sound (initLogSink hour pt level path logPrefix chan w) /\
  exists s, m_sinks (initializer (initLogSink hour pt level path logPrefix chan w)) = m_sinks (initializer w) ++ [s] /\
    channel s = chan /\ severity s = level.
Proof.
  intros [Hr Hs Hro Hd Hrun] Hrunning. unfold initLogSink. cbn [initializer m_sinks]. split.
  - split; cbn [core initializer m_sinks m_currentHourVec created m_running].
    + rewrite registered_enabled, registered_add, Hr; [done |]. rewrite Hr. intros Hin.
      rewrite Forall_forall in Hs. apply Hs in Hin. cbn in Hin. lia.
    + apply Forall_app. split; [eapply Forall_impl; [exact Hs | cbn; lia] | by repeat constructor].
    + apply Forall_app. rewrite length_app. cbn. split; [eapply Forall_impl; [exact Hro | cbn; lia] |].
      repeat constructor. cbn. lia.
    + rewrite map_app. apply NoDup_app. split_and!; [done | | apply NoDup_singleton].
      intros x Hx Hx'. apply list_elem_of_singleton in Hx' as ->. cbn in Hx.
      apply list_elem_of_fmap in Hx as (s & E & Hin). rewrite Forall_forall in Hro. apply Hro in Hin.
      rewrite length_app in E. cbn in E. lia.
    + congruence.
  - by eexists.
Qed.

Lemma prepare_sound pt w :
  sound w -> sound (prepare pt w) /\ m_sinks (initializer (prepare pt w)) = m_sinks (initializer w) /\
  m_running (initializer (prepare pt w)) = true.
Proof. by intros [Hr Hs Hro Hd _]. Qed.

(** Both ways of opening a log add one sink of their channel and level. *)
Lemma initLog_sound hour pt logger logPrefix w :
  let level := getLogLevel (getString pt (str "log.level") (str "info")) in
  sound w ->
  sound (initLog hour pt logger logPrefix w) /\ sound (initStatLog hour pt logger logPrefix w) /\
  exists s, registered (core (initLog hour pt logger logPrefix w)) = registered (core w) ++ [s] /\
    registered (core (initStatLog hour pt logger logPrefix w)) = registered (core w) ++ [s] /\
    channel s = logger /\ severity s = level.
Proof.
  intros level Hw. destruct (prepare_sound pt w Hw) as (Hp & Hps & Hpr).
  destruct (initLogSink_sound hour pt level (m_logPath (initializer (prepare pt w))) logPrefix logger
    (prepare pt w) Hp Hpr) as ([Hr Hs Hro Hd Hrun] & s & Hsinks & Hc & Hl).
  assert (registered (core (initLog hour pt logger logPrefix w)) = registered (core w) ++ [s]) as Hreg
    by (etrans; [exact Hr |]; by rewrite Hsinks, Hps, (sound_registered _ Hw)).
  split_and!; [by split | by split |]. exists s. by split_and!.
Qed.

Lemma stopSinks_registered ss (k : K) :
  registered (stopSinks ss k).1 = filter (fun x => x ∉ ss) (registered k).
Proof.
  revert k. induction ss as [| s ss IH]; intros k; cbn [stopSinks].
  - symmetry. apply filter_true. set_solver.
  - specialize (IH (remove_sink s k)). cbn [stopSink]. destruct (stopSinks ss (remove_sink s k)) as [k' calls].
    cbn [fst] in *. rewrite IH, registered_remove, list_filter_filter. apply list_filter_iff. set_solver.
Qed.

Lemma stopSinks_calls ss (k : K) :
  (stopSinks ss k).2 = mjoin (map (fun s => [StopSink s; FlushSink s]) ss).
Proof.
  revert k. induction ss as [| s ss IH]; intros k; [done |]. cbn [stopSinks stopSink].
  specialize (IH (remove_sink s k)). destruct (stopSinks ss (remove_sink s k)). cbn in *. by rewrite IH.
Qed.

Lemma stopLogging_registered w :
  sound w -> registered (core (stopLogging w).1) = [] /\ m_sinks (initializer (stopLogging w).1) = [].
Proof.
  intros [Hr Hs Hro Hd Hrun]. unfold stopLogging. destruct (m_running (initializer w)); cbn [negb].
  - pose proof (stopSinks_registered (m_sinks (initializer w)) (core w)) as Hk.
    destruct (stopSinks (m_sinks (initializer w)) (core w)) as [k calls]. cbn [fst core initializer m_sinks] in *.
    split; [| done]. rewrite Hk, Hr. apply filter_false. set_solver.
  - cbn. rewrite Hr. auto.
Qed.

Lemma step_sound w w' : sound w -> step w w' -> sound w'.
Proof.
  intros Hw Hstep. destruct Hstep as [w hour pt logger pre | w hour pt logger pre | w | w path | w s hour b i Hin Hc].
  - by apply initLog_sound.
  - by apply initLog_sound.
  - destruct (stopLogging_registered w Hw) as [Hreg Hsinks].
    split; rewrite ?Hreg, ?Hsinks; try done; constructor.
  - by destruct Hw as [Hr Hs Hro Hd Hrun].
  - destruct Hw as [Hr Hs Hro Hd Hrun]. rewrite Hr in Hin.
    assert (rotation s < length (m_currentHourVec (initializer w)))%nat as Hlt
      by (rewrite Forall_forall in Hro; by apply Hro).
    destruct (lookup_lt_is_Some_2 _ _ Hlt) as [h Hh].
    destruct (canRotate_spec (E := Empty_set) hour (rotation s) (initializer w) h Hh)
      as (i' & Hc' & Hv & Hsinks & Hrunning).
    rewrite Hc in Hc'. injection Hc' as -> ->.
    split; cbn [core initializer created]; rewrite ?Hsinks, ?Hrunning, ?Hv, ?length_insert; done.
Qed.

(** C34. Whatever logs have been opened, checked and closed: the registered sinks are those
    the initializer holds, each with its own entry of the hours, so that no check is out
    of range; and closing the logs stops and flushes every sink once, in order, and
    leaves none registered. *)
Theorem log_sinks_sound (k : K) w :
  registered k = [] -> rtc step (newWorld k) w ->
  registered (core w) = m_sinks (initializer w) /\
  NoDup (map rotation (m_sinks (initializer w))) /\
  (forall s hour, s ∈ registered (core w) ->
     exists b i, canRotate (E := Empty_set) hour (rotation s) (initializer w) = Ok (b, i)) /\
  registered (core (stopLogging w).1) = [] /\
  (stopLogging w).2 = mjoin (map (fun s => [StopSink s; FlushSink s]) (m_sinks (initializer w))) /\
  stopLogging (stopLogging w).1 = ((stopLogging w).1, []).
Proof.
  intros Hk Hr. assert (sound w) as Hw.
  { apply (rtc_invariant step sound) with (newWorld k); [exact step_sound | | exact Hr].
    split; try done; cbn; constructor. }
  destruct (stopLogging_registered w Hw) as [Hstop _].
  destruct Hw as [Hreg Hs Hro Hd Hrun]. split_and!; [done | done | | done | |].
  - intros s hour Hin. rewrite Hreg in Hin. rewrite Forall_forall in Hro. apply Hro in Hin.
    destruct (lookup_lt_is_Some_2 _ _ Hin) as [h Hh].
    destruct (canRotate_spec (E := Empty_set) hour (rotation s) (initializer w) h Hh) as (i' & Hc & _). eauto.
  - unfold stopLogging. destruct (m_running (initializer w)); cbn [negb]; [| by rewrite Hrun].
    rewrite <- (stopSinks_calls _ (core w)). by destruct (stopSinks _ _).
  - unfold stopLogging at 2 3. destruct (m_running (initializer w)) eqn:E; cbn [negb].
    + by destruct (stopSinks _ _).
    + unfold stopLogging. cbn. by rewrite E.
Qed.

(** What a program logs after opening the log of its messages: the sink opened gets
    exactly the records at or above the level of the configuration, if logging is
    enabled there; and after closing the logs nobody gets any. *)
Theorem records_filtered (k : K) w hour pt logPrefix level :
  registered k = [] -> rtc step (newWorld k) w ->
  let w' := initLog hour pt FileLogger logPrefix w in
  let recipients (w : World K) :=
    match BCOS_LOG level w with Some chan => receivers chan level (core w) | None => [] end in
  (exists s, registered (core w') = registered (core w) ++ [s] /\
    (s ∈ recipients w' <->
     getBool pt (str "log.enable") true = true /\
     getLogLevel (getString pt (str "log.level") (str "info")) <= level)) /\
  recipients (stopLogging w').1 = [].
Proof.
  intros Hk Hr w' recipients. assert (sound w) as Hw.
  { apply (rtc_invariant step sound) with (newWorld k); [exact step_sound | | exact Hr].
    split; try done; cbn; constructor. }
  destruct (initLog_sound hour pt FileLogger logPrefix w Hw) as (Hw' & _ & s & Hreg & _ & Hc & Hl).
  split.
  - exists s. split; [exact Hreg |]. unfold recipients, BCOS_LOG, receivers.
    change (c_fileLogLevel w') with (getLogLevel (getString pt (str "log.level") (str "info"))).
    assert (enabled (core w') = getBool pt (str "log.enable") true) as -> by apply enabled_set.
    fold w' in Hreg. rewrite Hreg.
    destruct (Z.leb_spec (getLogLevel (getString pt (str "log.level") (str "info"))) level) as [Hle | Hgt];
      [| split; [set_solver | intros [_ ?]; lia]].
    destruct (getBool pt (str "log.enable") true); [| split; [set_solver | by intros [? _]]].
    rewrite list_elem_of_filter. unfold filters. rewrite Hc, Hl, bool_decide_eq_true_2 by done.
    rewrite (proj2 (Z.leb_le _ _) Hle). split; [done |]. intros _. split; [done | set_solver].
  - unfold recipients, receivers. destruct (BCOS_LOG level (stopLogging w').1); [| done].
    rewrite (proj1 (stopLogging_registered w' Hw')). by destruct (enabled _).
Qed.
End Sinks.

(** The size at which a file is rotated is the configured number of megabytes only below
    2^44; from there on it is taken modulo 2^64. *)
Lemma rotation_size_bounds `{LogText, PropertyTree T} (pt : T) :
  0 <= maxLogFileSize pt ->
  u64 (maxLogFileSize pt * 1048576) = maxLogFileSize pt * 1048576 <-> maxLogFileSize pt < 2 ^ 44.
Proof.
  intros Hn. split; [| intros; apply uwrap_small; lia].
  intros E. pose proof (uwrap_range 64 (maxLogFileSize pt * 1048576)). lia.
Qed.

(** Reading a file whose size is known gives its bytes, filled up to whole elements; one
    that cannot be opened reads as empty; and where the size is unknown, as for a
    directory, the call throws. *)
Theorem read_contents (elementSize : Z) (contents : bytes) :
  0 < elementSize < 2 ^ 31 -> len contents < 2 ^ 62 ->
  (exists pad, genericReadContents elementSize (Some (len contents, contents)) =
     Ok (contents ++ replicate pad Byte.x00) /\ (Z.of_nat pad < elementSize) /\
     (len contents + Z.of_nat pad) mod elementSize = 0) /\
  readContents (Some (len contents, contents)) = Ok contents /\
  readContents None = Ok [] /\ readContents (Some (-1, contents)) = Throw length_error.
Proof.
  intros He Hl. pose proof (len_nonneg contents) as H0.
  assert (forall es, 0 < es < 2 ^ 31 ->
    let n := (len contents + es - 1) / es in
    len contents <= n * es < len contents + es /\
    genericReadContents es (Some (len contents, contents)) =
      Ok (contents ++ replicate (Z.to_nat (n * es - len contents)) Byte.x00)) as Hg.
  { intros es Hes n. assert (len contents <= n * es < len contents + es) as Hn.
    { pose proof (Z.div_mod (len contents + es - 1) es). pose proof (Z.mod_pos_bound (len contents + es - 1) es).
      fold n in H. lia. }
    split; [exact Hn |]. unfold genericReadContents. destruct (Z.eqb_spec (len contents) 0) as [Hz | Hz].
    - assert (contents = []) as -> by (destruct contents; [done | rewrite len_cons in Hz; pose proof (len_nonneg contents); lia]).
      assert (n = 0) as -> by (unfold n; rewrite len_nil; apply Z.div_small; lia). done.
    - rewrite (uwrap_small 64 (len contents + es)), (uwrap_small 64) by lia. fold n.
      rewrite (proj2 (Z.ltb_ge _ _)) by lia. f_equal. unfold len in *. rewrite Nat2Z.id, firstn_all.
      rewrite resize_ge by lia. f_equal. f_equal. lia. }
  split_and!; [| | done | done].
  - destruct (Hg elementSize He) as [Hn Hr]. eexists. split; [exact Hr |]. rewrite Z2Nat.id by lia.
    split; [lia |]. replace (len contents + _) with ((len contents + elementSize - 1) / elementSize * elementSize) by lia.
    apply Z_mod_mult.
  - destruct (Hg 1 ltac:(lia)) as [Hn Hr]. unfold readContents. rewrite Hr.
    replace ((len contents + 1 - 1) / 1 * 1 - len contents) with 0 by lia. by rewrite app_nil_r.
Qed.
End LoggingFacts.

(** ** The hypotheses can be met *)

Module LoggingWitnesses.
Import Logging LoggingFacts.

(** A core as a list of sinks and a switch, and trees as lists of values. *)
#[export] Instance listCore : LogCore (list Sink * bool) :=
  {| add_sink s k := (k.1 ++ [s], k.2)
   ; remove_sink s k := (filter (fun x => x <> s) k.1, k.2)
   ; set_logging_enabled b k := (k.1, b)
   ; registered k := k.1
   ; enabled k := k.2 |}.
#[export] Instance listCore_law : LogCoreLaw (list Sink * bool).
Proof. by split. Qed.

#[export] Instance sampleU64 : LogText := {| readU64 s := SampleBoost.readSigned 65 s |}.
Import SampleBoost.

Definition logConfig : sections := [(str "log", [(str "level", str "Warning"); (str "max_log_file_size", str "100")])].
Definition noCore : list Sink * bool := ([], true).
Definition opened : World (list Sink * bool) := initStatLog 7 logConfig StatFileLogger (str "stat") (newWorld noCore).

Lemma opened_reachable : rtc (step (T := sections)) (newWorld noCore) opened.
Proof. apply rtc_once, InitStatLogs. Qed.

Lemma log_sinks_sound_witness :
  registered (core opened) = m_sinks (initializer opened) /\
  NoDup (map rotation (m_sinks (initializer opened))) /\
  (forall s hour, s ∈ registered (core opened) ->
     exists b i, canRotate (E := Empty_set) hour (rotation s) (initializer opened) = Ok (b, i)) /\
  registered (core (stopLogging opened).1) = [] /\
  (stopLogging opened).2 = mjoin (map (fun s => [StopSink s; FlushSink s]) (m_sinks (initializer opened))) /\
  stopLogging (stopLogging opened).1 = ((stopLogging opened).1, []).
Proof. apply (log_sinks_sound (T := sections) noCore opened); [reflexivity | exact opened_reachable]. Defined.

Lemma records_filtered_witness :
  let w' := initLog 8 logConfig FileLogger (str "log") opened in
  let recipients (w : World (list Sink * bool)) :=
    match BCOS_LOG error w with Some chan => receivers chan error (core w) | None => [] end in
  (exists s, registered (core w') = registered (core opened) ++ [s] /\
    (s ∈ recipients w' <->
     getBool logConfig (str "log.enable") true = true /\
     getLogLevel (getString logConfig (str "log.level") (str "info")) <= error)) /\
  recipients (stopLogging w').1 = [].
Proof.
  apply (records_filtered noCore opened 8 logConfig (str "log") error); [reflexivity | exact opened_reachable].
Defined.

Lemma rotates_on_hour_change_witness :
  exists bs i', runChecks (E := Empty_set) [(0%nat, 7); (0%nat, 8)] (initializer opened) = Ok (bs, i') /\
    length bs = 2%nat /\
    forall k index hour h, [(0%nat, 7); (0%nat, 8)] !! k = Some (index, hour) ->
      m_currentHourVec (initializer opened) !! index = Some h ->
      bs !! k = Some (bool_decide (lastHour index (take k [(0%nat, 7); (0%nat, 8)]) h <> hour)).
Proof. apply (rotates_on_hour_change [(0%nat, 7); (0%nat, 8)] (initializer opened)). repeat constructor. Defined.

Lemma read_contents_witness :
  readContents (Some (2, [Byte.x61; Byte.x62])) = Ok [Byte.x61; Byte.x62].
Proof.
  destruct (read_contents 4 [Byte.x61; Byte.x62]) as (_ & H & _); [lia | by vm_compute | exact H].
Defined.
End LoggingWitnesses.
