(* ===== verification/Multigroup.v ===== *)
(** * Groups, their nodes and end points

    Model of interfaces/multigroup/{ChainNodeInfo,GroupInfo,ChainNodeInfoFactory}.h
    and of the end points of interfaces/gateway/GatewayTypeDef.h.

    A group refers to its nodes by shared pointers, and [updateNodeInfo] writes
    through them: the nodes live in a store that several groups may share.  JSON is
    the class of Json.v. *)

From Stdlib Require Import ZArith Lia List.
From Stdlib Require Import Strings.String Strings.Byte.
From stdpp Require Import base tactics decidable list option gmap sorting relations.
From S2P Require Import Prelude Numbers Json Ledger NodeConfig.
Import Json.

(* ------------------------------------------------------------------ *)
(** ** Nodes *)

Module ChainNodeInfo.

Inductive group_exn : Type := InvalidGroupInfo | InvalidChainNodeInfo | JsonLogicError.

Record ChainNodeInfo : Type := mkNodeInfo
  { m_microService : bool
  ; m_nodeName : bytes
  ; m_nodeType : Z
  ; m_nodeID : bytes
  ; m_servicesInfo : gmap Z bytes
  ; m_iniConfig : bytes }.

(** The constructors; the one without arguments leaves the type as the memory was. *)
Definition newNodeInfo (type : Z) : ChainNodeInfo := mkNodeInfo false [] type [] ∅ [].
Definition namedNodeInfo (nodeName : bytes) (type : Z) : ChainNodeInfo :=
  mkNodeInfo false nodeName (u32 type) [] ∅ [].

Definition serviceName (type : Z) (n : ChainNodeInfo) : bytes := default [] (m_servicesInfo n !! type).

Definition setNodeName v n := mkNodeInfo (m_microService n) v (m_nodeType n) (m_nodeID n)
  (m_servicesInfo n) (m_iniConfig n).
Definition setNodeType v n := mkNodeInfo (m_microService n) (m_nodeName n) v (m_nodeID n)
  (m_servicesInfo n) (m_iniConfig n).
Definition setNodeID v n := mkNodeInfo (m_microService n) (m_nodeName n) (m_nodeType n) v
  (m_servicesInfo n) (m_iniConfig n).
Definition setServicesInfo v n := mkNodeInfo (m_microService n) (m_nodeName n) (m_nodeType n)
  (m_nodeID n) v (m_iniConfig n).
Definition setIniConfig v n := mkNodeInfo (m_microService n) (m_nodeName n) (m_nodeType n)
  (m_nodeID n) (m_servicesInfo n) v.
Definition setMicroService v n := mkNodeInfo v (m_nodeName n) (m_nodeType n) (m_nodeID n)
  (m_servicesInfo n) (m_iniConfig n).
Definition appendServiceInfo (type : Z) (serviceName : bytes) (n : ChainNodeInfo) : ChainNodeInfo :=
  setServicesInfo (<[type := serviceName]> (m_servicesInfo n)) n.

(** The order in which a [std::map] lists its services. *)
Definition serviceLe (a b : Z * bytes) : Prop := a.1 <= b.1.
#[export] Instance serviceLe_dec : RelDecision serviceLe := fun a b => Z_le_dec a.1 b.1.
Definition services (n : ChainNodeInfo) : list (Z * bytes) :=
  merge_sort serviceLe (map_to_list (m_servicesInfo n)).

Section Json.
Context {V : Type} `{JsonLib V}.

Definition orLogicError {A} (x : option A) : outcome group_exn A :=
  match x with Some a => Ok a | None => Throw JsonLogicError end.

(** [if (!value.isMember(key)) throw]. *)
Definition requireMember (e : group_exn) (value : V) (key : bytes) : outcome group_exn unit :=
  b ← orLogicError (isMember value key) ;
  if b : bool then Ok tt else Throw e.

(** [value[key].as...()]. *)
Definition fieldAs {A} (read : V -> option A) (value : V) (key : bytes) : outcome group_exn A :=
  v ← orLogicError (at_ value key) ; orLogicError (read v).

Definition appendItem (item : V) (n : ChainNodeInfo) : outcome group_exn ChainNodeInfo :=
  if negb (isObject item) then Throw InvalidChainNodeInfo
  else
    requireMember InvalidChainNodeInfo item (str "type") ;;
    requireMember InvalidChainNodeInfo item (str "serviceName") ;;
    type ← fieldAs asInt item (str "type") ;
    name ← fieldAs asString item (str "serviceName") ;
    Ok (appendServiceInfo type name n).

Fixpoint appendItems (items : list V) (n : ChainNodeInfo) : outcome group_exn ChainNodeInfo :=
  match items with
  | [] => Ok n
  | item :: items => n ← appendItem item n ; appendItems items n
  end.

(** An optional member. *)
Definition optionally {A} (read : V -> option A) (value : V) (key : bytes)
    (set : A -> ChainNodeInfo -> ChainNodeInfo) (n : ChainNodeInfo) : outcome group_exn ChainNodeInfo :=
  b ← orLogicError (isMember value key) ;
  if b : bool then a ← fieldAs read value key ; Ok (set a n) else Ok n.

Definition deserialize (json : bytes) (n : ChainNodeInfo) : outcome group_exn ChainNodeInfo :=
  match parse json with
  | None => Throw InvalidChainNodeInfo
  | Some value =>
      requireMember InvalidChainNodeInfo value (str "name") ;;
      name ← fieldAs asString value (str "name") ;
      let n := setNodeName name n in
      requireMember InvalidChainNodeInfo value (str "type") ;;
      type ← fieldAs asUInt value (str "type") ;
      let n := setNodeType type n in
      requireMember InvalidChainNodeInfo value (str "iniConfig") ;;
      ini ← fieldAs asString value (str "iniConfig") ;
      let n := setIniConfig ini n in
      requireMember InvalidChainNodeInfo value (str "serviceInfo") ;;
      serviceInfo ← orLogicError (at_ value (str "serviceInfo")) ;
      if negb (isArray serviceInfo) then Throw InvalidChainNodeInfo
      else
        n ← appendItems (elements serviceInfo) n ;
        n ← optionally asString value (str "nodeID") setNodeID n ;
        optionally asBool value (str "microService") setMicroService n
  end.

Definition serviceItem (s : Z * bytes) : V :=
  ofObject [(str "type", ofNumber s.1); (str "serviceName", ofString s.2)].

Definition serialize (n : ChainNodeInfo) : V :=
  ofObject [(str "name", ofString (m_nodeName n)); (str "type", ofNumber (m_nodeType n));
            (str "iniConfig", ofString (m_iniConfig n));
            (str "serviceInfo", ofArray (map serviceItem (services n)))].

(** The factory's [createNodeInfo] of a text. *)
Definition createNodeInfo (type : Z) (json : bytes) : outcome group_exn ChainNodeInfo :=
  deserialize json (newNodeInfo type).
End Json.
End ChainNodeInfo.

(* ------------------------------------------------------------------ *)
(** ** Groups *)

Module GroupInfo.
Import ChainNodeInfo.

(** The nodes that shared pointers refer to, and the next one to allocate. *)
Record Store : Type := mkStore { cells : gmap nat ChainNodeInfo; nextCell : nat }.

Record GroupInfo : Type := mkGroup
  { m_factory : bool   (** whether [m_chainNodeInfoFactory] is set *)
  ; m_chainID : bytes
  ; m_groupID : bytes
  ; m_genesisConfig : bytes
  ; m_iniConfig : bytes
  ; m_nodeInfos : gmap bytes nat }.

Definition newGroup (chainID groupID : bytes) : GroupInfo := mkGroup false chainID groupID [] [] ∅.

Definition setChainNodeInfoFactory (g : GroupInfo) : GroupInfo :=
  mkGroup true (m_chainID g) (m_groupID g) (m_genesisConfig g) (m_iniConfig g) (m_nodeInfos g).
Definition setChainID v g := mkGroup (m_factory g) v (m_groupID g) (m_genesisConfig g)
  (m_iniConfig g) (m_nodeInfos g).
Definition setGroupID v g := mkGroup (m_factory g) (m_chainID g) v (m_genesisConfig g)
  (m_iniConfig g) (m_nodeInfos g).
Definition setGenesisConfig v g := mkGroup (m_factory g) (m_chainID g) (m_groupID g) v
  (m_iniConfig g) (m_nodeInfos g).
Definition setGroupIniConfig v g := mkGroup (m_factory g) (m_chainID g) (m_groupID g)
  (m_genesisConfig g) v (m_nodeInfos g).
Definition setNodeInfos v g := mkGroup (m_factory g) (m_chainID g) (m_groupID g)
  (m_genesisConfig g) (m_iniConfig g) v.

Definition deref (h : Store) (p : nat) : outcome group_exn ChainNodeInfo :=
  match cells h !! p with Some n => Ok n | None => Undefined NullDeref end.

Definition store (p : nat) (n : ChainNodeInfo) (h : Store) : Store :=
  mkStore (<[p := n]> (cells h)) (nextCell h).

Definition nodeInfo (nodeName : bytes) (g : GroupInfo) : option nat := m_nodeInfos g !! nodeName.
Definition nodesNum (g : GroupInfo) : Z := Z.of_nat (size (m_nodeInfos g)).

Definition appendNodeInfo (p : nat) (h : Store) (g : GroupInfo) : outcome group_exn (bool * GroupInfo) :=
  n ← deref h p ;
  match m_nodeInfos g !! m_nodeName n with
  | Some _ => Ok (false, g)
  | None => Ok (true, setNodeInfos (<[m_nodeName n := p]> (m_nodeInfos g)) g)
  end.

(** A node that is known is overwritten where it is. *)
Definition updateNodeInfo (p : nat) (h : Store) (g : GroupInfo) : outcome group_exn (Store * GroupInfo) :=
  n ← deref h p ;
  match m_nodeInfos g !! m_nodeName n with
  | Some q => Ok (store q n h, g)
  | None => Ok (h, setNodeInfos (<[m_nodeName n := p]> (m_nodeInfos g)) g)
  end.

Definition removeNodeInfo (p : nat) (h : Store) (g : GroupInfo) : outcome group_exn (bool * GroupInfo) :=
  n ← deref h p ;
  match m_nodeInfos g !! m_nodeName n with
  | None => Ok (false, g)
  | Some _ => Ok (true, setNodeInfos (delete (m_nodeName n) (m_nodeInfos g)) g)
  end.

(** [std::make_shared]. *)
Definition allocate (n : ChainNodeInfo) (h : Store) : nat * Store :=
  (nextCell h, mkStore (<[nextCell h := n]> (cells h)) (S (nextCell h))).

(** The order in which a [std::map] lists its nodes. *)
Definition nameLe (a b : bytes * nat) : Prop := LedgerConfig.lessBytes b.1 a.1 = false.
#[export] Instance nameLe_dec : RelDecision nameLe.
Proof. intros a b. unfold nameLe. apply _. Defined.
Definition nodeInfos (g : GroupInfo) : list (bytes * nat) := merge_sort nameLe (map_to_list (m_nodeInfos g)).

Section Json.
Context {V : Type} `{JsonLib V}.

(** [type] is what the memory of a new node holds. *)
Fixpoint appendNodes (type : Z) (nodes : list V) (h : Store) (g : GroupInfo) :
    outcome group_exn (Store * GroupInfo) :=
  match nodes with
  | [] => Ok (h, g)
  | v :: nodes =>
      if m_factory g then
        n ← createNodeInfo type (write v) ;
        let '(p, h) := allocate n h in
        '(_, g) ← appendNodeInfo p h g ;
        appendNodes type nodes h g
      else Undefined NullDeref
  end.

Definition deserializeGroup (type : Z) (json : bytes) (h : Store) (g : GroupInfo) :
    outcome group_exn (Store * GroupInfo) :=
  match parse json with
  | None => Throw InvalidGroupInfo
  | Some root =>
      requireMember InvalidGroupInfo root (str "chainID") ;;
      chainID ← fieldAs asString root (str "chainID") ;
      let g := setChainID chainID g in
      requireMember InvalidGroupInfo root (str "groupID") ;;
      groupID ← fieldAs asString root (str "groupID") ;
      let g := setGroupID groupID g in
      hasGenesis ← orLogicError (isMember root (str "genesisConfig")) ;
      g ← (if hasGenesis : bool then
             genesis ← fieldAs asString root (str "genesisConfig") ;
             Ok (setGenesisConfig genesis g)
           else Ok g) ;
      requireMember InvalidGroupInfo root (str "iniConfig") ;;
      ini ← fieldAs asString root (str "iniConfig") ;
      let g := setGroupIniConfig ini g in
      requireMember InvalidGroupInfo root (str "nodeList") ;;
      nodeList ← orLogicError (at_ root (str "nodeList")) ;
      if negb (isArray nodeList) then Throw InvalidGroupInfo
      else appendNodes type (elements nodeList) h g
  end.

Fixpoint serializeNodes (h : Store) (ps : list (bytes * nat)) : outcome group_exn (list V) :=
  match ps with
  | [] => Ok []
  | (_, p) :: ps =>
      n ← deref h p ; vs ← serializeNodes h ps ; Ok (ChainNodeInfo.serialize n :: vs)
  end.

Definition serializeGroup (h : Store) (g : GroupInfo) : outcome group_exn V :=
  nodes ← serializeNodes h (nodeInfos g) ;
  Ok (ofObject [(str "chainID", ofString (m_chainID g)); (str "groupID", ofString (m_groupID g));
                (str "genesisConfig", ofString (m_genesisConfig g));
                (str "iniConfig", ofString (m_iniConfig g)); (str "nodeList", ofArray nodes)]).
End Json.
End GroupInfo.

(* ------------------------------------------------------------------ *)
(** ** End points *)

Module NodeIPEndpoint.

Record NodeIPEndpoint : Type := mkEndpoint { m_host : bytes; m_port : Z; m_ipv6 : bool }.

Definition key (e : NodeIPEndpoint) : bytes := m_host e ++ Numbers.to_string (m_port e).

(** [operator<], [operator==] and [operator<<]. *)
Definition less (a b : NodeIPEndpoint) : bool := LedgerConfig.lessBytes (key a) (key b).
Definition equal (a b : NodeIPEndpoint) : bool := bool_decide (key a = key b).
Definition print (e : NodeIPEndpoint) : bytes :=
  m_host e ++ str ":" ++ Numbers.to_string (m_port e).
End NodeIPEndpoint.

(* ------------------------------------------------------------------ *)
(** ** Properties *)

Module MultigroupFacts.
Import ChainNodeInfo GroupInfo.

Section Json.
Context {V : Type} `{JsonLaw V}.

(** A node whose texts JSON can carry and whose numbers are of their types. *)
Definition goodNode (n : ChainNodeInfo) : Prop :=
  textual (m_nodeName n) /\ textual (ChainNodeInfo.m_iniConfig n) /\ 0 <= m_nodeType n < 2 ^ 32 /\
  map_Forall (fun t s => - 2 ^ 31 <= t < 2 ^ 31 /\ textual s) (m_servicesInfo n).

(** What is left of a node after it went through JSON. *)
Definition restored (n : ChainNodeInfo) : ChainNodeInfo :=
  mkNodeInfo false (m_nodeName n) (m_nodeType n) [] (m_servicesInfo n) (ChainNodeInfo.m_iniConfig n).

Lemma textual_str (s : string) :
  forallb (fun c => (32 <=? b2z c) && (b2z c <? 127)) (str s) = true -> textual (str s).
Proof. intros E. apply textual_ascii, List.Forall_forall. by apply forallb_forall. Qed.

Lemma services_permutation n : services n ≡ₚ map_to_list (m_servicesInfo n).
Proof. apply merge_sort_Permutation. Qed.

Lemma services_good n t s :
  goodNode n -> In (t, s) (services n) -> - 2 ^ 31 <= t < 2 ^ 31 /\ textual s.
Proof.
  intros (_ & _ & _ & Hs) Hin. apply (Hs t s).
  apply elem_of_map_to_list. rewrite <- services_permutation. by apply list_elem_of_In.
Qed.

(** Assigning the services of a map one after the other gives the map. *)
Lemma insert_services n :
  foldl (fun (m : gmap Z bytes) s => <[s.1 := s.2]> m) ∅ (services n) = m_servicesInfo n.
Proof.
  assert (forall l (m : gmap Z bytes), foldl (fun m s => <[s.1 := s.2]> m) m l = list_to_map (rev l) ∪ m) as E.
  { induction l as [| [t s] l IH]; intros m; [cbn; by rewrite (left_id_L ∅ (∪)) |].
    cbn [foldl rev fst snd]. rewrite IH. rewrite list_to_map_app. cbn.
    by rewrite <- map_union_assoc, <- insert_union_l, (left_id_L ∅ (∪)). }
  rewrite E, (right_id_L ∅ _).
  transitivity (list_to_map (map_to_list (m_servicesInfo n)) : gmap Z bytes);
    [apply list_to_map_proper | apply list_to_map_to_list].
  - rewrite <- Permutation_rev, services_permutation. apply NoDup_fst_map_to_list.
  - by rewrite <- Permutation_rev, services_permutation.
Qed.

Ltac keys_nodup := refine (bool_decide_unpack _ _); vm_compute; exact I.

Lemma nodeKeys_nodup : NoDup [str "name"; str "type"; str "iniConfig"; str "serviceInfo"].
Proof. keys_nodup. Qed.
Lemma itemKeys_nodup : NoDup [str "type"; str "serviceName"].
Proof. keys_nodup. Qed.
Lemma groupKeys_nodup :
  NoDup [str "chainID"; str "groupID"; str "genesisConfig"; str "iniConfig"; str "nodeList"].
Proof. keys_nodup. Qed.

Lemma built_item s : - 2 ^ 31 <= s.1 < 2 ^ 31 -> textual s.2 -> built (serviceItem s).
Proof.
  intros Ht Hs. apply BuiltObject; [apply itemKeys_nodup |].
  intros k v [[= <- <-] | [[= <- <-] | []]]; (split; [by apply textual_str |]); constructor;
    [lia | done].
Qed.

Lemma built_node n : goodNode n -> built (ChainNodeInfo.serialize n).
Proof.
  intros Hn. pose proof Hn as (Hname & Hini & Htype & _).
  apply BuiltObject; [apply nodeKeys_nodup |].
  intros k v [[= <- <-] | [[= <- <-] | [[= <- <-] | [[= <- <-] | []]]]];
    (split; [by apply textual_str |]); constructor; try done; [lia |].
  intros v Hv. apply in_map_iff in Hv as ([t s] & <- & Hin).
  destruct (services_good n t s Hn Hin). by apply built_item.
Qed.

(** The reads of an object that the code has built. *)
Lemma requireMember_ok e fs k :
  k ∈ map fst fs -> requireMember e (ofObject fs) k = Ok tt.
Proof. intros Hk. unfold requireMember. by rewrite isMember_ofObject, bool_decide_true. Qed.

Lemma fieldAs_ok {A} (read : V -> option A) fs k v a :
  NoDup (map fst fs) -> In (k, v) fs -> read v = Some a -> fieldAs read (ofObject fs) k = Ok a.
Proof. intros Hn Hin Hr. unfold fieldAs. rewrite (at_ofObject fs k v Hn Hin). cbn. by rewrite Hr. Qed.

Lemma appendItem_ok s n :
  - 2 ^ 31 <= s.1 < 2 ^ 31 -> appendItem (serviceItem s) n = Ok (appendServiceInfo s.1 s.2 n).
Proof.
  intros Ht. unfold appendItem, serviceItem. rewrite isObject_ofObject. cbn [negb].
  rewrite !requireMember_ok by (apply list_elem_of_In; cbn [map fst In]; tauto). rewrite !bind_ok.
  rewrite (fieldAs_ok _ _ _ (ofNumber s.1) s.1);
    [| apply itemKeys_nodup | by left | by apply asInt_ofNumber].
  rewrite bind_ok. rewrite (fieldAs_ok _ _ _ (ofString s.2) s.2);
    [done | apply itemKeys_nodup | right; by left | apply asString_ofString].
Qed.

Lemma appendItems_ok l n :
  (forall t s, In (t, s) l -> - 2 ^ 31 <= t < 2 ^ 31) ->
  appendItems (map serviceItem l) n =
  Ok (setServicesInfo (foldl (fun (m : gmap Z bytes) s => <[s.1 := s.2]> m) (m_servicesInfo n) l) n).
Proof.
  revert n. induction l as [| [t s] l IH]; intros n Hl; [by destruct n |].
  cbn [map appendItems]. rewrite appendItem_ok by (apply (Hl t s); by left).
  rewrite bind_ok, IH by (intros t' s' Hin; apply (Hl t' s'); by right). done.
Qed.

Ltac in_keys := apply list_elem_of_In; cbn [map fst In]; tauto.
Ltac not_in_keys := refine (bool_decide_unpack _ _); vm_compute; exact I.

(** A node's text is read back, into a node that may have services already. *)
Lemma node_deserialize n n0 :
  goodNode n ->
  ChainNodeInfo.deserialize (write (ChainNodeInfo.serialize n)) n0 =
  Ok (mkNodeInfo (m_microService n0) (m_nodeName n) (m_nodeType n) (m_nodeID n0)
        (foldl (fun (m : gmap Z bytes) s => <[s.1 := s.2]> m) (m_servicesInfo n0) (services n))
        (ChainNodeInfo.m_iniConfig n)).
Proof.
  intros Hn. pose proof Hn as (Hname & Hini & Htype & _).
  unfold ChainNodeInfo.deserialize. rewrite (parse_write _ (built_node n Hn)).
  unfold ChainNodeInfo.serialize. rewrite !requireMember_ok by in_keys. rewrite !bind_ok.
  rewrite (fieldAs_ok _ _ (str "name") (ofString (m_nodeName n)) (m_nodeName n));
    [| apply nodeKeys_nodup | by left | apply asString_ofString].
  rewrite !bind_ok. rewrite (fieldAs_ok _ _ (str "type") (ofNumber (m_nodeType n)) (m_nodeType n));
    [| apply nodeKeys_nodup | right; by left | by apply asUInt_ofNumber].
  rewrite !bind_ok. rewrite (fieldAs_ok _ _ (str "iniConfig")
      (ofString (ChainNodeInfo.m_iniConfig n)) (ChainNodeInfo.m_iniConfig n));
    [| apply nodeKeys_nodup | right; right; by left | apply asString_ofString].
  rewrite !bind_ok. rewrite (at_ofObject _ (str "serviceInfo") (ofArray (map serviceItem (services n))));
    [| apply nodeKeys_nodup | do 3 right; by left].
  cbn [orLogicError]. rewrite bind_ok, isArray_ofArray. cbn [negb]. rewrite elements_ofArray.
  rewrite appendItems_ok by (intros t s Hin; apply (services_good n t s Hn Hin)).
  rewrite bind_ok. unfold optionally. rewrite !isMember_ofObject. cbn [map fst orLogicError].
  rewrite !bool_decide_false by not_in_keys. rewrite !bind_ok. done.
Qed.

Lemma createNodeInfo_ok type n :
  goodNode n -> createNodeInfo type (write (ChainNodeInfo.serialize n)) = Ok (restored n).
Proof.
  intros Hn. unfold createNodeInfo. rewrite (node_deserialize n _ Hn). cbn. by rewrite insert_services.
Qed.

(** A node goes through JSON with its name, type, configuration and services; its
    node ID and whether it is a micro service are lost. *)
Theorem node_json_roundtrip (type : Z) (n : ChainNodeInfo) (Hn : goodNode n) :
  createNodeInfo type (write (ChainNodeInfo.serialize n)) = Ok (restored n) /\
  m_nodeID (restored n) = [] /\ m_microService (restored n) = false /\
  (forall t, serviceName t (restored n) = serviceName t n).
Proof. split; [by apply createNodeInfo_ok | done]. Qed.

(** *** Groups *)

(** A group's names are those of the nodes they refer to, which have been allocated. *)
Definition sound (h : Store) (g : GroupInfo) : Prop :=
  forall name p, m_nodeInfos g !! name = Some p ->
    (p < nextCell h)%nat /\ exists n, cells h !! p = Some n /\ m_nodeName n = name.

(** The node a group has under a name. *)
Definition view (h : Store) (g : GroupInfo) (name : bytes) : option ChainNodeInfo :=
  m_nodeInfos g !! name ≫= fun p => cells h !! p.

Lemma view_allocate h g n name :
  sound h g -> view (allocate n h).2 g name = view h g name.
Proof.
  intros Hs. unfold view. destruct (m_nodeInfos g !! name) as [p |] eqn:E; [| done]. cbn.
  destruct (Hs _ _ E) as [Hp _]. by rewrite lookup_insert_ne by lia.
Qed.

Definition findNode (name : bytes) (ns : list ChainNodeInfo) : option ChainNodeInfo :=
  List.find (fun n => bool_decide (name = m_nodeName n)) ns.

Lemma append_sound h g n :
  sound h g -> m_nodeInfos g !! m_nodeName n = None ->
  let '(p, h') := allocate n h in
  let g' := setNodeInfos (<[m_nodeName n := p]> (m_nodeInfos g)) g in
  appendNodeInfo p h' g = Ok (true, g') /\ sound h' g' /\
  forall name, view h' g' name = if bool_decide (name = m_nodeName n) then Some n else view h g name.
Proof.
  intros Hs Hn. cbn. split_and!.
  - unfold appendNodeInfo, deref. cbn. rewrite lookup_insert_eq. cbn. by rewrite Hn.
  - intros name p. cbn. destruct (decide (name = m_nodeName n)) as [-> | Hne].
    + rewrite lookup_insert_eq. intros [= <-]. split; [lia |]. exists n. by rewrite lookup_insert_eq.
    + rewrite lookup_insert_ne by done. intros E. destruct (Hs _ _ E) as [Hp Hc].
      split; [lia |]. by rewrite lookup_insert_ne by lia.
  - intros name. unfold view. cbn. case_bool_decide as Hname.
    + subst. rewrite lookup_insert_eq. cbn. by rewrite lookup_insert_eq.
    + rewrite lookup_insert_ne by done. apply (view_allocate h g n name Hs).
Qed.

Lemma appendNodes_spec type ns h g :
  sound h g -> m_factory g = true -> Forall goodNode ns -> NoDup (map m_nodeName ns) ->
  (forall n, In n ns -> m_nodeInfos g !! m_nodeName n = None) ->
  exists h' g', appendNodes type (map ChainNodeInfo.serialize ns) h g = Ok (h', g') /\ sound h' g' /\
    m_chainID g' = m_chainID g /\ m_groupID g' = m_groupID g /\
    m_genesisConfig g' = m_genesisConfig g /\ m_iniConfig g' = m_iniConfig g /\
    forall name, view h' g' name =
      match findNode name ns with Some n => Some (restored n) | None => view h g name end.
Proof.
  revert h g. induction ns as [| n ns IH]; intros h g Hs Hf Hg Hnd Hnew; [by exists h, g |].
  inversion Hg as [| ? ? Hn Hg']; subst. inversion Hnd as [| ? ? Hni Hnd']; subst.
  cbn [map appendNodes]. rewrite Hf, (createNodeInfo_ok type n Hn), bind_ok.
  assert (m_nodeInfos g !! m_nodeName (restored n) = None) as Hnone by (apply (Hnew n); by left).
  pose proof (append_sound h g (restored n) Hs Hnone) as Ha.
  destruct (allocate (restored n) h) as [p h1]. destruct Ha as (-> & Hs1 & Hview). rewrite bind_ok.
  destruct (IH h1 (setNodeInfos (<[m_nodeName (restored n) := p]> (m_nodeInfos g)) g))
    as (h' & g' & E & Hs' & H1 & H2 & H3 & H4 & Hv); [done.. | | ].
  { intros m Hm. cbn. rewrite lookup_insert_ne; [apply Hnew; by right |].
    intros Hname. apply Hni, list_elem_of_In, in_map_iff. exists m. by rewrite <- Hname. }
  exists h', g'. split_and!; [done.. |]. intros name. rewrite Hv. unfold findNode in *. cbn [List.find].
  rewrite Hview. change (m_nodeName (restored n)) with (m_nodeName n).
  case_bool_decide as Hname; [| done]. subst.
  destruct (List.find _ ns) as [m |] eqn:Em; [| done]. apply find_some in Em as [Hm Hn'].
  exfalso. apply Hni, list_elem_of_In, in_map_iff. exists m. by apply bool_decide_eq_true in Hn'.
Qed.

(** The node an entry of the map refers to. *)
Definition entryNode (h : Store) (q : bytes * nat) (n : ChainNodeInfo) : Prop :=
  cells h !! q.2 = Some n /\ m_nodeName n = q.1.

Lemma Forall2_in_r {A B} (R : A -> B -> Prop) l k y :
  Forall2 R l k -> In y k -> exists x, In x l /\ R x y.
Proof.
  induction 1 as [| a b l k Hab _ IH]; [done |]. intros [<- | Hy]; [exists a; split; [by left | done] |].
  destruct (IH Hy) as (x & Hx & HR). exists x. split; [by right | done].
Qed.

Lemma serializeNodes_ok h g ps :
  sound h g -> (forall name p, In (name, p) ps -> m_nodeInfos g !! name = Some p) ->
  exists ns, serializeNodes h ps = Ok (map ChainNodeInfo.serialize ns) /\ Forall2 (entryNode h) ps ns.
Proof.
  intros Hs. induction ps as [| [name p] ps IH]; intros Hin; [by exists [] |].
  destruct IH as (ns & E & Hcells); [intros; apply Hin; by right |].
  destruct (Hs name p) as (_ & n & Hn & Hname); [apply Hin; by left |].
  exists (n :: ns). cbn. unfold deref. rewrite Hn. cbn. rewrite E. cbn.
  split; [done |]. by constructor.
Qed.

Lemma entryNode_names h ps ns : Forall2 (entryNode h) ps ns -> map m_nodeName ns = map fst ps.
Proof. induction 1 as [| q n ps ns [_ Hq] _ IH]; [done |]. cbn. by rewrite Hq, IH. Qed.

Lemma nodeInfos_permutation g : nodeInfos g ≡ₚ map_to_list (m_nodeInfos g).
Proof. apply merge_sort_Permutation. Qed.

Lemma nodeInfos_in g name p : In (name, p) (nodeInfos g) <-> m_nodeInfos g !! name = Some p.
Proof. rewrite <- list_elem_of_In, nodeInfos_permutation. apply elem_of_map_to_list. Qed.

(** The listed nodes are those of the group. *)
Lemma entryNode_view h g ns n :
  Forall2 (entryNode h) (nodeInfos g) ns -> In n ns -> view h g (m_nodeName n) = Some n.
Proof.
  intros Hns Hin. destruct (Forall2_in_r _ _ _ _ Hns Hin) as ([k p] & Hk & Hc & Hname).
  apply nodeInfos_in in Hk. cbn in *. unfold view. rewrite Hname, Hk. done.
Qed.

Lemma findNode_view h g ns name :
  Forall2 (entryNode h) (nodeInfos g) ns -> findNode name ns = view h g name.
Proof.
  intros Hns. destruct (findNode name ns) as [n |] eqn:Hf.
  - apply find_some in Hf as [Hin Hn]. apply bool_decide_eq_true in Hn as ->.
    symmetry. by apply (entryNode_view h g ns).
  - unfold view. destruct (m_nodeInfos g !! name) as [p |] eqn:E; [| done]. exfalso.
    apply nodeInfos_in in E. assert (In name (map m_nodeName ns)) as Hin.
    { rewrite (entryNode_names h _ _ Hns). apply in_map_iff. by exists (name, p). }
    apply in_map_iff in Hin as (n & Hn & Hin).
    pose proof (find_none _ _ Hf n Hin) as Hno. by apply bool_decide_eq_false in Hno.
Qed.

Definition goodGroup (h : Store) (g : GroupInfo) : Prop :=
  textual (m_chainID g) /\ textual (m_groupID g) /\ textual (m_genesisConfig g) /\
  textual (m_iniConfig g) /\ forall name n, view h g name = Some n -> goodNode n.

Definition groupValue (g : GroupInfo) (ns : list ChainNodeInfo) : V :=
  ofObject [(str "chainID", ofString (m_chainID g)); (str "groupID", ofString (m_groupID g));
            (str "genesisConfig", ofString (m_genesisConfig g));
            (str "iniConfig", ofString (m_iniConfig g));
            (str "nodeList", ofArray (map ChainNodeInfo.serialize ns))].

Lemma built_group h g ns : goodGroup h g -> Forall goodNode ns -> built (groupValue g ns).
Proof.
  intros (H1 & H2 & H3 & H4 & _) Hns. apply BuiltObject; [apply groupKeys_nodup |].
  intros k v [[= <- <-] | [[= <- <-] | [[= <- <-] | [[= <- <-] | [[= <- <-] | []]]]]];
    (split; [by apply textual_str |]); constructor; try done.
  intros v Hv. apply in_map_iff in Hv as (n & <- & Hin). rewrite List.Forall_forall in Hns.
  by apply built_node, Hns.
Qed.

Lemma deserialize_groupValue type h0 h g g0 ns :
  goodGroup h g -> Forall goodNode ns ->
  GroupInfo.deserializeGroup type (write (groupValue g ns)) h0 g0 =
  appendNodes type (map ChainNodeInfo.serialize ns) h0
    (mkGroup (m_factory g0) (m_chainID g) (m_groupID g) (m_genesisConfig g) (m_iniConfig g)
       (m_nodeInfos g0)).
Proof.
  intros Hg Hns. unfold GroupInfo.deserializeGroup. rewrite (parse_write _ (built_group h g ns Hg Hns)).
  unfold groupValue. rewrite !requireMember_ok by in_keys. rewrite !bind_ok.
  rewrite (fieldAs_ok _ _ (str "chainID") (ofString (m_chainID g)) (m_chainID g));
    [| apply groupKeys_nodup | by left | apply asString_ofString].
  rewrite !bind_ok. rewrite (fieldAs_ok _ _ (str "groupID") (ofString (m_groupID g)) (m_groupID g));
    [| apply groupKeys_nodup | right; by left | apply asString_ofString].
  rewrite !bind_ok, isMember_ofObject. rewrite bool_decide_true by in_keys.
  cbn [orLogicError]. rewrite !bind_ok.
  rewrite (fieldAs_ok _ _ (str "genesisConfig") (ofString (m_genesisConfig g)) (m_genesisConfig g));
    [| apply groupKeys_nodup | do 2 right; by left | apply asString_ofString].
  rewrite !bind_ok. rewrite (fieldAs_ok _ _ (str "iniConfig") (ofString (m_iniConfig g)) (m_iniConfig g));
    [| apply groupKeys_nodup | do 3 right; by left | apply asString_ofString].
  rewrite !bind_ok. rewrite (at_ofObject _ (str "nodeList") (ofArray (map ChainNodeInfo.serialize ns)));
    [| apply groupKeys_nodup | do 4 right; by left].
  cbn [orLogicError]. rewrite bind_ok, isArray_ofArray. cbn [negb]. by rewrite elements_ofArray.
Qed.

(** C26. A group goes through JSON with its IDs and configurations and with a node,
    restored, for every node it has. *)
Theorem group_json_roundtrip (type : Z) (chainID groupID : bytes) (h h0 : Store) (g : GroupInfo)
    (Hs : sound h g) (Hg : goodGroup h g) :
  exists v h' g', GroupInfo.serializeGroup h g = Ok v /\
    GroupInfo.deserializeGroup type (write v) h0 (setChainNodeInfoFactory (newGroup chainID groupID)) =
      Ok (h', g') /\
    m_chainID g' = m_chainID g /\ m_groupID g' = m_groupID g /\
    m_genesisConfig g' = m_genesisConfig g /\ m_iniConfig g' = m_iniConfig g /\
    sound h' g' /\ forall name, view h' g' name = restored <$> view h g name.
Proof.
  destruct (serializeNodes_ok h g (nodeInfos g) Hs) as (ns & E & Hcells).
  { intros name p. apply nodeInfos_in. }
  assert (Forall goodNode ns) as Hns.
  { apply List.Forall_forall. intros n Hin. apply Hg with (m_nodeName n). by apply (entryNode_view h g ns). }
  destruct (appendNodes_spec type ns h0 (mkGroup true (m_chainID g) (m_groupID g) (m_genesisConfig g)
    (m_iniConfig g) ∅)) as (h' & g' & E' & Hs' & H1 & H2 & H3 & H4 & Hv); [done.. | | done |].
  { rewrite (entryNode_names h _ _ Hcells), nodeInfos_permutation. apply NoDup_fst_map_to_list. }
  exists (groupValue g ns), h', g'. split; [unfold GroupInfo.serializeGroup; by rewrite E |].
  rewrite (deserialize_groupValue type h0 h g _ ns Hg Hns). split_and!; [done.. |].
  intros name. rewrite Hv, (findNode_view h g ns name Hcells). by destruct (view h g name).
Qed.
End Json.

(** *** Groups that share nodes *)

Inductive op : Type :=
| Create (n : ChainNodeInfo)
| Append (i p : nat)
| Update (i p : nat)
| Remove (i p : nat).

Definition World : Type := Store * list GroupInfo.

(** A call on group [i] with a pointer; a group that does not exist is not called. *)
Definition perform (o : op) (w : World) : outcome group_exn World :=
  let '(h, gs) := w in
  match o with
  | Create n => Ok ((allocate n h).2, gs)
  | Append i p =>
      match gs !! i with
      | Some g => '(_, g) ← appendNodeInfo p h g ; Ok (h, <[i := g]> gs)
      | None => Ok w
      end
  | Update i p =>
      match gs !! i with
      | Some g => '(h, g) ← updateNodeInfo p h g ; Ok (h, <[i := g]> gs)
      | None => Ok w
      end
  | Remove i p =>
      match gs !! i with
      | Some g => '(_, g) ← removeNodeInfo p h g ; Ok (h, <[i := g]> gs)
      | None => Ok w
      end
  end.

Fixpoint performs (os : list op) (w : World) : outcome group_exn World :=
  match os with
  | [] => Ok w
  | o :: os => w ← perform o w ; performs os w
  end.

(** Pointers are to nodes that have been allocated. *)
Definition storeOk (h : Store) : Prop := forall p, is_Some (cells h !! p) -> (p < nextCell h)%nat.
Definition worldSound (w : World) : Prop := storeOk w.1 /\ forall i g, w.2 !! i = Some g -> sound w.1 g.

Lemma deref_ok h p n : deref h p = Ok n <-> cells h !! p = Some n.
Proof. unfold deref. case_match; split; congruence. Qed.

Lemma sound_insert h g n p :
  storeOk h -> sound h g -> cells h !! p = Some n ->
  sound h (setNodeInfos (<[m_nodeName n := p]> (m_nodeInfos g)) g).
Proof.
  intros Hok Hg Hp name q. cbn. destruct (decide (name = m_nodeName n)) as [-> | Hne].
  - rewrite lookup_insert_eq. intros [= <-]. split; [apply Hok; by rewrite Hp | by exists n].
  - rewrite lookup_insert_ne by done. apply Hg.
Qed.

Lemma worldSound_set h gs i g : worldSound (h, gs) -> sound h g -> worldSound (h, <[i := g]> gs).
Proof.
  intros [Hok Hgs] Hg. split; [done |]. intros j g'. cbn. destruct (decide (i = j)) as [-> | Hne].
  - destruct (decide (j < length gs)%nat) as [Hj | Hj].
    + rewrite list_lookup_insert_eq by done. by intros [= <-].
    + rewrite list_insert_ge by lia. apply Hgs.
  - rewrite list_lookup_insert_ne by done. apply Hgs.
Qed.

(** Overwriting a node with one of the same name disturbs no group. *)
Lemma worldSound_store h gs p n n0 :
  worldSound (h, gs) -> cells h !! p = Some n0 -> m_nodeName n = m_nodeName n0 ->
  worldSound (store p n h, gs).
Proof.
  intros [Hok Hgs] Hp Hname. split.
  - intros q [m Hq]. cbn in *. apply Hok. destruct (decide (q = p)) as [-> | Hne]; [by exists n0 |].
    rewrite lookup_insert_ne in Hq by done. by exists m.
  - intros i g Hi name q Hq. cbn in *. destruct (Hgs i g Hi name q Hq) as (Hlt & m & Hm & Hmn).
    split; [done |]. destruct (decide (q = p)) as [-> | Hne].
    + exists n. rewrite lookup_insert_eq. split; [done |]. congruence.
    + exists m. by rewrite lookup_insert_ne.
Qed.

Lemma perform_sound o w w' : worldSound w -> perform o w = Ok w' -> worldSound w'.
Proof.
  destruct w as [h gs]. intros Hw. pose proof Hw as [Hok Hgs]. cbn in Hok, Hgs.
  destruct o as [n | i p | i p | i p]; cbn [perform].
  - intros [= <-]. split.
    + intros q [m Hq]. cbn in *. destruct (decide (q = nextCell h)) as [-> | Hne]; [lia |].
      rewrite lookup_insert_ne in Hq by done. specialize (Hok q (mk_is_Some _ _ Hq)). lia.
    + intros i g Hi name q Hq. cbn in *. destruct (Hgs i g Hi name q Hq) as (Hlt & m & Hm & Hmn).
      split; [lia |]. exists m. by rewrite lookup_insert_ne by lia.
  - destruct (gs !! i) as [g |] eqn:Hi; [| by intros [= <-]].
    unfold appendNodeInfo. intros E. inv_ok E. inv_ok Ha. apply deref_ok in Ha0.
    destruct (m_nodeInfos g !! _); injection Ha as <-; injection E as <-;
      (apply worldSound_set; [done |]); [by apply (Hgs i) | by apply sound_insert, Ha0; [| apply (Hgs i)]].
  - destruct (gs !! i) as [g |] eqn:Hi; [| by intros [= <-]].
    unfold updateNodeInfo. intros E. inv_ok E. inv_ok Ha. apply deref_ok in Ha0.
    destruct (m_nodeInfos g !! _) as [q |] eqn:Hq; injection Ha as <-; injection E as <-.
    + destruct (Hgs i g Hi _ _ Hq) as (_ & m & Hm & Hmn). rewrite list_insert_id by done.
      by apply (worldSound_store _ _ _ _ m).
    + apply worldSound_set; [done |]. by apply sound_insert, Ha0; [| apply (Hgs i)].
  - destruct (gs !! i) as [g |] eqn:Hi; [| by intros [= <-]].
    unfold removeNodeInfo. intros E. inv_ok E. inv_ok Ha.
    destruct (m_nodeInfos g !! _); injection Ha as <-; injection E as <-;
      (apply worldSound_set; [done |]); [| by apply (Hgs i)].
    intros name q. cbn. rewrite lookup_delete_Some. intros [_ Hq]. by apply (Hgs i g Hi).
Qed.

Lemma performs_sound os w w' : worldSound w -> performs os w = Ok w' -> worldSound w'.
Proof.
  revert w. induction os as [| o os IH]; intros w Hw; [by intros [= <-] |]. cbn. intros E. inv_ok E.
  apply (IH a); [by eapply perform_sound | exact E].
Qed.

(** C27. However groups that share nodes are changed, every group keeps each node under
    the node's own name, and never refers to a node that does not exist. *)
Theorem groups_stay_sound (os : list op) (ids : list (bytes * bytes)) (h : Store) (gs : list GroupInfo)
    (i : nat) (g : GroupInfo)
    (Hrun : performs os (mkStore ∅ 0, map (fun p => newGroup p.1 p.2) ids) = Ok (h, gs))
    (Hi : gs !! i = Some g) :
  sound h g.
Proof.
  apply performs_sound in Hrun as [_ Hgs]; [by apply (Hgs i) |]. split.
  - intros p [n Hn]. cbn in Hn. by rewrite lookup_empty in Hn.
  - intros j g' Hj name p Hp. cbn in Hj. apply list_elem_of_lookup_2, list_elem_of_In, in_map_iff in Hj.
    destruct Hj as (q & <- & _). cbn in Hp. by rewrite lookup_empty in Hp.
Qed.

(** *** End points *)

Import NodeIPEndpoint.

(** End points compare by host and port together: hosts of the same length are told
    apart, but an end point can equal one with another host and another port. *)
Theorem endpoint_equality :
  (forall a b, length (m_host a) = length (m_host b) -> 0 <= m_port a -> 0 <= m_port b ->
     equal a b = true <-> m_host a = m_host b /\ m_port a = m_port b) /\
  exists a b, equal a b = true /\ m_host a <> m_host b /\ m_port a <> m_port b /\
              print a <> print b.
Proof.
  split.
  - intros a b Hl Ha Hb. unfold equal, key. rewrite bool_decide_eq_true. split.
    + intros E. apply app_inj_1 in E as [-> E]; [| done]. split; [done |].
      by apply Numbers.to_string_inj.
    + by intros [-> ->].
  - exists (mkEndpoint (str "10.0.0.1") 110 false), (mkEndpoint (str "10.0.0.11") 10 false).
    split; [reflexivity |]. by split_and!.
Qed.
End MultigroupFacts.

(* ------------------------------------------------------------------ *)
(** ** The hypotheses can be met *)

Module MultigroupWitnesses.
Import ChainNodeInfo GroupInfo MultigroupFacts SampleJson.

Definition sampleNode : ChainNodeInfo :=
  setNodeID (str "id") (appendServiceInfo 7 (str "app.rpc") (namedNodeInfo (str "node0") 1)).

Lemma sampleNode_good : goodNode sampleNode.
Proof.
  split_and!; [done.. |].
  intros t s Hs. cbn in Hs. apply lookup_insert_Some in Hs as [[<- <-] | [_ Hs]]; [split; [lia | done] |].
  by rewrite lookup_empty in Hs.
Qed.

Lemma node_json_roundtrip_witness :
  createNodeInfo 0 (write (ChainNodeInfo.serialize sampleNode)) = Ok (restored sampleNode).
Proof. apply (node_json_roundtrip 0 sampleNode sampleNode_good). Defined.

(** Two groups share a node, which is then overwritten through the first. *)
Definition sampleOps : list op :=
  [Create sampleNode; Append 0 0; Append 1 0; Create (namedNodeInfo (str "node0") 0); Update 0 1].
Definition sampleIds : list (bytes * bytes) :=
  [(str "chain", str "group0"); (str "chain", str "group1")].
Definition sampleWorld : World :=
  match performs sampleOps (mkStore ∅ 0, map (fun p => newGroup p.1 p.2) sampleIds) with
  | Ok w => w
  | _ => (mkStore ∅ 0, [])
  end.
Definition secondGroup : GroupInfo := nth 1 sampleWorld.2 (newGroup [] []).

Lemma groups_stay_sound_witness :
  sound sampleWorld.1 secondGroup /\
  m_nodeType <$> view sampleWorld.1 secondGroup (str "node0") = Some 0.
Proof.
  split; [| vm_compute; reflexivity].
  apply (groups_stay_sound sampleOps sampleIds sampleWorld.1 sampleWorld.2 1 secondGroup);
    vm_compute; reflexivity.
Defined.

Definition oneNode : Store := mkStore {[0%nat := sampleNode]} 1.
Definition oneGroup : GroupInfo :=
  setNodeInfos {[str "node0" := 0%nat]} (newGroup (str "chain") (str "group0")).

Lemma oneGroup_entry name p : m_nodeInfos oneGroup !! name = Some p -> name = str "node0" /\ p = 0%nat.
Proof.
  change (m_nodeInfos oneGroup) with ({[str "node0" := 0%nat]} : gmap bytes nat).
  rewrite lookup_singleton_Some. by intros [<- <-].
Qed.

Lemma group_json_roundtrip_witness :
  exists v h' g', GroupInfo.serializeGroup oneNode oneGroup = Ok v /\
    GroupInfo.deserializeGroup 0 (write v) (mkStore ∅ 0) (setChainNodeInfoFactory (newGroup [] [])) = Ok (h', g') /\
    view h' g' (str "node0") = Some (restored sampleNode).
Proof.
  destruct (group_json_roundtrip 0 [] [] oneNode (mkStore ∅ 0) oneGroup)
    as (v & h' & g' & E1 & E2 & _ & _ & _ & _ & _ & Hv).
  - intros name p E. apply oneGroup_entry in E as [-> ->]. split; [cbn; lia |]. by exists sampleNode.
  - split_and!; [done.. |]. intros name n. unfold view. destruct (m_nodeInfos oneGroup !! name) eqn:E; [| done].
    apply oneGroup_entry in E as [-> ->]. intros [= <-]. apply sampleNode_good.
  - exists v, h', g'. split_and!; [exact E1 | exact E2 |]. by rewrite (Hv (str "node0")).
Defined.
End MultigroupWitnesses.
