(* ===== verification/Records.v ===== *)
(** * Objects that hold values

    Model of the objects of the framework whose methods set and return members: the
    execution messages of libexecutor/NativeExecutionMessage.h, the results of
    libprotocol/TransactionSubmitResultImpl.h, the errors of libutilities/Error.h, the
    peers of interfaces/gateway/GatewayTypeDef.h and the paths of the certificates in
    libtool/NodeConfig.h.  The class [Fielded] is such an object,
    [FieldedLaw] what its users rely on: a member keeps what was set last, whatever other
    members are set in between. *)

From Stdlib Require Import ZArith Lia List.
From Stdlib Require Import Strings.String Strings.Byte.
From stdpp Require Import base tactics decidable list option gmap.
From S2P Require Import Prelude Receipt NodeConfig Multigroup.

(** ** Objects with fields *)

Class Fielded (F R : Type) : Type :=
  { fieldValue : F -> Type
  ; readField : forall f, R -> fieldValue f
  ; writeField : forall f, fieldValue f -> R -> R }.

Class FieldedLaw (F R : Type) `{Fielded F R} : Prop :=
  { read_written f (v : fieldValue f) r : readField f (writeField f v r) = v
  ; read_other f g (v : fieldValue f) r : f <> g -> readField g (writeField f v r) = readField g r }.

Section Fielded.
Context {F R : Type} `{EqDecision F, FieldedLaw F R}.

(** A write: the field and its value. *)
Definition write : Type := { f : F & fieldValue f }.

Definition writeAll (ws : list write) (r : R) : R :=
  fold_left (fun r w => writeField (projT1 w) (projT2 w) r) ws r.

(** The value a sequence of writes leaves in a field, if it writes it. *)
Definition written (f : F) (w : write) : option (fieldValue f) :=
  match decide (projT1 w = f) with
  | left e => Some (eq_rect (projT1 w) fieldValue (projT2 w) f e)
  | right _ => None
  end.

Definition lastWritten (f : F) (ws : list write) : option (fieldValue f) :=
  fold_left (fun o w => match written f w with Some v => Some v | None => o end) ws None.

(** Fields are independent: after any sequence of writes, each field holds the value
    written to it last, or what it held before. *)
Lemma fields_hold_last (ws : list write) (r : R) (f : F) :
  readField f (writeAll ws r) = default (readField f r) (lastWritten f ws).
Proof.
  unfold writeAll, lastWritten. induction ws as [| [g v] ws IH] using rev_ind; [done |].
  rewrite !fold_left_app. cbn [fold_left projT1 projT2]. unfold written at 1. cbn [projT1 projT2].
  destruct (decide (g = f)) as [<- | Hne]; [cbn; apply read_written |].
  by rewrite read_other.
Qed.
End Fielded.

Arguments write F R {_}.

(* ------------------------------------------------------------------ *)
(** ** Execution messages *)

Module ExecutionMessage.
Import Receipt.

Inductive Type_ : Type := TXHASH | MESSAGE | FINISHED | KEY_LOCK | SEND_BACK | REVERT | REVERT_KEY_LOCK.

Record NativeExecutionMessage : Type := mkMessage
  { m_transactionHash : bytes
  ; m_contextID : Z
  ; m_seq : Z
  ; m_origin : bytes
  ; m_from : bytes
  ; m_to : bytes
  ; m_gasAvailable : Z
  ; m_data : bytes
  ; m_createSalt : option Z
  ; m_message : bytes
  ; m_logEntries : list LogEntry
  ; m_newEVMContractAddress : bytes
  ; m_keyLocks : list bytes
  ; m_keyLockAcquired : bytes
  ; m_status : Z
  ; m_depth : Z
  ; m_type : Type_
  ; m_create : bool
  ; m_staticCall : bool }.

Definition createExecutionMessage : NativeExecutionMessage :=
  mkMessage (replicate 32 Byte.x00) 0 0 [] [] [] 0 [] None [] [] [] [] [] 0 0 TXHASH false false.

Inductive field : Type :=
| type | transactionHash | contextID | seq | origin | from | to | depth | create | gasAvailable | data
| staticCall | createSalt | status | message | logEntries | newEVMContractAddress | keyLocks | keyLockAcquired.

#[export] Instance field_eq_dec : EqDecision field.
Proof. solve_decision. Defined.

Definition value (f : field) : Type :=
  match f with
  | type => Type_
  | contextID | seq | depth | gasAvailable | status => Z
  | create | staticCall => bool
  | createSalt => option Z
  | logEntries => list LogEntry
  | keyLocks => list bytes
  | transactionHash | origin | from | to | data | message | newEVMContractAddress | keyLockAcquired => bytes
  end.

(** The methods that return a member. *)
Definition get (f : field) (m : NativeExecutionMessage) : value f :=
  match f with
  | type => m_type m
  | transactionHash => m_transactionHash m
  | contextID => m_contextID m
  | seq => m_seq m
  | origin => m_origin m
  | from => m_from m
  | to => m_to m
  | depth => m_depth m
  | create => m_create m
  | gasAvailable => m_gasAvailable m
  | data => m_data m
  | staticCall => m_staticCall m
  | createSalt => m_createSalt m
  | status => m_status m
  | message => m_message m
  | logEntries => m_logEntries m
  | newEVMContractAddress => m_newEVMContractAddress m
  | keyLocks => m_keyLocks m
  | keyLockAcquired => m_keyLockAcquired m
  end.

(** The methods that set one; [setCreateSalt] always sets a number. *)
Definition set (f : field) : value f -> NativeExecutionMessage -> NativeExecutionMessage :=
  fun v '(mkMessage h c s o fr t g d cs ms le na kl ka st de ty cr sc) =>
  match f return value f -> NativeExecutionMessage with
  | transactionHash => fun h => mkMessage h c s o fr t g d cs ms le na kl ka st de ty cr sc
  | contextID => fun c => mkMessage h c s o fr t g d cs ms le na kl ka st de ty cr sc
  | seq => fun s => mkMessage h c s o fr t g d cs ms le na kl ka st de ty cr sc
  | origin => fun o => mkMessage h c s o fr t g d cs ms le na kl ka st de ty cr sc
  | from => fun fr => mkMessage h c s o fr t g d cs ms le na kl ka st de ty cr sc
  | to => fun t => mkMessage h c s o fr t g d cs ms le na kl ka st de ty cr sc
  | gasAvailable => fun g => mkMessage h c s o fr t g d cs ms le na kl ka st de ty cr sc
  | data => fun d => mkMessage h c s o fr t g d cs ms le na kl ka st de ty cr sc
  | createSalt => fun cs => mkMessage h c s o fr t g d cs ms le na kl ka st de ty cr sc
  | message => fun ms => mkMessage h c s o fr t g d cs ms le na kl ka st de ty cr sc
  | logEntries => fun le => mkMessage h c s o fr t g d cs ms le na kl ka st de ty cr sc
  | newEVMContractAddress => fun na => mkMessage h c s o fr t g d cs ms le na kl ka st de ty cr sc
  | keyLocks => fun kl => mkMessage h c s o fr t g d cs ms le na kl ka st de ty cr sc
  | keyLockAcquired => fun ka => mkMessage h c s o fr t g d cs ms le na kl ka st de ty cr sc
  | status => fun st => mkMessage h c s o fr t g d cs ms le na kl ka st de ty cr sc
  | depth => fun de => mkMessage h c s o fr t g d cs ms le na kl ka st de ty cr sc
  | type => fun ty => mkMessage h c s o fr t g d cs ms le na kl ka st de ty cr sc
  | create => fun cr => mkMessage h c s o fr t g d cs ms le na kl ka st de ty cr sc
  | staticCall => fun sc => mkMessage h c s o fr t g d cs ms le na kl ka st de ty cr sc
  end v.

(** [takeData], [takeLogEntries] and [takeKeyLocks]: a vector that was moved from by its
    move constructor is empty. *)
Definition takeData (m : NativeExecutionMessage) : bytes * NativeExecutionMessage :=
  (m_data m, set data [] m).
Definition takeLogEntries (m : NativeExecutionMessage) : list LogEntry * NativeExecutionMessage :=
  (m_logEntries m, set logEntries [] m).
Definition takeKeyLocks (m : NativeExecutionMessage) : list bytes * NativeExecutionMessage :=
  (m_keyLocks m, set keyLocks [] m).

#[export] Instance message_fielded : Fielded field NativeExecutionMessage :=
  {| fieldValue := value; readField := get; writeField := set |}.
#[export] Instance message_law : FieldedLaw field NativeExecutionMessage.
Proof. split; [by intros [] v [] | by intros [] [] v [] Hne]. Qed.
End ExecutionMessage.

(* ------------------------------------------------------------------ *)
(** ** Results of submitted transactions *)

Module SubmitResult.
Import Receipt.

(** The index has no initial value; the nonce starts as -1, the largest [u256]. *)
Record TransactionSubmitResultImpl : Type := mkResult
  { m_status : Z
  ; m_txHash : bytes
  ; m_blockHash : bytes
  ; m_transactionIndex : option Z
  ; m_nonce : Z
  ; m_receipt : option PBTransactionReceipt }.

Definition createTxSubmitResult : TransactionSubmitResultImpl :=
  mkResult 0 (replicate 32 Byte.x00) (replicate 32 Byte.x00) None (2 ^ 256 - 1) None.

Inductive field : Type := status | txHash | blockHash | index | nonce | transactionReceipt.

#[export] Instance result_field_eq_dec : EqDecision field.
Proof. solve_decision. Defined.

Definition value (f : field) : Type :=
  match f with
  | status | nonce => Z
  | index => option Z
  | txHash | blockHash => bytes
  | transactionReceipt => option PBTransactionReceipt
  end.

Definition getMember (f : field) (r : TransactionSubmitResultImpl) : value f :=
  match f with
  | status => m_status r
  | txHash => m_txHash r
  | blockHash => m_blockHash r
  | index => m_transactionIndex r
  | nonce => m_nonce r
  | transactionReceipt => m_receipt r
  end.

(** The methods that set a member; [setTransactionIndex] always sets a number. *)
Definition setMember (f : field) : value f -> TransactionSubmitResultImpl -> TransactionSubmitResultImpl :=
  fun v '(mkResult st th bh i n rc) =>
  match f return value f -> TransactionSubmitResultImpl with
  | status => fun st => mkResult st th bh i n rc
  | txHash => fun th => mkResult st th bh i n rc
  | blockHash => fun bh => mkResult st th bh i n rc
  | index => fun i => mkResult st th bh i n rc
  | nonce => fun n => mkResult st th bh i n rc
  | transactionReceipt => fun rc => mkResult st th bh i n rc
  end v.

(** [transactionIndex] reads the member whatever it holds. *)
Definition transactionIndex {E} (r : TransactionSubmitResultImpl) : outcome E Z :=
  match m_transactionIndex r with Some i => Ok i | None => Undefined Uninitialised end.

#[export] Instance result_fielded : Fielded field TransactionSubmitResultImpl :=
  {| fieldValue := value; readField := getMember; writeField := setMember |}.
#[export] Instance result_law : FieldedLaw field TransactionSubmitResultImpl.
Proof. split; [by intros [] v [] | by intros [] [] v [] Hne]. Qed.
End SubmitResult.

(* ------------------------------------------------------------------ *)
(** ** Errors *)

Module ErrorRecord.

(** What [<<] attaches to an error. *)
Inductive info : Type :=
| throw_function (func : bytes)
| throw_file (file : bytes)
| throw_line (line : Z)
| PrevStdError (text : bytes).

Record Error : Type := mkError
  { m_errorCode : Z
  ; m_errorMessage : bytes
  ; infos : list info }.

(** [Error()] and [Error(code, message)]. *)
Definition noError : Error := mkError 0 [] [].
Definition newError (errorCode : Z) (errorMessage : bytes) : Error := mkError errorCode errorMessage [].

Definition attach (i : info) (e : Error) : Error :=
  mkError (m_errorCode e) (m_errorMessage e) (infos e ++ [i]).

Definition buildError (func file : bytes) (line errorCode : Z) (errorMessage : bytes) : Error :=
  attach (throw_line line) (attach (throw_file file) (attach (throw_function func)
    (newError errorCode errorMessage))).

(** With an error or exception before it, given Boost's text of that one. *)
Definition buildErrorWithPrev (func file : bytes) (line errorCode : Z) (errorMessage : bytes)
    (diagnostic_information : bytes) : Error :=
  attach (PrevStdError diagnostic_information) (buildError func file line errorCode errorMessage).

(** [setErrorCode]: the argument has 64 bits, the member 32. *)
Definition setErrorCode (errorCode : Z) (e : Error) : Error :=
  mkError (swrap 32 errorCode) (m_errorMessage e) (infos e).
Definition setErrorMessage (errorMessage : bytes) (e : Error) : Error :=
  mkError (m_errorCode e) errorMessage (infos e).
End ErrorRecord.

(* ------------------------------------------------------------------ *)
(** ** Peers *)

Module GatewayPeers.
Import NodeIPEndpoint.

(** asio's addresses: their text, which version they are, and reading a text. *)
Class AsioAddress (A : Type) : Type :=
  { address_to_string : A -> bytes
  ; is_v6 : A -> bool
  ; make_address : bytes -> option A }.
Class AsioAddressLaw (A : Type) `{AsioAddress A} : Prop :=
  { make_address_to_string a : make_address (address_to_string a) = Some a }.

Inductive asio_exn : Type := system_error.

Section Asio.
Context {A : Type} `{AsioAddress A}.

(** The constructors from a host, from an address and from asio's end points, and the
    conversion to these. *)
Definition ofHost (host : bytes) (port : Z) : NodeIPEndpoint := mkEndpoint host port false.
Definition ofAddress (addr : A) (port : Z) : NodeIPEndpoint :=
  mkEndpoint (address_to_string addr) port (is_v6 addr).
Definition ofEndpoint (endpoint : A * Z) : NodeIPEndpoint :=
  mkEndpoint (address_to_string endpoint.1) endpoint.2 (is_v6 endpoint.1).
Definition toEndpoint (e : NodeIPEndpoint) : outcome asio_exn (A * Z) :=
  match make_address (m_host e) with Some a => Ok (a, m_port e) | None => Throw system_error end.
End Asio.

Record P2PInfo : Type := mkP2PInfo
  { p2pID : bytes
  ; agencyName : bytes
  ; nodeName : bytes
  ; nodeIPEndpoint : NodeIPEndpoint }.

Definition NodeIDInfoType : Type := gmap bytes (gset bytes).

Record GatewayInfo : Type := mkGatewayInfo { m_p2pInfo : P2PInfo; m_nodeIDInfo : NodeIDInfoType }.

Definition newGatewayInfo (p : P2PInfo) : GatewayInfo := mkGatewayInfo p ∅.
Definition setNodeIDInfo (n : NodeIDInfoType) (g : GatewayInfo) : GatewayInfo := mkGatewayInfo (m_p2pInfo g) n.
Definition setP2PInfo (p : P2PInfo) (g : GatewayInfo) : GatewayInfo := mkGatewayInfo p (m_nodeIDInfo g).
End GatewayPeers.

(* ------------------------------------------------------------------ *)
(** ** Paths of certificates *)

Module CertPaths.
Import NodeConfig.

Inductive certField : Type :=
| certPath | caCert | nodeCert | nodeKey | smCaCert | smNodeCert | smNodeKey | enSmNodeCert | enSmNodeKey.

#[export] Instance certField_eq_dec : EqDecision certField.
Proof. solve_decision. Defined.

(** The methods of [NodeConfig] that return a path, and those that set one. *)
Definition getCertMember (f : certField) (c : NodeConfig) : bytes :=
  match f with
  | certPath => m_certPath (cert c)
  | caCert => m_caCert (cert c)
  | nodeCert => m_nodeCert (cert c)
  | nodeKey => m_nodeKey (cert c)
  | smCaCert => m_smCaCert (cert c)
  | smNodeCert => m_smNodeCert (cert c)
  | smNodeKey => m_smNodeKey (cert c)
  | enSmNodeCert => m_enSmNodeCert (cert c)
  | enSmNodeKey => m_enSmNodeKey (cert c)
  end.

Definition setCertMember (f : certField) (v : bytes) (c : NodeConfig) : NodeConfig :=
  let '(mkCert p ca nc nk sca snc snk enc enk) := cert c in
  setCert
    match f with
    | certPath => mkCert v ca nc nk sca snc snk enc enk
    | caCert => mkCert p v nc nk sca snc snk enc enk
    | nodeCert => mkCert p ca v nk sca snc snk enc enk
    | nodeKey => mkCert p ca nc v sca snc snk enc enk
    | smCaCert => mkCert p ca nc nk v snc snk enc enk
    | smNodeCert => mkCert p ca nc nk sca v snk enc enk
    | smNodeKey => mkCert p ca nc nk sca snc v enc enk
    | enSmNodeCert => mkCert p ca nc nk sca snc snk v enk
    | enSmNodeKey => mkCert p ca nc nk sca snc snk enc v
    end c.

#[export] Instance cert_fielded : Fielded certField NodeConfig :=
  {| fieldValue := fun _ => bytes; readField := getCertMember; writeField := setCertMember |}.
#[export] Instance cert_law : FieldedLaw certField NodeConfig.
Proof.
  split; [intros f v c | intros f g v c Hne]; cbn; unfold setCertMember; destruct (cert c) eqn:E.
  - by destruct f.
  - destruct f, g; cbn; rewrite ?E; done.
Qed.
End CertPaths.

(* ------------------------------------------------------------------ *)
(** ** Properties *)

Module RecordsFacts.
Import ExecutionMessage.

(** The methods that change a message. *)
Inductive call : Type := Set_ (w : write field NativeExecutionMessage) | TakeData | TakeLogEntries | TakeKeyLocks.

Definition perform (m : NativeExecutionMessage) (c : call) : NativeExecutionMessage :=
  match c with
  | Set_ w => writeField (projT1 w) (projT2 w) m
  | TakeData => (takeData m).2
  | TakeLogEntries => (takeLogEntries m).2
  | TakeKeyLocks => (takeKeyLocks m).2
  end.

(** What a call leaves behind, as a write. *)
Definition writeOf (c : call) : write field NativeExecutionMessage :=
  match c with
  | Set_ w => w
  | TakeData => existT data ([] : bytes)
  | TakeLogEntries => existT logEntries []
  | TakeKeyLocks => existT keyLocks ([] : list bytes)
  end.

(** A message keeps every member as it was set last: after any calls of its methods each
    member is what the last call for it left, or the initial value; data, log entries and
    key locks are handed out once, what was set last, and are empty afterwards. *)
Theorem message_members (cs : list call) (f : field) :
  let m := fold_left perform cs createExecutionMessage in
  get f m = default (get f createExecutionMessage) (lastWritten f (map writeOf cs)) /\
  (takeData m).1 = get data m /\ (takeData (takeData m).2).1 = [] /\
  (takeLogEntries m).1 = get logEntries m /\ (takeLogEntries (takeLogEntries m).2).1 = [] /\
  (takeKeyLocks m).1 = get keyLocks m /\ (takeKeyLocks (takeKeyLocks m).2).1 = [].
Proof.
  intros m. assert (forall m0, fold_left perform cs m0 = writeAll (map writeOf cs) m0) as E.
  { induction cs as [| c cs IH]; intros m0; [done |]. cbn [fold_left map]. rewrite IH. by destruct c. }
  split; [| destruct m; by split_and!]. subst m. rewrite E.
  apply (fields_hold_last (map writeOf cs) createExecutionMessage f).
Qed.

Import CertPaths.

(** The paths of the certificates are those of the file until they are set, each on its
    own; setting one leaves the rest of the configuration as it was. *)
Theorem cert_paths_hold `{Boost.PropertyTree T, Boost.BoostText} (pt : T) (c : NodeConfig.NodeConfig)
    (ws : list (write CertPaths.certField NodeConfig.NodeConfig)) (f : CertPaths.certField) :
  let c0 := NodeConfig.loadCertConfig pt c in
  let c' := writeAll ws c0 in
  readField f c' = default (readField f c0) (lastWritten f ws) /\
  NodeConfig.setCert (NodeConfig.cert c) c' = c.
Proof.
  intros c0 c'. split; [apply (fields_hold_last ws c0 f) |]. subst c'. clear f.
  assert (NodeConfig.setCert (NodeConfig.cert c) c0 = c) as Hc by (by destruct c).
  revert Hc. generalize c0. induction ws as [| [f v] ws IH]; intros c1 Hc; [done |].
  apply (IH (CertPaths.setCertMember f v c1)). rewrite <- Hc. unfold CertPaths.setCertMember.
  by destruct (NodeConfig.cert c1), c1.
Qed.

Import GatewayPeers NodeIPEndpoint.

(** An end point of asio survives the way through the framework's; the version of its
    address is only kept by the constructors that are given an address. *)
Theorem endpoint_roundtrip `{AsioAddressLaw A} (a : A) (port : Z) :
  toEndpoint (ofEndpoint (a, port)) = Ok (a, port) /\ m_ipv6 (ofEndpoint (a, port)) = is_v6 a /\
  ofAddress a port = ofEndpoint (a, port) /\
  toEndpoint (ofHost (address_to_string a) port) = Ok (a, port) /\
  equal (ofHost (address_to_string a) port) (ofAddress a port) = true /\
  (m_ipv6 (ofHost (address_to_string a) port) = is_v6 a <-> is_v6 a = false).
Proof.
  unfold toEndpoint. cbn [m_host m_port ofEndpoint ofHost fst snd]. rewrite make_address_to_string.
  split_and!; try done. by apply bool_decide_eq_true.
Qed.

(** The code of an error is the one it was built with; a code set later is cut to 32
    bits. *)
Lemma error_codes func file line code msg (e : ErrorRecord.Error) c :
  ErrorRecord.m_errorCode (ErrorRecord.buildError func file line code msg) = code /\
  (ErrorRecord.m_errorCode (ErrorRecord.setErrorCode c e) = c <-> - 2 ^ 31 <= c < 2 ^ 31).
Proof.
  split; [done |]. cbn. split; [intros <-; apply (swrap_range 32); lia | intros; apply (swrap_small 32); lia].
Qed.
End RecordsFacts.

Module RecordsWitnesses.
Import GatewayPeers RecordsFacts.

(** Addresses as their text. *)
#[export] Instance textAddress : AsioAddress bytes :=
  {| address_to_string a := a; is_v6 a := bool_decide (":"%byte ∈ a); make_address s := Some s |}.
#[export] Instance textAddress_law : AsioAddressLaw bytes.
Proof. by split. Qed.

Lemma endpoint_roundtrip_witness :
  toEndpoint (ofEndpoint ([":"%byte; "1"%byte], 80)) = Ok ([":"%byte; "1"%byte], 80).
Proof. apply (endpoint_roundtrip [":"%byte; "1"%byte] 80). Defined.
End RecordsWitnesses.
