(* ===== verification/Sync.v ===== *)
(** * Synchronisation of transactions

    Model of libsync/protocol/PB/TxsSyncMsg.{h,cpp}, its factory, and
    libsync/SyncConfig.h.  The generated message TxsSyncMessage is a record with a
    serialiser given by the classes of Protobuf.v.

    [SyncConfig] is shared by threads: each of its lists has a lock of its own, so
    every access under a lock is one step, and a setter is a sequence of them. *)

From Stdlib Require Import ZArith Lia List.
From Stdlib Require Import Strings.String Strings.Byte.
From stdpp Require Import base tactics decidable list option gmap relations.
From S2P Require Import Prelude Protobuf Ledger.
Import Protobuf.

(* ------------------------------------------------------------------ *)
(** ** Messages *)

Module TxsSyncMsg.

(** [TxsSyncMessage]. *)
Record RawSyncMessage : Type := mkRaw
  { version : Z; type : Z; txsdata : bytes; txshash : list bytes }.

Record TxsSyncMsg : Type := mkMsg
  { m_rawSyncMessage : RawSyncMessage; m_txsHash : list bytes; m_from : option bytes }.

Definition newMsg : TxsSyncMsg := mkMsg (mkRaw 0 0 [] []) [] None.

Definition setVersion (v : Z) (m : TxsSyncMsg) : TxsSyncMsg :=
  let r := m_rawSyncMessage m in mkMsg (mkRaw v (type r) (txsdata r) (txshash r)) (m_txsHash m) (m_from m).
Definition setType (v : Z) (m : TxsSyncMsg) : TxsSyncMsg :=
  let r := m_rawSyncMessage m in mkMsg (mkRaw (version r) v (txsdata r) (txshash r)) (m_txsHash m) (m_from m).
Definition setTxsData (v : bytes) (m : TxsSyncMsg) : TxsSyncMsg :=
  let r := m_rawSyncMessage m in mkMsg (mkRaw (version r) (type r) v (txshash r)) (m_txsHash m) (m_from m).
Definition setTxsHash (v : list bytes) (m : TxsSyncMsg) : TxsSyncMsg :=
  let r := m_rawSyncMessage m in mkMsg (mkRaw (version r) (type r) (txsdata r) v) v (m_from m).
Definition setFrom (v : option bytes) (m : TxsSyncMsg) : TxsSyncMsg :=
  mkMsg (m_rawSyncMessage m) (m_txsHash m) v.

(** [HashType(data, 32)] of a field: the zero behind the field belongs to it. *)
Definition readHash (data : bytes) : outcome pb_exn bytes :=
  if len data + 1 <? 32 then Undefined OutOfRange else Ok (take 32 (data ++ [Byte.x00])).

Fixpoint readHashes (l : list bytes) : outcome pb_exn (list bytes) :=
  match l with
  | [] => Ok []
  | d :: l => h ← readHash d ; hs ← readHashes l ; Ok (h :: hs)
  end.

Section Message.
Context `{PBMessage RawSyncMessage}.

Definition deserializeObject (m : TxsSyncMsg) : outcome pb_exn TxsSyncMsg :=
  hs ← readHashes (txshash (m_rawSyncMessage m)) ; Ok (mkMsg (m_rawSyncMessage m) hs (m_from m)).

Definition encode (m : TxsSyncMsg) : outcome pb_exn bytes := encodePBObject (m_rawSyncMessage m).

Definition decode (data : bytes) (m : TxsSyncMsg) : outcome pb_exn TxsSyncMsg :=
  raw ← decodePBObject data ; deserializeObject (mkMsg raw (m_txsHash m) (m_from m)).

(** The factory's [createTxsSyncMsg] of some data. *)
Definition createTxsSyncMsg (data : bytes) : outcome pb_exn TxsSyncMsg := decode data newMsg.
End Message.
End TxsSyncMsg.

(* ------------------------------------------------------------------ *)
(** ** The configuration *)

Module SyncConfig.

Abbreviation ConsensusNode := LedgerConfig.ConsensusNode.

Record SyncConfig : Type := mkConfig
  { m_nodeId : bytes
  ; m_consensusNodeList : list ConsensusNode
  ; m_observerNodeList : list ConsensusNode
  ; m_nodeList : gset bytes
  ; m_connectedNodeList : gset bytes }.

Definition newConfig (nodeId : bytes) : SyncConfig := mkConfig nodeId [] [] ∅ ∅.

Definition existsInGroup (nodeId : bytes) (c : SyncConfig) : bool := bool_decide (nodeId ∈ m_nodeList c).
Definition connected (nodeId : bytes) (c : SyncConfig) : bool :=
  bool_decide (nodeId ∈ m_connectedNodeList c).
Definition setConnectedNodeList (v : gset bytes) (c : SyncConfig) : SyncConfig :=
  mkConfig (m_nodeId c) (m_consensusNodeList c) (m_observerNodeList c) (m_nodeList c) v.

(** The callback, when there is one, is called without an error. *)
Definition notifyConnectedNodes (v : gset bytes) (onRecvResponse : bool) (c : SyncConfig) :
    SyncConfig * bool := (setConnectedNodeList v c, onRecvResponse).

(** The first section of the setters. *)
Definition writeConsensus (v : list ConsensusNode) (c : SyncConfig) : SyncConfig :=
  mkConfig (m_nodeId c) v (m_observerNodeList c) (m_nodeList c) (m_connectedNodeList c).
Definition writeObservers (v : list ConsensusNode) (c : SyncConfig) : SyncConfig :=
  mkConfig (m_nodeId c) (m_consensusNodeList c) v (m_nodeList c) (m_connectedNodeList c).
(** The last section of [updateNodeList]. *)
Definition writeNodeList (nodes : list ConsensusNode) (c : SyncConfig) : SyncConfig :=
  mkConfig (m_nodeId c) (m_consensusNodeList c) (m_observerNodeList c)
    (list_to_set (map LedgerConfig.nodeID nodes)) (m_connectedNodeList c).

(** [updateNodeList] and the setters, undisturbed. *)
Definition updateNodeList (c : SyncConfig) : SyncConfig :=
  writeNodeList (m_consensusNodeList c ++ m_observerNodeList c) c.
Definition setConsensusNodeList (v : list ConsensusNode) (c : SyncConfig) : SyncConfig :=
  updateNodeList (writeConsensus v c).
Definition setObserverList (v : list ConsensusNode) (c : SyncConfig) : SyncConfig :=
  updateNodeList (writeObservers v c).

(** *** Threads *)

(** A thread outside of the setters, after the first section, after it has copied
    the consensus nodes, and with both lists. *)
Inductive thread : Type :=
| Idle
| Written
| HasConsensus (nodes : list ConsensusNode)
| HasBoth (nodes : list ConsensusNode).

Record World : Type := mkWorld { config : SyncConfig; threads : list thread }.

Definition newWorld (nodeId : bytes) (n : nat) : World := mkWorld (newConfig nodeId) (replicate n Idle).

(** The next step of a thread inside a setter. *)
Definition advance (t : thread) (c : SyncConfig) : SyncConfig * thread :=
  match t with
  | Idle => (c, Idle)
  | Written => (c, HasConsensus (m_consensusNodeList c))
  | HasConsensus l => (c, HasBoth (l ++ m_observerNodeList c))
  | HasBoth l => (writeNodeList l c, Idle)
  end.

Inductive step : World -> World -> Prop :=
| CallsConsensus w i v :
    threads w !! i = Some Idle ->
    step w (mkWorld (writeConsensus v (config w)) (<[i := Written]> (threads w)))
| CallsObservers w i v :
    threads w !! i = Some Idle ->
    step w (mkWorld (writeObservers v (config w)) (<[i := Written]> (threads w)))
| Advances w i t :
    threads w !! i = Some t ->
    step w (mkWorld (advance t (config w)).1 (<[i := (advance t (config w)).2]> (threads w))).
End SyncConfig.

(* ------------------------------------------------------------------ *)
(** ** Properties *)

Module SyncFacts.
Import TxsSyncMsg SyncConfig.

Lemma readHashes_ok (l : list bytes) :
  Forall (fun h => length h = 32%nat) l -> readHashes l = Ok l.
Proof.
  induction 1 as [| h l Hh _ IH]; [done |]. cbn [readHashes]. unfold readHash, len. rewrite Hh.
  cbn -[take]. rewrite IH. cbn -[take]. by rewrite take_app_le, take_ge by lia.
Qed.

(** A message built by the setters and encoded is decoded to the same content, with
    all its hashes. *)
Theorem syncMsg_roundtrip `{PBLaw RawSyncMessage} (v ty : Z) (data : bytes) (hashes : list bytes)
    (out : bytes) (m := setTxsHash hashes (setTxsData data (setType ty (setVersion v newMsg))))
    (Hh : Forall (fun h => length h = 32%nat) hashes) (Henc : encode m = Ok out) :
  createTxsSyncMsg out = Ok m.
Proof.
  unfold createTxsSyncMsg, decode. rewrite (decode_encodePBObject _ _ Henc), bind_ok.
  unfold deserializeObject. cbn [m_rawSyncMessage txshash m setTxsHash]. by rewrite readHashes_ok.
Qed.

(** A message from the network whose hashes are too short is read past their end. *)
Theorem short_sync_hash_undefined `{PBMessage RawSyncMessage} (out : bytes) (raw : RawSyncMessage)
    (before after : list bytes) (h : bytes)
    (Hparse : ParseFromArray out = Some raw) (Hraw : txshash raw = before ++ h :: after)
    (Hbefore : Forall (fun h => length h = 32%nat) before) (Hshort : len h < 31) :
  createTxsSyncMsg out = Undefined OutOfRange.
Proof.
  unfold createTxsSyncMsg, decode. rewrite (proj2 (decodePBObject_ok _ _) Hparse), bind_ok.
  unfold deserializeObject. cbn [m_rawSyncMessage]. rewrite Hraw.
  enough (readHashes (before ++ h :: after) = Undefined OutOfRange) as -> by done.
  clear Hraw. induction Hbefore as [| b before Hb _ IH].
  - cbn. unfold readHash. by rewrite (proj2 (Z.ltb_lt _ _)) by lia.
  - cbn. unfold readHash at 1, len. rewrite Hb. cbn -[take]. by rewrite IH.
Qed.

(** *** The lists of nodes *)

Definition members (c : SyncConfig) : gset bytes :=
  list_to_set (map LedgerConfig.nodeID (m_consensusNodeList c ++ m_observerNodeList c)).

(** What a single thread has in hand is current. *)
Definition single (w : World) : Prop :=
  match threads w with
  | [Idle] => m_nodeList (config w) = members (config w)
  | [Written] => True
  | [HasConsensus l] => l = m_consensusNodeList (config w)
  | [HasBoth l] => l = m_consensusNodeList (config w) ++ m_observerNodeList (config w)
  | _ => False
  end.

Lemma single_step w w' : single w -> step w w' -> single w'.
Proof.
  intros Hw Hs. destruct Hs as [w i v Hi | w i v Hi | w i t Hi]; destruct w as [c ts];
    unfold single in *; cbn in *; destruct ts as [| t' [|]]; try done; try (by destruct t');
    destruct i as [| i]; try done; cbn in *; simplify_eq; cbn; try done.
  by destruct t; cbn in *; subst.
Qed.

(** With one thread, the group is the consensus nodes and the observers whenever no
    setter is running, and [existsInGroup] answers accordingly. *)
Theorem single_thread_group_current (nodeId : bytes) (w : World)
    (Hrun : rtc step (newWorld nodeId 1) w) (Hidle : threads w = [Idle]) (id : bytes) :
  existsInGroup id (config w) = true <->
  exists n, In n (m_consensusNodeList (config w) ++ m_observerNodeList (config w)) /\
            LedgerConfig.nodeID n = id.
Proof.
  assert (single w) as Hw by (revert Hrun; apply rtc_invariant; [apply single_step | done]).
  unfold single in Hw. rewrite Hidle in Hw. unfold existsInGroup.
  rewrite bool_decide_eq_true, Hw. unfold members. rewrite elem_of_list_to_set, list_elem_of_In, in_map_iff.
  split; intros (n & H1 & H2); exists n; tauto.
Qed.

Definition nodeA : ConsensusNode := LedgerConfig.newConsensusNode [Byte.x0a].
Definition nodeB : ConsensusNode := LedgerConfig.newConsensusNode [Byte.x0b].

Definition go (w : World) (i : nat) : World :=
  let t := nth i (threads w) Idle in
  mkWorld (advance t (config w)).1 (<[i := (advance t (config w)).2]> (threads w)).

Lemma go_step w i : (i < length (threads w))%nat -> step w (go w i).
Proof.
  intros Hi. unfold go. apply Advances. destruct (lookup_lt_is_Some_2 _ _ Hi) as [t Ht].
  by rewrite (nth_lookup_Some _ _ _ _ Ht).
Qed.

(** The first thread sets the consensus nodes and reads both lists; the second sets
    the observers and completes; then the first completes. *)
Definition startC : World := mkWorld (writeConsensus [nodeA] (newConfig [])) [Written; Idle].
Definition readC : World := go (go startC 0) 0.
Definition startO : World := mkWorld (writeObservers [nodeB] (config readC)) (<[1%nat := Written]> (threads readC)).
Definition stale : World := go (go (go (go startO 1) 1) 1) 0.

Lemma stale_run : rtc step (newWorld [] 2) stale.
Proof.
  eapply rtc_l; [by apply (CallsConsensus (newWorld [] 2) 0 [nodeA]) |].
  eapply rtc_l; [apply (go_step _ 0); cbn; lia |]. eapply rtc_l; [apply (go_step _ 0); cbn; lia |].
  eapply rtc_l; [by apply (CallsObservers readC 1 [nodeB]) |].
  eapply rtc_l; [apply (go_step _ 1); cbn; lia |]. eapply rtc_l; [apply (go_step _ 1); cbn; lia |].
  eapply rtc_l; [apply (go_step _ 1); cbn; lia |]. apply rtc_once, (go_step _ 0). cbn. lia.
Qed.

(** With two threads, a setter that was overtaken can leave a group without nodes
    that have been set, although no setter is running any more. *)
Theorem concurrent_setters_stale :
  exists w, rtc step (newWorld [] 2) w /\ threads w = [Idle; Idle] /\
    exists n, In n (m_consensusNodeList (config w) ++ m_observerNodeList (config w)) /\
              existsInGroup (LedgerConfig.nodeID n) (config w) = false.
Proof.
  exists stale. split; [exact stale_run |]. split; [done |]. exists nodeB.
  split; [right; by left | vm_compute; reflexivity].
Qed.
End SyncFacts.

(* ------------------------------------------------------------------ *)
(** ** The hypotheses can be met *)

Module SyncWitnesses.
Import TxsSyncMsg SyncConfig SyncFacts.

#[local] Instance syncMessage : PBMessage RawSyncMessage :=
  fieldsMessage
    (fun r => [numberBytes (version r); numberBytes (type r); txsdata r] ++ txshash r)
    (fun fs => match fs with
               | v :: t :: d :: hs =>
                   v ← bytesNumber v; t ← bytesNumber t; Some (mkRaw v t d hs)
               | _ => None
               end).

#[local] Instance syncMessage_law : PBLaw RawSyncMessage.
Proof. apply fieldsMessage_law. intros [v t d hs]. cbn. by rewrite !bytesNumber_numberBytes. Qed.

Definition sampleHashes : list bytes := [be_bytes 32 7; be_bytes 32 8].
Definition sampleMsg : TxsSyncMsg :=
  setTxsHash sampleHashes (setTxsData [Byte.x01] (setType 3 (setVersion 1 newMsg))).
Definition sampleData : bytes := match encode sampleMsg with Ok d => d | _ => [] end.

Lemma syncMsg_roundtrip_witness : createTxsSyncMsg sampleData = Ok sampleMsg.
Proof.
  apply (syncMsg_roundtrip 1 3 [Byte.x01] sampleHashes sampleData); [| vm_compute; reflexivity].
  repeat (apply List.Forall_cons || apply List.Forall_nil); reflexivity.
Defined.

Definition shortMsg : TxsSyncMsg := setTxsHash [be_bytes 32 7; be_bytes 8 9] newMsg.
Definition shortData : bytes := match encode shortMsg with Ok d => d | _ => [] end.

Lemma short_sync_hash_undefined_witness : createTxsSyncMsg shortData = Undefined OutOfRange.
Proof.
  apply (short_sync_hash_undefined shortData (m_rawSyncMessage shortMsg) [be_bytes 32 7] [] (be_bytes 8 9));
    [vm_compute; reflexivity | reflexivity | | reflexivity].
  repeat (apply List.Forall_cons || apply List.Forall_nil); reflexivity.
Defined.

Definition oneSet : World :=
  go (go (go (mkWorld (writeConsensus [nodeA] (newConfig [])) [Written]) 0) 0) 0.

Lemma single_thread_group_current_witness :
  existsInGroup [Byte.x0a] (config oneSet) = true <->
  exists n, In n (m_consensusNodeList (config oneSet) ++ m_observerNodeList (config oneSet)) /\
            LedgerConfig.nodeID n = [Byte.x0a].
Proof.
  apply (single_thread_group_current [] oneSet); [| reflexivity].
  eapply rtc_l; [by apply (CallsConsensus (newWorld [] 1) 0 [nodeA]) |].
  eapply rtc_l; [apply (go_step _ 0); cbn; lia |]. eapply rtc_l; [apply (go_step _ 0); cbn; lia |].
  apply rtc_once, (go_step _ 0). cbn. lia.
Defined.
End SyncWitnesses.
