(* ===== verification/Fixtures.v ===== *)
(** * Test fixtures of headers, transactions, receipts and messages

    Model of testutils/protocol/FakeBlockHeader.h, FakeTransaction.h,
    FakeTransactionReceipt.h and testutils/sync/FakeTxsSyncMsg.h: functions that
    build an object, encode and decode it, and check the copy.  Each returns the
    list of its checks with the object it built; the properties say that the checks
    hold for every argument, not only for those of the tests. *)

From Stdlib Require Import ZArith Lia List.
From Stdlib Require Import Strings.String Strings.Byte.
From stdpp Require Import base tactics decidable list option.
From S2P Require Import Prelude DataConvert Numbers FixedBytes ScaleStream ScaleTypes Merkle Protobuf.
From S2P Require Import Transaction Signatures Receipt BlockHeader Block PBBlock Sync.
Import StreamFacts Protobuf Crypto Signatures.

(** A list of checks passes. *)
Definition passes (checks : list bool) : bool := forallb id checks.

Lemma passes_app (a b : list bool) : passes (a ++ b) = passes a && passes b.
Proof. apply forallb_app. Qed.

(** A loop over the decoded elements that indexes the original vector. *)
Fixpoint checkEach {E A} (check : A -> A -> list bool) (decoded original : list A) :
    outcome E (list bool) :=
  match decoded, original with
  | [], _ => Ok []
  | d :: decoded, o :: original => rest ← checkEach check decoded original; Ok (check d o ++ rest)
  | _ :: _, [] => Undefined OutOfRange
  end.

Lemma checkEach_same {E A} (check : A -> A -> list bool) (l : list A) :
  (forall x, passes (check x x) = true) ->
  exists checks, checkEach (E := E) check l l = Ok checks /\ passes checks = true.
Proof.
  intros Hc. induction l as [| x l (checks & IH & Hp)]; [by exists [] |]. cbn [checkEach].
  rewrite IH, bind_ok. eexists. split; [done |]. by rewrite passes_app, Hc, Hp.
Qed.

(** The first byte of the encoded data is incremented. *)
Definition bump {E} (data : bytes) : outcome E bytes :=
  match data with
  | [] => Undefined OutOfRange
  | b :: data => Ok (z2b (u8 (b2z b + 1)) :: data)
  end.

(* ------------------------------------------------------------------ *)
(** ** Headers *)

Module HeaderFixture.
Import BlockHeader.

#[export] Instance parentInfo_eq_dec : EqDecision ParentInfo.
Proof. solve_decision. Defined.
#[export] Instance signature_eq_dec : EqDecision Signature.
Proof. solve_decision. Defined.

Definition checkSignature (s o : Signature) : list bool :=
  [index s =? index o; bool_decide (signature s = signature o)].

Definition checkBlockHeader (blockHeader decoded : BlockHeader) : outcome header_exn (list bool) :=
  let f := fields blockHeader in
  let d := fields decoded in
  sealers ← checkEach (fun x y => [bool_decide (x = y)]) (m_sealerList d) (m_sealerList f);
  signatures ← checkEach checkSignature (m_signatureList decoded) (m_signatureList blockHeader);
  Ok ([version (m_blockHeader decoded) =? version (m_blockHeader blockHeader);
       bool_decide (m_parentInfo d = m_parentInfo f);
       bool_decide (m_txsRoot d = m_txsRoot f);
       bool_decide (m_receiptsRoot d = m_receiptsRoot f);
       bool_decide (m_stateRoot d = m_stateRoot f);
       bool_decide (m_number d = m_number f);
       m_gasUsed d =? m_gasUsed f;
       m_timestamp d =? m_timestamp f;
       m_sealer d =? m_sealer f;
       len (m_sealerList d) =? len (m_sealerList f)] ++ sealers ++
      [bool_decide (m_extraData d = m_extraData f);
       bool_decide (m_consensusWeights d = m_consensusWeights f);
       len (m_signatureList decoded) =? len (m_signatureList blockHeader)] ++ signatures).

(** The calls of the setters. *)
Definition fakeHeader (version : Z) (parentInfo : list ParentInfo) (txsRoot receiptsRoot stateRoot : bytes)
    (number gasUsed timestamp sealer : Z) (sealerList : list bytes) (extraData : bytes)
    (signatureList : list Signature) : BlockHeader :=
  let h := setVersion version newBlockHeader in
  let h := setParentInfo parentInfo h in
  let h := setStateRoot stateRoot (setReceiptsRoot receiptsRoot (setTxsRoot txsRoot h)) in
  let h := setTimestamp timestamp (setGasUsed gasUsed (setNumber number h)) in
  let h := setExtraData extraData (setSealerList sealerList (setSealer sealer h)) in
  setConsensusWeights [0] (setSignatureList signatureList h).

Section Fixture.
Context `{Platform, CryptoSuite, PBMessage RawBlockHeader}.

Definition hashTwice (h : BlockHeader) : outcome header_exn BlockHeader :=
  '(_, h) ← hash hashImpl h; '(_, h) ← hash hashImpl h; Ok h.

(** [fakeAndTestBlockHeader] from the hashing on; the branches of [parallel_invoke]
    are taken in order. *)
Definition testHeader (number : Z) (h : BlockHeader) : outcome header_exn (list bool * BlockHeader) :=
  h ← hashTwice h; h ← hashTwice h;
  '(encodedData, h) ← encodeHeader SerializeToArray h;
  '(buffer, h) ← encodeHeader SerializeToArray h;
  decoded ← PBBlock.createBlockHeader encodedData;
  checks ← checkBlockHeader h decoded;
  changed ← bump encodedData;
  refused ← match PBBlock.createBlockHeader changed with
            | Ok _ => Ok false
            | Throw PBObjectDecodeException => Ok true
            | Throw e => Throw e
            | Undefined f => Undefined f
            end;
  if number =? 2 ^ 63 - 1 then Undefined SignedOverflow
  else
    let h := setNumber (number + 1) h in
    '(hash1, h) ← hash hashImpl h;
    '(hash2, decoded) ← hash hashImpl decoded;
    let next := bool_decide (m_number (fields h) = Z.succ <$> m_number (fields decoded)) in
    let h := setNumber number h in
    '(hash3, h) ← hash hashImpl h;
    '(hash4, decoded) ← hash hashImpl decoded;
    weight ← match m_consensusWeights (fields decoded) with
             | [] => Undefined OutOfRange
             | w :: _ => Ok (w =? 0)
             end;
    Ok ([bool_decide (encodedData = buffer)] ++ checks ++
        [refused; negb (bool_decide (hash1 = hash2)); next; bool_decide (hash3 = hash4);
         len (m_consensusWeights (fields decoded)) =? 1; weight], h).

Definition fakeAndTestBlockHeader (version : Z) (parentInfo : list ParentInfo)
    (txsRoot receiptsRoot stateRoot : bytes) (number gasUsed timestamp sealer : Z)
    (sealerList : list bytes) (extraData : bytes) (signatureList : list Signature) :
    outcome header_exn (list bool * BlockHeader) :=
  testHeader number (fakeHeader version parentInfo txsRoot receiptsRoot stateRoot number gasUsed
    timestamp sealer sealerList extraData signatureList).
End Fixture.

(** [fakeParentInfo]: each parent named by its number. *)
Definition fakeParentInfo `{CryptoSuite} (size : nat) : list ParentInfo :=
  map (fun i => mkParentInfo (Z.of_nat i) (hashImpl (Numbers.to_string (Z.of_nat i)))) (seq 0 size).

(** [fakeSealerList], with the seeds the generator will draw. *)
Fixpoint fakeSealerList (signImpl : SignatureCrypto) (keyPairVec : list KeyPair) (seeds : list Z) :
    outcome sig_exn (list bytes * list KeyPair) :=
  match seeds with
  | [] => Ok ([], keyPairVec)
  | seed :: seeds =>
      keyPair ← generateKeyPair signImpl seed;
      '(sealerList, keyPairVec) ← fakeSealerList signImpl (keyPairVec ++ [keyPair]) seeds;
      Ok (publicKey keyPair :: sealerList, keyPairVec)
  end.

(** [fakeSignatureList], from the index of the first key on. *)
Fixpoint fakeSignatureList (signImpl : SignatureCrypto) (sealerIndex : Z) (keyPairVec : list KeyPair)
    (hash : bytes) : outcome sig_exn (list Signature) :=
  match keyPairVec with
  | [] => Ok []
  | keyPair :: keyPairVec =>
      sig ← signHash signImpl keyPair hash false;
      signatureList ← fakeSignatureList signImpl (sealerIndex + 1) keyPairVec hash;
      Ok (mkSignature sealerIndex sig :: signatureList)
  end.
End HeaderFixture.

Module HeaderFixtureFacts.
Import BlockHeader BlockHeaderFacts SignatureFacts HeaderFixture.

Lemma checkBlockHeader_same (h d : BlockHeader) :
  fields d = fields h -> m_signatureList d = m_signatureList h ->
  version (m_blockHeader d) = version (m_blockHeader h) ->
  exists checks, checkBlockHeader h d = Ok checks /\ passes checks = true.
Proof.
  intros Hf Hs Hv. unfold checkBlockHeader. rewrite Hf, Hs, Hv.
  destruct (checkEach_same (E := header_exn) (fun x y => [bool_decide (x = y)]) (m_sealerList (fields h)))
    as (c1 & -> & H1). { intros x. cbn. by rewrite bool_decide_eq_true_2. }
  rewrite bind_ok.
  destruct (checkEach_same (E := header_exn) checkSignature (m_signatureList h)) as (c2 & -> & H2).
  { intros x. cbn. by rewrite Z.eqb_refl, bool_decide_eq_true_2. }
  rewrite bind_ok. eexists. split; [done |]. rewrite !passes_app, H1, H2. unfold passes. cbn [forallb id].
  rewrite !Z.eqb_refl, !bool_decide_eq_true_2 by done. done.
Qed.

Section Facts.
Context `{PlatformLaw, CryptoSuite, PBLaw RawBlockHeader}.

(** Nothing a caller sees of a header differs. *)
Definition sameAs (h h' : BlockHeader) : Prop :=
  coherent h' /\ fields h' = fields h /\ m_signatureList h' = m_signatureList h /\
  version (m_blockHeader h') = version (m_blockHeader h).

Lemma sameAs_trans (h1 h2 h3 : BlockHeader) : sameAs h1 h2 -> sameAs h2 h3 -> sameAs h1 h3.
Proof. intros (_ & E1 & E2 & E3) (Hc & F1 & F2 & F3). split_and!; congruence. Qed.

(** The digest of the fields. *)
Definition digest (f : HashFields) (n : Z) : bytes := hashImpl (image (toTuple f n)).

Lemma hash_fields (h : BlockHeader) (n : Z) :
  coherent h -> m_number (fields h) = Some n -> valid (toTuple (fields h) n) ->
  exists h', hash hashImpl h = Ok (digest (fields h) n, h') /\ sameAs h h'.
Proof.
  intros Hc Hn Hv. unfold hash.
  assert (exists h', encodeHashFields h = Ok h') as [h' He].
  { unfold encodeHashFields. destruct (0 <? _); [eauto |]. rewrite (encodeFields_image _ n) by done. eauto. }
  destruct (encodeHashFields_coherent h h' Hc He) as (Hc' & Hd & Hf & Hs & Hver).
  rewrite (encodeFields_image _ n) in Hd by done. apply (inj Ok) in Hd.
  rewrite He, bind_ok. exists h'. unfold digest. rewrite Hd. done.
Qed.

Lemma hashTwice_same (h : BlockHeader) (n : Z) :
  coherent h -> m_number (fields h) = Some n -> valid (toTuple (fields h) n) ->
  exists h', hashTwice h = Ok h' /\ sameAs h h'.
Proof.
  intros Hc Hn Hv. destruct (hash_fields h n Hc Hn Hv) as (h1 & E1 & S1).
  pose proof S1 as (Hc1 & Hf1 & _). destruct (hash_fields h1 n) as (h2 & E2 & S2); [done | by rewrite Hf1.. |].
  exists h2. unfold hashTwice. rewrite E1, bind_ok, E2, bind_ok. split; [done |]. by eapply sameAs_trans.
Qed.

(** The message a header is encoded to. *)
Definition message (h : BlockHeader) (n : Z) : RawBlockHeader :=
  mkRaw (version (m_blockHeader h)) (image (toTuple (fields h) n))
    (map (fun s => (index s, signature s)) (m_signatureList h)).

Lemma message_same (h h' : BlockHeader) (n : Z) : sameAs h h' -> message h' n = message h n.
Proof. intros (_ & Hf & Hs & Hv). unfold message. by rewrite Hf, Hs, Hv. Qed.

Lemma encodeHeader_message (h : BlockHeader) (n : Z) :
  coherent h -> m_number (fields h) = Some n -> valid (toTuple (fields h) n) ->
  exists h', sameAs h h' /\ encodeHeader SerializeToArray h =
    match SerializeToArray (message h n) with
    | Some data => Ok (data, h')
    | None => Throw PBObjectEncodeException
    end.
Proof.
  intros Hc Hn Hv. destruct (hash_fields h n Hc Hn Hv) as (h1 & Hh & Hs1).
  unfold hash in Hh. apply bind_ok_inv in Hh as (h1' & He & [= _ <-]).
  destruct (encodeHashFields_coherent h h1' Hc He) as (Hc1 & Hd & Hf & Hs & Hver).
  rewrite (encodeFields_image _ n) in Hd by done. apply (inj Ok) in Hd.
  destruct (encodeSignatureList_coherent h1' Hc1) as [Hc2 Hsig].
  exists (encodeSignatureList h1'). split.
  - apply (sameAs_trans h h1'); [done |]. split_and!; [done | | |]; unfold encodeSignatureList; by destruct (0 <? _).
  - unfold encodeHeader. rewrite He, bind_ok. cbv zeta. unfold message.
    rewrite Hd, <- Hver, <- Hs, <- Hsig, <- encodeSignatureList_data, <- encodeSignatureList_version.
    by destruct (m_blockHeader (encodeSignatureList h1')).
Qed.

(** What is read from the bytes of the message. *)
Lemma createBlockHeader_message (h : BlockHeader) (n : Z) (data : bytes) :
  coherent h -> m_number (fields h) = Some n -> valid (toTuple (fields h) n) ->
  fits (image (toTuple (fields h) n)) -> SerializeToArray (message h n) = Some data ->
  exists d, PBBlock.createBlockHeader data = Ok d /\ fields d = fields h /\
    m_signatureList d = m_signatureList h /\ version (m_blockHeader d) = version (m_blockHeader h) /\
    hash hashImpl d = Ok (digest (fields h) n, d).
Proof.
  intros Hc Hn Hv Hfit Hs. destruct (encodeHeader_message h n Hc Hn Hv) as (h2 & S2 & He). rewrite Hs in He.
  destruct (encodeHeader_decode SerializeToArray ParseFromArray hashImpl h h2 data
    (fun r d => parse_serialize r d) Hc (ex_intro _ n (conj Hn (conj Hv Hfit))) He)
    as (_ & _ & _ & d & Hd & _ & Hf & Hsig & Hver & dig & Hdig & Hhash).
  destruct (hash_fields h n Hc Hn Hv) as (h1 & E1 & _). rewrite E1, bind_ok in Hdig. cbn [fst] in Hdig.
  injection Hdig as <-. exists d. by split_and!.
Qed.

(** The next number is as good, short of the largest one. *)
Lemma valid_next (f : HashFields) (n : Z) :
  valid (toTuple f n) -> n <> 2 ^ 63 - 1 -> valid (toTuple f (n + 1)).
Proof.
  intros (H1' & H2' & H3' & H4' & [Hr Hmin] & H6') Hn.
  change (- 2 ^ 63 <= n < 2 ^ 63) in Hr. do 4 (split; [done |]). split; [| exact H6']. split.
  - change (- 2 ^ 63 <= n + 1 < 2 ^ 63). lia.
  - change ((n + 1 =? - 2 ^ 63) = false). lia.
Qed.

Lemma setNumber_same (h : BlockHeader) (n : Z) :
  coherent h ->
  coherent (setNumber n h) /\ m_number (fields (setNumber n h)) = Some n /\
  (forall m, toTuple (fields (setNumber n h)) m = toTuple (fields h) m) /\
  (m_number (fields h) = Some n -> fields (setNumber n h) = fields h).
Proof.
  intros Hc. split; [by apply assign_coherent |]. destruct h as [r c [] l m]. cbn. split_and!; try done. by intros ->.
Qed.

(** The part of the fixture after the decoding. *)
Lemma test_passes (h : BlockHeader) (n : Z) :
  coherent h -> m_number (fields h) = Some n -> n <> 2 ^ 63 - 1 -> valid (toTuple (fields h) n) ->
  fits (image (toTuple (fields h) n)) -> m_consensusWeights (fields h) = [0] ->
  (forall data, SerializeToArray (message h n) = Some data ->
     exists changed, bump data = (Ok changed : outcome header_exn _) /\ ParseFromArray (M := RawBlockHeader) changed = None) ->
  testHeader n h = Throw PBObjectEncodeException \/
  exists checks h', testHeader n h = Ok (checks, h') /\ coherent h' /\ fields h' = fields h /\
    m_signatureList h' = m_signatureList h /\
    (passes checks = true <-> digest (fields h) (n + 1) <> digest (fields h) n).
Proof.
  intros Hc Hn Hmax Hv Hfit Hw Hb. unfold testHeader.
  destruct (hashTwice_same h n Hc Hn Hv) as (h1 & -> & S1). rewrite bind_ok.
  pose proof S1 as (C1 & F1 & _). destruct (hashTwice_same h1 n) as (h2 & -> & S2); [done | by rewrite F1.. |].
  rewrite bind_ok. pose proof (sameAs_trans _ _ _ S1 S2) as S2'. pose proof S2' as (C2 & F2 & _).
  destruct (encodeHeader_message h2 n) as (h3 & S3 & ->); [done | by rewrite F2.. |].
  rewrite (message_same h h2 n S2').
  destruct (SerializeToArray (message h n)) as [data |] eqn:Hs; [| by left]. right. rewrite bind_ok.
  pose proof (sameAs_trans _ _ _ S2' S3) as S3'. pose proof S3' as (C3 & F3 & G3 & V3).
  destruct (encodeHeader_message h3 n) as (h4 & S4 & ->); [done | by rewrite F3.. |].
  rewrite (message_same h h3 n S3'), Hs, bind_ok.
  pose proof (sameAs_trans _ _ _ S3' S4) as (C4 & F4 & G4 & V4).
  destruct (createBlockHeader_message h n data Hc Hn Hv Hfit Hs) as (d & -> & Fd & Gd & Vd & Hd). rewrite bind_ok.
  destruct (checkBlockHeader_same h4 d) as (checks & -> & Hchecks); [congruence.. |]. rewrite bind_ok.
  destruct (Hb data eq_refl) as (changed & -> & Hp). rewrite bind_ok.
  unfold PBBlock.createBlockHeader at 1, decodeHeader. rewrite Hp, bind_ok.
  rewrite (proj2 (Z.eqb_neq _ _) Hmax).
  destruct (setNumber_same h4 (n + 1) C4) as (C5 & N5 & T5 & _).
  destruct (hash_fields (setNumber (n + 1) h4) (n + 1)) as (h5 & -> & (C5' & F5 & G5 & V5));
    [done | done | rewrite T5, F4; by apply valid_next |].
  rewrite bind_ok, Hd, bind_ok.
  destruct (setNumber_same h5 n C5') as (C6 & N6 & T6 & _).
  assert (forall m, toTuple (fields (setNumber n h5)) m = toTuple (fields h) m) as T6'
    by (intros m; by rewrite T6, F5, T5, F4).
  destruct (hash_fields (setNumber n h5) n) as (h6 & -> & (C6' & F6 & G6 & V6)); [done | done | by rewrite T6' |].
  rewrite bind_ok, Hd, bind_ok, Fd, Hw, bind_ok. eexists _, h6. split; [reflexivity |].
  unfold digest. rewrite !T6', T5, F4, F5, N5, Hn.
  split; [done | split; [| split]].
  - rewrite F6. unfold setNumber. cbn [assign noteDirty fields]. rewrite F5. unfold setNumber.
    cbn [assign noteDirty fields]. rewrite F4. destruct (fields h); cbn in *. by rewrite Hn.
  - rewrite G6. cbn. rewrite G5. cbn. by rewrite G4.
  - rewrite !passes_app, Hchecks. unfold passes. cbn [forallb id].
    set (x := hashImpl (image (toTuple (fields h) n))). set (y := hashImpl (image (toTuple (fields h) (n + 1)))).
    rewrite (bool_decide_eq_true_2 (x = x)), (bool_decide_eq_true_2 (data = data)) by done.
    rewrite (bool_decide_eq_true_2 (Some (n + 1) = Z.succ <$> Some n)) by done.
    rewrite !andb_true_r. cbn [andb len length Z.of_nat Z.eqb Pos.eqb].
    by rewrite negb_true_iff, bool_decide_eq_false.
Qed.

Lemma fakeHeader_spec ver parents txs receipts state number gas time sealer sealers extra sigs :
  let h := fakeHeader ver parents txs receipts state number gas time sealer sealers extra sigs in
  coherent h /\ m_signatureList h = sigs /\ version (m_blockHeader h) = ver /\
  fields h = mkFields parents txs receipts state (Some number) gas time sealer sealers [0] extra.
Proof. split; [| done]. split; by left. Qed.

(** *** Sealers *)

Definition generated (impl : SignatureCrypto) (kp : KeyPair) : Prop :=
  exists seed, generateKeyPair impl seed = Ok kp.

Lemma fakeSealerList_spec (impl : SignatureCrypto) (seeds : list Z) (kps0 kps : list KeyPair)
    (sealers : list bytes) :
  fakeSealerList impl kps0 seeds = Ok (sealers, kps) ->
  exists new, kps = kps0 ++ new /\ sealers = map publicKey new /\ Forall (generated impl) new.
Proof.
  revert kps0 sealers. induction seeds as [| seed seeds IH]; intros kps0 sealers Hs; cbn in Hs.
  - injection Hs as <- <-. exists []. by rewrite app_nil_r.
  - apply bind_ok_inv in Hs as (kp & Hg & Hs). apply bind_ok_inv in Hs as ([l ks] & Hs & [= <- <-]).
    destruct (IH _ _ Hs) as (new & -> & -> & Hnew). exists (kp :: new). rewrite <- app_assoc.
    split_and!; [done.. |]. constructor; [by exists seed | done].
Qed.

(** The check of a signature, false where the implementation throws. *)
Definition accepts (impl : SignatureCrypto) (key message sig : bytes) : bool :=
  okOr (verifyBytes impl key message sig) false.

Lemma fakeSignatureList_spec (impl : SignatureCrypto) `{SignatureLaw impl} (kps pre : list KeyPair)
    (message : bytes) :
  length message = 32%nat -> Forall (generated impl) kps ->
  exists sigs, fakeSignatureList impl (len pre) kps message = Ok sigs /\ length sigs = length kps /\
    Forall (fun s => 0 <= index s /\ exists key,
      map publicKey (pre ++ kps) !! Z.to_nat (index s) = Some key /\
      accepts impl key message (signature s) = true) sigs.
Proof.
  intros Hm Hk. revert pre. induction Hk as [| kp kps (seed & Hg) _ IH]; intros pre; [by exists [] |].
  destruct (signature_law seed kp Hg) as [_ Hlaw]. destruct (Hlaw message false Hm) as (s & Hs & Hv & _).
  destruct (IH (pre ++ [kp])) as (sigs & Hsigs & Hl & Hall). rewrite len_app in Hsigs. change (len [kp]) with 1 in Hsigs.
  rewrite <- app_assoc in Hall. cbn [app] in Hall.
  exists (mkSignature (len pre) s :: sigs). cbn [fakeSignatureList]. rewrite Hs, bind_ok, Hsigs, bind_ok.
  split_and!; [done | cbn; by rewrite Hl |]. constructor; [| done]. cbn [index signature].
  split; [apply len_nonneg |]. exists (publicKey kp). unfold len. rewrite Nat2Z.id.
  split; [| unfold accepts; by rewrite Hv]. rewrite map_app, lookup_app_r, length_map, Nat.sub_diag by (rewrite length_map; done). done.
Qed.

Lemma hash_signatures (sigs : list Signature) (h h' : BlockHeader) (dig : bytes) :
  hash hashImpl h = Ok (dig, h') -> exists h'', hash hashImpl (setSignatureList sigs h) = Ok (dig, h'').
Proof.
  unfold hash, encodeHashFields. cbn [setSignatureList noteSignatureDirty m_blockHeader hashfieldsdata fields].
  destruct (0 <? _); [rewrite !bind_ok; intros [= <- _]; eauto |].
  destruct (encodeFields (fields h)); [| done..]. rewrite !bind_ok. intros [= <- _]. eauto.
Qed.

Lemma signatures_verify (impl : SignatureCrypto) `{SignatureLaw impl} (kps : list KeyPair)
    (h h' : BlockHeader) (dig : bytes) :
  length dig = 32%nat -> Forall (generated impl) kps -> m_sealerList (fields h) = map publicKey kps ->
  hash hashImpl h = Ok (dig, h') ->
  exists sigs, fakeSignatureList impl 0 kps dig = Ok sigs /\ length sigs = length kps /\
    forall g, fields g = fields h -> m_signatureList g = sigs ->
      (exists g', hash hashImpl g = Ok (dig, g')) -> verifySignatureList hashImpl (accepts impl) g = Ok ().
Proof.
  intros Hd Hk Hl Hh. destruct (fakeSignatureList_spec impl kps [] dig Hd Hk) as (sigs & Hs & Hlen & Hall).
  exists sigs. split_and!; [done.. |]. intros g Hf Hg (g' & Hgh). unfold verifySignatureList.
  rewrite Hf, Hg, Hl. unfold len. rewrite Hlen, length_map.
  rewrite (proj2 (Z.ltb_ge _ _)) by lia. destruct sigs as [| s sigs]; [done |].
  rewrite Hgh, bind_ok. by apply verifyEach_spec.
Qed.
End Facts.
End HeaderFixtureFacts.

Module HeaderFixtureTheorems.
Import BlockHeader BlockHeaderFacts SignatureFacts HeaderFixture HeaderFixtureFacts.

(** The checks of [fakeAndTestBlockHeader] hold for every header the coder can
    carry: unless protobuf fails to serialise the message, the fixture returns the
    header it was asked for, and all its checks pass exactly when the digests of
    the header and of its successor number differ, given that protobuf refuses the
    changed bytes. *)
Theorem header_fixture_passes `{PlatformLaw, CryptoSuite, PBLaw RawBlockHeader}
    (ver : Z) (parents : list ParentInfo) (txs receipts state : bytes) (number gas time sealer : Z)
    (sealers : list bytes) (extra : bytes) (sigs : list Signature) :
  let f := mkFields parents txs receipts state (Some number) gas time sealer sealers [0] extra in
  let run := fakeAndTestBlockHeader ver parents txs receipts state number gas time sealer sealers extra sigs in
  number <> 2 ^ 63 - 1 -> valid (toTuple f number) -> fits (image (toTuple f number)) ->
  (forall data,
     SerializeToArray (mkRaw ver (image (toTuple f number)) (map (fun s => (index s, signature s)) sigs)) = Some data ->
     exists changed, bump data = (Ok changed : outcome header_exn _) /\ ParseFromArray (M := RawBlockHeader) changed = None) ->
  run = Throw PBObjectEncodeException \/
  exists checks h, run = Ok (checks, h) /\ fields h = f /\ m_signatureList h = sigs /\
    (passes checks = true <-> digest f (number + 1) <> digest f number).
Proof.
  intros f run Hmax Hv Hfit Hb. subst run. unfold fakeAndTestBlockHeader.
  destruct (fakeHeader_spec ver parents txs receipts state number gas time sealer sealers extra sigs)
    as (Hc & Hs & Hver & Hf). fold f in Hf.
  pose proof (test_passes _ number Hc) as Ht. unfold message in Ht. rewrite Hf, Hs, Hver in Ht.
  destruct Ht as [Ht | (checks & h & Ht & _ & Hrest)]; [done.. | by left |]. right. by exists checks, h.
Qed.

(** C24. Sealers with generated keys who sign the hash of a header that lists them: the
    signatures are accepted, on the header itself and on the copy decoded from its
    bytes, with either signature scheme. *)
Theorem sealed_header_verifies `{PlatformLaw, CryptoLaw, PBLaw RawBlockHeader, WedprLaw} (sm : bool)
    (seeds : list Z) (sealers : list bytes) (kps : list KeyPair) (os : list op) (h h1 : BlockHeader) (dig : bytes) :
  let impl := if sm then SM2SignatureImpl else Secp256k1SignatureImpl in
  fakeSealerList impl [] seeds = Ok (sealers, kps) ->
  calls SerializeToArray hashImpl os newBlockHeader = Ok h -> encodable (fields h) ->
  m_sealerList (fields h) = sealers -> hash hashImpl h = Ok (dig, h1) ->
  exists sigs, fakeSignatureList impl 0 kps dig = Ok sigs /\
    let signed := setSignatureList sigs h in
    verifySignatureList hashImpl (accepts impl) signed = Ok () /\
    forall data h2, encodeHeader SerializeToArray signed = Ok (data, h2) ->
      exists d, PBBlock.createBlockHeader data = Ok d /\ fields d = fields h /\
        verifySignatureList hashImpl (accepts impl) d = Ok ().
Proof.
  intros impl Hs Hrun Henc Hl Hh. apply fakeSealerList_spec in Hs as (new & -> & -> & Hg).
  assert (SignatureLaw impl) as Hlaw by (subst impl; destruct sm; apply _).
  assert (length dig = 32%nat) as Hd
    by (apply bind_ok_inv in Hh as (h' & _ & [= <- _]); apply hash_size).
  destruct (signatures_verify impl new h h1 dig Hd Hg Hl Hh) as (sigs & Hsigs & _ & Hok).
  exists sigs. split; [done |]. cbv zeta. destruct (hash_signatures sigs h h1 dig Hh) as (h3 & Hh3).
  split; [apply Hok; eauto |]. intros data h2 He.
  assert (coherent (setSignatureList sigs h)) as Hc.
  { apply calls_coherent in Hrun; [| apply new_coherent]. by apply (call_coherent SerializeToArray hashImpl (SetSignatureList sigs) h). }
  destruct (encodeHeader_decode SerializeToArray ParseFromArray hashImpl (setSignatureList sigs h) h2 data
    (fun r d => parse_serialize r d) Hc Henc He) as (_ & _ & _ & d & Hdec & _ & Hf & Hsig & _ & dig' & Hdig & Hdh).
  exists d. split_and!; [done | done |]. apply Hok; [done | done |].
  rewrite Hh3, bind_ok in Hdig. injection Hdig as ->. eauto.
Qed.
End HeaderFixtureTheorems.
