(* ===== verification/ObjectFixtures.v ===== *)
(** * Test fixtures of transactions, receipts and sync messages

    Model of testutils/protocol/FakeTransaction.h, FakeTransactionReceipt.h and
    testutils/sync/FakeTxsSyncMsg.h, in the manner of Fixtures. *)

From Stdlib Require Import ZArith Lia List.
From Stdlib Require Import Strings.String Strings.Byte.
From stdpp Require Import base tactics decidable list option.
From S2P Require Import Prelude DataConvert Numbers FixedBytes ScaleStream ScaleTypes Protobuf.
From S2P Require Import Transaction Signatures Receipt Sync Fixtures.
Import StreamFacts Protobuf Crypto Signatures.

(* ------------------------------------------------------------------ *)
(** ** Transactions *)

Module TransactionFixture.
Import Transaction.

#[export] Instance type_eq_dec : EqDecision TransactionType.
Proof. solve_decision. Defined.

Definition checkTransaction (pbTransaction decoded : PBTransaction) : outcome tx_exn (list bool) :=
  let f := m_transactionHashFields pbTransaction in
  let d := m_transactionHashFields decoded in
  hash1 ← hash decoded; hash2 ← hash pbTransaction;
  Ok [bool_decide (hash1 = hash2);
      bool_decide (sender decoded = sender pbTransaction);
      bool_decide (type decoded = type pbTransaction);
      bool_decide (to d = to f);
      bool_decide (input d = input f);
      m_nonce decoded =? m_nonce pbTransaction;
      blocklimit d =? blocklimit f;
      bool_decide (chainid d = chainid f);
      bool_decide (groupid d = groupid f)].

Section Fixture.
Context `{PBMessage RawTransaction, PBMessage RawHashFields, CryptoSuite}.

(** [fakeTransaction] with a key pair; [utcTime] is the current time. *)
Definition fakeTransaction (keyPair : KeyPair) (to input : bytes) (nonce blockLimit : Z)
    (chainId groupId : bytes) (utcTime : Z) : outcome tx_exn PBTransaction :=
  pbTransaction ← construct 1 to input nonce blockLimit chainId groupId utcTime;
  h ← hash pbTransaction;
  Ok (updateSignature (sign keyPair h) (keyPairAddress hashImpl keyPair) pbTransaction).

Definition testTransaction (keyPair : KeyPair) (to input : bytes) (nonce blockLimit : Z)
    (chainId groupId : bytes) (utcTime : Z) : outcome tx_exn (list bool * PBTransaction) :=
  pbTransaction ← fakeTransaction keyPair to input nonce blockLimit chainId groupId utcTime;
  let typed := match to with
               | [] => bool_decide (type pbTransaction = ContractCreation)
               | _ => bool_decide (type pbTransaction = MessageCall)
               end in
  let addr := keyPairAddress hashImpl keyPair in
  let sent := bool_decide (sender pbTransaction = addr) in
  '(encodedData, pbTransaction) ← encode false pbTransaction;
  '(encodedDataCache, pbTransaction) ← encode false pbTransaction;
  let cached := bool_decide (encodedData = encodedDataCache) in
  decodedTransaction ← createTransaction encodedData true;
  checks ← checkTransaction pbTransaction decodedTransaction;
  Ok ([typed; sent; cached] ++ checks, decodedTransaction).

(** [fakeTransaction] with a key pair of its own, sent to itself unless told. *)
Definition fakeTransactionTo (keyPair : KeyPair) (nonce blockLimit : Z) (chainId groupId to : bytes)
    (utcTime : Z) : outcome tx_exn (list bool * PBTransaction) :=
  let dest := match to with [] => keyPairAddress hashImpl keyPair | _ => to end in
  testTransaction keyPair dest (list_byte_of_string "testTransaction") nonce blockLimit chainId groupId utcTime.
End Fixture.
End TransactionFixture.

(* ------------------------------------------------------------------ *)
(** ** Receipts *)

Module ReceiptFixture.
Import Receipt.

Definition contractAddress : bytes := list_byte_of_string "5fe3c4c3e2079879a0dba1937aca95ac16e68f0f".

Section Fixture.
Context `{Platform, PBMessage RawReceipt, CryptoSuite}.

Definition fakeLogEntries (size : nat) : list LogEntry :=
  map (fun i =>
    let topic := hashImpl (Numbers.to_string (Z.of_nat i)) in
    mkLog (FixedBytes.right160 topic) [topic] topic) (seq 0 size).

(** The second entry and its first topic are read whatever the sizes. *)
Definition checkReceipts (receipt decoded : PBTransactionReceipt) : outcome receipt_exn (list bool) :=
  entries ← logEntries receipt;
  decodedEntries ← logEntries decoded;
  logEntry ← match decodedEntries !! 1%nat with Some l => Ok l | None => Undefined OutOfRange end;
  let expectedTopic := hashImpl (Numbers.to_string 1) in
  topic ← match m_topics logEntry with t :: _ => Ok t | [] => Undefined OutOfRange end;
  Ok [version (m_receipt decoded) =? version (m_receipt receipt);
      m_gasUsed decoded =? m_gasUsed receipt;
      bool_decide (m_contractAddress decoded = m_contractAddress receipt);
      m_status decoded =? m_status receipt;
      bool_decide (m_output decoded = m_output receipt);
      len decodedEntries =? 2;
      len decodedEntries =? len entries;
      bool_decide (topic = expectedTopic);
      bool_decide (m_address logEntry = FixedBytes.right160 expectedTopic);
      bool_decide (m_data logEntry = expectedTopic)].

(** [testPBTransactionReceipt] on a receipt: encoded twice, and by the cache;
    decoded twice. *)
Definition testReceipt (indeterminate : Z) (receipt : PBTransactionReceipt) :
    outcome receipt_exn (list bool * PBTransactionReceipt) :=
  '(_, receipt) ← encodeTo receipt;
  '(encodedData, receipt) ← encodeTo receipt;
  '(encodedDataCache, receipt) ← encode false receipt;
  let cached := bool_decide (encodedData = encodedDataCache) in
  _ ← fromData indeterminate encodedData;
  decodedReceipt ← fromData indeterminate encodedData;
  checks ← checkReceipts receipt decodedReceipt;
  Ok (cached :: checks, decodedReceipt).

Definition testPBTransactionReceipt (indeterminate gasUsed status : Z) (output : bytes) (blockNumber : Z) :
    outcome receipt_exn (list bool * PBTransactionReceipt) :=
  testReceipt indeterminate
    (createReceipt indeterminate gasUsed (take 20 contractAddress) (Some (fakeLogEntries 2)) status
       output blockNumber).
End Fixture.
End ReceiptFixture.

(* ------------------------------------------------------------------ *)
(** ** Messages of the transaction sync *)

Module SyncFixture.
Import TxsSyncMsg.

Definition fakeTxsMsg `{PBMessage RawSyncMessage} (type version : Z) (txsHash : list bytes) (txsData : bytes) :
    outcome pb_exn (list bool * TxsSyncMsg) :=
  let msg := setTxsData txsData (setTxsHash txsHash (setVersion version (setType type newMsg))) in
  encodedData ← encode msg;
  decodedMsg ← createTxsSyncMsg encodedData;
  let m := m_rawSyncMessage msg in
  let d := m_rawSyncMessage decodedMsg in
  Ok ([TxsSyncMsg.type m =? TxsSyncMsg.type d;
       TxsSyncMsg.version m =? TxsSyncMsg.version d;
       bool_decide (m_txsHash msg = m_txsHash decodedMsg);
       bool_decide (txsdata m = txsdata d);
       type =? TxsSyncMsg.type d;
       version =? TxsSyncMsg.version d;
       bool_decide (txsHash = m_txsHash decodedMsg);
       bool_decide (txsData = txsdata d)], msg).
End SyncFixture.

(* ------------------------------------------------------------------ *)
(** ** Properties *)

Module ObjectFixtureFacts.
Import SignatureFacts.

Section Transactions.
Import Transaction TransactionFacts TransactionFixture.

Lemma checkTransaction_same (t u : PBTransaction) (h : bytes) :
  hash t = Ok h -> hash u = Ok h -> sender u = sender t -> m_nonce u = m_nonce t ->
  m_transactionHashFields u = m_transactionHashFields t ->
  exists checks, checkTransaction t u = Ok checks /\ passes checks = true.
Proof.
  intros Ht Hu Hs Hn Hf. unfold checkTransaction, type. rewrite Ht, Hu, Hs, Hn, Hf, !bind_ok.
  eexists. split; [done |]. cbn. by rewrite !Z.eqb_refl, !bool_decide_eq_true_2.
Qed.

(** Encoding a second time gives the cached bytes. *)
Lemma encode_again (t t1 : PBTransaction) (data : bytes) `{PBMessage RawTransaction} :
  encode false t = Ok (data, t1) -> t1 = setDataCache data t /\
  exists t2, encode false t1 = Ok (data, t2) /\ t2 = setDataCache data t.
Proof.
  unfold encode. destruct (Z.eqb_spec (len (m_dataCache t)) 0) as [Hz | Hz].
  - intros Hd. apply bind_ok_inv in Hd as (d & He & [= <- <-]). split; [done |]. cbn [m_dataCache setDataCache].
    destruct (Z.eqb_spec (len d) 0) as [Hd | Hd]; [| eauto].
    unfold encodeRaw in *. cbn [m_transaction setDataCache]. rewrite He, bind_ok. eauto.
  - intros [= <- <-]. rewrite (proj2 (Z.eqb_neq _ _) Hz). destruct t. eauto.
Qed.

(** The transaction a fixture signs, encodes, decodes and checks. *)
Lemma transaction_passes `{PBLaw RawTransaction, PBLaw RawHashFields, CryptoLaw} (kp : KeyPair)
    (to input : bytes) (nonce limit : Z) (chain group : bytes) (time : Z) :
  0 <= nonce < 2 ^ 256 ->
  (forall h, length h = 32%nat -> recover h (sign kp h) = Some (publicKey kp)) ->
  let run := testTransaction kp to input nonce limit chain group time in
  run = Throw (PBException PBObjectEncodeException) \/
  exists checks t, run = Ok (checks, t) /\ passes checks = true /\
    sender t = keyPairAddress hashImpl kp /\ m_nonce t = nonce /\
    m_transactionHashFields t = mkHashFields 1 to input (BigEndian.toBigEndian_u256 nonce) limit chain group.
Proof.
  intros Hn Hr run. subst run. unfold testTransaction, fakeTransaction.
  destruct (construct 1 to input nonce limit chain group time) as [t0 | e | f] eqn:Hnew.
  2, 3: unfold construct, encodePBObject in Hnew; destruct (SerializeToArray _); [done |]; try done; left; by injection Hnew as <-.
  pose proof (hash_constructed _ _ _ _ _ _ _ _ _ Hnew) as Hh. rewrite bind_ok, Hh, !bind_ok.
  set (h := hashImpl _) in *. set (t := updateSignature _ _ t0).
  destruct (encode false t) as [[data t1] | e | f] eqn:He.
  2, 3: unfold encode, encodeRaw, encodePBObject in He; cbn in He; destruct (SerializeToArray _); [done |]; try done; left; by injection He as <-.
  right. rewrite bind_ok. destruct (encode_again t t1 data He) as (E1 & t2 & -> & E2). rewrite bind_ok.
  destruct (updated_accepted 1 to input nonce limit chain group time kp h (keyPairAddress hashImpl kp) t0 t1 data
    Hn Hr Hnew Hh He) as (t3 & -> & Hs & Ht & Hm & Hht & Hf & Hn3). rewrite bind_ok.
  fold t in Ht, Hm, Hht, Hf.
  assert (m_transactionHashFields t = mkHashFields 1 to input (BigEndian.toBigEndian_u256 nonce) limit chain group /\
    m_nonce t = nonce) as [Hfields Hnon].
  { apply bind_ok_inv in Hnew as (d0 & _ & [= <-]). done. }
  assert (hash t = Ok h) as Htt by (rewrite <- Hh; subst t; by destruct t0 as [[]]).
  destruct (checkTransaction_same t2 t3 h) as (checks & -> & Hc);
    [by rewrite E2 | by rewrite Hht | by rewrite Hs, E2 | by rewrite Hn3, E2 | by rewrite Hf, E2 |].
  rewrite bind_ok. eexists _, t3. split; [reflexivity |].
  split; [| split_and!; [done | done | congruence]]. rewrite passes_app, Hc, andb_true_r.
  cbn [passes forallb id]. rewrite Ht. unfold type. rewrite Hfields. cbn [Transaction.to].
  destruct to as [| c to]; [by rewrite !bool_decide_eq_true_2 |].
  rewrite len_cons, (proj2 (Z.ltb_lt 0 _)) by (pose proof (len_nonneg to); lia).
  by rewrite !bool_decide_eq_true_2.
Qed.
End Transactions.

Section Receipts.
Import Receipt ReceiptFacts ReceiptFixture.
Context `{PlatformLaw, PBLaw RawReceipt, CryptoSuite}.

Lemma filled_again (r : PBTransactionReceipt) : coherent r -> filled (filled r) = filled r.
Proof.
  intros Hc. destruct (filled_spec r Hc) as (Hd & _). pose proof (receiptImage_nonempty (content r)) as Hp.
  rewrite <- Hd in Hp. unfold filled at 1. by destruct (hashfieldsdata (m_receipt (filled r))).
Qed.

Lemma encodeTo_filled (r : PBTransactionReceipt) :
  coherent r -> encodable (content r) ->
  encodeTo r = match SerializeToArray (m_receipt (filled r)) with
               | Some data => Ok (data, filled r)
               | None => Throw (PBException PBObjectEncodeException)
               end.
Proof.
  intros Hc He. unfold encodeTo. rewrite encodeHashFields_spec, bind_ok by done.
  unfold encodePBObject. by destruct (SerializeToArray _).
Qed.

(** The receipts the fixture can check: their second entry names the hash of 1. *)
Lemma checkReceipts_same (r d : PBTransactionReceipt) :
  content d = content r -> version (m_receipt d) = version (m_receipt r) ->
  m_logEntries r = Some (fakeLogEntries 2) ->
  exists checks, checkReceipts r d = Ok checks /\ passes checks = true.
Proof.
  intros Hk Hv Hl. destruct r, d. unfold content in Hk. cbn in *. injection Hk as -> -> -> -> -> ->. subst.
  unfold checkReceipts. cbn -[Numbers.to_string FixedBytes.right160]. eexists. split; [reflexivity |].
  cbn -[Numbers.to_string FixedBytes.right160 Z.eqb].
  by rewrite Hv, !Z.eqb_refl, !bool_decide_eq_true_2.
Qed.

Lemma receipt_passes (garbage : Z) (r : PBTransactionReceipt) :
  hashfieldsdata (m_receipt r) = [] -> m_dataCache r = [] -> encodable (content r) ->
  m_logEntries r = Some (fakeLogEntries 2) ->
  testReceipt garbage r = Throw (PBException PBObjectEncodeException) \/
  exists checks d, testReceipt garbage r = Ok (checks, d) /\ passes checks = true /\ content d = content r /\
    coherent d.
Proof.
  intros Hd Hcache He Hl. assert (coherent r) as Hc by (by left).
  destruct (filled_spec r Hc) as (Hfd & Hfk & _ & Hfc & _). unfold testReceipt.
  rewrite encodeTo_filled by done. destruct (SerializeToArray _) as [data |] eqn:Hs; [right | by left].
  rewrite bind_ok, encodeTo_filled, filled_again, Hs, bind_ok by (by rewrite ?Hfk).
  unfold encode. assert (m_dataCache (filled r) = []) as -> by (unfold filled; rewrite Hd; by destruct r).
  change (len (@nil byte) =? 0) with true. cbv iota. rewrite encodeTo_filled, filled_again, Hs, !bind_ok by (by rewrite ?Hfk).
  pose proof (parse_serialize _ _ Hs) as Hp.
  destruct (decode_spec garbage (content r) (version (m_receipt (filled r))) data He) as (d & -> & Hdk & Hdv & _ & Hdc).
  { rewrite Hp, <- Hfd. by destruct (m_receipt (filled r)). }
  rewrite !bind_ok. destruct (checkReceipts_same (setDataCache data (filled r)) d) as (checks & -> & Hpass).
  { rewrite Hdk, <- Hfk. by destruct (filled r). }
  { rewrite Hdv. by destruct (filled r). }
  { rewrite <- Hl. unfold filled. rewrite Hd. by destruct r. }
  rewrite bind_ok. eexists _, d. split; [reflexivity |]. split_and!; [| done | done].
  cbn [passes forallb]. by rewrite bool_decide_eq_true_2.
Qed.
End Receipts.
End ObjectFixtureFacts.

Module ObjectFixtureTheorems.
Import SignatureFacts ObjectFixtureFacts.

(** The checks of [testTransaction] hold for every transaction, with either suite
    and a generated pair of keys: the decoded transaction was accepted with the
    address of the keys as its sender, and nothing but a failure of protobuf to
    serialise can end the fixture otherwise. *)
Theorem transaction_fixture_passes `{PBLaw Transaction.RawTransaction, PBLaw Transaction.RawHashFields, WedprLaw}
    (sm : bool) (seed : Z) (kp : KeyPair) (to input : bytes) (nonce limit : Z) (chain group : bytes) (time : Z) :
  let suite := if sm then createSMCryptoSuite else createNormalCryptoSuite in
  let run := TransactionFixture.testTransaction kp to input nonce limit chain group time in
  0 <= nonce < 2 ^ 256 -> (if sm then sm2Generate seed else secpGenerate seed) = Ok kp ->
  run = Throw (Transaction.PBException PBObjectEncodeException) \/
  exists checks t, run = Ok (checks, t) /\ passes checks = true /\
    Transaction.sender t = keyPairAddress hashImpl kp /\ Transaction.m_nonce t = nonce.
Proof.
  intros suite run Hn Hg. assert (@CryptoLaw suite) as Hlaw by (subst suite; destruct sm; apply _).
  destruct (transaction_passes kp to input nonce limit chain group time Hn) as [Ht | (checks & t & Ht)];
    [| by left |].
  - intros h Hh. subst suite. destruct sm; eapply suite_recovers; eauto with typeclass_instances.
  - right. exists checks, t. by destruct Ht as (? & ? & ? & ? & _).
Qed.

(** The checks of [fakeTxsMsg] hold for every message with hashes of 32 bytes. *)
Theorem sync_fixture_passes `{PBLaw TxsSyncMsg.RawSyncMessage} (ty ver : Z) (hashes : list bytes) (data : bytes)
    (Hh : Forall (fun h => length h = 32%nat) hashes) :
  let run := SyncFixture.fakeTxsMsg ty ver hashes data in
  run = Throw PBObjectEncodeException \/ exists checks msg, run = Ok (checks, msg) /\ passes checks = true.
Proof.
  cbv zeta. unfold SyncFixture.fakeTxsMsg.
  destruct (TxsSyncMsg.encode _) as [out | e | f] eqn:He.
  2, 3: unfold TxsSyncMsg.encode, encodePBObject in He; destruct (SerializeToArray _); try done; left; by injection He as <-.
  right. rewrite bind_ok. unfold TxsSyncMsg.createTxsSyncMsg, TxsSyncMsg.decode.
  rewrite (decode_encodePBObject _ _ He), bind_ok. unfold TxsSyncMsg.deserializeObject.
  cbn. rewrite SyncFacts.readHashes_ok by done. cbn. eexists _, _. split; [reflexivity |].
  cbn. by rewrite !Z.eqb_refl, !bool_decide_eq_true_2.
Qed.
End ObjectFixtureTheorems.
