(* ===== verification/BlockFixture.v ===== *)
(** * The test fixture of blocks

    Model of testutils/protocol/FakeBlock.h: a block made of the objects of the
    other fixtures is encoded, decoded with its hashes and signatures checked, and
    compared with its copy.  The reads of the comparison fill caches of the objects
    and change nothing they return, so the objects are not threaded through them. *)

From Stdlib Require Import ZArith Lia List.
From Stdlib Require Import Strings.String Strings.Byte.
From stdpp Require Import base tactics decidable list option.
From S2P Require Import Prelude DataConvert Numbers FixedBytes ScaleStream ScaleTypes Merkle Protobuf.
From S2P Require Import Transaction Signatures Receipt BlockHeader Block PBBlock Fixtures ObjectFixtures.
Import StreamFacts Protobuf Crypto Signatures.

Module BlockFixture.
Import PBMetaData PBBlock.

Inductive fixture_exn : Type :=
| BlockException (e : pbblock_exn)
| RootException (e : Block.block_exn)
| SignatureException (e : sig_exn).

Definition ofBlock {A} : outcome pbblock_exn A -> outcome fixture_exn A := mapThrow BlockException.
Definition ofHeader {A} (m : outcome BlockHeader.header_exn A) : outcome fixture_exn A :=
  ofBlock (mapThrow HeaderException m).
Definition ofTx {A} (m : outcome Transaction.tx_exn A) : outcome fixture_exn A :=
  ofBlock (mapThrow TxException m).
Definition ofReceipt {A} (m : outcome Receipt.receipt_exn A) : outcome fixture_exn A :=
  ofBlock (mapThrow ReceiptException m).

(** A loop over the objects of the block that asks the copy for the same index. *)
Fixpoint checkAll {A} (check : A -> A -> outcome fixture_exn (list bool)) (original decoded : list (option A)) :
    outcome fixture_exn (list bool) :=
  match original, decoded with
  | [], _ => Ok []
  | p :: original, q :: decoded =>
      x ← ofBlock (deref p); y ← ofBlock (deref q);
      checks ← check x y;
      rest ← checkAll check original decoded;
      Ok (checks ++ rest)
  | _ :: _, [] => Undefined OutOfRange
  end.

(** The loop over the metadata of the copy. *)
Definition checkMetaData (decoded original : PBTransactionMetaData) : list bool :=
  [bool_decide ((getHash decoded).1 = (getHash original).1);
   bool_decide ((getHash decoded).1 = (getHash original).1);
   bool_decide (to (m_pbTxMetaData decoded) = to (m_pbTxMetaData original))].

Fixpoint checkMetas (decoded original : list (option PBTransactionMetaData)) :
    outcome fixture_exn (list bool) :=
  match decoded, original with
  | [], _ => Ok []
  | p :: decoded, q :: original =>
      d ← ofBlock (deref p); o ← ofBlock (deref q);
      rest ← checkMetas decoded original;
      Ok (checkMetaData d o ++ rest)
  | _ :: _, [] => Undefined NullDeref
  end.

Section Fixture.
Context `{Platform, CryptoSuite}.
Context `{PBMessage RawBlock, PBMessage BlockHeader.RawBlockHeader}.
Context `{PBMessage Transaction.RawTransaction, PBMessage Transaction.RawHashFields}.
Context `{PBMessage Receipt.RawReceipt}.
(** The order in which the threads of the Merkle tree work. *)
Variable schedule : nat -> list nat.

Definition calculateReceiptRoot (b : PBBlock) : outcome fixture_exn bytes :=
  v ← ofBlock (view b); mapThrow RootException (Block.calculateReceiptRoot hashImpl schedule v).
Definition calculateTransactionRoot (b : PBBlock) : outcome fixture_exn bytes :=
  v ← ofBlock (view b); mapThrow RootException (Block.calculateTransactionRoot hashImpl schedule v).

Definition headerHash (h : BlockHeader.BlockHeader) : outcome fixture_exn bytes :=
  '(digest, _) ← ofHeader (BlockHeader.hash hashImpl h); Ok digest.

(** The part of [checkBlock] on the header and the roots. *)
Definition checkRoots (block decoded : PBBlock) : outcome fixture_exn (list bool) :=
  receiptRoot ← calculateReceiptRoot block;
  decodedReceiptRoot ← calculateReceiptRoot decoded;
  txsRoot ← calculateTransactionRoot block;
  decodedTxsRoot ← calculateTransactionRoot decoded;
  let same := [bool_decide (receiptRoot = decodedReceiptRoot); bool_decide (txsRoot = decodedTxsRoot)] in
  match m_blockHeader block with
  | Some h =>
      d ← ofBlock (deref (m_blockHeader decoded));
      originHash ← headerHash h;
      decodedHash ← headerHash d;
      Ok (same ++
        [bool_decide (BlockHeader.m_receiptsRoot (BlockHeader.fields h) = receiptRoot);
         bool_decide (BlockHeader.m_receiptsRoot (BlockHeader.fields d) = decodedReceiptRoot);
         bool_decide (decodedHash = originHash);
         bool_decide (BlockHeader.m_txsRoot (BlockHeader.fields h) = txsRoot);
         bool_decide (BlockHeader.m_txsRoot (BlockHeader.fields d) = txsRoot);
         bool_decide (decodedHash = originHash)])
  | None =>
      match m_blockHeader decoded with
      | Some d => decodedHash ← headerHash d; Ok (same ++ [bool_decide (decodedHash = zeroHash)])
      | None => Ok same
      end
  end.

Definition checkBlock (block decoded : PBBlock) : outcome fixture_exn (list bool) :=
  headers ← match m_blockHeader block with
            | Some h => d ← ofBlock (deref (m_blockHeader decoded)); ofHeader (HeaderFixture.checkBlockHeader h d)
            | None => Ok []
            end;
  txs ← checkAll (fun t u => ofTx (TransactionFixture.checkTransaction t u))
          (m_transactions block) (m_transactions decoded);
  receipts ← checkAll (fun r s => ofReceipt (ReceiptFixture.checkReceipts r s))
               (m_receipts block) (m_receipts decoded);
  metas ← checkMetas (m_transactionMetaDataList decoded) (m_transactionMetaDataList block);
  roots ← checkRoots block decoded;
  Ok ([type (m_pbRawBlock block) =? type (m_pbRawBlock decoded)] ++ headers ++
      [len (m_transactions decoded) =? len (m_transactions block)] ++ txs ++
      [len (m_receipts decoded) =? len (m_receipts block)] ++ receipts ++ metas ++ roots).

(** *** [fakeAndCheckBlock] *)

(** The loop that appends the transactions with their metadata. *)
Fixpoint appendAll (txs : list Transaction.PBTransaction) (block : PBBlock) : outcome fixture_exn PBBlock :=
  match txs with
  | [] => Ok block
  | tx :: txs =>
      h ← ofTx (Transaction.hash tx);
      let metaData := setTo (Transaction.to (Transaction.m_transactionHashFields tx)) (setHash h newMetaData) in
      appendAll txs (appendTransactionMetaData (Some metaData) (appendTransaction (Some tx) block))
  end.

(** The loop that sets the receipts, from an index on. *)
Fixpoint setReceiptsFrom (i : nat) (rs : list Receipt.PBTransactionReceipt) (block : PBBlock) : PBBlock :=
  match rs with
  | [] => block
  | r :: rs => setReceiptsFrom (S i) rs (setReceipt i (Some r) block)
  end.

Definition CompleteBlock : Z := 1.

(** The block of the given header, transactions and receipts, made by their fixtures. *)
Definition fakeBlock (header : option BlockHeader.BlockHeader) (txs : list Transaction.PBTransaction)
    (rs : list Receipt.PBTransactionReceipt) : outcome fixture_exn PBBlock :=
  let block := match header with Some _ => setBlockHeader header newBlock | None => newBlock end in
  block ← appendAll txs (setBlockType CompleteBlock block);
  let block := setReceiptsFrom 0 rs block in
  match m_blockHeader block with
  | None => Ok block
  | Some h =>
      receiptsRoot ← calculateReceiptRoot block;
      txsRoot ← calculateTransactionRoot block;
      Ok (setBlockHeader (Some (BlockHeader.setTxsRoot txsRoot (BlockHeader.setReceiptsRoot receiptsRoot h))) block)
  end.

(** The loop over the transactions of the copy: the metadata has their hashes. *)
Fixpoint checkHashes (n : nat) (txs : list (option Transaction.PBTransaction))
    (metas : list (option PBTransactionMetaData)) : outcome fixture_exn (list bool) :=
  match n, txs, metas with
  | O, _, _ => Ok []
  | S n, p :: txs, q :: metas =>
      t ← ofBlock (deref p); h ← ofTx (Transaction.hash t);
      m ← ofBlock (deref q);
      rest ← checkHashes n txs metas;
      Ok ([bool_decide ((getHash m).1 = h); bool_decide ((getHash m).1 = h)] ++ rest)
  | _, [], _ => Undefined OutOfRange
  | _, _, [] => Undefined NullDeref
  end.

(** The exceptions of the one class the objects throw on bytes they cannot parse. *)
Definition isDecodeException (e : pbblock_exn) : bool :=
  match e with
  | PBException PBObjectDecodeException
  | HeaderException BlockHeader.PBObjectDecodeException
  | TxException (Transaction.PBException PBObjectDecodeException)
  | ReceiptException (Receipt.PBException PBObjectDecodeException) => true
  | _ => false
  end.

Definition fakeAndCheckBlock (indeterminate : Z) (header : option BlockHeader.BlockHeader)
    (txs : list Transaction.PBTransaction) (rs : list Receipt.PBTransactionReceipt) :
    outcome fixture_exn (list bool * PBBlock) :=
  let txsHashNum := len txs in
  block ← fakeBlock header txs rs;
  '(encodedData, block) ← ofBlock (encode block);
  decodedBlock ← ofBlock (createBlock indeterminate encodedData true true);
  checks ← checkBlock block decodedBlock;
  hashes ← checkHashes (length txs) (m_transactions decodedBlock) (m_transactionMetaDataList decodedBlock);
  changed ← bump encodedData;
  refused ← match createBlock indeterminate changed true true with
            | Ok _ => Ok false
            | Throw e => if isDecodeException e then Ok true else Throw (BlockException e)
            | Undefined f => Undefined f
            end;
  Ok (checks ++
      [len (m_transactionMetaDataList decodedBlock) =? txsHashNum;
       len (m_transactionMetaDataList decodedBlock) =? txsHashNum] ++ hashes ++ [refused], block).
End Fixture.
End BlockFixture.

(* ------------------------------------------------------------------ *)
(** ** Properties *)

Module BlockFixtureFacts.
Import PBMetaData PBBlock PBBlockFacts BlockFixture.

Lemma ofBlock_ok {A} (a : A) : ofBlock (Ok a) = Ok a.
Proof. done. Qed.

Lemma checkAll_passes {A} (check : A -> A -> outcome fixture_exn (list bool)) (R : A -> A -> Prop)
    (l k : list (option A)) :
  (forall x y, R x y -> exists checks, check x y = Ok checks /\ passes checks = true) ->
  Forall2 (both R) l k -> exists checks, checkAll check l k = Ok checks /\ passes checks = true.
Proof.
  intros Hc. induction 1 as [| p q l k (x & y & -> & -> & Hxy) _ (cs & IH & Hp)]; [by exists [] |].
  destruct (Hc x y Hxy) as (c & Hcxy & Hpc). cbn [checkAll deref]. unfold ofBlock. cbn [mapThrow].
  rewrite !bind_ok, Hcxy, bind_ok, IH, bind_ok. eexists. split; [done |]. by rewrite passes_app, Hpc, Hp.
Qed.

Lemma checkMetas_passes (l k : list (option PBTransactionMetaData)) :
  Forall2 (both (fun m n => m_pbTxMetaData m = m_pbTxMetaData n /\ m_hash n = zeroHash /\
    PBMetaData.coherent m)) l k ->
  exists checks, checkMetas k l = Ok checks /\ passes checks = true.
Proof.
  induction 1 as [| p q l k (m & n & -> & -> & Hraw & Hz & Hc) _ (cs & IH & Hp)]; [by exists [] |].
  cbn [checkMetas deref]. unfold ofBlock. cbn [mapThrow]. rewrite !bind_ok, IH, bind_ok. eexists.
  split; [done |]. rewrite passes_app, Hp. pose proof (getHash_reread m Hc) as Hg.
  assert (n = mkMeta (m_pbTxMetaData m) zeroHash) as -> by (destruct n; cbn in *; by subst).
  unfold passes, checkMetaData. cbn [forallb id]. rewrite !Hg, !bool_decide_eq_true_2 by done. done.
Qed.

Section Facts.
Context `{PlatformLaw, CryptoLaw}.
Context `{PBLaw RawBlock, PBLaw BlockHeader.RawBlockHeader}.
Context `{PBLaw Transaction.RawTransaction, PBLaw Transaction.RawHashFields}.
Context `{PBLaw Receipt.RawReceipt}.
Variable schedule : nat -> list nat.

(** The sender is the address of the key its signature recovers to. *)
Definition ownSender (t : Transaction.PBTransaction) : Prop :=
  let raw := Transaction.m_transaction t in
  exists pub, recover (hashImpl (Transaction.hashfieldsdata raw)) (Transaction.signaturedata raw) = Some pub /\
    Transaction.sender t = calculateAddress pub.

(** A transaction accepted from bytes. *)
Definition accepted (t : Transaction.PBTransaction) : Prop :=
  exists data, Transaction.createTransaction data true = Ok t.

Lemma accepted_good (t : Transaction.PBTransaction) : accepted t -> goodTx true true t /\ ownSender t.
Proof.
  intros [data Ht]. apply bind_ok_inv in Ht as (t0 & Hd & Hv).
  destruct (TransactionFacts.decode_coherent _ _ _ Hd) as [Hc _].
  assert (Transaction.sender t0 = []) as Hs.
  { apply bind_ok_inv in Hd as (raw & _ & Hd). by apply bind_ok_inv in Hd as (fs & _ & [= <-]). }
  apply TransactionFacts.verify_spec in Hv as (pub & Hh & Hr & ->); [| done].
  split; [| exists pub; split; [done | apply TransactionFacts.sender_forceSender]].
  split; [done |]. split; eauto.
Qed.

Lemma sameTx_checks (t u : Transaction.PBTransaction) :
  (goodTx true true t /\ ownSender t) /\ sameTx t u /\ ownSender u ->
  exists checks, ofTx (TransactionFixture.checkTransaction t u) = Ok checks /\ passes checks = true.
Proof.
  intros (((_ & Hh & _) & (p & Hp & Hsp)) & Hs & (q & Hq & Hsq)). destruct (Hh eq_refl) as [h Hth].
  pose proof Hs as (Hf & Hn & Hr). unfold TransactionFacts.signedPart in Hr. injection Hr as Ed Eh Es.
  destruct (ObjectFixtureFacts.checkTransaction_same t u h) as (checks & Hc & Hpass); try done.
  - by rewrite <- (sameTx_hash t u Hs).
  - rewrite Hsp, Hsq. rewrite Ed, Es, Hq in Hp. by injection Hp as ->.
  - exists checks. unfold ofTx, ofBlock. by rewrite Hc.
Qed.

(** *** The transactions of a decoded block *)

Lemma created_senders (garbage : Z) (data : bytes) (b : PBBlock) :
  createBlock garbage data true true = Ok b ->
  Forall (fun p => exists t, p = Some t /\ ownSender t) (m_transactions b).
Proof.
  unfold createBlock, decode. cbn [newBlock m_pbRawBlock transactionsmetadata len length Z.of_nat Z.ltb Z.compare].
  intros Hb. apply bind_ok_inv in Hb as (raw & _ & Hb). apply bind_ok_inv in Hb as (b1 & H1' & Hb).
  apply bind_ok_inv in Hb as (b2 & H2' & Hb). apply bind_ok_inv in Hb as (b3 & H3' & [= <-]).
  assert (m_transactions (decodeNonceList (decodeTransactionsMetaData b3)) = m_transactions b2) as ->.
  { unfold decodeReceipts in H3'. apply bind_ok_inv in H3' as (rs & _ & [= <-]).
    unfold decodeNonceList. by destruct (_ =? 0). }
  apply bind_ok_inv in H2' as (txs & Htx & [= <-]). cbn [m_transactions].
  unfold decodeCached in Htx. destruct (_ =? 0).
  - injection Htx as <-. unfold decodeHeaderField in H1'. destruct (0 <? _).
    + apply bind_ok_inv in H1' as (h & _ & [= <-]). constructor.
    + injection H1' as <-. constructor.
  - apply bind_ok_inv in Htx as ([us l] & He & [= <-]).
    eapply (eachOf_inv _ (fun _ => True) (fun _ _ q => exists t, q = Some t /\ ownSender t)) in He.
    + clear - He. induction He; constructor; auto.
    + intros d u q _ Hd. apply bind_ok_inv in Hd as (t & Ht & Hd). apply mapThrow_ok in Ht.
      apply bind_ok_inv in Hd as (h & _ & [= _ <-]). exists t. split; [done |]. apply accepted_good. by exists d.
    + clear. induction (transactions (m_pbRawBlock b1)); by constructor.
Qed.

(** *** The block after its encoding *)

Lemma encodeOne_sender p d q :
  (exists t, p = Some t /\ ownSender t) -> encodeOneTransaction p = Ok (d, q) -> exists t, q = Some t /\ ownSender t.
Proof.
  intros (t & -> & Ht) He. cbn [encodeOneTransaction deref] in He. unfold encodeOneTransaction in He.
  cbn [deref] in He. rewrite bind_ok in He. apply bind_ok_inv in He as ([x t'] & He & [= <- <-]).
  apply mapThrow_ok in He. exists t'. split; [done |].
  destruct (ObjectFixtureFacts.encode_again t t' x He) as [-> _]. exact Ht.
Qed.

Lemma encoded_senders (b b1 : PBBlock) (data : bytes) :
  encode b = Ok (data, b1) -> Forall (fun p => exists t, p = Some t /\ ownSender t) (m_transactions b) ->
  Forall (fun p => exists t, p = Some t /\ ownSender t) (m_transactions b1).
Proof.
  intros He Hs. apply bind_ok_inv in He as (c1 & H1' & He). apply bind_ok_inv in He as (c2 & H2' & He).
  apply bind_ok_inv in He as (c3 & H3' & He). apply bind_ok_inv in He as (c4 & H4' & He).
  apply bind_ok_inv in He as (d & _ & [= _ <-]).
  assert (m_transactions (encodeNonceList c4) = m_transactions c2) as ->.
  { apply bind_ok_inv in H3' as ([ds rs] & _ & [= <-]). apply bind_ok_inv in H4' as ([ms us] & _ & [= <-]).
    unfold encodeNonceList. destruct (_ =? 0); [done |]. by destruct (0 <? _). }
  assert (m_transactions c1 = m_transactions b) as Hc1.
  { unfold encodeHeaderField in H1'. destruct (m_blockHeader b); [| by injection H1' as <-].
    by apply bind_ok_inv in H1' as ([x h'] & _ & [= <-]). }
  rewrite <- Hc1 in Hs. apply bind_ok_inv in H2' as ([ds txs] & He & [= <-]). cbn [m_transactions setRawTransactions withRaw].
  unfold encodeCached in He. destruct (_ =? 0); [by injection He as <- <- |].
  destruct (0 <? _); [by injection He as <- <- |].
  eapply (eachOf_inv _ (fun p => exists t, p = Some t /\ ownSender t) (fun _ _ q => exists t, q = Some t /\ ownSender t)) in He;
    [| intros; by eapply encodeOne_sender | done].
  clear - He. induction He; constructor; auto.
Qed.

(** The encoded block and the decoded copy agree as the block and its copy did. *)
Lemma encoded_same (b b1 c : PBBlock) :
  encoded true true b b1 -> sameBlock b c -> sameBlock b1 c.
Proof.
  intros [] []. constructor.
  - congruence.
  - congruence.
  - destruct e_header0 as [(E1 & E2 & _) | (h & h' & E1 & E2 & [Hc He] & Hh)].
    + destruct same_header0 as [[_ E] | (x & y & E & _)]; [auto | congruence].
    + right. destruct same_header0 as [[E _] | (x & y & E & Ey & Hf & Hs & Hv & Hk)]; [congruence |].
      assert (x = h) as -> by congruence. exists h', y. split_and!; [done.. |].
      destruct He as (n & Hn & Hval & Hfit).
      destruct (HeaderFixtureFacts.encodeHeader_message h n Hc Hn Hval) as (h2 & (_ & Ef & Es & Ev) & He2).
      rewrite Hh in He2. destruct (SerializeToArray _); [| done]. injection He2 as _ ->.
      unfold sameHeader. rewrite Ef, Es, Ev. done.
  - eapply both_trans; [| | exact same_txs0]; [intros x y z Hxy Hyz; exact (sameTx_trans x y z Hxy Hyz) |].
    clear - e_txs0. induction e_txs0 as [| p q l k (x & y & -> & -> & Hxy) _ IH]; constructor; [| done].
    exists y, x. split_and!; [done.. |]. destruct Hxy as (? & ? & ?). by split_and!.
  - assert (Forall2 (both (fun r s => Receipt.content r = Receipt.content s /\ goodReceipt r))
      (m_receipts b1) (m_receipts b)) as Hgood.
    { clear - e_receipts0 e_goodReceipts0. revert e_goodReceipts0.
      induction e_receipts0 as [| p q l k (x & y & -> & -> & Hxy) _ IH]; intros Hg; constructor.
      - exists y, x. inversion Hg; subst. split_and!; auto.
      - apply IH. by inversion Hg. }
    eapply both_trans; [| exact Hgood | exact same_receipts0]. intros x y z [-> ?] (-> & ? & ?). done.
  - by rewrite e_metas0.
  - by rewrite e_nonces0.
Qed.

(** *** The comparison *)

Lemma headerHash_same (h d : BlockHeader.BlockHeader) :
  goodHeader h -> sameHeader h d -> exists dig, headerHash h = Ok dig /\ headerHash d = Ok dig.
Proof.
  intros [Hc (n & Hn & Hv & _)] (Hf & _ & _ & Hd).
  destruct (HeaderFixtureFacts.hash_fields h n Hc Hn Hv) as (h1 & E1 & _).
  destruct (HeaderFixtureFacts.hash_fields d n Hd) as (d1 & E2 & _); [by rewrite <- Hf.. |].
  rewrite <- Hf in E2. unfold headerHash, ofHeader, ofBlock. rewrite E1, E2. eauto.
Qed.

(** The header of a block, when it has one, states the roots. *)
Definition statesRoots (b : PBBlock) (receiptsRoot txsRoot : bytes) : Prop :=
  match m_blockHeader b with
  | None => True
  | Some h => goodHeader h /\ BlockHeader.m_receiptsRoot (BlockHeader.fields h) = receiptsRoot /\
              BlockHeader.m_txsRoot (BlockHeader.fields h) = txsRoot
  end.

Lemma roots_view (b c : PBBlock) :
  view b = view c ->
  calculateReceiptRoot schedule b = calculateReceiptRoot schedule c /\
  calculateTransactionRoot schedule b = calculateTransactionRoot schedule c.
Proof. intros Hv. unfold calculateReceiptRoot, calculateTransactionRoot. by rewrite Hv. Qed.

Lemma checkRoots_passes (b c : PBBlock) (rr tr : bytes) :
  sameBlock b c -> calculateReceiptRoot schedule b = Ok rr -> calculateTransactionRoot schedule b = Ok tr ->
  statesRoots b rr tr -> exists checks, checkRoots schedule b c = Ok checks /\ passes checks = true.
Proof.
  intros Hs Hr Ht Hst. destruct (roots_view b c (sameBlock_view b c Hs)) as [Hr' Ht'].
  unfold checkRoots. rewrite <- Hr', <- Ht', Hr, Ht, !bind_ok. unfold statesRoots in Hst.
  destruct (same_header b c Hs) as [[Eb Ec] | (h & d & Eb & Ec & Hh)]; rewrite Eb in Hst |- *; rewrite Ec.
  - eexists. split; [done |]. cbn. by rewrite !bool_decide_eq_true_2.
  - destruct Hst as (Hg & E1 & E2). destruct (headerHash_same h d Hg Hh) as (dig & Eh & Ed).
    cbn [deref]. unfold ofBlock. cbn [mapThrow]. rewrite bind_ok, Eh, bind_ok, Ed, bind_ok.
    destruct Hh as (Hf & _). rewrite <- Hf, E1, E2. eexists. split; [done |]. cbn.
    by rewrite !bool_decide_eq_true_2.
Qed.

(** Receipts with the entries of their fixture. *)
Definition fakeReceipt (r : Receipt.PBTransactionReceipt) : Prop :=
  goodReceipt r /\ Receipt.m_logEntries r = Some (ReceiptFixture.fakeLogEntries 2).

Lemma checkReceipts_content (r d : Receipt.PBTransactionReceipt) :
  Receipt.m_logEntries r = Some (ReceiptFixture.fakeLogEntries 2) /\ Receipt.content r = Receipt.content d /\
  Receipt.version (Receipt.m_receipt d) = Receipt.version (Receipt.m_receipt r) ->
  exists checks, ofReceipt (ReceiptFixture.checkReceipts r d) = Ok checks /\ passes checks = true.
Proof.
  intros (Hl & Hk & Hv). destruct (ObjectFixtureFacts.checkReceipts_same r d) as (checks & Hc & Hp); [done.. |].
  exists checks. unfold ofReceipt, ofBlock. by rewrite Hc.
Qed.

Lemma created_receipts (garbage : Z) (b b1 c : PBBlock) (data : bytes) :
  encoded true true b b1 -> ParseFromArray data = Some (m_pbRawBlock b1) ->
  createBlock garbage data true true = Ok c ->
  Forall2 (both (fun r s => Receipt.content r = Receipt.content s /\
    Receipt.version (Receipt.m_receipt s) = Receipt.version (Receipt.m_receipt r))) (m_receipts b1) (m_receipts c).
Proof.
  intros [] Hp. unfold createBlock, decode. cbn [newBlock m_pbRawBlock transactionsmetadata len length Z.of_nat Z.ltb Z.compare].
  rewrite (proj2 (decodePBObject_ok _ _) Hp). cbn [mapThrow]. rewrite bind_ok. intros Hb.
  apply bind_ok_inv in Hb as (c1 & H1' & Hb). apply bind_ok_inv in Hb as (c2 & H2' & Hb).
  apply bind_ok_inv in Hb as (c3 & H3' & [= <-]).
  assert (m_receipts (decodeNonceList (decodeTransactionsMetaData c3)) = m_receipts c3) as ->
    by (unfold decodeNonceList; by destruct (_ =? 0)).
  assert (m_receipts c2 = [] /\ receipts (m_pbRawBlock c2) = receipts (m_pbRawBlock b1)) as [E1 E2].
  { apply bind_ok_inv in H2' as (txs & _ & [= <-]). unfold decodeHeaderField in H1'.
    destruct (0 <? _); [by apply bind_ok_inv in H1' as (h & _ & [= <-]) | by injection H1' as <-]. }
  apply bind_ok_inv in H3' as (rs & Hrs & [= <-]). cbn [m_receipts]. rewrite E1, E2 in Hrs.
  destruct (decodeCached_spec (receiptCarries true) (decodeOneReceipt garbage true)
    (fun r s => Receipt.content r = Receipt.content s /\
       Receipt.version (Receipt.m_receipt s) = Receipt.version (Receipt.m_receipt r))
    (receipts (m_pbRawBlock b1)) (m_receipts b1)) as (rs' & Hrs' & Hall); [| exact e_receiptCache0 |].
  - intros d p (r & -> & Hr). destruct (Hr garbage) as (u & Hu & _ & Hk & Hv). exists (Some u). split; [done |].
    by exists r, u.
  - rewrite Hrs in Hrs'. by injection Hrs' as <-.
Qed.

Lemma forall2_left {A} (P : A -> Prop) (R : A -> A -> Prop) (l k : list (option A)) :
  Forall (fun p => forall x, p = Some x -> P x) l -> Forall2 (both R) l k ->
  Forall2 (both (fun x y => P x /\ R x y)) l k.
Proof.
  intros Hl Hk. revert Hl. induction Hk as [| p q l k (x & y & -> & -> & Hxy) _ IH]; intros Hl; constructor.
  - exists x, y. inversion Hl; subst. auto.
  - apply IH. by inversion Hl.
Qed.

Lemma forall2_right {A} (P : A -> Prop) (R : A -> A -> Prop) (l k : list (option A)) :
  Forall (fun p => exists x, p = Some x /\ P x) k -> Forall2 (both R) l k ->
  Forall2 (both (fun x y => R x y /\ P y)) l k.
Proof.
  intros Hk Hlk. revert Hk. induction Hlk as [| p q l k (x & y & -> & -> & Hxy) _ IH]; intros Hk; constructor.
  - exists x, y. inversion Hk as [| ? ? (y' & E & Hy)]; subst. injection E as ->. auto.
  - apply IH. by inversion Hk.
Qed.

Lemma forall2_length {A} (R : A -> A -> Prop) (l k : list (option A)) :
  Forall2 (both R) l k -> (len k =? len l) = true.
Proof. intros Hl. apply Forall2_length in Hl. unfold len. rewrite Hl. apply Z.eqb_refl. Qed.

(** The comparison of an encoded block with its copy passes. *)
Lemma checkBlock_passes (b1 c : PBBlock) (rr tr : bytes) :
  sameBlock b1 c -> Forall (fun p => forall t, p = Some t -> goodTx true true t) (m_transactions b1) ->
  Forall (fun p => exists t, p = Some t /\ ownSender t) (m_transactions b1) ->
  Forall (fun p => exists t, p = Some t /\ ownSender t) (m_transactions c) ->
  Forall (fun p => forall r, p = Some r -> Receipt.m_logEntries r = Some (ReceiptFixture.fakeLogEntries 2)) (m_receipts b1) ->
  Forall2 (both (fun r s => Receipt.content r = Receipt.content s /\
    Receipt.version (Receipt.m_receipt s) = Receipt.version (Receipt.m_receipt r))) (m_receipts b1) (m_receipts c) ->
  calculateReceiptRoot schedule b1 = Ok rr -> calculateTransactionRoot schedule b1 = Ok tr -> statesRoots b1 rr tr ->
  exists checks, checkBlock schedule b1 c = Ok checks /\ passes checks = true.
Proof.
  intros Hs Hgood Hown1 Hown2 Hlogs Hrec Hr Ht Hst. unfold checkBlock.
  assert (exists checks, match m_blockHeader b1 with
    | Some h => d ← ofBlock (deref (m_blockHeader c)); ofHeader (HeaderFixture.checkBlockHeader h d)
    | None => Ok [] end = Ok checks /\ passes checks = true) as (hs & -> & Hhs).
  { destruct (same_header b1 c Hs) as [[-> _] | (h & d & -> & -> & Hf & Hsig & Hv & _)]; [by exists [] |].
    destruct (HeaderFixtureFacts.checkBlockHeader_same h d) as (cs & Hcs & Hp); [done.. |].
    exists cs. unfold ofBlock, ofHeader. cbn [deref mapThrow]. rewrite bind_ok, Hcs. done. }
  rewrite bind_ok. pose proof (forall2_right _ _ _ _ Hown2 (same_txs b1 c Hs)) as Htxs.
  assert (Forall (fun p => forall t, p = Some t -> goodTx true true t /\ ownSender t) (m_transactions b1)) as Hleft.
  { clear - Hgood Hown1. induction Hgood as [| p l Hp _ IH]; constructor.
    - intros t ->. inversion Hown1 as [| ? ? (t' & E & Ho)]; subst. injection E as ->. auto.
    - apply IH. by inversion Hown1. }
  pose proof (forall2_left _ _ _ _ Hleft Htxs) as Htxs'.
  destruct (checkAll_passes (fun t u => ofTx (TransactionFixture.checkTransaction t u)) _ _ _ sameTx_checks Htxs') as (ts & -> & Hts).
  rewrite bind_ok. pose proof (forall2_left _ _ _ _ Hlogs Hrec) as Hrec'.
  destruct (checkAll_passes (fun r s => ofReceipt (ReceiptFixture.checkReceipts r s)) _ _ _
    checkReceipts_content Hrec') as (rs & -> & Hrs).
  rewrite bind_ok. destruct (checkMetas_passes _ _ (same_metas b1 c Hs)) as (ms & -> & Hms). rewrite bind_ok.
  destruct (checkRoots_passes b1 c rr tr Hs Hr Ht Hst) as (rts & -> & Hrts). rewrite bind_ok.
  eexists. split; [reflexivity |]. rewrite !passes_app, Hhs, Hts, Hrs, Hms, Hrts.
  unfold passes. cbn [forallb id]. rewrite (same_type b1 c Hs), Z.eqb_refl.
  rewrite (forall2_length _ _ _ (same_txs b1 c Hs)), (forall2_length _ _ _ (same_receipts b1 c Hs)). done.
Qed.

Lemma encoded_logs (b b1 : PBBlock) (P := fun r => Receipt.m_logEntries r = Some (ReceiptFixture.fakeLogEntries 2)) :
  encoded true true b b1 -> Forall (fun p => forall r, p = Some r -> P r) (m_receipts b) ->
  Forall (fun p => forall r, p = Some r -> P r) (m_receipts b1).
Proof.
  intros [] Hl. clear - e_receipts0 Hl. revert Hl.
  induction e_receipts0 as [| p q l k (r & s & -> & -> & Hk) _ IH]; intros Hl; constructor.
  - intros ? [= <-]. inversion Hl as [| ? ? Hr]; subst. specialize (Hr r eq_refl). unfold P in *. rewrite <- Hr.
    unfold sameContent in Hk. destruct r, s. by injection Hk.
  - apply IH. by inversion Hl.
Qed.

Lemma encoded_roots (b b1 : PBBlock) (rr tr : bytes) :
  encoded true true b b1 -> statesRoots b rr tr -> statesRoots b1 rr tr.
Proof.
  intros [] Hst. unfold statesRoots in *.
  destruct e_header0 as [(_ & -> & _) | (h & h' & E1 & -> & Hg & He)]; [done |]. rewrite E1 in Hst.
  destruct Hst as (_ & <- & <-). split; [by eapply goodHeader_encoded |].
  destruct Hg as [Hc Henc].
  destruct (BlockHeaderFacts.encodeHeader_decode SerializeToArray ParseFromArray hashImpl h h' _
    (fun r d => parse_serialize r d) Hc Henc He) as (_ & -> & _). done.
Qed.

(** *** Building the block *)

(** An entry of the metadata has the hash of its transaction. *)
Definition listed (p : option Transaction.PBTransaction) (q : option PBTransactionMetaData) : Prop :=
  exists t m h, p = Some t /\ q = Some m /\ Transaction.hash t = Ok h /\ (getHash m).1 = h.

Lemma checkHashes_passes txs metas :
  Forall2 listed txs metas ->
  exists checks, checkHashes (length txs) txs metas = Ok checks /\ passes checks = true.
Proof.
  induction 1 as [| p q txs metas (t & m & h & -> & -> & Hh & Hg) _ (cs & IH & Hp)]; [by exists [] |].
  cbn [checkHashes length deref]. unfold ofTx, ofBlock. cbn [mapThrow].
  rewrite bind_ok, Hh. cbn [mapThrow]. rewrite !bind_ok, IH, bind_ok.
  eexists. split; [done |]. rewrite passes_app, Hp. cbn. by rewrite Hg, !bool_decide_eq_true_2.
Qed.

Lemma listed_same txs txs' metas metas' :
  Forall2 listed txs metas -> Forall2 (both sameTx) txs txs' ->
  Forall2 (both (fun m n => m_pbTxMetaData m = m_pbTxMetaData n /\ m_hash n = zeroHash /\
    PBMetaData.coherent m)) metas metas' -> Forall2 listed txs' metas'.
Proof.
  intros Hl. revert txs' metas'.
  induction Hl as [| p q txs metas (t & m & h & -> & -> & Hh & Hg) _ IH]; intros txs' metas' Ht Hm;
    inversion Ht as [| ? p' ? l' (x & u & Ex & -> & Hs)]; inversion Hm as [| ? q' ? k' (y & n & Ey & -> & E & Z & C)];
    subst; constructor; [| by apply IH]. injection Ex as <-. injection Ey as <-.
  exists u, n, (getHash m).1. split_and!; [done | done | by rewrite <- (sameTx_hash t u Hs) |].
  rewrite <- (getHash_reread m C). f_equal. f_equal. destruct n. cbn in *. by subst.
Qed.

Lemma getHash_made (h dest : bytes) :
  length h = 32%nat -> (getHash (setTo dest (setHash h newMetaData))).1 = h.
Proof.
  intros Hh. unfold getHash. cbn [setTo setHash m_hash m_pbTxMetaData hash newMetaData].
  destruct (bool_decide (h = zeroHash)); [| done]. cbn [negb]. unfold len. rewrite Hh. cbn -[take].
  by rewrite take_ge by lia.
Qed.

Lemma accepted_hash (t : Transaction.PBTransaction) :
  accepted t -> exists h, Transaction.hash t = Ok h /\ length h = 32%nat.
Proof.
  intros Ht. destruct (accepted_good t Ht) as [(_ & _ & Hs) _]. destruct (Hs eq_refl) as [Hh _]. eexists. split; [exact Hh |]. apply hash_size.
Qed.

(** What the loops and the setters of the fixture leave as it is. *)
Definition sameHead (b c : PBBlock) : Prop := m_blockHeader c = m_blockHeader b.

Lemma appendAll_spec (txs : list Transaction.PBTransaction) (b c : PBBlock) :
  Forall accepted txs -> appendAll txs b = Ok c -> Inv true true b ->
  Forall2 listed (m_transactions b) (m_transactionMetaDataList b) ->
  Inv true true c /\ m_transactions c = m_transactions b ++ map Some txs /\
  m_receipts c = m_receipts b /\ sameHead b c /\ Forall2 listed (m_transactions c) (m_transactionMetaDataList c).
Proof.
  intros Ha. revert b. induction Ha as [| t txs Ht _ IH]; intros b Hc Hi Hl; cbn [appendAll] in Hc.
  - injection Hc as <-. rewrite app_nil_r. done.
  - destruct (accepted_hash t Ht) as (h & Hh & Hlen). unfold ofTx, ofBlock in Hc. rewrite Hh in Hc.
    cbn [mapThrow] in Hc. rewrite bind_ok in Hc. set (m := setTo _ _) in Hc.
    destruct (IH _ Hc) as (H1' & H2' & H3' & H4' & H5').
    + eapply (calls_inv true true [AppendTransaction t; AppendMetaData m]); [exact Hi | | reflexivity].
      constructor; [by apply accepted_good |]. constructor; [exact (setHash_coherent h newMetaData Hlen) | constructor].
    + apply Forall2_app; [done |]. constructor; [| constructor]. exists t, m, h. split_and!; try done.
      by apply getHash_made.
    + split_and!; [done | rewrite H2'; cbn; by rewrite <- app_assoc | by rewrite H3' | done | done].
Qed.

Lemma setReceiptsFrom_spec (rs : list Receipt.PBTransactionReceipt) (i : nat) (b : PBBlock) :
  Forall fakeReceipt rs -> Inv true true b ->
  Forall (fun p => forall r, p = Some r -> Receipt.m_logEntries r = Some (ReceiptFixture.fakeLogEntries 2)) (m_receipts b) ->
  let c := setReceiptsFrom i rs b in
  Inv true true c /\ m_transactions c = m_transactions b /\ sameHead b c /\
  m_transactionMetaDataList c = m_transactionMetaDataList b /\
  Forall (fun p => forall r, p = Some r -> Receipt.m_logEntries r = Some (ReceiptFixture.fakeLogEntries 2)) (m_receipts c).
Proof.
  intros Hr. revert i b. induction Hr as [| r rs [Hg Hl] _ IH]; intros i b Hi Hlogs; cbn [setReceiptsFrom]; [done |].
  apply (IH (S i) (setReceipt i (Some r) b)).
  - by eapply (calls_inv true true [SetReceipt i r]); [exact Hi | constructor; [exact Hg | constructor] | reflexivity].
  - cbn. unfold assignAt. apply Forall_insert; [| by intros ? [= <-]].
    destruct (_ <=? i)%nat; [| done]. by apply Forall_resize.
Qed.

Lemma fakeBlock_spec (header : option BlockHeader.BlockHeader) (txs : list Transaction.PBTransaction)
    (rs : list Receipt.PBTransactionReceipt) (b : PBBlock) (rr tr : bytes) :
  (forall h, header = Some h -> goodHeader h) -> Forall accepted txs -> Forall fakeReceipt rs ->
  fakeBlock schedule header txs rs = Ok b -> (forall h, m_blockHeader b = Some h -> goodHeader h) ->
  calculateReceiptRoot schedule b = Ok rr -> calculateTransactionRoot schedule b = Ok tr ->
  Inv true true b /\ m_transactions b = map Some txs /\ statesRoots b rr tr /\
  Forall2 listed (m_transactions b) (m_transactionMetaDataList b) /\
  Forall (fun p => forall r, p = Some r -> Receipt.m_logEntries r = Some (ReceiptFixture.fakeLogEntries 2)) (m_receipts b).
Proof.
  intros Hh Ht Hr Hb Hfin Hrr Htr. unfold fakeBlock in Hb. apply bind_ok_inv in Hb as (c & Hc & Hb).
  set (b0 := match header with Some _ => _ | None => _ end) in Hc.
  assert (Inv true true (setBlockType CompleteBlock b0) /\ m_transactions b0 = [] /\
    m_transactionMetaDataList b0 = [] /\ m_receipts b0 = []) as (Hi & E1 & E2 & E3).
  { subst b0. split; [| by destruct header].
    destruct header as [h |]; [| by apply (calls_inv true true [SetBlockType CompleteBlock] newBlock _ (new_inv _ _)); [repeat constructor |]].
    apply (calls_inv true true [SetBlockHeader h; SetBlockType CompleteBlock] newBlock _ (new_inv _ _)); [| done].
    constructor; [by apply Hh | by repeat constructor]. }
  destruct (appendAll_spec txs _ c Ht Hc Hi) as (Hic & Htc & Hrc & _ & Hlc).
  { cbn. rewrite E1, E2. constructor. }
  cbn in Htc, Hrc. rewrite E1 in Htc. rewrite E3 in Hrc. cbn [app] in Htc.
  destruct (setReceiptsFrom_spec rs 0 c Hr Hic) as (Hid & Htd & _ & Hmd & Hld); [rewrite Hrc; constructor |].
  cbv zeta in *. set (d := setReceiptsFrom 0 rs c) in *. rewrite <- Htd, <- Hmd in Hlc.
  destruct (m_blockHeader d) as [h |] eqn:Hhd.
  - apply bind_ok_inv in Hb as (r & Er & Hb). apply bind_ok_inv in Hb as (t & Et & [= <-]).
    specialize (Hfin _ eq_refl).
    change (calculateReceiptRoot schedule d = Ok rr) in Hrr. change (calculateTransactionRoot schedule d = Ok tr) in Htr.
    assert (r = rr) as -> by congruence. assert (t = tr) as -> by congruence.
    split; [| split_and!; [rewrite <- Htc; exact Htd | | exact Hlc | exact Hld]].
    + by apply (calls_inv true true [SetBlockHeader (BlockHeader.setTxsRoot tr (BlockHeader.setReceiptsRoot rr h))] d _ Hid);
        [constructor; [exact Hfin | constructor] |].
    + split; [exact Hfin |]. by destruct h as [? ? [] ? ?].
  - injection Hb as <-. unfold statesRoots. rewrite Hhd. split_and!; [done | congruence | done..].
Qed.
End Facts.

End BlockFixtureFacts.

(* ------------------------------------------------------------------ *)
(** ** The hypotheses can be met *)

Module FixtureWitnesses.
Import PBMetaData PBBlock PBBlockFacts BlockFixture BlockFixtureFacts.
Import SampleCrypto SampleTransactions SampleReceipts PBBlockWitnesses SampleWedpr.

(** A message behind a tag that is checked. *)
Definition tagged {M : Type} (msg : PBMessage M) : PBMessage M :=
  {| SerializeToArray r := cons Byte.x0a <$> @SerializeToArray M msg r
   ; ParseFromArray d := match d with Byte.x0a :: d => @ParseFromArray M msg d | _ => None end |}.

Lemma tagged_law {M : Type} (msg : PBMessage M) : @PBLaw M msg -> @PBLaw M (tagged msg).
Proof.
  intros Hl r d. cbn. destruct (@SerializeToArray M msg r) eqn:E; [| done]. intros [= <-].
  by apply (@parse_serialize M msg Hl).
Qed.

Definition taggedHeader := tagged headerMessage.
Definition taggedHeader_law : @PBLaw _ taggedHeader := tagged_law _ headerMessage_law.
Definition taggedBlock := tagged blockMessage.
Definition taggedBlock_law : @PBLaw _ taggedBlock := tagged_law _ blockMessage_law.
#[local] Existing Instances taggedHeader taggedHeader_law taggedBlock taggedBlock_law.
#[local] Existing Instance sampleSuite.

Definition acceptedTx : Transaction.PBTransaction :=
  get (Transaction.createTransaction (encodedTx signedTx).1 true) Transaction.newTransaction.

Definition madeReceipt : Receipt.PBTransactionReceipt :=
  (get (ReceiptFixture.testPBTransactionReceipt 3 12343242342 11 [Byte.x0a] 0) ([], sampleReceipt)).2.

Definition madeContent : Receipt.Content :=
  Receipt.mkContent 11 [Byte.x0a] (take 20 ReceiptFixture.contractAddress) 12343242342
    (Some (ReceiptFixture.fakeLogEntries 2)) 0.

Lemma madeContent_encodable : ReceiptFacts.encodable madeContent.
Proof.
  let c := eval vm_compute in madeContent in change madeContent with c.
  split; [repeat (split || constructor); vm_compute; congruence | vm_compute; reflexivity].
Qed.

Lemma madeReceipt_fake : fakeReceipt madeReceipt.
Proof.
  assert (Receipt.content madeReceipt = madeContent) as Hk by (vm_compute; reflexivity).
  split; [split; [right; vm_compute; reflexivity |] |].
  - rewrite Hk. apply madeContent_encodable.
  - change (Receipt.c_logEntries (Receipt.content madeReceipt) = Some (ReceiptFixture.fakeLogEntries 2)). by rewrite Hk.
Qed.

Definition inOrder (n : nat) : list nat := seq 0 n.
Definition madeBlock : PBBlock :=
  get (fakeBlock inOrder (Some sampleHeader) [acceptedTx; acceptedTx] [madeReceipt; madeReceipt]) newBlock.
Definition madeData : bytes * PBBlock := get (encode madeBlock) ([], newBlock).
Definition madeRoots : bytes * bytes :=
  (get (calculateReceiptRoot inOrder madeBlock) [], get (calculateTransactionRoot inOrder madeBlock) []).
Definition changedData : bytes := get (bump (E := fixture_exn) madeData.1) [].

Lemma madeHeader_good h : m_blockHeader madeBlock = Some h -> goodHeader h.
Proof.
  intros Hh. vm_compute in Hh. injection Hh as <-. split; [split; by left |].
  eexists. split; [reflexivity |].
  split; [repeat (split || constructor); vm_compute; congruence | vm_compute; reflexivity].
Qed.


(** Two sealers with generated SM2 keys. *)
Definition sealerKeys : list bytes * list KeyPair :=
  okOr (HeaderFixture.fakeSealerList SM2SignatureImpl [] [7; 8]) ([], []).
Definition headerOps : list BlockHeaderFacts.op :=
  [BlockHeaderFacts.SetNumber 9; BlockHeaderFacts.SetSealerList sealerKeys.1; BlockHeaderFacts.Hash].
Definition listedHeader : BlockHeader.BlockHeader :=
  get (BlockHeaderFacts.calls SerializeToArray hashImpl headerOps BlockHeader.newBlockHeader) BlockHeader.newBlockHeader.
Definition listedHash : bytes * BlockHeader.BlockHeader :=
  get (BlockHeader.hash hashImpl listedHeader) ([], BlockHeader.newBlockHeader).

Lemma listed_encodable : BlockHeaderFacts.encodable (BlockHeader.fields listedHeader).
Proof.
  let f := eval vm_compute in (BlockHeader.fields listedHeader) in change (BlockHeader.fields listedHeader) with f.
  exists 9. split; [reflexivity |].
  split; [repeat (split || constructor); vm_compute; congruence | vm_compute; reflexivity].
Qed.

Lemma sealed_header_verifies_witness :
  exists sigs, HeaderFixture.fakeSignatureList SM2SignatureImpl 0 sealerKeys.2 listedHash.1 = Ok sigs /\
    let signed := BlockHeader.setSignatureList sigs listedHeader in
    BlockHeader.verifySignatureList hashImpl (HeaderFixtureFacts.accepts SM2SignatureImpl) signed = Ok () /\
    forall data h2, BlockHeader.encodeHeader SerializeToArray signed = Ok (data, h2) ->
      exists d, createBlockHeader data = Ok d /\ BlockHeader.fields d = BlockHeader.fields listedHeader /\
        BlockHeader.verifySignatureList hashImpl (HeaderFixtureFacts.accepts SM2SignatureImpl) d = Ok ().
Proof.
  apply (HeaderFixtureTheorems.sealed_header_verifies true [7; 8] sealerKeys.1 sealerKeys.2 headerOps listedHeader
           listedHash.2 listedHash.1); [vm_compute; reflexivity | vm_compute; reflexivity | exact listed_encodable
    | vm_compute; reflexivity | vm_compute; reflexivity].
Defined.

Definition plainFields : BlockHeader.HashFields :=
  BlockHeader.mkFields [] BlockHeader.zeroHash BlockHeader.zeroHash BlockHeader.zeroHash (Some 5) 1 2 3 [] [0] [].

Lemma header_fixture_passes_witness :
  let run := HeaderFixture.fakeAndTestBlockHeader 1 [] BlockHeader.zeroHash BlockHeader.zeroHash
    BlockHeader.zeroHash 5 1 2 3 [] [] [] in
  run = Throw BlockHeader.PBObjectEncodeException \/
  exists checks h, run = Ok (checks, h) /\ BlockHeader.fields h = plainFields /\
    BlockHeader.m_signatureList h = [] /\
    (passes checks = true <-> HeaderFixtureFacts.digest plainFields (5 + 1) <> HeaderFixtureFacts.digest plainFields 5).
Proof.
  apply (HeaderFixtureTheorems.header_fixture_passes 1 [] BlockHeader.zeroHash BlockHeader.zeroHash
    BlockHeader.zeroHash 5 1 2 3 [] [] []); [lia | | vm_compute; reflexivity |].
  - repeat (split || constructor); vm_compute; congruence.
  - intros data Hd. vm_compute in Hd. injection Hd as <-. eexists. split; vm_compute; reflexivity.
Defined.

(** The fixture of transactions with a generated pair of keys. *)
Lemma transaction_fixture_passes_witness :
  let suite := createNormalCryptoSuite in
  let run := TransactionFixture.testTransaction SignatureWitnesses.secpKeys (text "to") (text "in") 5 100 (text "c") (text "g") 9 in
  run = Throw (Transaction.PBException PBObjectEncodeException) \/
  exists checks t, run = Ok (checks, t) /\ passes checks = true /\
    Transaction.sender t = keyPairAddress hashImpl SignatureWitnesses.secpKeys /\ Transaction.m_nonce t = 5.
Proof.
  apply (ObjectFixtureTheorems.transaction_fixture_passes false 7 SignatureWitnesses.secpKeys (text "to") (text "in") 5 100 (text "c") (text "g") 9);
    [lia | vm_compute; reflexivity].
Defined.
End FixtureWitnesses.
