(* ===== verification/HeaderTest.v ===== *)
(** * The test of block headers

    Model of [testPBBlockHeader] of testutils/protocol/FakeBlockHeader.h: a header
    over fixed values goes through the fixture of headers, is signed by its sealers,
    and its signatures are accepted, refused when they are those of another hash, and
    accepted again. *)

From Stdlib Require Import ZArith Lia List.
From Stdlib Require Import Strings.String Strings.Byte.
From stdpp Require Import base tactics decidable list option.
From S2P Require Import Prelude FixedBytes ScaleStream ScaleTypes Protobuf.
From S2P Require Import Transaction Signatures BlockHeader PBBlock Fixtures BlockFixture.
Import StreamFacts Protobuf Crypto Signatures.

Module HeaderTest.
Import BlockHeader HeaderFixture HeaderFixtureFacts BlockFixture.

Section Test.
Context `{Platform, CryptoSuite, PBMessage RawBlockHeader} (signImpl : SignatureCrypto).

Definition ofSignature {A} : outcome sig_exn A -> outcome fixture_exn A := mapThrow SignatureException.

Definition root (s : string) : bytes := hashImpl (list_byte_of_string s).
Definition testNumber : Z := 12312312412.

(** The hash fields of the header. *)
Definition testFields (sealerList : list bytes) : HashFields :=
  mkFields (fakeParentInfo 3) (root "txsRoot") (root "receiptsRoot") (root "stateRoot")
    (Some testNumber) 3453456346534 9234234234 100 sealerList [0] (root "stateRoot").

(** A check that [verifySignatureList] throws [InvalidSignatureList]. *)
Definition refuses (h : BlockHeader) : outcome header_exn bool :=
  match verifySignatureList hashImpl (accepts signImpl) h with
  | Throw InvalidSignatureList => Ok true
  | Throw e => Throw e
  | Ok _ => Ok false
  | Undefined u => Undefined u
  end.

(** The keys have the size the check of a signature asks for, so that [accepts] is
    that check.  The seeds are those the generator draws for the four sealers. *)
Definition testPBBlockHeader (seeds : list Z) : outcome fixture_exn (list bool * BlockHeader) :=
  '(sealerList, keyPairVec) ← ofSignature (fakeSealerList signImpl [] seeds);
  signatureList ← ofSignature (fakeSignatureList signImpl 0 keyPairVec (root "receiptsRoot"));
  '(checks, h) ← ofHeader (fakeAndTestBlockHeader 10 (fakeParentInfo 3)
    (root "txsRoot") (root "receiptsRoot") (root "stateRoot") testNumber 3453456346534 9234234234 100
    sealerList (root "stateRoot") signatureList);
  '(dig, h) ← ofHeader (hash hashImpl h);
  signatureList ← ofSignature (fakeSignatureList signImpl 0 keyPairVec dig);
  let h := setSignatureList signatureList h in
  _ ← ofHeader (verifySignatureList hashImpl (accepts signImpl) h);
  invalid ← ofSignature (fakeSignatureList signImpl 0 keyPairVec (root "receiptsRoot"));
  let h := setSignatureList invalid h in
  refused ← ofHeader (refuses h);
  let h := setSignatureList signatureList h in
  _ ← ofHeader (verifySignatureList hashImpl (accepts signImpl) h);
  Ok (checks ++ [refused], h).
End Test.
End HeaderTest.

Module HeaderTestFacts.
Import BlockHeader BlockHeaderFacts SignatureFacts HeaderFixture HeaderFixtureFacts BlockFixture HeaderTest.

Lemma ofSignature_ok {A} (a : A) : ofSignature (Ok a) = Ok a.
Proof. done. Qed.

Lemma ofHeader_ok {A} (a : A) : ofHeader (Ok a) = Ok a.
Proof. done. Qed.

Lemma verifyEach_outcome (verify : bytes -> bytes -> bytes -> bool) (dig : bytes) (sealers : list bytes)
    (sigs : list Signature) :
  Forall (fun s => 0 <= index s /\ exists key, sealers !! Z.to_nat (index s) = Some key) sigs ->
  verifyEach verify dig sealers sigs = Ok () \/ verifyEach verify dig sealers sigs = Throw InvalidSignatureList.
Proof.
  induction 1 as [| s sigs (H0 & key & Hk) _ IH]; [by left |]. cbn [verifyEach].
  apply lookup_lt_Some in Hk as Hlt. unfold len.
  rewrite (proj2 (Z.ltb_ge _ _)), (proj2 (Z.leb_gt _ _)) by lia. cbn [orb]. rewrite Hk.
  destruct (verify key dig (signature s)); [done | by right].
Qed.

Section Facts.
Context `{PlatformLaw, CryptoLaw, PBLaw RawBlockHeader} (impl : SignatureCrypto) `{!SignatureLaw impl}.

(** Every signature of the list is one of the hash, under the key it names. *)
Definition signs (kps : list KeyPair) (dig : bytes) (sigs : list Signature) : Prop :=
  Forall (fun s => 0 <= index s /\ exists key,
    map publicKey kps !! Z.to_nat (index s) = Some key /\ accepts impl key dig (signature s) = true) sigs.

(** The check refuses the sealers' signatures of another hash unless they are taken for
    signatures of the hash of the header. *)
Lemma refuses_spec (kps : list KeyPair) (message dig : bytes) (h h' : BlockHeader) (sigs : list Signature) :
  length message = 32%nat -> Forall (generated impl) kps -> kps <> [] ->
  m_sealerList (fields h) = map publicKey kps ->
  fakeSignatureList impl 0 kps message = Ok sigs -> hash hashImpl h = Ok (dig, h') ->
  exists refused, refuses impl (setSignatureList sigs h) = Ok refused /\
    (refused = true <-> ~ signs kps dig sigs).
Proof.
  intros Hm Hk Hne Hl Hs Hh.
  destruct (fakeSignatureList_spec impl kps [] message Hm Hk) as (sigs' & Hs' & Hlen & Hall).
  change (len (@nil KeyPair)) with 0 in Hs'. cbn [app] in Hall.
  assert (sigs' = sigs) as -> by (apply (inj (@Ok sig_exn _)); congruence).
  destruct (hash_signatures sigs h h' dig Hh) as (h'' & Hh'').
  assert (verifySignatureList hashImpl (accepts impl) (setSignatureList sigs h) =
          verifyEach (accepts impl) dig (map publicKey kps) sigs) as Hv.
  { unfold verifySignatureList. rewrite Hh''. cbn [setSignatureList noteSignatureDirty fields m_signatureList].
    rewrite Hl. unfold len. rewrite Hlen, length_map, (proj2 (Z.ltb_ge _ _)) by lia.
    destruct sigs; [by destruct kps | by rewrite bind_ok]. }
  pose proof (verifyEach_spec (accepts impl) dig (map publicKey kps) sigs) as Hspec. fold (signs kps dig sigs) in Hspec.
  unfold refuses. rewrite Hv.
  destruct (verifyEach_outcome (accepts impl) dig (map publicKey kps) sigs) as [E | E].
  - eapply List.Forall_impl; [| exact Hall]. naive_solver.
  - exists false. rewrite E. split; [done |]. split; [done | intros Hn; destruct Hn; by apply Hspec].
  - exists true. rewrite E. split; [done |]. split; [| done]. intros _ Hn. apply Hspec in Hn. congruence.
Qed.

(** The test of headers over its fixed values: unless protobuf fails to serialise, the
    header passes the fixture of headers, the signatures its sealers make of its hash are
    accepted, and so is the header the test returns; all checks pass exactly when the
    digests of the header and of its successor number differ and the signatures of the
    other hash are not signatures of its digest as well, given that protobuf refuses the
    changed bytes. *)
Theorem header_test_passes (seeds : list Z) (sealers : list bytes) (kps : list KeyPair) (sigs : list Signature) :
  let f := testFields sealers in
  let run := testPBBlockHeader impl seeds in
  seeds <> [] -> fakeSealerList impl [] seeds = Ok (sealers, kps) ->
  fakeSignatureList impl 0 kps (root "receiptsRoot") = Ok sigs ->
  valid (toTuple f testNumber) -> fits (image (toTuple f testNumber)) ->
  (forall data,
     SerializeToArray (mkRaw 10 (image (toTuple f testNumber)) (map (fun s => (index s, signature s)) sigs)) = Some data ->
     exists changed, bump data = (Ok changed : outcome header_exn _) /\ ParseFromArray (M := RawBlockHeader) changed = None) ->
  run = Throw (BlockException (PBBlock.HeaderException PBObjectEncodeException)) \/
  exists checks h, run = Ok (checks, h) /\ fields h = f /\
    verifySignatureList hashImpl (accepts impl) h = Ok () /\
    (passes checks = true <->
     digest f (testNumber + 1) <> digest f testNumber /\ ~ signs kps (digest f testNumber) sigs).
Proof.
  intros f run Hseeds Hseal Hsigs Hv Hfit Hb. subst run. unfold testPBBlockHeader, fakeAndTestBlockHeader.
  pose proof Hseal as Hs. apply fakeSealerList_spec in Hs as (new & Hnew & -> & Hg). cbn [app] in Hnew. subst new.
  assert (kps <> []) as Hkps.
  { intros ->. destruct seeds as [| x l]; [done |]. cbn in Hseal.
    apply bind_ok_inv in Hseal as (kp & _ & Hseal). by apply bind_ok_inv in Hseal as ([] & _ & [=]). }
  rewrite Hseal, ofSignature_ok, bind_ok, Hsigs, ofSignature_ok, bind_ok.
  match goal with |- context [testHeader testNumber ?h0] => set (h := h0) end.
  assert (coherent h /\ m_signatureList h = sigs /\ version (m_blockHeader h) = 10 /\ fields h = f)
    as (Hc & Hsg & Hver & Hf) by apply fakeHeader_spec.
  pose proof (test_passes h testNumber Hc) as Ht. unfold message in Ht. rewrite Hf, Hsg, Hver in Ht.
  destruct Ht as [-> | (checks & h1 & -> & Hc1 & Hf1 & _ & Hpass)]; [done.. | by left |].
  right. rewrite ofHeader_ok, bind_ok.
  destruct (hash_fields h1 testNumber Hc1) as (h2 & Hh2 & Hc2 & Hf2 & _); [by rewrite Hf1.. |].
  rewrite Hf1 in Hh2. rewrite Hh2. rewrite ofHeader_ok, bind_ok.
  destruct (hash_fields h2 testNumber Hc2) as (h3 & Hh3 & _); [by rewrite Hf2, Hf1.. |].
  rewrite Hf2, Hf1 in Hh3.
  assert (m_sealerList (fields h2) = map publicKey kps) as Hl by (by rewrite Hf2, Hf1).
  destruct (signatures_verify impl kps h2 h3 (digest f testNumber) (hash_size _) Hg Hl Hh3)
    as (own & Hown & _ & Hok).
  rewrite Hown. rewrite ofSignature_ok, bind_ok.
  assert (forall other, verifySignatureList hashImpl (accepts impl)
            (setSignatureList own (setSignatureList other h2)) = Ok ()) as Hok2.
  { intros other. apply Hok; [done.. |]. destruct (hash_signatures other _ _ _ Hh3) as (h4 & Hh4).
    by apply (hash_signatures own _ _ _ Hh4). }
  rewrite (Hok (setSignatureList own h2)); [| done.. | by apply (hash_signatures own _ _ _ Hh3)].
  rewrite ofHeader_ok, bind_ok.
  rewrite bind_ok.
  destruct (hash_signatures own _ _ _ Hh3) as (h5 & Hh5).
  destruct (refuses_spec kps (root "receiptsRoot") (digest f testNumber) (setSignatureList own h2) h5 sigs)
    as (refused & -> & Hrefused); [apply hash_size | done.. |].
  rewrite ofHeader_ok, bind_ok.
  assert (verifySignatureList hashImpl (accepts impl)
            (setSignatureList own (setSignatureList sigs (setSignatureList own h2))) = Ok ()) as Hlast
    by exact (Hok2 sigs).
  rewrite Hlast, ofHeader_ok, bind_ok. eexists _, _. split; [reflexivity |].
  split; [cbn; by rewrite Hf2, Hf1 |]. split; [exact Hlast |].
  rewrite passes_app, andb_true_iff, Hpass. unfold passes at 1. cbn [forallb id].
  by rewrite andb_true_r, Hrefused.
Qed.
End Facts.
End HeaderTestFacts.

(** ** The hypotheses can be met *)

Module HeaderTestWitnesses.
Import BlockHeader HeaderFixture HeaderFixtureFacts BlockFixture HeaderTest HeaderTestFacts.
Import SignatureFacts SampleCrypto SampleWedpr FixtureWitnesses.
#[local] Existing Instances taggedHeader taggedHeader_law sampleSuite sampleSuite_law.

(** Four sealers with generated SM2 keys, and their signatures of the receipts' root. *)
Definition fourSealers : list bytes * list KeyPair :=
  okOr (fakeSealerList SM2SignatureImpl [] [1; 2; 3; 4]) ([], []).
Definition rootSignatures : list Signature :=
  okOr (fakeSignatureList SM2SignatureImpl 0 fourSealers.2 (root "receiptsRoot")) [].

Lemma header_test_passes_witness :
  let f := testFields fourSealers.1 in
  let run := testPBBlockHeader SM2SignatureImpl [1; 2; 3; 4] in
  run = Throw (BlockException (PBBlock.HeaderException PBObjectEncodeException)) \/
  exists checks h, run = Ok (checks, h) /\ fields h = f /\
    verifySignatureList hashImpl (accepts SM2SignatureImpl) h = Ok () /\
    (passes checks = true <->
     HeaderFixtureFacts.digest f (testNumber + 1) <> HeaderFixtureFacts.digest f testNumber /\
     ~ signs SM2SignatureImpl fourSealers.2 (HeaderFixtureFacts.digest f testNumber) rootSignatures).
Proof.
  apply (header_test_passes SM2SignatureImpl [1; 2; 3; 4] fourSealers.1 fourSealers.2 rootSignatures).
  - discriminate.
  - vm_compute. reflexivity.
  - vm_compute. reflexivity.
  - let f := eval vm_compute in (testFields fourSealers.1) in change (testFields fourSealers.1) with f.
    repeat (split || constructor); vm_compute; congruence.
  - vm_compute. reflexivity.
  - intros data Hd. vm_compute in Hd. injection Hd as <-. eexists. split; vm_compute; reflexivity.
Defined.
End HeaderTestWitnesses.
