(* ===== verification/FakeLedger.v ===== *)
(** * A ledger in memory

    Model of testutils/faker/FakeLedger.h and FakeScheduler.h: a ledger that keeps
    its blocks in a vector and commits in a worker of its own, and the scheduler
    that commits through it.  The calls answer through callbacks: an operation
    returns the answers its callback was given.  The jobs of the worker are part of
    the state, so that a commit is two steps, the call and the job. *)

From Stdlib Require Import ZArith Lia List.
From Stdlib Require Import Strings.String Strings.Byte.
From stdpp Require Import base tactics decidable list option gmap relations.
From S2P Require Import Prelude Numbers ScaleTypes Protobuf Transaction Signatures Receipt BlockHeader Block PBBlock.
From S2P Require Import Ledger Fixtures BlockFixture.
Import Protobuf Crypto Signatures PBBlock BlockFixture LedgerConfig.

Module FakeLedger.

(** An error answer carries no more than its message. *)
Inductive error : Type := BlockNotFound | InvalidType | InvalidBlock.

Record FakeLedger : Type := mkLedger
  { m_ledger : list PBBlock
  ; m_ledgerConfig : LedgerConfig
  ; m_hash2Block : gmap bytes Z
  ; m_txsHashToData : gmap bytes bytes
  ; m_systemConfig : gmap bytes bytes
  ; m_totalTxCount : Z
  ; m_statusNormal : bool
  ; m_sealerList : list bytes
  ; m_keyPairVec : list KeyPair
  ; m_worker : list BlockHeader.BlockHeader  (** the commits posted to the worker *) }.

(** The members before [init]; the count and the number have no initialiser. *)
Definition newLedger (number limit totalTxCount : Z) (sealerList : list bytes) (keyPairVec : list KeyPair) :
    FakeLedger :=
  mkLedger [] (newLedgerConfig number limit) ∅ ∅ ∅ totalTxCount true sealerList keyPairVec [].

Definition setConfig (c : LedgerConfig) (l : FakeLedger) : FakeLedger :=
  mkLedger (m_ledger l) c (m_hash2Block l) (m_txsHashToData l) (m_systemConfig l) (m_totalTxCount l)
    (m_statusNormal l) (m_sealerList l) (m_keyPairVec l) (m_worker l).
Definition pushBlock (b : PBBlock) (l : FakeLedger) : FakeLedger :=
  mkLedger (m_ledger l ++ [b]) (m_ledgerConfig l) (m_hash2Block l) (m_txsHashToData l) (m_systemConfig l)
    (m_totalTxCount l) (m_statusNormal l) (m_sealerList l) (m_keyPairVec l) (m_worker l).
Definition indexHash (h : bytes) (n : Z) (l : FakeLedger) : FakeLedger :=
  mkLedger (m_ledger l) (m_ledgerConfig l) (<[h := n]> (m_hash2Block l)) (m_txsHashToData l) (m_systemConfig l)
    (m_totalTxCount l) (m_statusNormal l) (m_sealerList l) (m_keyPairVec l) (m_worker l).
Definition setTxs (m : gmap bytes bytes) (l : FakeLedger) : FakeLedger :=
  mkLedger (m_ledger l) (m_ledgerConfig l) (m_hash2Block l) m (m_systemConfig l) (m_totalTxCount l)
    (m_statusNormal l) (m_sealerList l) (m_keyPairVec l) (m_worker l).
Definition setJobs (w : list BlockHeader.BlockHeader) (l : FakeLedger) : FakeLedger :=
  mkLedger (m_ledger l) (m_ledgerConfig l) (m_hash2Block l) (m_txsHashToData l) (m_systemConfig l)
    (m_totalTxCount l) (m_statusNormal l) (m_sealerList l) (m_keyPairVec l) w.

Definition setStatus (normal : bool) (l : FakeLedger) : FakeLedger :=
  mkLedger (m_ledger l) (m_ledgerConfig l) (m_hash2Block l) (m_txsHashToData l) (m_systemConfig l)
    (m_totalTxCount l) normal (m_sealerList l) (m_keyPairVec l) (m_worker l).
Definition setTotalTxCount (totalTxCount : Z) (l : FakeLedger) : FakeLedger :=
  mkLedger (m_ledger l) (m_ledgerConfig l) (m_hash2Block l) (m_txsHashToData l) (m_systemConfig l)
    totalTxCount (m_statusNormal l) (m_sealerList l) (m_keyPairVec l) (m_worker l).
Definition setSystemConfig (key value : bytes) (l : FakeLedger) : FakeLedger :=
  mkLedger (m_ledger l) (m_ledgerConfig l) (m_hash2Block l) (m_txsHashToData l) (<[key := value]> (m_systemConfig l))
    (m_totalTxCount l) (m_statusNormal l) (m_sealerList l) (m_keyPairVec l) (m_worker l).
Definition setConsensusNodeList (nodes : list ConsensusNode) (l : FakeLedger) : FakeLedger :=
  setConfig (LedgerConfig.setConsensusNodeList nodes (m_ledgerConfig l)) l.
Definition setObserverNodeList (nodes : list ConsensusNode) (l : FakeLedger) : FakeLedger :=
  setConfig (LedgerConfig.setObserverNodeList nodes (m_ledgerConfig l)) l.

(** [m_ledger[_index]], not checked. *)
Definition blockAt (l : FakeLedger) (index : Z) : outcome fixture_exn PBBlock :=
  if index <? 0 then Undefined OutOfRange
  else match m_ledger l !! Z.to_nat index with
       | Some b => Ok b
       | None => Undefined OutOfRange
       end.

Definition headerOf (b : PBBlock) : outcome fixture_exn BlockHeader.BlockHeader := ofBlock (deref (m_blockHeader b)).

Definition numberOf (h : BlockHeader.BlockHeader) : outcome fixture_exn Z :=
  match BlockHeader.m_number (BlockHeader.fields h) with
  | Some n => Ok n
  | None => Undefined Uninitialised
  end.

Section Ledger.
Context `{Platform, CryptoSuite}.
Context `{PBMessage RawBlock, PBMessage BlockHeader.RawBlockHeader}.
Context `{PBMessage Transaction.RawTransaction, PBMessage Transaction.RawHashFields}.
Context `{PBMessage Receipt.RawReceipt}.
Variable signatureImpl : SignatureCrypto.

Definition populateFromHeader (header : BlockHeader.BlockHeader) : PBBlock :=
  setBlockHeader (Some header) newBlock.

Definition updateLedgerConfig (header : BlockHeader.BlockHeader) (l : FakeLedger) : outcome fixture_exn FakeLedger :=
  n ← numberOf header;
  h ← headerHash header;
  Ok (setConfig (setHash h (setBlockNumber n (m_ledgerConfig l))) l).

Definition signAll (l : FakeLedger) (h : bytes) : outcome fixture_exn (list BlockHeader.Signature) :=
  mapThrow SignatureException (HeaderFixture.fakeSignatureList signatureImpl 0 (m_keyPairVec l) h).

(** [init] of one block, with the block [fakeAndCheckBlock] made. *)
Definition initBlock (block : PBBlock) (parent : option BlockHeader.BlockHeader) (withHeader : bool)
    (blockNumber timestamp : Z) (l : FakeLedger) : outcome fixture_exn PBBlock :=
  if negb withHeader then Ok block
  else
    parentInfo ← match parent with
                 | Some p => n ← numberOf p; h ← headerHash p; Ok [BlockHeader.mkParentInfo n h]
                 | None => Ok []
                 end;
    let rootHash := hashImpl (Numbers.to_string blockNumber) in
    '(_, blockHeader) ← ofHeader (HeaderFixture.fakeAndTestBlockHeader 0 parentInfo rootHash rootHash rootHash
      blockNumber 1232342523 timestamp 0 (m_sealerList l) [] []);
    h ← headerHash blockHeader;
    signatureList ← signAll l h;
    Ok (setBlockHeader (Some (BlockHeader.setSignatureList signatureList blockHeader)) block).

(** The loop of [init]: the blocks made for the numbers from [i] on. *)
Fixpoint initFrom (i : Z) (blocks : list PBBlock) (timestamp : Z) (parentHeader : BlockHeader.BlockHeader)
    (l : FakeLedger) : outcome fixture_exn FakeLedger :=
  match blocks with
  | [] => Ok l
  | made :: blocks =>
      block ← initBlock made (Some parentHeader) true i timestamp l;
      header ← headerOf block;
      h ← headerHash header;
      initFrom (i + 1) blocks timestamp header (indexHash h i (pushBlock block l))
  end.

(** [init] of the ledger: the block made for the genesis, and those of the loop. *)
Definition init (genesisMade : PBBlock) (blocks : list PBBlock) (timestamp : Z) (l : FakeLedger) :
    outcome fixture_exn FakeLedger :=
  genesisBlock ← initBlock genesisMade None true 0 0 l;
  header ← headerOf genesisBlock;
  h ← headerHash header;
  l ← initFrom 1 blocks timestamp header (indexHash h 0 (pushBlock genesisBlock l));
  latestBlock ← blockAt l (len (m_ledger l) - 1);
  latestHeader ← headerOf latestBlock;
  updateLedgerConfig latestHeader l.

(** *** Queries *)

Definition asyncPrewriteBlock (l : FakeLedger) : option error := None.

Definition asyncGetBlockDataByNumber (number : Z) (l : FakeLedger) : outcome fixture_exn (error + PBBlock) :=
  if len (m_ledger l) <=? u64 number then Ok (inl BlockNotFound)
  else b ← blockAt l number; Ok (inr b).

Definition asyncGetBlockHashByNumber (blockNumber : Z) (l : FakeLedger) : outcome fixture_exn bytes :=
  b ← blockAt l blockNumber; h ← headerOf b; headerHash h.

Definition asyncGetBlockNumber (l : FakeLedger) : Z := m_blockNumber (m_ledgerConfig l).

(** [asyncGetBlockNumberByHash] never calls back. *)
Definition asyncGetBlockNumberByHash (h : bytes) (l : FakeLedger) : list (error + Z) := [].

Definition asyncGetTransactionReceiptByHash (h : bytes) (l : FakeLedger) :
    option error * option Receipt.PBTransactionReceipt := (None, None).

Definition asyncGetTotalTransactionCount (l : FakeLedger) : Z * Z * Z :=
  (m_totalTxCount l, 0, m_blockNumber (m_ledgerConfig l)).

Definition asyncGetSystemConfigByKey (key : bytes) (l : FakeLedger) : bytes * Z :=
  (default [] (m_systemConfig l !! key), m_blockNumber (m_ledgerConfig l)).

Definition asyncGetNodeListByType (type : bytes) (l : FakeLedger) : error + list ConsensusNode :=
  if bool_decide (type = CONSENSUS_SEALER) then inr (m_consensusNodeList (m_ledgerConfig l))
  else if bool_decide (type = CONSENSUS_OBSERVER) then inr (m_observerNodeList (m_ledgerConfig l))
  else inl InvalidType.

(** [nonces()] of a block. *)
Definition noncesOf (b : PBBlock) : outcome fixture_exn (list Z) :=
  ofBlock (viewAll (fun p => t ← deref p; Ok (Transaction.m_nonce t)) (m_transactions b)).

(** The loop of [asyncGetNonceList] over [n] blocks. *)
Fixpoint collectNonces (l : FakeLedger) (index : Z) (n : nat) : outcome fixture_exn (list (Z * list Z)) :=
  match n with
  | O => Ok []
  | S n =>
      b ← blockAt l index;
      nonces ← noncesOf b;
      rest ← collectNonces l (index + 1) n;
      Ok ((index, nonces) :: rest)
  end.

(** The answers of [asyncGetNonceList]: beyond the last block there are two. *)
Definition asyncGetNonceList (startNumber offset : Z) (l : FakeLedger) :
    outcome fixture_exn (list (option (list (Z * list Z)))) :=
  let early := if m_blockNumber (m_ledgerConfig l) <? startNumber then [None] else [] in
  let last := startNumber + offset - 1 in
  if (last <? - 2 ^ 63) || (2 ^ 63 <=? startNumber + offset) then Undefined SignedOverflow
  else
    let endNumber := Z.min last (m_blockNumber (m_ledgerConfig l)) in
    nonceList ← collectNonces l startNumber (Z.to_nat (endNumber - startNumber + 1));
    Ok (early ++ [Some nonceList]).

(** *** Transactions *)

(** The loop of [asyncStoreTransactions]: the index into the data stays 0. *)
Fixpoint storeEach (txToStore : list bytes) (hashes : list bytes) (m : gmap bytes bytes) :
    outcome fixture_exn (gmap bytes bytes) :=
  match hashes with
  | [] => Ok m
  | h :: hashes =>
      match txToStore !! 0%nat with
      | Some txData => storeEach txToStore hashes (<[h := txData]> m)
      | None => Undefined OutOfRange
      end
  end.

Definition asyncStoreTransactions (txToStore txHashList : list bytes) (l : FakeLedger) :
    outcome fixture_exn FakeLedger :=
  m ← storeEach txToStore txHashList (m_txsHashToData l); Ok (setTxs m l).

Fixpoint asyncGetBatchTxsByHashList (txHashList : list bytes) (l : FakeLedger) :
    outcome fixture_exn (list Transaction.PBTransaction) :=
  match txHashList with
  | [] => Ok []
  | h :: txHashList =>
      match m_txsHashToData l !! h with
      | Some data =>
          tx ← ofTx (Transaction.createTransaction data false);
          txs ← asyncGetBatchTxsByHashList txHashList l;
          Ok (tx :: txs)
      | None => asyncGetBatchTxsByHashList txHashList l
      end
  end.

Definition storedTxsSize (l : FakeLedger) : nat := size (m_txsHashToData l).

(** *** Commits *)

(** [asyncCommitBlock]: the number is compared before the job is posted. *)
Definition asyncCommitBlock (header : BlockHeader.BlockHeader) (l : FakeLedger) :
    outcome fixture_exn (option error * FakeLedger) :=
  n ← numberOf header;
  if n =? m_blockNumber (m_ledgerConfig l) + 1 then Ok (None, setJobs (m_worker l ++ [header]) l)
  else Ok (Some InvalidBlock, l).

(** The job of the worker, with the configuration its callback is given. *)
Definition commitJob (header : BlockHeader.BlockHeader) (l : FakeLedger) : outcome fixture_exn (LedgerConfig * FakeLedger) :=
  l ← updateLedgerConfig header (pushBlock (populateFromHeader header) l);
  Ok (m_ledgerConfig l, l).

Definition work (l : FakeLedger) : outcome fixture_exn (option LedgerConfig * FakeLedger) :=
  match m_worker l with
  | [] => Ok (None, l)
  | header :: jobs => '(c, l) ← commitJob header (setJobs jobs l); Ok (Some c, l)
  end.

(** *** [FakeScheduler] *)

(** [executeBlock] hands out the header or, with a factory, a copy of it. *)
Definition executeBlock (withFactory : bool) (block : PBBlock) :
    outcome fixture_exn (option BlockHeader.BlockHeader) :=
  if withFactory then
    h ← headerOf block;
    copy ← ofHeader (BlockHeader.populateBlockHeader h);
    Ok (Some copy)
  else Ok (m_blockHeader block).

Definition commitBlock : BlockHeader.BlockHeader -> FakeLedger -> outcome fixture_exn (option error * FakeLedger) :=
  asyncCommitBlock.
End Ledger.
End FakeLedger.

(* ------------------------------------------------------------------ *)
(** ** Properties *)

Module FakeLedgerFacts.
Import FakeLedger HeaderFixtureFacts SignatureFacts.

Section Facts.
Context `{PlatformLaw, CryptoLaw}.
Context `{PBLaw RawBlock, PBLaw BlockHeader.RawBlockHeader}.
Context `{PBLaw Transaction.RawTransaction, PBLaw Transaction.RawHashFields}.
Context `{PBLaw Receipt.RawReceipt}.
Variable signatureImpl : SignatureCrypto.

(** *** The blocks [init] makes *)

(** The fields and the signatures survive the calls that fill caches. *)
Definition shows (h h' : BlockHeader.BlockHeader) : Prop :=
  BlockHeader.fields h' = BlockHeader.fields h /\ BlockHeader.m_signatureList h' = BlockHeader.m_signatureList h.

Lemma hash_shows h h' d : BlockHeader.hash hashImpl h = Ok (d, h') -> shows h h'.
Proof.
  intros Hh. apply bind_ok_inv in Hh as (h1 & He & [= _ <-]). unfold BlockHeader.encodeHashFields in He.
  destruct (0 <? _); [by injection He as <- |]. by apply bind_ok_inv in He as (x & _ & [= <-]).
Qed.

Lemma encodeHeader_shows h h' d : BlockHeader.encodeHeader SerializeToArray h = Ok (d, h') -> shows h h'.
Proof.
  intros Hh. apply bind_ok_inv in Hh as (h1 & He & Hs). cbv zeta in Hs.
  destruct (SerializeToArray _); [| done]. injection Hs as _ <-.
  assert (shows h h1) as [Hf Hg].
  { unfold BlockHeader.encodeHashFields in He. destruct (0 <? _); [by injection He as <- |].
    by apply bind_ok_inv in He as (x & _ & [= <-]). }
  unfold shows, BlockHeader.encodeSignatureList. by destruct (0 <? _).
Qed.

Lemma hashTwice_shows h h' : HeaderFixture.hashTwice h = Ok h' -> shows h h'.
Proof.
  intros Hh. apply bind_ok_inv in Hh as ([d h1] & H1' & Hh). apply bind_ok_inv in Hh as ([d2 h2] & H2' & [= <-]).
  apply hash_shows in H1' as [E1 E2]. apply hash_shows in H2' as [E3 E4]. split; congruence.
Qed.

(** The header a fixture returns, whatever its checks said. *)
Lemma testHeader_shows (n : Z) (h h' : BlockHeader.BlockHeader) (checks : list bool) :
  HeaderFixture.testHeader n h = Ok (checks, h') ->
  shows (BlockHeader.setNumber n h) h'.
Proof.
  unfold HeaderFixture.testHeader. intros Ht.
  apply bind_ok_inv in Ht as (h1 & H1' & Ht). apply bind_ok_inv in Ht as (h2 & H2' & Ht).
  apply bind_ok_inv in Ht as ([data h3] & H3' & Ht). apply bind_ok_inv in Ht as ([buffer h4] & H4' & Ht).
  apply bind_ok_inv in Ht as (d & _ & Ht). apply bind_ok_inv in Ht as (cs & _ & Ht).
  apply bind_ok_inv in Ht as (changed & _ & Ht). apply bind_ok_inv in Ht as (refused & _ & Ht).
  destruct (n =? _); [done |]. apply bind_ok_inv in Ht as ([x h5] & H5' & Ht).
  apply bind_ok_inv in Ht as ([y d1] & _ & Ht). apply bind_ok_inv in Ht as ([z h6] & H6' & Ht).
  apply bind_ok_inv in Ht as ([w d2] & _ & Ht). apply bind_ok_inv in Ht as (wt & _ & [= _ <-]).
  apply hashTwice_shows in H1' as [E1 S1]. apply hashTwice_shows in H2' as [E2 S2].
  apply encodeHeader_shows in H3' as [E3 S3]. apply encodeHeader_shows in H4' as [E4 S4].
  apply hash_shows in H5' as [E5 S5]. apply hash_shows in H6' as [E6 S6]. split.
  - rewrite E6. unfold BlockHeader.setNumber. cbn [BlockHeader.assign BlockHeader.noteDirty BlockHeader.fields].
    rewrite E5. unfold BlockHeader.setNumber. cbn [BlockHeader.assign BlockHeader.noteDirty BlockHeader.fields].
    rewrite E4, E3, E2, E1. by destruct (BlockHeader.fields h).
  - rewrite S6. cbn. rewrite S5. cbn. congruence.
Qed.

Lemma headerHash_ok h d : headerHash h = Ok d -> exists h', BlockHeader.hash hashImpl h = Ok (d, h').
Proof.
  unfold headerHash, ofHeader, ofBlock. destruct (BlockHeader.hash hashImpl h) as [[x h'] | |]; [| done..].
  intros [= <-]. eauto.
Qed.

(** What the block of number [n] after [parent] is. *)
Definition follows (l : FakeLedger) (parent : option BlockHeader.BlockHeader) (n : Z) (h : BlockHeader.BlockHeader) : Prop :=
  BlockHeader.m_number (BlockHeader.fields h) = Some n /\
  BlockHeader.m_sealerList (BlockHeader.fields h) = m_sealerList l /\
  (exists d, headerHash h = Ok d /\
     HeaderFixture.fakeSignatureList signatureImpl 0 (m_keyPairVec l) d = Ok (BlockHeader.m_signatureList h)) /\
  match parent with
  | None => BlockHeader.m_parentInfo (BlockHeader.fields h) = []
  | Some p => exists pn pd, BlockHeader.m_number (BlockHeader.fields p) = Some pn /\ headerHash p = Ok pd /\
      BlockHeader.m_parentInfo (BlockHeader.fields h) = [BlockHeader.mkParentInfo pn pd]
  end.

(** The header made for a block. *)
Lemma fakeAndTest_fields ver parents root number gas time sealer sealers extra checks h :
  HeaderFixture.fakeAndTestBlockHeader ver parents root root root number gas time sealer sealers extra [] = Ok (checks, h) ->
  BlockHeader.m_number (BlockHeader.fields h) = Some number /\
  BlockHeader.m_sealerList (BlockHeader.fields h) = sealers /\ BlockHeader.m_parentInfo (BlockHeader.fields h) = parents.
Proof.
  unfold HeaderFixture.fakeAndTestBlockHeader. intros Ht. apply testHeader_shows in Ht as [Hf _].
  destruct (fakeHeader_spec ver parents root root root number gas time sealer sealers extra []) as (_ & _ & _ & Hh).
  destruct (setNumber_same (HeaderFixture.fakeHeader ver parents root root root number gas time sealer sealers extra []) number)
    as (_ & Hn & _ & Hset); [apply fakeHeader_spec |].
  rewrite Hf, Hset, Hh by (by rewrite Hh). done.
Qed.

(** Signing changes neither the fields nor the hash. *)
Lemma signed_header sigs h d :
  headerHash h = Ok d ->
  BlockHeader.fields (BlockHeader.setSignatureList sigs h) = BlockHeader.fields h /\
  BlockHeader.m_signatureList (BlockHeader.setSignatureList sigs h) = sigs /\
  headerHash (BlockHeader.setSignatureList sigs h) = Ok d.
Proof.
  intros Hd. destruct (headerHash_ok h d Hd) as (h1 & Hh1). destruct (hash_signatures sigs h h1 d Hh1) as (h2 & Hh2).
  split_and!; [done | done |]. unfold headerHash, ofHeader, ofBlock. by rewrite Hh2.
Qed.

Lemma ofHeader_inv {A} (m : outcome BlockHeader.header_exn A) (a : A) : ofHeader m = Ok a -> m = Ok a.
Proof. unfold ofHeader, ofBlock. intros Hm. by apply mapThrow_ok, mapThrow_ok in Hm. Qed.

Lemma numberOf_ok h n : numberOf h = Ok n -> BlockHeader.m_number (BlockHeader.fields h) = Some n.
Proof. unfold numberOf. destruct (BlockHeader.m_number _); [| done]. by intros [= ->]. Qed.

Lemma initBlock_follows (made block : PBBlock) (parent : option BlockHeader.BlockHeader) (n time : Z) (l : FakeLedger) :
  initBlock signatureImpl made parent true n time l = Ok block ->
  exists h, m_blockHeader block = Some h /\ follows l parent n h.
Proof.
  unfold initBlock. cbn [negb]. intros Hb. apply bind_ok_inv in Hb as (infos & Hi & Hb).
  apply bind_ok_inv in Hb as ([cs h0] & Hh & Hb). apply bind_ok_inv in Hb as (d & Hd & Hb).
  apply bind_ok_inv in Hb as (sigs & Hs & Hb). apply (inj Ok) in Hb. subst block.
  unfold signAll in Hs. apply mapThrow_ok in Hs. apply ofHeader_inv in Hh.
  apply fakeAndTest_fields in Hh as (E1 & E2 & E3).
  destruct (signed_header sigs h0 d Hd) as (Ef & Es & Eh).
  exists (BlockHeader.setSignatureList sigs h0). split; [reflexivity |]. unfold follows. rewrite Ef, Es, E1, E2, E3.
  split; [reflexivity |]. split; [reflexivity |]. split; [by exists d |].
  destruct parent as [p |]; [| by apply (inj Ok) in Hi].
  apply bind_ok_inv in Hi as (pn & Hpn & Hi). apply bind_ok_inv in Hi as (pd & Hpd & Hi). apply (inj Ok) in Hi.
  exists pn, pd. split; [by apply numberOf_ok | done].
Qed.

(** *** Chains *)

(** The header of the block before a position. *)
Definition parentAt (blocks : list PBBlock) (k : nat) : option BlockHeader.BlockHeader :=
  match k with
  | O => None
  | S j => blocks !! j ≫= m_blockHeader
  end.

(** Every block of the ledger follows the one before it. *)
Definition chained (l : FakeLedger) : Prop :=
  forall k b, m_ledger l !! k = Some b ->
    exists h, m_blockHeader b = Some h /\ follows l (parentAt (m_ledger l) k) (Z.of_nat k) h.

Lemma parentAt_app (blocks : list PBBlock) (b : PBBlock) (k : nat) :
  (k <= length blocks)%nat -> parentAt (blocks ++ [b]) k = parentAt blocks k.
Proof. destruct k as [| j]; [done |]. cbn. intros Hk. by rewrite lookup_app_l by lia. Qed.

Lemma chained_push (l : FakeLedger) (b : PBBlock) (h : BlockHeader.BlockHeader) (d : bytes) :
  chained l -> m_blockHeader b = Some h ->
  follows l (parentAt (m_ledger l) (length (m_ledger l))) (len (m_ledger l)) h ->
  chained (indexHash d (len (m_ledger l)) (pushBlock b l)).
Proof.
  intros Hc Hb Hf k c Hk. cbn [indexHash pushBlock m_ledger] in *.
  destruct (decide (k < length (m_ledger l))%nat) as [Hlt | Hge].
  - rewrite lookup_app_l in Hk by done. destruct (Hc k c Hk) as (g & Hg & Hfg). exists g.
    split; [done |]. by rewrite parentAt_app by lia.
  - assert (k = length (m_ledger l)) as ->.
    { apply lookup_lt_Some in Hk. rewrite length_app in Hk. cbn in Hk. lia. }
    rewrite lookup_app_r, Nat.sub_diag in Hk by done. injection Hk as <-. exists h. split; [done |].
    by rewrite parentAt_app.
Qed.

(** What the loop of [init] leaves as it was. *)
Definition sameKeys (l l' : FakeLedger) : Prop :=
  m_sealerList l' = m_sealerList l /\ m_keyPairVec l' = m_keyPairVec l /\ m_worker l' = m_worker l.

Lemma initFrom_chained (blocks : list PBBlock) (time : Z) (parent : BlockHeader.BlockHeader) (l l' : FakeLedger) :
  initFrom signatureImpl (len (m_ledger l)) blocks time parent l = Ok l' -> chained l ->
  parentAt (m_ledger l) (length (m_ledger l)) = Some parent ->
  chained l' /\ length (m_ledger l') = (length (m_ledger l) + length blocks)%nat /\ sameKeys l l' /\
  m_ledger l `prefix_of` m_ledger l'.
Proof.
  revert parent l. induction blocks as [| made blocks IH]; intros parent l Hi Hc Hp; cbn [initFrom] in Hi.
  - apply (inj Ok) in Hi. subst l'. rewrite Nat.add_0_r. done.
  - apply bind_ok_inv in Hi as (b & Hb & Hi). apply bind_ok_inv in Hi as (h & Hh & Hi).
    apply bind_ok_inv in Hi as (d & Hd & Hi). apply initBlock_follows in Hb as (h' & Hbh & Hf).
    unfold headerOf, ofBlock in Hh. rewrite Hbh in Hh. cbn [deref mapThrow] in Hh. injection Hh as <-.
    set (l1 := indexHash d (len (m_ledger l)) (pushBlock b l)) in *.
    assert (len (m_ledger l1) = len (m_ledger l) + 1) as El by (unfold l1; cbn; by rewrite len_app).
    assert (length (m_ledger l1) = S (length (m_ledger l))) as El' by (unfold len in El; lia).
    rewrite <- El in Hi. destruct (IH h' l1 Hi) as (Hc1 & Hl1 & Hs1 & Hpre).
    + apply (chained_push l b h' d Hc Hbh). by rewrite Hp.
    + rewrite El'. cbn [parentAt]. unfold l1. cbn [indexHash pushBlock m_ledger].
      rewrite lookup_app_r, Nat.sub_diag by done. cbn. by rewrite Hbh.
    + split; [done |]. rewrite Hl1, El'. split; [cbn; lia |]. split; [exact Hs1 |].
      etrans; [| exact Hpre]. by exists [b].
Qed.

(** The configuration after [updateLedgerConfig]. *)
Lemma updateLedgerConfig_ok (h : BlockHeader.BlockHeader) (l l' : FakeLedger) :
  updateLedgerConfig h l = Ok l' ->
  exists n d, BlockHeader.m_number (BlockHeader.fields h) = Some n /\ headerHash h = Ok d /\
    l' = setConfig (setHash d (setBlockNumber n (m_ledgerConfig l))) l.
Proof.
  intros Hu. apply bind_ok_inv in Hu as (n & Hn & Hu). apply bind_ok_inv in Hu as (d & Hd & Hu).
  apply (inj Ok) in Hu. exists n, d. split_and!; [by apply numberOf_ok | done | done].
Qed.

(** *** Ledgers in use *)

(** The block at each position has that number, the configuration is that of the
    last block, and the jobs of the worker commit the next one. *)
Record Good (l : FakeLedger) : Prop := mkGood
  { good_blocks : forall k b, m_ledger l !! k = Some b -> exists h d, m_blockHeader b = Some h /\
      BlockHeader.m_number (BlockHeader.fields h) = Some (Z.of_nat k) /\ headerHash h = Ok d
  ; good_number : m_blockNumber (m_ledgerConfig l) = len (m_ledger l) - 1
  ; good_hash : asyncGetBlockHashByNumber (len (m_ledger l) - 1) l = Ok (m_hash (m_ledgerConfig l))
  ; good_jobs : (length (m_worker l) <= 1)%nat /\
      Forall (fun h => BlockHeader.m_number (BlockHeader.fields h) = Some (len (m_ledger l))) (m_worker l) }.

Lemma blockAt_lookup (l : FakeLedger) (k : nat) (b : PBBlock) :
  m_ledger l !! k = Some b -> blockAt l (Z.of_nat k) = Ok b.
Proof.
  intros Hk. unfold blockAt. rewrite (proj2 (Z.ltb_ge _ _)) by lia. by rewrite Nat2Z.id, Hk.
Qed.

Lemma hashAt (l : FakeLedger) (k : nat) (b : PBBlock) (h : BlockHeader.BlockHeader) :
  m_ledger l !! k = Some b -> m_blockHeader b = Some h ->
  asyncGetBlockHashByNumber (Z.of_nat k) l = headerHash h.
Proof.
  intros Hk Hb. unfold asyncGetBlockHashByNumber. rewrite (blockAt_lookup l k b Hk), bind_ok.
  unfold headerOf, ofBlock. by rewrite Hb.
Qed.

(** The answer for a number does not change while the ledger grows. *)
Lemma hashAt_mono (l l' : FakeLedger) (n : Z) (d : bytes) :
  m_ledger l `prefix_of` m_ledger l' -> asyncGetBlockHashByNumber n l = Ok d -> asyncGetBlockHashByNumber n l' = Ok d.
Proof.
  intros [more Hl] Hn. unfold asyncGetBlockHashByNumber, blockAt in *. destruct (n <? 0); [done |].
  destruct (m_ledger l !! Z.to_nat n) as [b |] eqn:Hb; [| done]. by rewrite Hl, (lookup_app_l_Some _ _ _ _ Hb).
Qed.

(** A block of the next number, pushed with the configuration updated. *)
Lemma push_good (l : FakeLedger) (b : PBBlock) (h : BlockHeader.BlockHeader) (d : bytes) (c : LedgerConfig) :
  (forall k b, m_ledger l !! k = Some b -> exists h d, m_blockHeader b = Some h /\
     BlockHeader.m_number (BlockHeader.fields h) = Some (Z.of_nat k) /\ headerHash h = Ok d) ->
  m_worker l = [] -> m_blockHeader b = Some h ->
  BlockHeader.m_number (BlockHeader.fields h) = Some (len (m_ledger l)) -> headerHash h = Ok d ->
  Good (setConfig (setHash d (setBlockNumber (len (m_ledger l)) c)) (pushBlock b l)).
Proof.
  intros Hg Hw Hb Hn Hd.
  assert (forall k x, (m_ledger l ++ [b]) !! k = Some x -> exists h d, m_blockHeader x = Some h /\
     BlockHeader.m_number (BlockHeader.fields h) = Some (Z.of_nat k) /\ headerHash h = Ok d) as Hall.
  { intros k x Hk. destruct (decide (k < length (m_ledger l))%nat) as [Hlt | Hge].
    - rewrite lookup_app_l in Hk by done. eauto.
    - assert (k = length (m_ledger l)) as ->.
      { apply lookup_lt_Some in Hk. rewrite length_app in Hk. cbn in Hk. lia. }
      rewrite lookup_app_r, Nat.sub_diag in Hk by done. injection Hk as <-. by exists h, d. }
  constructor; cbn [setConfig pushBlock m_ledger m_ledgerConfig m_worker].
  - exact Hall.
  - cbn. rewrite len_app. change (len [b]) with 1. lia.
  - cbn [setHash m_hash setBlockNumber]. rewrite len_app. change (len [b]) with 1.
    replace (len (m_ledger l) + 1 - 1) with (Z.of_nat (length (m_ledger l))) by (unfold len; lia).
    rewrite (hashAt _ _ b h); [done | | done]. cbn. by rewrite lookup_app_r, Nat.sub_diag.
  - rewrite Hw. split; [cbn; lia | constructor].
Qed.

(** *** Calls *)

(** What the users and the worker of a ledger do; a commit is asked for only when the
    answer to the one before has come. *)
Inductive moves : FakeLedger -> FakeLedger -> Prop :=
| Commits h l r l' : m_worker l = [] -> asyncCommitBlock h l = Ok (r, l') -> moves l l'
| Works l c l' : work l = Ok (c, l') -> moves l l'
| SetsConfig key value l : moves l (setSystemConfig key value l)
| SetsConsensus nodes l : moves l (setConsensusNodeList nodes l)
| SetsObservers nodes l : moves l (setObserverNodeList nodes l)
| SetsCount n l : moves l (setTotalTxCount n l)
| SetsStatus b l : moves l (setStatus b l)
| Stores txs hashes l l' : asyncStoreTransactions txs hashes l = Ok l' -> moves l l'.

Lemma asyncCommitBlock_ok (h : BlockHeader.BlockHeader) (l l' : FakeLedger) (r : option error) :
  asyncCommitBlock h l = Ok (r, l') ->
  l' = l \/ l' = setJobs (m_worker l ++ [h]) l /\
    BlockHeader.m_number (BlockHeader.fields h) = Some (m_blockNumber (m_ledgerConfig l) + 1).
Proof.
  intros Hc. apply bind_ok_inv in Hc as (n & Hn & Hc). apply numberOf_ok in Hn.
  destruct (Z.eqb_spec n (m_blockNumber (m_ledgerConfig l) + 1)) as [-> | _].
  - apply (inj Ok) in Hc. injection Hc as _ <-. by right.
  - apply (inj Ok) in Hc. injection Hc as _ <-. by left.
Qed.

Lemma moves_good (l l' : FakeLedger) : Good l -> moves l l' -> Good l' /\ m_ledger l `prefix_of` m_ledger l'.
Proof.
  intros Hl Hm. revert Hl.
  destruct Hm as [h l r l' Hw Hc | l c l' Hk | key value l | nodes l | nodes l | n l | b l | txs hashes l l' Hs];
    intros Hl; pose proof Hl as [Hb Hn Hh [Hj1 Hj2]];
    try (split; [constructor; auto | done]).
  - apply asyncCommitBlock_ok in Hc as [-> | [-> Hnum]]; [done |]. rewrite Hw. split; [| done].
    constructor; auto. cbn. split; [lia |]. constructor; [| constructor]. rewrite Hnum, Hn. f_equal. lia.
  - unfold work in Hk. destruct (m_worker l) as [| h jobs] eqn:Hw; [apply (inj Ok) in Hk; by injection Hk as _ <- |].
    destruct jobs as [| h2 jobs]; [| cbn in Hj1; lia].
    apply bind_ok_inv in Hk as ([c' l1] & Hk & E). apply (inj Ok) in E. injection E as <- <-.
    apply bind_ok_inv in Hk as (l2 & Hu & E). apply (inj Ok) in E. injection E as <- <-.
    apply updateLedgerConfig_ok in Hu as (n & d & E1 & E2 & ->). inversion Hj2 as [| ? ? E3 _]; subst.
    rewrite E1 in E3. injection E3 as ->. split; [| by exists [populateFromHeader h]].
    by apply (push_good (setJobs [] l) (populateFromHeader h) h d).
  - apply bind_ok_inv in Hs as (m & _ & Hs). apply (inj Ok) in Hs. subst l'. split; [constructor; auto | done].
Qed.

(** The body of [init], kept from being evaluated. *)
Lemma init_eq (genesisMade : PBBlock) (blocks : list PBBlock) (timestamp : Z) (l : FakeLedger) :
  init signatureImpl genesisMade blocks timestamp l =
  (genesisBlock ← initBlock signatureImpl genesisMade None true 0 0 l;
  header ← headerOf genesisBlock;
  h ← headerHash header;
  l ← initFrom signatureImpl 1 blocks timestamp header (indexHash h 0 (pushBlock genesisBlock l));
  latestBlock ← blockAt l (len (m_ledger l) - 1);
  latestHeader ← headerOf latestBlock;
  updateLedgerConfig latestHeader l).
Proof. reflexivity. Qed.

Lemma init_good (genesis : PBBlock) (blocks : list PBBlock) (time : Z) (l0 l : FakeLedger) :
  m_ledger l0 = [] -> m_worker l0 = [] -> init signatureImpl genesis blocks time l0 = Ok l ->
  chained l /\ length (m_ledger l) = S (length blocks) /\ Good l /\ sameKeys l0 l.
Proof.
  intros H0' Hw Hi. rewrite init_eq in Hi. apply bind_ok_inv in Hi as (gb & Hg & Hi). apply bind_ok_inv in Hi as (gh & Hgh & Hi).
  apply bind_ok_inv in Hi as (gd & Hgd & Hi). apply bind_ok_inv in Hi as (l1 & Hl1 & Hi).
  apply bind_ok_inv in Hi as (b & Hb & Hi). apply bind_ok_inv in Hi as (h & Hh & Hi).
  apply initBlock_follows in Hg as (h' & Egh & Hf). unfold headerOf, ofBlock in Hgh. rewrite Egh in Hgh.
  cbn [deref mapThrow] in Hgh. injection Hgh as <-.
  assert (chained (indexHash gd 0 (pushBlock gb l0))) as Hc0.
  { pose proof (chained_push l0 gb h' gd) as Hp. rewrite H0' in Hp. apply Hp; [| done | done].
    intros k x Hk. by rewrite H0' in Hk. }
  replace 1 with (len (m_ledger (indexHash gd 0 (pushBlock gb l0)))) in Hl1 by (cbn; by rewrite H0').
  apply initFrom_chained in Hl1 as (Hc1 & Hlen & Hkeys & _); [| done | cbn; rewrite H0'; cbn; by rewrite Egh].
  cbn in Hlen. rewrite H0' in Hlen. cbn in Hlen.
  apply updateLedgerConfig_ok in Hi as (n & d & En & Ed & ->).
  split; [exact Hc1 |]. split; [done |]. split; [| exact Hkeys].
  unfold blockAt in Hb. destruct (_ <? 0); [done |].
  destruct (m_ledger l1 !! _) as [b' |] eqn:Eb; [| done]. apply (inj Ok) in Hb. subst b'.
  assert (Z.to_nat (len (m_ledger l1) - 1) = length blocks) as Ek by (unfold len; lia). rewrite Ek in Eb.
  unfold headerOf, ofBlock in Hh.
  destruct (m_blockHeader b) as [h0 |] eqn:Ebh; [| done]. cbn [deref mapThrow] in Hh. injection Hh as ->.
  assert (len (m_ledger l1) - 1 = Z.of_nat (length blocks)) as Ez by (unfold len; lia).
  destruct (Hc1 _ _ Eb) as (h2 & E2 & Hf2). assert (h2 = h) as -> by congruence. destruct Hf2 as (Hn2 & _).
  assert (n = Z.of_nat (length blocks)) as -> by congruence.
  constructor; cbn [setConfig m_ledger m_ledgerConfig m_worker setHash setBlockNumber m_blockNumber m_hash].
  - intros k x Hk. destruct (Hc1 k x Hk) as (g & Hg & Hn & _ & (dg & Hdg & _) & _). by exists g, dg.
  - by rewrite Ez.
  - rewrite Ez, (hashAt _ _ b h); done.
  - destruct Hkeys as (_ & _ & ->). cbn. rewrite Hw. split; [cbn; lia | constructor].
Qed.
End Facts.


(** A header of the next number is queued; a queued header is committed. *)
Lemma commit_next (h : BlockHeader.BlockHeader) (l : FakeLedger) :
  BlockHeader.m_number (BlockHeader.fields h) = Some (m_blockNumber (m_ledgerConfig l) + 1) ->
  asyncCommitBlock h l = Ok (None, setJobs (m_worker l ++ [h]) l).
Proof. intros Hn. unfold asyncCommitBlock, numberOf. by rewrite Hn, bind_ok, Z.eqb_refl. Qed.

Definition committed (h : BlockHeader.BlockHeader) (n : Z) (d : bytes) (l : FakeLedger) : FakeLedger :=
  setConfig (setHash d (setBlockNumber n (m_ledgerConfig l))) (pushBlock (populateFromHeader h) l).

Lemma work_next `{PlatformLaw, CryptoLaw, PBLaw BlockHeader.RawBlockHeader} (h : BlockHeader.BlockHeader)
    (jobs : list BlockHeader.BlockHeader) (n : Z) (d : bytes) (l : FakeLedger) :
  BlockHeader.m_number (BlockHeader.fields h) = Some n -> headerHash h = Ok d ->
  work (setJobs (h :: jobs) l) =
    Ok (Some (m_ledgerConfig (committed h n d (setJobs jobs l))), committed h n d (setJobs jobs l)).
Proof.
  intros Hn Hd. unfold work, commitJob, updateLedgerConfig, numberOf. cbn [setJobs m_worker].
  by rewrite Hn, !bind_ok, Hd, !bind_ok.
Qed.

(** Commits that wait for the answer to the one before keep the ledger a sequence of
    numbered blocks that only grows, with the configuration of its last block; two
    commits of one header that do not wait are both accepted, and the block is in
    the ledger twice, so that a block number beyond the last one is answered with
    the hash of the last one. *)
Theorem commits_in_sequence `{PlatformLaw, CryptoLaw, PBLaw BlockHeader.RawBlockHeader} (l : FakeLedger) (Hl : Good l) :
  (forall l', rtc moves l l' -> Good l' /\ m_ledger l `prefix_of` m_ledger l') /\
  (forall h d, m_worker l = [] -> BlockHeader.m_number (BlockHeader.fields h) = Some (len (m_ledger l)) ->
     headerHash h = Ok d ->
     exists l1 l2 l3 l4 c c', asyncCommitBlock h l = Ok (None, l1) /\ asyncCommitBlock h l1 = Ok (None, l2) /\
       work l2 = Ok (c, l3) /\ work l3 = Ok (c', l4) /\
       m_ledger l4 = m_ledger l ++ [populateFromHeader h; populateFromHeader h] /\
       asyncGetBlockNumber l4 = len (m_ledger l) /\
       asyncGetBlockHashByNumber (asyncGetBlockNumber l4 + 1) l4 = Ok d).
Proof.
  split.
  - intros l' Hr. induction Hr as [l | l l1 l2 Hm _ IH]; [done |].
    destruct (moves_good l l1 Hl Hm) as [Hg Hp]. destruct (IH Hg) as [Hg2 Hp2]. split; [done | by etrans].
  - intros h d Hw Hn Hd. pose proof (good_number l Hl) as Hlast.
    set (l1 := setJobs [h] l). set (l2 := setJobs [h; h] l).
    set (l3 := committed h (len (m_ledger l)) d (setJobs [h] l)). set (l4 := committed h (len (m_ledger l)) d (setJobs [] l3)).
    exists l1, l2, l3, l4, (Some (m_ledgerConfig l3)), (Some (m_ledgerConfig l4)).
    split; [rewrite (commit_next h l) by (by rewrite Hn, Hlast, Z.sub_add); by rewrite Hw |].
    split; [by rewrite (commit_next h l1) by (cbn; by rewrite Hn, Hlast, Z.sub_add) |].
    split; [by apply work_next |]. split; [exact (work_next h [] _ d l3 Hn Hd) |].
    split; [cbn; by rewrite <- app_assoc |]. split; [reflexivity |].
    change (asyncGetBlockNumber l4) with (len (m_ledger l)).
    replace (len (m_ledger l) + 1) with (Z.of_nat (S (length (m_ledger l)))) by (unfold len; lia).
    rewrite (hashAt _ _ (populateFromHeader h) h); [done | | done].
    cbn. rewrite lookup_app_r by (rewrite length_app; cbn; lia). rewrite length_app. cbn.
    by replace (S (length (m_ledger l)) - (length (m_ledger l) + 1))%nat with 0%nat by lia.
Qed.
End FakeLedgerFacts.

(* ------------------------------------------------------------------ *)
(** ** The fetcher of the configuration over this ledger *)

Module FetcherOverLedger.
Import FakeLedger FakeLedgerFacts LedgerConfigFetcher LedgerFacts.

Section System.
Context `{PlatformLaw, CryptoLaw, PBLaw BlockHeader.RawBlockHeader}.
Variable lexicalCast : bytes -> option Z.

(** The answer of the ledger to a request, by the methods the fetcher calls; an
    error is no value.  Nonces are taken where the callback is called once. *)
Definition replies (l : FakeLedger) (r : request) : option (result r) -> Prop :=
  match r return option (result r) -> Prop with
  | GetBlockNumber _ => fun a => a = Some (asyncGetBlockNumber l)
  | GetBlockHashByNumber n _ _ => fun a => exists h, asyncGetBlockHashByNumber n l = Ok h /\ a = Some h
  | GetSystemConfigByKey key _ _ => fun a => a = Some (asyncGetSystemConfigByKey key l).1
  | GetNodeListByType type _ _ => fun a =>
      a = match asyncGetNodeListByType type l with inl _ => None | inr nodes => Some (Some nodes) end
  | GetNonceList start offset _ => fun a => exists m, asyncGetNonceList start offset l = Ok [m] /\ a = Some m
  end.

(** The ledger moves, it answers a request of the fetcher, or a user asks for more. *)
Inductive system : FakeLedger * Fetcher -> FakeLedger * Fetcher -> Prop :=
| LedgerMoves l l' f : moves l l' -> system (l, f) (l', f)
| LedgerAnswers l f f' : answered lexicalCast (replies l) f f' -> system (l, f) (l, f')
| FetcherAsks o l f : serial o f -> system (l, f) (l, perform o f).

(** The block number in hand is one the ledger has, and the hash in hand is its. *)
Definition agrees (l : FakeLedger) (f : Fetcher) : Prop :=
  match blockPending f with
  | [] => finished f BlockInfo = true ->
          asyncGetBlockHashByNumber (m_blockNumber (m_ledgerConfig f)) l = Ok (m_hash (m_ledgerConfig f))
  | [GetBlockNumber _] => finished f BlockInfo = false
  | [GetBlockHashByNumber n _ _] =>
      finished f BlockInfo = false /\ m_blockNumber (m_ledgerConfig f) = n /\ 0 <= n < len (FakeLedger.m_ledger l)
  | _ => False
  end.

Lemma agrees_moves (l l' : FakeLedger) (f : Fetcher) :
  FakeLedger.m_ledger l `prefix_of` FakeLedger.m_ledger l' -> agrees l f -> agrees l' f.
Proof.
  intros Hp. unfold agrees. destruct (blockPending f) as [| r [| r' rs]].
  - intros Ha Hf. by eapply hashAt_mono, Ha.
  - destruct r; try done. intros (? & ? & Hn). split_and!; try done; [lia |].
    apply prefix_length in Hp. unfold len in *. lia.
  - by destruct r.
Qed.

Lemma agrees_answered (l : FakeLedger) (f f' : Fetcher) :
  Good l -> agrees l f -> answered lexicalCast (replies l) f f' -> agrees l f'.
Proof.
  intros Hl Hf Hs. revert Hf. destruct Hs as [i r a g g' Hi Hr Ha]. intros Hg.
  destruct (decide (infoOf r = BlockInfo)) as [Hb | Hb].
  - pose proof (blockPending_own g i r Hi Hb) as Hown. unfold agrees in Hg.
    destruct (blockPending g) as [| r0 [| r1 rs]] eqn:Hbp.
    + by apply Permutation_nil_cons in Hown.
    + symmetry in Hown. apply Permutation_singleton_r in Hown as [= -> Hw].
      unfold agrees, blockPending in *. destruct r0 as [t | n [] t | | |]; try done.
      * cbn in Hr. subst a. cbn in Ha. injection Ha as <-. cbn in *. rewrite filter_app, Hw. cbn.
        rewrite ?decide_True, ?bool_decide_true by done. cbn. split_and!; [done | done | |];
          pose proof (good_number l Hl) as Hn; unfold asyncGetBlockNumber; rewrite Hn.
        -- destruct (FakeLedger.m_ledger l) eqn:E; [| rewrite len_cons; pose proof (len_nonneg l0); lia].
           pose proof (good_hash l Hl) as Hh. unfold asyncGetBlockHashByNumber, blockAt in Hh. rewrite E in Hh. done.
        -- lia.
      * destruct Hr as (h & Hh & ->). cbn in Ha. injection Ha as <-. cbn in *. rewrite Hw. intros _.
        destruct Hg as (_ & -> & _). done.
    + by destruct r0.
  - unfold agrees in *. rewrite <- (blockPending_other g i r Hi Hb) in Hg.
    apply answer_other in Ha as (-> & -> & -> & ->); done.
Qed.

Lemma agrees_perform (l : FakeLedger) o f : serial o f -> agrees l f -> agrees l (perform o f).
Proof.
  unfold serial, agrees, blockPending. intros Hs Hf.
  destruct o; cbn; rewrite filter_app; cbn; rewrite ?app_nil_r; try done. by rewrite Hs.
Qed.

Lemma system_inv s s' : Good s.1 /\ agrees s.1 s.2 -> system s s' -> Good s'.1 /\ agrees s'.1 s'.2.
Proof.
  intros Hi Hs. revert Hi. destruct Hs as [l l' f Hm | l f f' Ha | o l f Ho]; cbn [fst snd]; intros [Hg Hf].
  - destruct (moves_good l l' Hg Hm) as [Hg' Hp]. split; [done |]. by eapply agrees_moves.
  - split; [done |]. by eapply agrees_answered.
  - split; [done |]. by apply agrees_perform.
Qed.

(** No answer the fetcher waits for is undefined: the hash it asks for is of a block
    the ledger has. *)
Lemma agrees_answerable (l : FakeLedger) (f : Fetcher) (n : Z) (t : nat) :
  Good l -> agrees l f -> GetBlockHashByNumber n BlockHash t ∈ pending f ->
  exists h, asyncGetBlockHashByNumber n l = Ok h.
Proof.
  intros Hg Hf Hin. unfold agrees in Hf.
  assert (GetBlockHashByNumber n BlockHash t ∈ blockPending f) as Hb by (by apply list_elem_of_filter).
  destruct (blockPending f) as [| r [| r' rs]]; [by apply elem_of_nil in Hb | | by destruct r].
  apply list_elem_of_singleton in Hb. subst r. destruct Hf as (_ & _ & Hn).
  destruct (lookup_lt_is_Some_2 (FakeLedger.m_ledger l) (Z.to_nat n)) as [b Hk]; [unfold len in Hn; lia |].
  destruct (good_blocks l Hg _ _ Hk) as (h & d & Hbh & _ & Hd). exists d.
  rewrite <- (Z2Nat.id n) by lia. by rewrite (hashAt l _ b h).
Qed.
End System.

(** C15. The fetcher over this ledger, whose blocks are committed in sequence while it
    fetches: the hash it asks for is always there, and once it has finished, with no
    request in flight, the hash it reports is the ledger's for the number it
    reports. *)
Theorem fetcher_over_ledger `{PlatformLaw, CryptoLaw, PBLaw BlockHeader.RawBlockHeader}
    (lexicalCast : bytes -> option Z) (l0 l : FakeLedger) (number limit : Z) (f : Fetcher)
    (Hl : Good l0)
    (Hrun : rtc (system lexicalCast) (l0, fetchBlockNumberAndHash 0 (newFetcher number limit)) (l, f)) :
  (forall n t, GetBlockHashByNumber n BlockHash t ∈ pending f -> exists h, asyncGetBlockHashByNumber n l = Ok h) /\
  (fetchFinished f = true -> pending f = [] ->
   asyncGetBlockHashByNumber (m_blockNumber (m_ledgerConfig f)) l = Ok (m_hash (m_ledgerConfig f))).
Proof.
  assert (Good l /\ agrees l f) as [Hg Hf].
  { apply (rtc_invariant _ (fun s => Good s.1 /\ agrees s.1 s.2) _ _ (system_inv lexicalCast)) in Hrun; [done |].
    by split. }
  split; [intros n t; by apply agrees_answerable |]. intros Hfin Hq. unfold agrees, blockPending in Hf.
  rewrite Hq in Hf. apply Hf. by apply fetchFinished_all.
Qed.
End FetcherOverLedger.

(* ------------------------------------------------------------------ *)
(** ** The hypotheses can be met *)

Module FakeLedgerWitnesses.
Import FakeLedger FakeLedgerFacts FetcherOverLedger LedgerConfigFetcher LedgerFacts.
Import SampleCrypto SampleTransactions SampleReceipts PBBlockWitnesses SampleWedpr FixtureWitnesses.
#[local] Existing Instances taggedHeader taggedHeader_law taggedBlock taggedBlock_law sampleSuite.

Definition headerOfNumber (n : Z) : BlockHeader.BlockHeader := BlockHeader.setNumber n BlockHeader.newBlockHeader.
Definition hashOfNumber (n : Z) : bytes := get (headerHash (headerOfNumber n)) [].

(** A ledger with a first block. *)
Definition oneBlock : FakeLedger := committed (headerOfNumber 0) 0 (hashOfNumber 0) (newLedger 5 6 7 [] []).

Lemma oneBlock_good : Good oneBlock.
Proof.
  apply (push_good (newLedger 5 6 7 [] []) (populateFromHeader (headerOfNumber 0)) (headerOfNumber 0) (hashOfNumber 0));
    [by intros [] b Hk | done | done | done | vm_compute; reflexivity].
Qed.

Lemma commits_in_sequence_witness :
  exists l1 l2 l3 l4 c c', asyncCommitBlock (headerOfNumber 1) oneBlock = Ok (None, l1) /\
    asyncCommitBlock (headerOfNumber 1) l1 = Ok (None, l2) /\ work l2 = Ok (c, l3) /\ work l3 = Ok (c', l4) /\
    m_ledger l4 = m_ledger oneBlock ++ [populateFromHeader (headerOfNumber 1); populateFromHeader (headerOfNumber 1)] /\
    asyncGetBlockNumber l4 = len (m_ledger oneBlock) /\
    asyncGetBlockHashByNumber (asyncGetBlockNumber l4 + 1) l4 = Ok (hashOfNumber 1).
Proof. apply (commits_in_sequence oneBlock oneBlock_good); [reflexivity | reflexivity | vm_compute; reflexivity]. Defined.

(** The fetcher learns the number 0, a block is committed, then it learns the hash. *)
Definition asked : Fetcher := fetchBlockNumberAndHash 0 (newFetcher 3 4).
Definition numbered : Fetcher := respond (fun _ => None) 0 (GetBlockNumber 0) (Some 0) asked.
Definition fetched : Fetcher :=
  respond (fun _ => None) 0 (GetBlockHashByNumber 0 BlockHash 0) (Some (hashOfNumber 0)) numbered.
Definition twoBlocks : FakeLedger :=
  committed (headerOfNumber 1) 1 (hashOfNumber 1) (setJobs [] oneBlock).

Lemma fetched_run : rtc (system (fun _ => None)) (oneBlock, asked) (twoBlocks, fetched).
Proof.
  eapply rtc_l; [apply LedgerAnswers, (Answered _ _ 0 (GetBlockNumber 0) (Some 0) asked numbered); reflexivity |].
  eapply rtc_l; [apply LedgerMoves, (Commits (headerOfNumber 1) _ None (setJobs [headerOfNumber 1] oneBlock)); reflexivity |].
  eapply rtc_l; [apply LedgerMoves, (Works _ (Some (FakeLedger.m_ledgerConfig twoBlocks)) twoBlocks) |].
  { apply (work_next (headerOfNumber 1) [] 1 (hashOfNumber 1) oneBlock); [done | vm_compute; reflexivity]. }
  eapply rtc_l; [| apply rtc_refl]. apply LedgerAnswers.
  apply (Answered _ _ 0 (GetBlockHashByNumber 0 BlockHash 0) (Some (hashOfNumber 0)) numbered fetched);
    [reflexivity | | reflexivity].
  exists (hashOfNumber 0). split; [vm_compute; reflexivity | done].
Qed.

Lemma fetcher_over_ledger_witness :
  asyncGetBlockHashByNumber (LedgerConfig.m_blockNumber (LedgerConfigFetcher.m_ledgerConfig fetched)) twoBlocks =
  Ok (LedgerConfig.m_hash (LedgerConfigFetcher.m_ledgerConfig fetched)).
Proof.
  apply (fetcher_over_ledger (fun _ => None) oneBlock twoBlocks 3 4 fetched oneBlock_good fetched_run);
    vm_compute; reflexivity.
Defined.

(** A chain of three blocks, signed by two sealers. *)
Definition builtLedger : FakeLedger :=
  get (init SM2SignatureImpl newBlock [newBlock; newBlock] 9 (newLedger 5 6 7 sealerKeys.1 sealerKeys.2)) oneBlock.

End FakeLedgerWitnesses.
