(* ===== verification/FakeFront.v ===== *)
(** * The gateway and front service of the tests

    Model of testutils/faker/FakeFrontService.h: [FakeGateWay], which hands the
    messages of the modules to the components of the addressed node and matches the
    responses with the callbacks of the senders, and [FakeFrontService], the end of
    one node.  The components and the callbacks are opaque values; a call of one of
    them is an effect of the operation, in the order the code makes the calls. *)

From Stdlib Require Import ZArith Lia List.
From Stdlib Require Import Strings.Byte.
From stdpp Require Import base tactics decidable list option gmap.
From S2P Require Import Prelude DataConvert Numbers.

Module FakeFront.

(** [ModuleID] *)
Definition PBFT : Z := 1000.
Definition BlockSync : Z := 2000.
Definition TxsSync : Z := 2001.

Section Front.
(** The objects behind the interfaces, and the callbacks. *)
Context {P C : Type}.

Record FakeGateWay : Type := mkGateWay
  { m_uuidToCallback : gmap Z (gmap bytes (option C))
  ; m_nodeId2TxPool : gmap bytes P
  ; m_nodeId2Consensus : gmap bytes P
  ; m_nodeId2Sync : gmap bytes P
  ; m_uuid : Z }.

Inductive effect : Type :=
| NotifyTxsSyncMessage (txpool : P) (id from data : bytes)
| NotifyConsensusMessage (consensus : P) (id from data : bytes)
| NotifyBlockSyncMessage (sync : P) (id from data : bytes)
| Response (callback : C) (nodeID data : bytes).

Definition newGateWay : FakeGateWay := mkGateWay ∅ ∅ ∅ ∅ 0.

Definition addTxPool (nodeId : bytes) (p : P) (g : FakeGateWay) : FakeGateWay :=
  mkGateWay (m_uuidToCallback g) (<[nodeId := p]> (m_nodeId2TxPool g))
            (m_nodeId2Consensus g) (m_nodeId2Sync g) (m_uuid g).

Definition addSync (nodeId : bytes) (p : P) (g : FakeGateWay) : FakeGateWay :=
  mkGateWay (m_uuidToCallback g) (m_nodeId2TxPool g)
            (m_nodeId2Consensus g) (<[nodeId := p]> (m_nodeId2Sync g)) (m_uuid g).

Definition addConsensusInterface (nodeId : bytes) (p : P) (g : FakeGateWay) : FakeGateWay :=
  mkGateWay (m_uuidToCallback g) (m_nodeId2TxPool g)
            (<[nodeId := p]> (m_nodeId2Consensus g)) (m_nodeId2Sync g) (m_uuid g).

Definition setCallbacks (m : gmap Z (gmap bytes (option C))) (g : FakeGateWay) : FakeGateWay :=
  mkGateWay m (m_nodeId2TxPool g) (m_nodeId2Consensus g) (m_nodeId2Sync g) (m_uuid g).

Definition insertCallback (moduleID : Z) (id : bytes) (callback : option C) (g : FakeGateWay) :
    FakeGateWay :=
  let inner := default ∅ (m_uuidToCallback g !! moduleID) in
  setCallbacks (<[moduleID := <[id := callback]> inner]> (m_uuidToCallback g)) g.

(** The subscript in front of [erase] creates the module's map when it is missing. *)
Definition removeCallback (moduleId : Z) (id : bytes) (g : FakeGateWay) : FakeGateWay :=
  let inner := delete id (default ∅ (m_uuidToCallback g !! moduleId)) in
  let m := <[moduleId := inner]> (m_uuidToCallback g) in
  setCallbacks (if decide (size inner = 0%nat) then delete moduleId m else m) g.

(** The first statement of [asyncSendMessageByNodeID], and the others: the counter is
    read a second time. *)
Definition bumpUuid (g : FakeGateWay) : FakeGateWay :=
  mkGateWay (m_uuidToCallback g) (m_nodeId2TxPool g) (m_nodeId2Consensus g) (m_nodeId2Sync g)
            (swrap 64 (m_uuid g + 1)).

Definition sendMessage (moduleId : Z) (fromNode nodeId data : bytes) (callback : option C)
    (g : FakeGateWay) : FakeGateWay * list effect :=
  let id := Numbers.to_string (m_uuid g) in
  let notify (wanted : Z) (nodes : gmap bytes P) (e : P -> effect) : list effect :=
    if moduleId =? wanted
    then match nodes !! nodeId with Some p => [e p] | None => [] end else [] in
  (insertCallback moduleId id callback g,
   notify TxsSync (m_nodeId2TxPool g) (fun p => NotifyTxsSyncMessage p id fromNode data) ++
   notify PBFT (m_nodeId2Consensus g) (fun p => NotifyConsensusMessage p id fromNode data) ++
   notify BlockSync (m_nodeId2Sync g) (fun p => NotifyBlockSyncMessage p id fromNode data)).

Definition asyncSendMessageByNodeID (moduleId : Z) (fromNode nodeId data : bytes)
    (callback : option C) (g : FakeGateWay) : FakeGateWay * list effect :=
  sendMessage moduleId fromNode nodeId data callback (bumpUuid g).

(** The callback kept for an identifier of a module. *)
Definition callbackOf (g : FakeGateWay) (moduleId : Z) (id : bytes) : option (option C) :=
  m_uuidToCallback g !! moduleId ≫= lookup id.

Definition asyncSendResponse (id : bytes) (moduleId : Z) (nodeID responseData : bytes)
    (g : FakeGateWay) : FakeGateWay * list effect :=
  match callbackOf g moduleId id with
  | None => (g, [])
  | Some callback =>
      (removeCallback moduleId id g,
       match callback with Some c => [Response c nodeID responseData] | None => [] end)
  end.

(** *** The front service of a node *)

Record FakeFrontService : Type := mkFront
  { m_nodeId : bytes
  ; m_nodeId2AsyncSendSize : gmap bytes Z
  ; m_totalSendMsgSize : Z }.

Definition newFront (nodeId : bytes) : FakeFrontService := mkFront nodeId ∅ 0.

Definition getAsyncSendSizeByNodeID (f : FakeFrontService) (nodeId : bytes) : Z :=
  default 0 (m_nodeId2AsyncSendSize f !! nodeId).

Definition frontSend (moduleId : Z) (nodeId data : bytes) (callback : option C)
    (s : FakeFrontService * FakeGateWay) : (FakeFrontService * FakeGateWay) * list effect :=
  let '(f, g) := s in
  let '(g, es) := asyncSendMessageByNodeID moduleId (m_nodeId f) nodeId data callback g in
  let size := match m_nodeId2AsyncSendSize f !! nodeId with
              | Some n => u64 (n + 1)
              | None => 1
              end in
  (mkFront (m_nodeId f) (<[nodeId := size]> (m_nodeId2AsyncSendSize f))
           (u64 (m_totalSendMsgSize f + 1)), g, es).

Fixpoint asyncSendMessageByNodeIDs (moduleId : Z) (nodeIdList : list bytes) (data : bytes)
    (s : FakeFrontService * FakeGateWay) : (FakeFrontService * FakeGateWay) * list effect :=
  match nodeIdList with
  | [] => (s, [])
  | node :: nodeIdList =>
      if decide (node = m_nodeId s.1) then asyncSendMessageByNodeIDs moduleId nodeIdList data s
      else
        let '(s, es) := frontSend moduleId node data None s in
        let '(s, es') := asyncSendMessageByNodeIDs moduleId nodeIdList data s in
        (s, es ++ es')
  end.

(** *** A history of calls, one after the other *)

Inductive event : Type :=
| AddTxPool (nodeId : bytes) (p : P)
| AddSync (nodeId : bytes) (p : P)
| AddConsensus (nodeId : bytes) (p : P)
| Send (moduleId : Z) (fromNode nodeId data : bytes) (callback : option C)
| Respond (id : bytes) (moduleId : Z) (nodeID data : bytes).

Definition handle (e : event) (g : FakeGateWay) : FakeGateWay * list effect :=
  match e with
  | AddTxPool n p => (addTxPool n p g, [])
  | AddSync n p => (addSync n p g, [])
  | AddConsensus n p => (addConsensusInterface n p g, [])
  | Send m from n d c => asyncSendMessageByNodeID m from n d c g
  | Respond id m n d => asyncSendResponse id m n d g
  end.

Definition run (es : list event) : FakeGateWay :=
  fold_left (fun g e => (handle e g).1) es newGateWay.
End Front.

Arguments FakeGateWay : clear implicits.
Arguments effect : clear implicits.
Arguments event : clear implicits.
End FakeFront.

Module FakeFrontFacts.
Import FakeFront.

Section Facts.
Context {P C : Type}.
Implicit Types (g : FakeGateWay P C) (es : list (event P C)).

(** What was sent, in order: the module and the callback of each message.  The n-th
    message has the identifier n. *)
Definition sentOf (e : event P C) : list (Z * option C) :=
  match e with Send m _ _ _ c => [(m, c)] | _ => [] end.
Definition sent es : list (Z * option C) := mjoin (map sentOf es).

Definition isResponse (id : bytes) (m : Z) (e : event P C) : bool :=
  match e with
  | Respond id' m' _ _ => bool_decide (id' = id) && bool_decide (m' = m)
  | _ => false
  end.

(** The n-th message was answered: a response of its module with its identifier came
    after it. *)
Definition answered es (n : nat) (m : Z) : Prop :=
  exists pre e post, es = pre ++ e :: post /\
    isResponse (Numbers.to_string (Z.of_nat n)) m e = true /\ (n <= length (sent pre))%nat.

(** The n-th message waits for its response. *)
Definition pending es (n : nat) (m : Z) (c : option C) : Prop :=
  (0 < n)%nat /\ sent es !! pred n = Some (m, c) /\ ~ answered es n m.

(** The component that serves a module at a node: the last one registered. *)
Definition serves (m : Z) (node : bytes) (e : event P C) : option P :=
  match e with
  | AddTxPool n p => if bool_decide (m = TxsSync /\ n = node) then Some p else None
  | AddSync n p => if bool_decide (m = BlockSync /\ n = node) then Some p else None
  | AddConsensus n p => if bool_decide (m = PBFT /\ n = node) then Some p else None
  | _ => None
  end.

Definition component (m : Z) (node : bytes) es : option P :=
  fold_left (fun o e => match serves m node e with Some p => Some p | None => o end) es None.

(** The call a component gets for a message. *)
Definition notification (m : Z) (p : P) (id from data : bytes) : effect P C :=
  if m =? TxsSync then NotifyTxsSyncMessage p id from data
  else if m =? PBFT then NotifyConsensusMessage p id from data
  else NotifyBlockSyncMessage p id from data.

Lemma sent_snoc es e : sent (es ++ [e]) = sent es ++ sentOf e.
Proof. unfold sent. rewrite map_app, join_app. cbn. by rewrite app_nil_r. Qed.

Lemma run_snoc es e : run (es ++ [e]) = (handle e (run es)).1.
Proof. unfold run. by rewrite fold_left_app. Qed.

Lemma answered_snoc es e n m :
  answered (es ++ [e]) n m <->
  answered es n m \/ isResponse (Numbers.to_string (Z.of_nat n)) m e = true /\ (n <= length (sent es))%nat.
Proof.
  split.
  - intros (pre & x & post & E & Hr & Hn).
    destruct post as [| y post _] using rev_ind.
    + apply app_inj_tail in E as [-> ->]. by right.
    + left. exists pre, x, post. split; [| done].
      rewrite app_comm_cons, app_assoc in E. by apply app_inj_tail in E as [-> _].
  - intros [(pre & x & post & -> & H) | H].
    + exists pre, x, (post ++ [e]). by rewrite <- app_assoc.
    + by exists es, e, [].
Qed.

(** *** The two levels of the callback map *)

Definition noEmpty g : Prop := forall m inner, m_uuidToCallback g !! m = Some inner -> inner <> ∅.

Lemma callbackOf_insert m id c g m' id' :
  callbackOf (insertCallback m id c g) m' id' =
  if decide (m' = m /\ id' = id) then Some c else callbackOf g m' id'.
Proof.
  unfold callbackOf, insertCallback. cbn. case_decide as Hd.
  - destruct Hd as [-> ->]. rewrite lookup_insert_eq. cbn. by rewrite lookup_insert_eq.
  - destruct (decide (m' = m)) as [-> |]; [| by rewrite lookup_insert_ne].
    rewrite lookup_insert_eq. cbn. rewrite lookup_insert_ne by (by intros ->; apply Hd).
    by destruct (m_uuidToCallback g !! m).
Qed.

Lemma callbackOf_remove m id g m' id' :
  callbackOf (removeCallback m id g) m' id' =
  if decide (m' = m /\ id' = id) then None else callbackOf g m' id'.
Proof.
  unfold callbackOf, removeCallback. cbn.
  destruct (decide (m' = m)) as [-> | Hm].
  2:{ rewrite (decide_False (P := m' = m /\ id' = id)) by (by intros [? _]).
      destruct (decide _); [rewrite lookup_delete_ne by done |]; by rewrite lookup_insert_ne. }
  set (inner := default ∅ (m_uuidToCallback g !! m)).
  assert (m_uuidToCallback g !! m ≫= lookup id' = inner !! id') as ->
    by (subst inner; by destruct (m_uuidToCallback g !! m)).
  trans (delete id inner !! id').
  - destruct (decide _) as [Hs |]; [| by rewrite lookup_insert_eq].
    rewrite lookup_delete_eq. apply map_size_empty_iff in Hs. by rewrite Hs, lookup_empty.
  - destruct (decide (id' = id)) as [-> |].
    + by rewrite lookup_delete_eq, decide_True.
    + by rewrite lookup_delete_ne, decide_False by (by try intros [_ ?]).
Qed.

Lemma noEmpty_insert m id c g : noEmpty g -> noEmpty (insertCallback m id c g).
Proof.
  intros Hg m' inner. cbn. rewrite lookup_insert_Some. intros [[-> <-] | [_ H]]; [| eauto].
  apply insert_non_empty.
Qed.

Lemma noEmpty_remove m id g : noEmpty g -> noEmpty (removeCallback m id g).
Proof.
  intros Hg m' inner. unfold removeCallback. cbn. destruct (decide _) as [Hs | Hs].
  - rewrite lookup_delete_Some, lookup_insert_Some. intros [? [[? _] | [_ H]]]; [done | eauto].
  - rewrite lookup_insert_Some. intros [[-> <-] | [_ H]]; [| eauto].
    by rewrite <- map_size_empty_iff.
Qed.

(** *** The gateway after a history *)

Lemma pending_answerless es e n m c :
  sentOf e = [] -> (forall id, isResponse id m e = false) ->
  pending (es ++ [e]) n m c <-> pending es n m c.
Proof.
  intros Hs Hr. unfold pending. rewrite sent_snoc, Hs, app_nil_r, answered_snoc, Hr. naive_solver.
Qed.

Lemma pending_respond es n m c id m0 node data :
  pending (es ++ [Respond id m0 node data]) n m c <->
  pending es n m c /\ ~ (m = m0 /\ Numbers.to_string (Z.of_nat n) = id).
Proof.
  unfold pending. rewrite sent_snoc, answered_snoc. cbn [sentOf isResponse]. rewrite app_nil_r.
  rewrite andb_true_iff, !bool_decide_eq_true. split.
  - intros (Hn & Hl & Ha). apply lookup_lt_Some in Hl as Hlt. split_and!; [done | done | tauto |].
    intros [-> <-]. apply Ha. right. split; [done | lia].
  - intros ((Hn & Hl & Ha) & Hd). split_and!; [done | done |]. naive_solver.
Qed.

Lemma answered_sent es n m : answered es n m -> (n <= length (sent es))%nat.
Proof.
  intros (pre & e & post & -> & _ & Hn). unfold sent in *.
  rewrite map_app, join_app, length_app. lia.
Qed.

Lemma pending_send es n m c m0 from node data c0 :
  pending (es ++ [Send m0 from node data c0]) n m c <->
  if decide (n = S (length (sent es))) then m = m0 /\ c = c0 else pending es n m c.
Proof.
  unfold pending. rewrite sent_snoc, answered_snoc. cbn [sentOf isResponse].
  destruct (decide _) as [-> | Hn].
  - cbn [pred]. rewrite lookup_app_r, Nat.sub_diag by done. cbn. split; [naive_solver |].
    intros [-> ->]. split_and!; [lia | done |]. intros [Ha | [? _]]; [| done].
    apply answered_sent in Ha. lia.
  - rewrite lookup_snoc_Some. split.
    + intros (Hp & [[_ Hl] | [Hl _]] & Ha); [tauto | lia].
    + intros (Hp & Hl & Ha). apply lookup_lt_Some in Hl as Hlt. split_and!; [done | by left |].
      intros [? | [? _]]; done.
Qed.

Record faithful es g : Prop := mkFaithful
  { faithful_uuid : m_uuid g = len (sent es)
  ; faithful_tidy : noEmpty g
  ; faithful_callbacks : forall m id c, callbackOf g m id = Some c <->
      exists n, id = Numbers.to_string (Z.of_nat n) /\ pending es n m c
  ; faithful_txpool : forall n, m_nodeId2TxPool g !! n = component TxsSync n es
  ; faithful_consensus : forall n, m_nodeId2Consensus g !! n = component PBFT n es
  ; faithful_sync : forall n, m_nodeId2Sync g !! n = component BlockSync n es }.

Lemma component_snoc m node es e :
  component m node (es ++ [e]) =
  match serves m node e with Some p => Some p | None => component m node es end.
Proof. unfold component. by rewrite fold_left_app. Qed.

(** The callbacks after a response, also after one nobody waits for. *)
Lemma callbackOf_response id m0 node data g m id' :
  callbackOf (asyncSendResponse id m0 node data g).1 m id' =
  if decide (m = m0 /\ id' = id) then None else callbackOf g m id'.
Proof.
  unfold asyncSendResponse. destruct (callbackOf g m0 id) eqn:E; [apply callbackOf_remove |].
  cbn. case_decide as Hd; [| done]. by destruct Hd as [-> ->].
Qed.

Ltac faithful_map :=
  intros node; rewrite component_snoc; cbn -[TxsSync PBFT BlockSync];
  match goal with
  | |- context [<[?k := _]> _ !! node] =>
      destruct (decide (k = node)) as [-> |];
        [rewrite lookup_insert_eq, bool_decide_eq_true_2 by done
        |rewrite lookup_insert_ne, bool_decide_eq_false_2 by naive_solver]; eauto
  | |- context [bool_decide (?a = ?b /\ _)] =>
      rewrite (bool_decide_eq_false_2 (a = b /\ _)) by (by intros [? _]); eauto
  | |- _ => eauto
  end.

Lemma faithful_add es g e :
  match e with AddTxPool _ _ | AddSync _ _ | AddConsensus _ _ => True | _ => False end ->
  faithful es g -> faithful (es ++ [e]) (handle e g).1.
Proof.
  intros He [Hu Ht Hc Hx Hp Hs]. destruct e; try done; split; cbn [handle fst].
  all: try faithful_map.
  all: try done.
  all: try by rewrite sent_snoc, app_nil_r.
  all: intros m id c; setoid_rewrite pending_answerless; [apply Hc | done | done].
Qed.

Lemma faithful_respond es g id m node data :
  faithful es g -> faithful (es ++ [Respond id m node data]) (asyncSendResponse id m node data g).1.
Proof.
  intros [Hu Ht Hc Hx Hp Hs].
  assert (forall A (f : FakeGateWay P C -> A), (forall h cs, f (setCallbacks cs h) = f h) ->
            f (asyncSendResponse id m node data g).1 = f g) as Hf.
  { intros A f Hf. unfold asyncSendResponse. destruct (callbackOf g m id); [apply Hf | done]. }
  split; intros; try rewrite component_snoc; cbn [serves].
  - by rewrite Hf, sent_snoc, app_nil_r by done.
  - unfold asyncSendResponse. destruct (callbackOf g m id); [by apply noEmpty_remove | done].
  - setoid_rewrite pending_respond. rewrite callbackOf_response. case_decide as Hd; [naive_solver |].
    rewrite Hc. naive_solver.
  - by rewrite (Hf _ m_nodeId2TxPool).
  - by rewrite (Hf _ m_nodeId2Consensus).
  - by rewrite (Hf _ m_nodeId2Sync).
Qed.

Lemma bumpUuid_next es g :
  faithful es g -> len (sent es) + 1 < 2 ^ 63 ->
  m_uuid (bumpUuid g) = Z.of_nat (S (length (sent es))).
Proof.
  intros Hg Hn. cbn. rewrite (faithful_uuid _ _ Hg). unfold len in *.
  rewrite swrap_small by (cbn; lia). lia.
Qed.

Lemma faithful_send es g m from node data c :
  faithful es g -> len (sent es) + 1 < 2 ^ 63 ->
  faithful (es ++ [Send m from node data c])
           (asyncSendMessageByNodeID m from node data c g).1.
Proof.
  intros Hg Hn. pose proof (bumpUuid_next _ _ Hg Hn) as Hid. destruct Hg as [Hu Ht Hc Hx Hp Hs].
  unfold asyncSendMessageByNodeID, sendMessage. rewrite Hid. cbn [fst].
  split; intros; try rewrite component_snoc; cbn [serves]; eauto.
  - change (m_uuid (bumpUuid g) = len (sent (es ++ [Send m from node data c]))).
    rewrite Hid, sent_snoc. unfold len. rewrite length_app. cbn. lia.
  - by apply noEmpty_insert.
  - setoid_rewrite pending_send. rewrite callbackOf_insert.
    change (callbackOf (bumpUuid g) m0 id) with (callbackOf g m0 id). case_decide as Hd.
    + destruct Hd as [-> ->]. split.
      * intros [= <-]. exists (S (length (sent es))). by rewrite decide_True.
      * intros (n & E & Hpend). apply Numbers.to_string_inj in E; [| lia..].
        rewrite decide_True in Hpend by lia. by destruct Hpend as [_ ->].
    + rewrite Hc. split.
      * intros (n & -> & Hpend). exists n. split; [done |].
        case_decide as Hn'; [| done]. destruct Hpend as (_ & Hl & _).
        apply lookup_lt_Some in Hl. lia.
      * intros (n & -> & Hpend). exists n. split; [done |].
        case_decide as Hn'; [| done]. destruct Hpend as [-> ->]. subst n. by destruct Hd.
Qed.

Lemma faithful_run es : len (sent es) < 2 ^ 63 -> faithful es (run es).
Proof.
  induction es as [| e es IH] using rev_ind; intros Hn.
  - split; try done. intros m id c. split; [by rewrite lookup_empty || done |].
    intros (n & _ & _ & Hl & _). done.
  - rewrite run_snoc. rewrite sent_snoc, len_app in Hn.
    pose proof (len_nonneg (sentOf e)). specialize (IH ltac:(lia)).
    destruct e; try (apply faithful_add; [exact I | exact IH]); cbn [handle].
    + by apply faithful_send.
    + by apply faithful_respond.
Qed.

(** The responses reach the callers they are meant for.  After any history of calls of
    the gateway with less than 2^63 messages, a response calls the callback of the
    message its identifier and its module name, with the node and the data given, when
    that message waits for its response and has a callback; in every other case (an
    identifier that was never used, a message of another module, a second response) it
    calls nothing.  The map of the callbacks is empty exactly when no message waits. *)
Theorem gateway_answers es :
  len (sent es) < 2 ^ 63 ->
  (forall id m node data,
     let out := (asyncSendResponse id m node data (run es)).2 in
     (exists n c, id = Numbers.to_string (Z.of_nat n) /\ pending es n m (Some c) /\
        out = [Response c node data]) \/
     (out = [] /\ forall n c, id = Numbers.to_string (Z.of_nat n) -> ~ pending es n m (Some c))) /\
  (m_uuidToCallback (run es) = ∅ <-> forall n m c, ~ pending es n m c).
Proof.
  intros Hn. destruct (faithful_run es Hn) as [_ Ht Hc _ _ _]. split.
  - intros id m node data. cbn zeta. unfold asyncSendResponse.
    destruct (callbackOf (run es) m id) as [[c |] |] eqn:E; cbn [snd].
    + apply Hc in E as (n & -> & Hpend). left. eauto.
    + right. split; [done |]. intros n c -> Hpend.
      assert (callbackOf (run es) m (Numbers.to_string (Z.of_nat n)) = Some (Some c))
        by (apply Hc; eauto). congruence.
    + right. split; [done |]. intros n c -> Hpend.
      assert (callbackOf (run es) m (Numbers.to_string (Z.of_nat n)) = Some (Some c))
        by (apply Hc; eauto). congruence.
  - split.
    + intros He n m c Hpend.
      assert (callbackOf (run es) m (Numbers.to_string (Z.of_nat n)) = Some c) as E
        by (apply Hc; eauto).
      unfold callbackOf in E. by rewrite He, lookup_empty in E.
    + intros Hno. apply map_empty. intros m. apply eq_None_not_Some. intros [inner Hi].
      destruct (map_choose inner (Ht _ _ Hi)) as (id & c & Hl).
      destruct (proj1 (Hc m id c)) as (n & _ & Hpend); [| by apply Hno in Hpend].
      unfold callbackOf. by rewrite Hi.
Qed.

Lemma component_other m node es :
  m <> TxsSync -> m <> PBFT -> m <> BlockSync -> component m node es = None.
Proof.
  intros H1 H2 H3. induction es as [| e es IH] using rev_ind; [done |].
  rewrite component_snoc, IH. destruct e; cbn -[TxsSync PBFT BlockSync]; try done.
  all: by rewrite bool_decide_eq_false_2 by (by intros [? _]).
Qed.

(** A message reaches the component that was registered last for its module at the
    addressed node, under the identifier of its place among the messages, and nothing
    else; a module nobody serves there, or one the gateway does not know, gets nothing. *)
Theorem gateway_delivers es m from node data c :
  len (sent es) + 1 < 2 ^ 63 ->
  (asyncSendMessageByNodeID m from node data c (run es)).2 =
  match component m node es with
  | Some p => [notification m p (Numbers.to_string (len (sent es) + 1)) from data]
  | None => []
  end.
Proof.
  intros Hn. pose proof (faithful_run es ltac:(lia)) as Hg.
  pose proof (bumpUuid_next _ _ Hg Hn) as Hid. destruct Hg as [_ _ _ Hx Hp Hs].
  unfold asyncSendMessageByNodeID, sendMessage, notification.
  replace (len (sent es) + 1) with (m_uuid (bumpUuid (run es))) by (rewrite Hid; unfold len; lia).
  cbn [snd bumpUuid m_nodeId2TxPool m_nodeId2Consensus m_nodeId2Sync]. rewrite Hx, Hp, Hs.
  destruct (Z.eqb_spec m TxsSync) as [-> | H1]; [cbn; by rewrite app_nil_r |].
  destruct (Z.eqb_spec m PBFT) as [-> | H2]; [cbn; by rewrite app_nil_r |].
  destruct (Z.eqb_spec m BlockSync) as [-> | H3]; [done |].
  by rewrite component_other.
Qed.

(** *** The front service *)

(** The gateway after the calls, and their effects. *)
Fixpoint trace es g : FakeGateWay P C * list (effect P C) :=
  match es with
  | [] => (g, [])
  | e :: es => let '(g, out) := handle e g in let '(g, out') := trace es g in (g, out ++ out')
  end.

(** The counter of every node a list names goes up once for each of its places. *)
Definition countsUp (f f' : FakeFrontService) (others : list bytes) : Prop :=
  m_nodeId f' = m_nodeId f /\
  m_totalSendMsgSize f' = u64 (m_totalSendMsgSize f + len others) /\
  forall n, getAsyncSendSizeByNodeID f' n =
            u64 (getAsyncSendSizeByNodeID f n + len (filter (eq n) others)).

Definition counters (f : FakeFrontService) : Prop :=
  0 <= m_totalSendMsgSize f < 2 ^ 64 /\
  forall n, 0 <= getAsyncSendSizeByNodeID f n < 2 ^ 64.

Lemma frontSend_counts m node data c (f : FakeFrontService) g :
  counters f -> m_nodeId f <> node ->
  exists f', frontSend m node data c (f, g) =
    (f', (handle (Send m (m_nodeId f) node data c) g).1,
     (handle (Send m (m_nodeId f) node data c) g).2) /\
  countsUp f f' [node] /\ counters f'.
Proof.
  intros [Ht Hs] Hne. cbn [frontSend handle].
  destruct (asyncSendMessageByNodeID m (m_nodeId f) node data c g) as [g' out]. cbn [fst snd].
  eexists. split; [done |].
  assert (match m_nodeId2AsyncSendSize f !! node with Some n => u64 (n + 1) | None => 1 end =
          u64 (getAsyncSendSizeByNodeID f node + 1)) as ->
    by (unfold getAsyncSendSizeByNodeID; by destruct (_ !! node)).
  assert (forall n, getAsyncSendSizeByNodeID
      (mkFront (m_nodeId f) (<[node := u64 (getAsyncSendSizeByNodeID f node + 1)]>
                               (m_nodeId2AsyncSendSize f)) (u64 (m_totalSendMsgSize f + 1))) n =
      u64 (getAsyncSendSizeByNodeID f n + len (filter (eq n) [node]))) as Hget.
  { intros n. unfold getAsyncSendSizeByNodeID at 1. cbn [m_nodeId2AsyncSendSize].
    destruct (decide (n = node)) as [-> | Hn].
    - by rewrite lookup_insert_eq, filter_cons_True.
    - rewrite lookup_insert_ne, filter_cons_False by done. cbn. rewrite Z.add_0_r.
      by rewrite uwrap_small by apply Hs. }
  split; [done |]. split; [apply uwrap_range; lia |].
  intros n. rewrite Hget. apply uwrap_range. lia.
Qed.

Lemma countsUp_trans f f' f'' ns ns' :
  countsUp f f' ns -> countsUp f' f'' ns' -> countsUp f f'' (ns ++ ns').
Proof.
  intros (H1 & H2 & H3) (K1 & K2 & K3). split_and!; [by rewrite K1 | |].
  - rewrite K2, H2, uwrap_add_l, len_app by lia. f_equal. lia.
  - intros n. rewrite K3, H3, uwrap_add_l, filter_app, len_app by lia. f_equal. lia.
Qed.

(** A message to a list of nodes is one message, without callback, to each node of the
    list other than the sender, in the order of the list and once for each place; the
    counter of each node and the total go up by these messages, modulo 2^64. *)
Theorem broadcast_skips_self m nodes data (f : FakeFrontService) g :
  counters f ->
  let others := filter (fun n => n <> m_nodeId f) nodes in
  exists f', asyncSendMessageByNodeIDs m nodes data (f, g) =
    (f', (trace (map (fun n => Send m (m_nodeId f) n data None) others) g).1,
     (trace (map (fun n => Send m (m_nodeId f) n data None) others) g).2) /\
  countsUp f f' others.
Proof.
  revert f g. induction nodes as [| node nodes IH]; intros f g Hf; cbn zeta.
  - exists f. split; [done |]. destruct Hf as [Ht Hs]. split_and!; [done | |]; intros; cbn.
    all: by rewrite Z.add_0_r, uwrap_small by eauto.
  - cbn [asyncSendMessageByNodeIDs fst]. case_decide as Hd.
    + rewrite filter_cons_False by tauto. by apply IH.
    + rewrite filter_cons_True by done. cbn [map trace].
      destruct (frontSend_counts m node data None f g Hf ltac:(congruence)) as (f1 & -> & Hup & Hf1).
      destruct (handle _ g) as [g1 out]. cbn [fst snd].
      destruct (IH f1 g1 Hf1) as (f2 & E & Hup'). destruct Hup as (E1 & Hup).
      rewrite E1 in E, Hup'. rewrite E. exists f2.
      split; [by destruct (trace _ g1) |]. by apply (countsUp_trans f f1 f2 [node]).
Qed.

(** Two threads that send in the same module may share an identifier: the counter is
    incremented and read in two statements.  When both increments come first, the second
    message takes the place of the first in the callback map, no other identifier gains a
    callback, and a response to the identifier both messages carry calls the second
    callback only; the first is lost. *)
Theorem concurrent_sends_share_id m from1 node1 data1 c1 from2 node2 data2 c2 g :
  let g2 := bumpUuid (bumpUuid g) in
  let g3 := (sendMessage m from1 node1 data1 (Some c1) g2).1 in
  let g4 := (sendMessage m from2 node2 data2 (Some c2) g3).1 in
  let id := Numbers.to_string (m_uuid g2) in
  callbackOf g3 m id = Some (Some c1) /\
  callbackOf g4 m id = Some (Some c2) /\
  (forall id', id' <> id -> callbackOf g4 m id' = callbackOf g m id') /\
  forall node data,
    let '(g5, out) := asyncSendResponse id m node data g4 in
    out = [Response c2 node data] /\ (asyncSendResponse id m node data g5).2 = [].
Proof.
  cbn zeta. cbn [sendMessage fst].
  assert (forall (h : FakeGateWay P C) c id, m_uuid (insertCallback m id c h) = m_uuid h) as Hid by done.
  rewrite Hid. rewrite !callbackOf_insert, !decide_True by done. split_and!; [done | done | |].
  - intros id' Hne. by rewrite !callbackOf_insert, !decide_False by (by intros [_ ?]).
  - intros node data. unfold asyncSendResponse at 1.
    rewrite callbackOf_insert, decide_True by done. split; [done |].
    unfold asyncSendResponse. by rewrite callbackOf_remove, decide_True by done.
Qed.
End Facts.
End FakeFrontFacts.

Module FakeFrontWitnesses.
Import FakeFront FakeFrontFacts.

Definition node (b : byte) : bytes := [b].

(** Two nodes, a message from the first to the transaction pool of the second, one to
    its consensus, and the response to the first message. *)
Definition history : list (event nat nat) :=
  [AddTxPool (node "b"%byte) 7%nat; AddConsensus (node "b"%byte) 8%nat;
   Send TxsSync (node "a"%byte) (node "b"%byte) [] (Some 1%nat);
   Send PBFT (node "a"%byte) (node "b"%byte) [] (Some 2%nat);
   Respond (Numbers.to_string 1) TxsSync (node "b"%byte) []].

Lemma gateway_answers_witness :
  (forall id m n data,
     let out := (asyncSendResponse id m n data (run history)).2 in
     (exists k c, id = Numbers.to_string (Z.of_nat k) /\ pending history k m (Some c) /\
        out = [Response c n data]) \/
     (out = [] /\ forall k c, id = Numbers.to_string (Z.of_nat k) -> ~ pending history k m (Some c))) /\
  (m_uuidToCallback (run history) = ∅ <-> forall k m c, ~ pending history k m c) /\
  (asyncSendResponse (Numbers.to_string 2) PBFT (node "b"%byte) [] (run history)).2 =
    [Response 2%nat (node "b"%byte) []] /\
  (asyncSendResponse (Numbers.to_string 1) TxsSync (node "b"%byte) [] (run history)).2 = [].
Proof.
  destruct (gateway_answers history) as [H1 H2]; [by vm_compute |].
  split_and!; [exact H1 | exact H2 | by vm_compute | by vm_compute].
Defined.

Lemma gateway_delivers_witness :
  (asyncSendMessageByNodeID PBFT (node "c"%byte) (node "b"%byte) [] None (run history)).2 =
    [NotifyConsensusMessage 8%nat (Numbers.to_string 3) (node "c"%byte) []].
Proof. rewrite (gateway_delivers history PBFT) by (by vm_compute). by vm_compute. Defined.

Lemma broadcast_skips_self_witness :
  exists f', asyncSendMessageByNodeIDs PBFT [node "a"%byte; node "b"%byte; node "b"%byte] []
               (newFront (node "a"%byte), run history) =
    (f', (trace (map (fun n => Send PBFT (node "a"%byte) n [] None)
                  [node "b"%byte; node "b"%byte]) (run history)).1,
     (trace (map (fun n => Send PBFT (node "a"%byte) n [] None)
        [node "b"%byte; node "b"%byte]) (run history)).2) /\
  countsUp (newFront (node "a"%byte)) f' [node "b"%byte; node "b"%byte].
Proof.
  apply (broadcast_skips_self PBFT [node "a"%byte; node "b"%byte; node "b"%byte] []
           (newFront (node "a"%byte)) (run history)).
  split; [done |]. intros n. unfold getAsyncSendSizeByNodeID. cbn. by rewrite lookup_empty.
Defined.
End FakeFrontWitnesses.
