(* ===== verification/SyncNetwork.v ===== *)
(** * Synchronisation messages over the gateway

    The two components a node uses to exchange transactions, composed: the messages
    of libsync/protocol/PB/TxsSyncMsg.cpp (Sync.v) travel through the gateway of
    testutils/faker/FakeFrontService.h (FakeFront.v), one way as a message of the
    module [TxsSync] and back as its response. *)

From Stdlib Require Import ZArith Lia List.
From Stdlib Require Import Strings.String Strings.Byte.
From stdpp Require Import base tactics decidable list option gmap.
From S2P Require Import Prelude Protobuf Numbers Sync FakeFront.
Import Protobuf TxsSyncMsg SyncFacts FakeFront FakeFrontFacts.

Module SyncNetwork.
Section Exchange.
Context {P C : Type} `{PBLaw RawSyncMessage}.

(** A message as a node fills it in. *)
Definition fill (v ty : Z) (data : bytes) (hashes : list bytes) : TxsSyncMsg :=
  setTxsHash hashes (setTxsData data (setType ty (setVersion v newMsg))).

Definition complete (m : TxsSyncMsg) : Prop :=
  exists v ty data hashes, m = fill v ty data hashes /\ Forall (fun h => length h = 32%nat) hashes.

(** Sending a message, and answering the one of an identifier with another. *)
Definition sendMsg (from node : bytes) (m : TxsSyncMsg) (callback : C) (g : FakeGateWay P C) :
    outcome pb_exn (FakeGateWay P C * list (effect P C)) :=
  data ← encode m; Ok (asyncSendMessageByNodeID TxsSync from node data (Some callback) g).
Definition answerMsg (id node : bytes) (m : TxsSyncMsg) (g : FakeGateWay P C) :
    outcome pb_exn (FakeGateWay P C * list (effect P C)) :=
  data ← encode m; Ok (asyncSendResponse id TxsSync node data g).

(** The message a node or a callback is called with. *)
Definition received (e : effect P C) : option (outcome pb_exn TxsSyncMsg) :=
  match e with
  | NotifyTxsSyncMessage _ _ _ data => Some (createTxsSyncMsg data)
  | Response _ _ data => Some (createTxsSyncMsg data)
  | _ => None
  end.

Lemma complete_roundtrip (m : TxsSyncMsg) (out : bytes) :
  complete m -> encode m = Ok out -> createTxsSyncMsg out = Ok m.
Proof.
  intros (v & ty & data & hashes & -> & Hh) Henc. unfold createTxsSyncMsg, decode.
  rewrite (decode_encodePBObject _ _ Henc), bind_ok. unfold deserializeObject.
  cbn [m_rawSyncMessage txshash fill setTxsHash]. by rewrite readHashes_ok.
Qed.

(** The last message of a history is pending as long as it has not been answered. *)
Lemma pending_after (es es' : list (event P C)) (m : Z) from node data c :
  let id := Numbers.to_string (Z.of_nat (S (length (sent es)))) in
  Forall (fun e => isResponse id m e = false) es' ->
  pending (es ++ Send m from node data c :: es') (S (length (sent es))) m c.
Proof.
  intros id Hes'. split_and!; [lia | |].
  - change (Send m from node data c :: es') with ([Send m from node data c] ++ es').
    unfold sent. rewrite !map_app, !join_app. cbn [pred map sentOf mjoin list_join app].
    rewrite lookup_app_r, Nat.sub_diag by done. done.
  - intros (pre & e & post & E & Hr & Hn).
    assert (length es < length pre)%nat as Hlt.
    { destruct (decide (length pre <= length es)%nat) as [Hle |]; [| lia].
      assert (es = pre ++ drop (length pre) es) as Hpre.
      { apply (f_equal (take (length pre))) in E. rewrite take_app_le, take_app_length in E by done.
        rewrite <- E at 1. by rewrite take_drop. }
      rewrite Hpre in Hn.
      unfold sent in Hn. rewrite map_app, join_app, length_app in Hn. lia. }
    assert (e ∈ es') as He.
    { apply list_elem_of_lookup. exists (length pre - S (length es))%nat.
      assert ((es ++ Send m from node data c :: es') !! length pre = Some e) as Hl
        by (by rewrite E, list_lookup_middle).
      rewrite lookup_app_r in Hl by lia.
      destruct (length pre - length es)%nat as [| k] eqn:Ek; [lia |].
      by replace (length pre - S (length es))%nat with k by lia. }
    rewrite Forall_forall in Hes'. specialize (Hes' e He). subst id. congruence.
Qed.

(** C28. Nodes exchange transactions through the gateway: whatever was registered, sent and
    answered before, a message sent to a node with a transaction pool reaches that pool and
    nothing else, once and with the content the sender filled in; whatever happens until its
    answer, the answer reaches the callback of that message and nothing else, with the
    content the answering node filled in; a second answer reaches nobody. *)
Theorem sync_exchange (es es' : list (event P C)) (from node : bytes) (pool : P) (callback : C)
    (m r : TxsSyncMsg) (data reply : bytes)
    (id := Numbers.to_string (Z.of_nat (S (length (sent es)))))
    (Hpool : component TxsSync node es = Some pool)
    (Hsends : len (sent (es ++ Send TxsSync from node data (Some callback) :: es')) < 2 ^ 63)
    (Hm : complete m) (Hdata : encode m = Ok data) (Hr : complete r) (Hreply : encode r = Ok reply)
    (Hopen : Forall (fun e => isResponse id TxsSync e = false) es') :
  (exists g, sendMsg from node m callback (run es) =
               Ok (g, [NotifyTxsSyncMessage pool id from data]) /\
             createTxsSyncMsg data = Ok m /\
             run (es ++ [Send TxsSync from node data (Some callback)]) = g) /\
  (exists g, answerMsg id node r (run (es ++ Send TxsSync from node data (Some callback) :: es')) =
               Ok (g, [Response callback node reply]) /\
             createTxsSyncMsg reply = Ok r /\
             answerMsg id node r g = Ok (g, [])).
Proof.
  assert (len (sent es) + 1 < 2 ^ 63) as Hes.
  { revert Hsends. unfold sent, len. rewrite map_app, join_app, length_app. cbn. lia. }
  split.
  - pose proof (faithful_run es ltac:(lia)) as Hf. pose proof (bumpUuid_next es _ Hf Hes) as Hid.
    pose proof (faithful_txpool _ _ Hf node) as Hp. rewrite Hpool in Hp.
    eexists. unfold sendMsg. rewrite Hdata. cbn [mbind outcome_bind].
    split_and!; [| by apply complete_roundtrip | by rewrite run_snoc].
    cbn [handle]. unfold asyncSendMessageByNodeID, sendMessage. rewrite Hid.
    change (m_nodeId2TxPool (bumpUuid (run es))) with (m_nodeId2TxPool (run es)). by rewrite Hp.
  - pose proof (pending_after es es' TxsSync from node data (Some callback) Hopen) as Hpend.
    set (h := es ++ _ :: es') in *. pose proof (faithful_run h Hsends) as Hf.
    assert (callbackOf (run h) TxsSync id = Some (Some callback)) as Hc
      by (apply (faithful_callbacks _ _ Hf); by eexists).
    eexists. unfold answerMsg. rewrite Hreply. cbn [mbind outcome_bind].
    split_and!; [| by apply complete_roundtrip |].
    + unfold asyncSendResponse. by rewrite Hc.
    + unfold asyncSendResponse. by rewrite callbackOf_remove, decide_True.
Qed.
End Exchange.
End SyncNetwork.

Module SyncNetworkWitnesses.
Import SyncNetwork.

#[local] Instance networkMessage : PBMessage RawSyncMessage :=
  fieldsMessage
    (fun r => [numberBytes (version r); numberBytes (type r); txsdata r] ++ txshash r)
    (fun fs => match fs with
               | v :: t :: d :: hs => v ← bytesNumber v; t ← bytesNumber t; Some (mkRaw v t d hs)
               | _ => None
               end).

#[local] Instance networkMessage_law : PBLaw RawSyncMessage.
Proof. apply fieldsMessage_law. intros [v t d hs]. cbn. by rewrite !bytesNumber_numberBytes. Qed.

Definition request : TxsSyncMsg := fill 1 3 [] [be_bytes 32 7].
Definition answer : TxsSyncMsg := fill 1 4 [Byte.x01] [].
Definition requestData : bytes := match encode request with Ok d => d | _ => [] end.
Definition answerData : bytes := match encode answer with Ok d => d | _ => [] end.

(** A pool is registered; another node sends a message in between. *)
Definition before : list (event nat nat) := [AddTxPool [Byte.x0b] 5%nat].
Definition between : list (event nat nat) := [Send PBFT [Byte.x0c] [Byte.x0b] [] None].

Lemma sync_exchange_witness :
  exists g, answerMsg (Numbers.to_string 1) [Byte.x0b] answer
      (run (before ++ Send TxsSync [Byte.x0a] [Byte.x0b] requestData (Some 9%nat) :: between)) =
    Ok (g, [Response 9%nat [Byte.x0b] answerData]) /\
    createTxsSyncMsg answerData = Ok answer /\
    answerMsg (Numbers.to_string 1) [Byte.x0b] answer g = Ok (g, []).
Proof.
  apply (sync_exchange before between [Byte.x0a] [Byte.x0b] 5%nat 9%nat request answer requestData answerData).
  - reflexivity.
  - reflexivity.
  - exists 1, 3, [], [be_bytes 32 7]. split; [reflexivity | repeat constructor].
  - vm_compute. reflexivity.
  - exists 1, 4, [Byte.x01], []. split; [reflexivity | constructor].
  - vm_compute. reflexivity.
  - repeat constructor.
Defined.
End SyncNetworkWitnesses.
