(* ===== verification/Amop.v ===== *)
(** * AMOP messages and topics

    Model of libprotocol/amop/{AMOPRequest.h,AMOPRequest.cpp,TopicItem.h}: the
    format of a request on the wire, and the parser of the list of topics a client
    subscribes to.  A decoded request refers to the bytes it was decoded from; the
    model holds those bytes. *)

From Stdlib Require Import ZArith Lia List.
From Stdlib Require Import Strings.String Strings.Byte.
From stdpp Require Import base tactics decidable list option gmap.
From S2P Require Import Prelude Json NodeConfig.
Import Json.

Module Amop.

(** [OFFSET_CHECK] throws a [std::runtime_error]. *)
Inductive amop_exn : Type := RuntimeError.

Record AMOPRequest : Type := mkRequest { m_topic : bytes; m_data : bytes }.

Definition newRequest : AMOPRequest := mkRequest [] [].
Definition setTopic (v : bytes) (r : AMOPRequest) : AMOPRequest := mkRequest v (m_data r).
Definition setData (v : bytes) (r : AMOPRequest) : AMOPRequest := mkRequest (m_topic r) v.

Definition TOPIC_MAX_LENGTH : Z := 65535.
Definition MESSAGE_MIN_LENGTH : Z := 2.

(** [encode] appends to the buffer; the length goes in network order. *)
Definition encode (r : AMOPRequest) (buffer : bytes) : bool * bytes :=
  if TOPIC_MAX_LENGTH <? len (m_topic r) then (false, buffer)
  else (true, buffer ++ be_bytes 2 (len (m_topic r)) ++ m_topic r ++ m_data r).

Definition offsetCheck (offset step length : Z) : outcome amop_exn unit :=
  if length <? offset + step then Throw RuntimeError else Ok tt.

(** The handler of [decode] catches strings, so the exception of the check leaves it. *)
Definition decode (data : bytes) (r : AMOPRequest) : outcome amop_exn (Z * AMOPRequest) :=
  if len data <? MESSAGE_MIN_LENGTH then Ok (-1, r)
  else
    let length := len data in
    offsetCheck 0 2 length ;;
    let topicLen := be_value (take 2 data) in
    offsetCheck 2 topicLen length ;;
    let topic := take (Z.to_nat topicLen) (drop 2 data) in
    Ok (length, mkRequest topic (drop (Z.to_nat (2 + topicLen)) data)).

(** [buildRequest] of some data, which drops what [decode] returns. *)
Definition buildRequest (data : bytes) : outcome amop_exn AMOPRequest :=
  '(_, r) ← decode data newRequest ; Ok r.
End Amop.

Module Topics.

(** A [TopicItem] is its name, and a set of them the set of the names. *)
Definition TopicItems : Type := gset bytes.

Section Json.
Context {V : Type} `{JsonLib V}.

Fixpoint topicNames (vs : list V) : option (list bytes) :=
  match vs with
  | [] => Some []
  | v :: vs => s ← asString v ; ss ← topicNames vs ; Some (s :: ss)
  end.

(** [parseSubTopicsJson]: exceptions of the JSON library are caught and give [false];
    the set is assigned only on success. *)
Definition parseSubTopicsJson (json : bytes) (topicItems : TopicItems) : bool * TopicItems :=
  match parse json with
  | None => (false, topicItems)
  | Some root =>
      match at_ root (str "topics") with
      | None => (false, topicItems)
      | Some topics =>
          match topicNames (elements topics) with
          | None => (false, topicItems)
          | Some names => (true, list_to_set names)
          end
      end
  end.
End Json.
End Topics.

(* ------------------------------------------------------------------ *)
(** ** Properties *)

Module AmopFacts.
Import Amop Topics.

(** A request with a topic that is not too long is encoded and decoded again; a
    longer topic is refused and the buffer kept. *)
Theorem amop_roundtrip (r r0 : AMOPRequest) (buffer : bytes) :
  let '(ok, out) := encode r buffer in
  if ok then exists data, out = buffer ++ data /\ decode data r0 = Ok (len data, r)
  else 65535 < len (m_topic r) /\ out = buffer.
Proof.
  unfold encode. destruct (Z.ltb_spec TOPIC_MAX_LENGTH (len (m_topic r))) as [Hl | Hl]; [done |].
  eexists. split; [reflexivity |]. destruct r as [topic data]. cbn [m_topic m_data] in *.
  unfold TOPIC_MAX_LENGTH in Hl. pose proof (len_nonneg topic) as H0. pose proof (len_nonneg data) as H1.
  assert (be_value (be_bytes 2 (len topic)) = len topic) as Hv.
  { rewrite be_value_be_bytes. apply Z.mod_small. change (256 ^ Z.of_nat 2) with 65536. lia. }
  assert (length (be_bytes 2 (len topic)) = 2%nat) as Hlen by apply length_be_bytes.
  assert (len (be_bytes 2 (len topic)) = 2) as Hlen' by (unfold len at 1; by rewrite Hlen).
  unfold decode, MESSAGE_MIN_LENGTH, offsetCheck. simpl_len. rewrite Hlen'.
  rewrite (proj2 (Z.ltb_ge _ 2)) by lia. rewrite (proj2 (Z.ltb_ge _ (0 + 2))) by lia. rewrite bind_ok.
  assert (take 2 (be_bytes 2 (len topic) ++ topic ++ data) = be_bytes 2 (len topic)) as ->
    by (rewrite take_app_le by lia; apply take_ge; lia).
  rewrite Hv.
  rewrite (proj2 (Z.ltb_ge _ _)) by lia. rewrite bind_ok. do 2 f_equal.
  rewrite drop_app_le, (drop_ge (be_bytes 2 _)), app_nil_l by lia. f_equal.
  - rewrite take_app_le by (unfold len; lia). apply take_ge. unfold len. lia.
  - replace (Z.to_nat (2 + len topic)) with (2 + length topic)%nat by (unfold len; lia).
    rewrite <- (drop_drop _ _ 2), drop_app_le, (drop_ge (be_bytes 2 _)), app_nil_l by lia.
    by rewrite drop_app_le, (drop_ge topic), app_nil_l by lia.
Qed.


Section Json.
Context {V : Type} `{JsonLaw V}.

Lemma topicNames_strings (names : list bytes) : topicNames (map ofString names) = Some names.
Proof. induction names as [| s names IH]; [done |]. cbn. by rewrite asString_ofString, IH. Qed.

(** The topics a client lists in JSON are the set it gets, whatever it had before. *)
Theorem topics_parsed (names : list bytes) (before : TopicItems)
    (Hnames : Forall textual names) :
  parseSubTopicsJson (write (ofObject [(str "topics", ofArray (map ofString names))])) before =
  (true, list_to_set names).
Proof.
  assert (NoDup [str "topics"]) as Hnd by (refine (bool_decide_unpack _ _); vm_compute; exact I).
  unfold parseSubTopicsJson. rewrite parse_write.
  - rewrite (at_ofObject [(str "topics", ofArray (map ofString names))] (str "topics")
      (ofArray (map ofString names)) Hnd) by (by left).
    by rewrite elements_ofArray, topicNames_strings.
  - apply BuiltObject; [done |]. intros k v [[= <- <-] | []]. split.
    + apply textual_ascii. repeat constructor.
    + apply BuiltArray. intros v Hv. apply in_map_iff in Hv as (s & <- & Hs).
      rewrite List.Forall_forall in Hnames. by apply BuiltString, Hnames.
Qed.
End Json.
End AmopFacts.

Module AmopWitnesses.
Import Topics AmopFacts SampleJson.

Lemma topics_parsed_witness :
  parseSubTopicsJson (write (ofObject [(str "topics", ofArray (map ofString [str "a"; str "b"]))])) ∅ =
  (true, list_to_set [str "a"; str "b"]).
Proof.
  apply (topics_parsed [str "a"; str "b"] ∅).
  repeat (apply List.Forall_cons || apply List.Forall_nil); exact I.
Defined.
End AmopWitnesses.
