(* ===== verification/Callbacks.v ===== *)
(** * Collections of callbacks

    Model of libutilities/CallbackCollectionHandler.h: a collection of callbacks
    keyed by an unsigned number, which holds weak pointers to the objects that
    [add] hands out.  An object leaves the collection when its last owner releases
    it.  While the collection calls its callbacks, they may add and release others;
    they do not call the collection itself. *)

From Stdlib Require Import ZArith Lia List Sorted.
From Stdlib Require Import Strings.String Strings.Byte.
From stdpp Require Import base tactics decidable list option gmap.
From S2P Require Import Prelude.

Module CallbackCollectionHandler.

Section Handler.
Context {Callback : Type}.

Record SingleCallback : Type := mkSingleCallback
  { m_iterator : Z
  ; m_callbackCollectionHandler : bool     (** the pointer is not null *)
  ; m_callback : Callback }.

(** The collection, in the order of its keys, and the objects with an owner. *)
Record Handler : Type := mkHandler
  { m_callbackCollection : list (Z * nat)
  ; objects : gmap nat SingleCallback
  ; next : nat }.

Definition newHandler : Handler := mkHandler [] ∅ 0.

(** [std::map]: [operator\[\]] with an assignment, and [erase]. *)
Fixpoint assign (k : Z) (id : nat) (m : list (Z * nat)) : list (Z * nat) :=
  match m with
  | [] => [(k, id)]
  | (k', id') :: m' =>
      if k <? k' then (k, id) :: m
      else if k =? k' then (k, id) :: m'
      else (k', id') :: assign k id m'
  end.

Definition erase (k : Z) (m : list (Z * nat)) : list (Z * nat) :=
  List.filter (fun p => negb (p.1 =? k)) m.

Definition convertMapToVector (m : list (Z * nat)) : list nat := map snd m.

Definition nextKey (m : list (Z * nat)) : Z :=
  match last m with Some p => u32 (p.1 + 1) | None => 0 end.

Definition add (callback : Callback) (h : Handler) : nat * Handler :=
  let iterator := nextKey (m_callbackCollection h) in
  let id := next h in
  (id, mkHandler (assign iterator id (m_callbackCollection h))
         (<[id := mkSingleCallback iterator true callback]> (objects h)) (S id)).

(** [~SingleCallback], when the last owner releases the object. *)
Definition release (id : nat) (h : Handler) : Handler :=
  match objects h !! id with
  | Some o =>
      mkHandler
        (if m_callbackCollectionHandler o then erase (m_iterator o) (m_callbackCollection h)
         else m_callbackCollection h)
        (delete id (objects h)) (next h)
  | None => h
  end.

Definition resetCallback (o : SingleCallback) : SingleCallback :=
  mkSingleCallback (m_iterator o) false (m_callback o).

(** [~CallbackCollectionHandler]: the objects that are left forget it. *)
Definition destroyHandler (h : Handler) : gmap nat SingleCallback :=
  fold_left (fun os p => alter resetCallback p.2 os) (m_callbackCollection h) (objects h).

Inductive action : Type := Add (callback : Callback) | Release (id : nat).

Definition act (a : action) (h : Handler) : Handler :=
  match a with Add callback => (add callback h).2 | Release id => release id h end.

(** What a callback does: the handler holds a pointer to its object until it
    returns, so that the release of that object comes last. *)
Variable react : Callback -> list action.

Definition releases (id : nat) (a : action) : bool :=
  match a with Release id' => bool_decide (id = id') | Add _ => false end.

Definition call (id : nat) (o : SingleCallback) (h : Handler) : Handler :=
  let actions := react (m_callback o) in
  let h := fold_left (fun h a => act a h) (List.filter (fun a => negb (releases id a)) actions) h in
  if existsb (releases id) actions then release id h else h.

Fixpoint callAll (ids : list nat) (h : Handler) : list nat * Handler :=
  match ids with
  | [] => ([], h)
  | id :: ids =>
      match objects h !! id with
      | Some o => let '(log, h) := callAll ids (call id o h) in (id :: log, h)
      | None => callAll ids h
      end
  end.

(** [operator()]. *)
Definition notify (h : Handler) : list nat * Handler :=
  callAll (convertMapToVector (m_callbackCollection h)) h.
End Handler.
Arguments SingleCallback : clear implicits.
Arguments Handler : clear implicits.
Arguments action : clear implicits.
End CallbackCollectionHandler.

(* ------------------------------------------------------------------ *)
(** ** Properties *)

Module CallbackFacts.
Import CallbackCollectionHandler.

Section Facts.
Context {Callback : Type} (react : Callback -> list (action Callback)).
Implicit Types h : Handler Callback.

Definition before (p q : Z * nat) : Prop := p.1 < q.1 /\ (p.2 < q.2)%nat.

(** Keys and objects come in the order of their registration, and the collection
    has exactly the objects with an owner, under their keys. *)
Record sound h : Prop := mkSound
  { sound_sorted : StronglySorted before (m_callbackCollection h)
  ; sound_keys : Forall (fun p => 0 <= p.1 <= Z.of_nat p.2 /\ (p.2 < next h)%nat) (m_callbackCollection h)
  ; sound_objects k id :
      In (k, id) (m_callbackCollection h) <-> exists o, objects h !! id = Some o /\ m_iterator o = k
  ; sound_attached id o : objects h !! id = Some o -> m_callbackCollectionHandler o = true }.

Lemma sorted_unique (m : list (Z * nat)) (k : Z) (i j : nat) :
  StronglySorted before m -> In (k, i) m -> In (k, j) m -> i = j.
Proof.
  induction 1 as [| p m _ IH Hp]; [done |]. rewrite List.Forall_forall in Hp.
  intros [-> | Hi] [E | Hj]; [by simplify_eq | | | by apply IH].
  - specialize (Hp _ Hj). destruct Hp as [Hp _]. cbn in Hp. lia.
  - subst p. specialize (Hp _ Hi). destruct Hp as [Hp _]. cbn in Hp. lia.
Qed.

Lemma sorted_filter (f : Z * nat -> bool) (m : list (Z * nat)) :
  StronglySorted before m -> StronglySorted before (List.filter f m).
Proof.
  induction 1 as [| p m _ IH Hp]; [constructor |]. cbn [List.filter]. destruct (f p); [| done].
  constructor; [done |]. rewrite List.Forall_forall in *. intros q Hq. apply filter_In in Hq as [Hq _]. auto.
Qed.

(** The new key is behind all the others, as long as the keys do not wrap. *)
Lemma nextKey_last h :
  sound h -> Z.of_nat (next h) < 2 ^ 32 ->
  0 <= nextKey (m_callbackCollection h) <= Z.of_nat (next h) /\
  Forall (fun p => p.1 < nextKey (m_callbackCollection h)) (m_callbackCollection h).
Proof.
  intros Hs Hn. unfold nextKey. pose proof (sound_sorted h Hs) as Hsort. pose proof (sound_keys h Hs) as Hk.
  destruct (m_callbackCollection h) as [| p m _] using rev_ind; [split; [cbn; lia | constructor] |].
  rewrite last_snoc. apply List.Forall_app in Hk as [_ Hp]. inversion Hp as [| ? ? [Hp1 Hp2] _]; subst.
  rewrite uwrap_small by lia. split; [lia |]. clear - Hsort. induction m as [| q m IH]; cbn [app] in *.
  - repeat constructor. lia.
  - inversion Hsort as [| ? ? Hsm Hq]; subst. constructor; [| by apply IH].
    apply List.Forall_app in Hq as [_ Hq]. inversion Hq as [| ? ? [? _] _]; subst. lia.
Qed.

Lemma assign_last (k : Z) (id : nat) (m : list (Z * nat)) :
  Forall (fun p => p.1 < k) m -> assign k id m = m ++ [(k, id)].
Proof.
  induction 1 as [| [k' i'] m Hk _ IH]; [done |]. cbn in *.
  rewrite (proj2 (Z.ltb_ge k k')), (proj2 (Z.eqb_neq k k')) by lia. by rewrite IH.
Qed.

Lemma sorted_snoc (m : list (Z * nat)) (p : Z * nat) :
  StronglySorted before m -> Forall (fun q => before q p) m -> StronglySorted before (m ++ [p]).
Proof.
  induction 1 as [| q m _ IH Hq]; cbn [app]; intros Hp; [repeat constructor |].
  inversion Hp; subst. constructor; [by apply IH |]. apply List.Forall_app. split; [done |].
  constructor; [done | constructor].
Qed.

Lemma sound_fresh h id : sound h -> (next h <= id)%nat -> objects h !! id = None.
Proof.
  intros Hs Hid. destruct (objects h !! id) as [o |] eqn:E; [| done]. exfalso.
  assert (In (m_iterator o, id) (m_callbackCollection h)) as Hin by (apply (sound_objects h Hs); eauto).
  pose proof (sound_keys h Hs) as Hk. rewrite List.Forall_forall in Hk. specialize (Hk _ Hin). cbn in Hk. lia.
Qed.

Lemma add_sound callback h : sound h -> Z.of_nat (next h) < 2 ^ 32 -> sound (add callback h).2.
Proof.
  intros Hs Hn. destruct (nextKey_last h Hs Hn) as [Hkey Hlast]. pose proof (sound_keys h Hs) as Hk.
  pose proof (sound_fresh h (next h) Hs (le_n _)) as Hf.
  unfold add. cbn [snd]. rewrite assign_last by done. split; cbn.
  - apply sorted_snoc; [apply Hs |]. rewrite List.Forall_forall in *. intros q Hq. split; [by apply Hlast |].
    cbn. by apply Hk.
  - apply List.Forall_app. split; [| repeat constructor; cbn; lia].
    eapply List.Forall_impl; [| exact Hk]. cbn. lia.
  - intros k id. rewrite in_app_iff, (sound_objects h Hs). cbn [In]. split.
    + intros [(o & Ho & Hit) | [E | []]].
      * exists o. rewrite lookup_insert_ne; [done |]. intros <-. congruence.
      * simplify_eq. eexists. by rewrite lookup_insert_eq.
    + intros (o & Ho & Hit). destruct (decide (next h = id)) as [<- | Hne].
      * rewrite lookup_insert_eq in Ho. simplify_eq. by right; left.
      * rewrite lookup_insert_ne in Ho by done. left. eauto.
  - intros id o Ho. destruct (decide (next h = id)) as [<- | Hne].
    + rewrite lookup_insert_eq in Ho. by simplify_eq.
    + rewrite lookup_insert_ne in Ho by done. by apply (sound_attached h Hs id).
Qed.

Lemma release_sound id h : sound h -> sound (release id h).
Proof.
  intros Hs. unfold release. destruct (objects h !! id) as [o |] eqn:E; [| done].
  rewrite (sound_attached h Hs id o E). unfold erase. split; cbn.
  - apply sorted_filter, Hs.
  - pose proof (sound_keys h Hs) as Hk. rewrite List.Forall_forall in *. intros p Hp.
    apply filter_In in Hp as [Hp _]. by apply Hk.
  - intros k i. rewrite filter_In, negb_true_iff, Z.eqb_neq, (sound_objects h Hs). cbn [fst]. split.
    + intros [(o' & Ho' & Hit) Hne]. exists o'. rewrite lookup_delete_ne; [done |]. intros ->. congruence.
    + intros (o' & Ho' & Hit). destruct (decide (id = i)) as [<- | Hne]; [by rewrite lookup_delete_eq in Ho' |].
      rewrite lookup_delete_ne in Ho' by done. split; [eauto |]. intros ->. apply Hne.
      apply (sorted_unique (m_callbackCollection h) (m_iterator o)); [apply Hs | |];
        apply (sound_objects h Hs); eauto.
  - intros i o' Ho'. apply lookup_delete_Some in Ho' as [_ Ho']. by apply (sound_attached h Hs i).
Qed.

Lemma next_act a h : (next h <= next (act a h))%nat.
Proof. destruct a as [cb | id]; cbn; [lia |]. unfold release. by destruct (objects h !! id). Qed.

Lemma next_acts actions h : (next h <= next (fold_left (fun h a => act a h) actions h))%nat.
Proof.
  revert h. induction actions as [| a actions IH]; intros h; [done |]. cbn [fold_left].
  pose proof (next_act a h). specialize (IH (act a h)). lia.
Qed.

Lemma acts_sound actions h :
  sound h -> Z.of_nat (next (fold_left (fun h a => act a h) actions h)) <= 2 ^ 32 ->
  sound (fold_left (fun h a => act a h) actions h).
Proof.
  revert h. induction actions as [| a actions IH]; intros h Hs Hn; [done |]. cbn [fold_left] in *.
  apply IH; [| done]. pose proof (next_acts actions (act a h)). destruct a as [cb | id]; cbn [act] in *.
  - apply add_sound; [done |]. cbn [add snd next] in *. lia.
  - by apply release_sound.
Qed.

Lemma newHandler_sound : sound (newHandler (Callback := Callback)).
Proof.
  split; cbn; try constructor.
  - done.
  - intros (o & Ho & _). by rewrite lookup_empty in Ho.
  - intros id o Ho. by rewrite lookup_empty in Ho.
Qed.

(** An object that has an owner after some actions had one before them. *)
Lemma acts_owned actions h id :
  (id < next h)%nat -> is_Some (objects (fold_left (fun h a => act a h) actions h) !! id) ->
  is_Some (objects h !! id).
Proof.
  revert h. induction actions as [| a actions IH]; intros h Hid Ho; [done |]. cbn [fold_left] in *.
  pose proof (next_act a h). apply IH in Ho; [| lia]. destruct a as [cb | j]; cbn [act] in Ho.
  - cbn in Ho. by rewrite lookup_insert_ne in Ho by lia.
  - unfold release in Ho. destruct (objects h !! j) eqn:E; [| done]. cbn in Ho.
    destruct Ho as [o Ho]. apply lookup_delete_Some in Ho as [_ Ho]. by eexists.
Qed.

(** A call of a callback is a list of actions. *)
Lemma call_acts id o h :
  exists actions, call react id o h = fold_left (fun h a => act a h) actions h.
Proof.
  unfold call. destruct (existsb _ _); [| by eexists].
  exists (List.filter (fun a => negb (releases id a)) (react (m_callback o)) ++ [Release id]).
  by rewrite fold_left_app.
Qed.

Lemma callAll_acts ids h :
  exists actions, (callAll react ids h).2 = fold_left (fun h a => act a h) actions h.
Proof.
  revert h. induction ids as [| id ids IH]; intros h; [by exists [] |]. cbn [callAll].
  destruct (objects h !! id) as [o |]; [| apply IH]. destruct (call_acts id o h) as [l1 ->].
  destruct (IH (fold_left (fun h a => act a h) l1 h)) as [l2 E]. exists (l1 ++ l2).
  rewrite fold_left_app, <- E. by destruct (callAll _ _ _).
Qed.

Lemma callAll_called ids h :
  (callAll react ids h).1 `sublist_of` ids /\
  forall id, In id ids -> (id < next h)%nat -> is_Some (objects (callAll react ids h).2 !! id) ->
    In id (callAll react ids h).1.
Proof.
  revert h. induction ids as [| id ids IH]; intros h; [by split |]. cbn [callAll].
  destruct (objects h !! id) as [o |] eqn:E.
  - destruct (call_acts id o h) as [l ->]. specialize (IH (fold_left (fun h a => act a h) l h)) as [IH1 IH2].
    destruct (callAll react ids _) as [log h']. cbn [fst snd] in *. split; [by constructor |].
    intros j [-> | Hj] Hlt Ho; [by left | right]. apply IH2; try done. pose proof (next_acts l h). lia.
  - specialize (IH h) as [IH1 IH2]. split; [by constructor |]. intros j [-> | Hj] Hlt Ho; [| by apply IH2].
    destruct (callAll_acts ids h) as [l El]. rewrite El in Ho. apply acts_owned in Ho; [| done].
    rewrite E in Ho. by destruct Ho.
Qed.

Inductive operation : Type := Act (a : action Callback) | Notify.

Definition operate (o : operation) h : Handler Callback :=
  match o with Act a => act a h | Notify => (notify react h).2 end.

(** While fewer than 2^32 callbacks have been added, the collection has exactly the
    callbacks that have an owner, each under a key of its own, in the order of their
    registration, whatever the callbacks add and release while they are called. *)
Theorem collection_sound (os : list operation) :
  let h := fold_left (fun h o => operate o h) os newHandler in
  Z.of_nat (next h) <= 2 ^ 32 -> sound h.
Proof.
  cbn zeta. assert (exists actions, fold_left (fun h o => operate o h) os newHandler =
                      fold_left (fun h a => act a h) actions newHandler) as [l ->].
  { generalize (newHandler (Callback := Callback)). induction os as [| o os IH]; intros h; [by exists [] |].
    cbn [fold_left]. destruct (IH (operate o h)) as [l ->].
    destruct o as [a | ]; [by exists (a :: l) |].
    destruct (callAll_acts (convertMapToVector (m_callbackCollection h)) h) as [l' E].
    exists (l' ++ l). rewrite fold_left_app, <- E. done. }
  intros Hn. by apply acts_sound; [apply newHandler_sound |].
Qed.

(** A notification calls callbacks that were registered when it began, in the order
    of their registration and none twice; it calls all of them that still have an
    owner at its end, and all of them when the callbacks do nothing. *)
Theorem notify_calls h (Hs : sound h) :
  let registered := convertMapToVector (m_callbackCollection h) in
  let '(log, h') := notify react h in
  log `sublist_of` registered /\ StronglySorted lt log /\
  (forall id, In id registered -> is_Some (objects h' !! id) -> In id log) /\
  ((forall cb, react cb = []) -> log = registered /\ h' = h).
Proof.
  cbn zeta. unfold notify. set (ids := convertMapToVector (m_callbackCollection h)).
  assert (forall id, In id ids -> (id < next h)%nat /\ is_Some (objects h !! id)) as Hids.
  { intros id Hin. apply in_map_iff in Hin as ([k i] & <- & Hin). pose proof (sound_keys h Hs) as Hk.
    rewrite List.Forall_forall in Hk. specialize (Hk _ Hin). apply (sound_objects h Hs) in Hin as (o & Ho & _).
    split; [cbn in *; lia | by exists o]. }
  pose proof (callAll_called ids h) as [Hsub Hall].
  assert ((forall cb, react cb = []) -> callAll react ids h = (ids, h)) as Hquiet.
  { intros Hr. clear Hsub Hall. induction ids as [| id ids IH]; [done |]. cbn [callAll].
    destruct (Hids id) as [_ [o ->]]; [by left |]. unfold call. rewrite Hr. cbn.
    rewrite IH; [done |]. intros j Hj. apply Hids. by right. }
  destruct (callAll react ids h) as [log h'] eqn:E. cbn [fst snd] in *. split; [done |]. split; [| split].
  - assert (StronglySorted lt ids) as Hsort.
    { subst ids. unfold convertMapToVector. pose proof (sound_sorted h Hs) as Hso. clear - Hso.
      induction Hso as [| p m _ IH Hp]; [constructor |]. cbn [map]. constructor; [done |].
      rewrite List.Forall_forall in *. intros j Hj. apply in_map_iff in Hj as (q & <- & Hq). by apply Hp. }
    clear - Hsub Hsort. induction Hsub as [| x l k Hsub IH | x l k Hsub IH]; [constructor | |];
      inversion Hsort as [| ? ? Hk Hx]; subst; [| by apply IH]. constructor; [by apply IH |].
    rewrite List.Forall_forall in *. intros j Hj. apply Hx. clear - Hsub Hj.
    induction Hsub; cbn in *; naive_solver.
  - intros id Hin Ho. apply Hall; [done | by apply Hids | done].
  - intros Hr. specialize (Hquiet Hr). by simplify_eq.
Qed.
End Facts.
End CallbackFacts.

(* ------------------------------------------------------------------ *)
(** ** The hypotheses can be met *)

Module CallbackWitnesses.
Import CallbackCollectionHandler CallbackFacts.

(** The first callback releases the second one and itself, and adds another. *)
Definition reacts (n : nat) : list (action nat) :=
  match n with O => [Release 1; Release 0; Add 7%nat] | _ => [] end.

Definition three : Handler nat :=
  fold_left (fun h o => operate reacts o h) [Act (Add 0%nat); Act (Add 1%nat); Act (Add 2%nat)] newHandler.

Lemma collection_sound_witness : sound three.
Proof.
  apply (collection_sound reacts [Act (Add 0%nat); Act (Add 1%nat); Act (Add 2%nat)]). vm_compute. congruence.
Defined.

Lemma notify_calls_witness :
  (notify reacts three).1 = [0%nat; 2%nat] /\
  (notify reacts three).1 `sublist_of` convertMapToVector (m_callbackCollection three).
Proof.
  split; [by vm_compute |].
  exact (proj1 (notify_calls reacts three
    (acts_sound [Add 0%nat; Add 1%nat; Add 2%nat] newHandler newHandler_sound
       ltac:(vm_compute; congruence)))).
Defined.
End CallbackWitnesses.
