(* ===== verification/Pools.v ===== *)
(** * Thread pools, and the test doubles that use them

    Model of libutilities/ThreadPool.h, testutils/faker/FakeTxPool.h and
    testutils/faker/FakeSealer.h.  The io_service of boost::asio is the environment,
    with its documented behaviour: posted functions are queued, a thread inside
    [run] takes the first of them whenever it is free, does not leave while there is
    a work object, and leaves once the service has been stopped and the function it
    was executing has returned; what is still queued then is not executed.

    The threads are interleaved: a step of the pool is a call of one of its methods
    or a step of one of its threads. *)

From Stdlib Require Import ZArith Lia List.
From Stdlib Require Import Strings.String Strings.Byte.
From stdpp Require Import base tactics decidable list option relations.
From S2P Require Import Prelude.

(* ------------------------------------------------------------------ *)
(** ** The pool *)

Module ThreadPool.
Section Pool.
(** The functions that are enqueued. *)
Context {F : Type}.

(** A thread inside [run] without a function, with one, and after [run]. *)
Inductive worker : Type := Waiting | Executing (f : F) | Left_.

Record ThreadPool : Type := mkPool
  { _threadName : bytes
  ; _workers : list worker
  ; queue : list F             (** posted to [_ioService] *)
  ; stopped : bool             (** [_ioService] has been stopped *)
  ; enqueued : list F          (** ghost: everything posted, in order *)
  ; started : list F           (** ghost: everything taken by a thread, in order *)
  ; finished : list F }.       (** ghost: everything that has returned *)

Definition newPool (threadName : bytes) (size : nat) : ThreadPool :=
  mkPool threadName (replicate size Waiting) [] false [] [] [].

Definition enqueue (f : F) (p : ThreadPool) : ThreadPool :=
  mkPool (_threadName p) (_workers p) (queue p ++ [f]) (stopped p) (enqueued p ++ [f])
    (started p) (finished p).

(** The first statement of [stop]. *)
Definition stopService (p : ThreadPool) : ThreadPool :=
  mkPool (_threadName p) (_workers p) (queue p) true (enqueued p) (started p) (finished p).

(** Whether [join_all] returns, and [stop]: a thread of the pool does not wait. *)
Definition left (w : worker) : bool := match w with Left_ => true | _ => false end.
Definition joined (p : ThreadPool) : bool := forallb left (_workers p).
Definition stopReturns (is_this_thread_in : bool) (p : ThreadPool) : bool :=
  stopped p && (is_this_thread_in || joined p).

(** What thread [i] does next, if it can do anything. *)
Definition workerStep (i : nat) (p : ThreadPool) : option ThreadPool :=
  w ← _workers p !! i;
  match w with
  | Waiting =>
      if stopped p
      then Some (mkPool (_threadName p) (<[i := Left_]> (_workers p)) (queue p) (stopped p)
                   (enqueued p) (started p) (finished p))
      else
        match queue p with
        | [] => None
        | f :: q =>
            Some (mkPool (_threadName p) (<[i := Executing f]> (_workers p)) q (stopped p)
                    (enqueued p) (started p ++ [f]) (finished p))
        end
  | Executing f =>
      Some (mkPool (_threadName p) (<[i := Waiting]> (_workers p)) (queue p) (stopped p)
              (enqueued p) (started p) (finished p ++ [f]))
  | Left_ => None
  end.

Inductive step : ThreadPool -> ThreadPool -> Prop :=
| Enqueues p f : step p (enqueue f p)
| Stops p : step p (stopService p)
| Works p i p' : workerStep i p = Some p' -> step p p'.

(** The functions the threads are executing. *)
Definition executing (w : worker) : list F := match w with Executing f => [f] | _ => [] end.
Definition running (p : ThreadPool) : list F := List.concat (map executing (_workers p)).
End Pool.
Arguments worker : clear implicits.
Arguments ThreadPool : clear implicits.
End ThreadPool.

Module ThreadPoolFacts.
Import ThreadPool.

Section Facts.
Context {F : Type}.
Implicit Types (p : ThreadPool F) (w : worker F) (ws : list (worker F)).

Lemma workers_split ws i w w' :
  ws !! i = Some w ->
  exists a b, ws = a ++ w :: b /\ <[i := w']> ws = a ++ w' :: b.
Proof.
  intros Hw. exists (take i ws), (drop (S i) ws). split; [by rewrite take_drop_middle |].
  apply insert_take_drop. by eapply lookup_lt_Some.
Qed.

Lemma running_split p a w b :
  _workers p = a ++ w :: b ->
  running p = List.concat (map executing a) ++ executing w ++ List.concat (map executing b).
Proof. unfold running. intros ->. by rewrite map_app, concat_app. Qed.

(** Every function is in one place: what was enqueued has been taken, in order, or is in
    the queue; what was taken has returned or is being executed. *)
Record sound p : Prop := mkSound
  { sound_order : started p ++ queue p = enqueued p
  ; sound_started : finished p ++ running p ≡ₚ started p
  ; sound_single : length (_workers p) = 1%nat -> finished p ++ running p = started p
  ; sound_left : stopped p = false -> forallb left (_workers p) = true -> _workers p = [] }.

Lemma sound_new (threadName : bytes) (size : nat) : sound (@newPool F threadName size).
Proof.
  assert (running (@newPool F threadName size) = []) as Hr.
  { unfold running. cbn. by induction size. }
  split; rewrite ?Hr; [done | done | done |]. intros _. by destruct size.
Qed.

(** A step of a thread moves at most one function. *)
Lemma workerStep_inv p i p' :
  workerStep i p = Some p' ->
  exists a w b w' moved taken,
    _workers p = a ++ w :: b /\ _workers p' = a ++ w' :: b /\
    queue p = taken ++ queue p' /\ started p' = started p ++ taken /\
    finished p' = finished p ++ moved /\ enqueued p' = enqueued p /\ stopped p' = stopped p /\
    match w, w' with
    | Waiting, Left_ => stopped p = true /\ moved = [] /\ taken = []
    | Waiting, Executing f => stopped p = false /\ moved = [] /\ taken = [f]
    | Executing f, Waiting => moved = [f] /\ taken = []
    | _, _ => False
    end.
Proof.
  unfold workerStep. destruct (_workers p !! i) as [w |] eqn:Hw; cbn [mbind option_bind]; [| done].
  destruct w as [| f |]; [destruct (stopped p) eqn:Hs; [| destruct (queue p) as [| f q] eqn:Hq; [done |]] | | done];
    intros [= <-]; cbn.
  - destruct (workers_split _ _ _ Left_ Hw) as (a & b & E & ->).
    exists a, Waiting, b, Left_, [], []. by rewrite !app_nil_r.
  - destruct (workers_split _ _ _ (Executing f) Hw) as (a & b & E & ->).
    exists a, Waiting, b, (Executing f), [], [f]. by rewrite !app_nil_r.
  - destruct (workers_split _ _ _ Waiting Hw) as (a & b & E & ->).
    exists a, (Executing f), b, Waiting, [f], []. by rewrite !app_nil_r.
Qed.

Lemma sound_work p i p' : sound p -> workerStep i p = Some p' -> sound p'.
Proof.
  intros [Ho Hp H1 Hl] Hstep.
  destruct (workerStep_inv p i p' Hstep) as (a & w & b & w' & moved & taken & E & E' & Hq & Hs & Hf & He & Hst & Hcase).
  pose proof (running_split p a w b E) as R. pose proof (running_split p' a w' b E') as R'.
  split.
  - by rewrite Hs, He, <- app_assoc, <- Hq.
  - rewrite Hf, R', Hs, <- Hp, R. destruct w, w'; try done; destruct_and?; subst; cbn;
      rewrite ?app_nil_r; solve_Permutation.
  - rewrite E', length_app. cbn. intros Hlen.
    assert (a = [] /\ b = []) as [-> ->] by (destruct a, b; cbn in Hlen; (done || lia)).
    rewrite Hf, R', Hs, <- H1, R by (by rewrite E).
    destruct w, w'; try done; destruct_and?; subst; cbn; by rewrite ?app_nil_r, <- ?app_assoc.
  - rewrite Hst, E', forallb_app. intros Hns. destruct w, w'; try done; cbn; try by rewrite andb_false_r.
    destruct Hcase as [Hc _]. congruence.
Qed.

Lemma sound_step p p' : sound p -> step p p' -> sound p'.
Proof.
  intros Hp Hs. destruct Hs as [q f | q | q i q' Hw]; [| | by eapply sound_work]; destruct Hp as [Ho Hp H1 Hl]; split; try done.
  cbn. by rewrite app_assoc, Ho.
Qed.

Lemma sound_reachable (threadName : bytes) (size : nat) p : rtc step (newPool threadName size) p -> sound p.
Proof. apply rtc_invariant; [apply sound_step | apply sound_new]. Qed.

Lemma size_reachable (threadName : bytes) (size : nat) p :
  rtc step (newPool threadName size) p -> length (_workers p) = size.
Proof.
  apply (rtc_invariant _ (fun p => length (_workers p) = size)); [| apply length_replicate].
  intros q q' Hq Hs. destruct Hs as [? | ? | ? i ? Hw]; try done.
  destruct (workerStep_inv _ _ _ Hw) as (a & w & b & w' & _ & _ & E & E' & _).
  rewrite E' in *. rewrite E in Hq. rewrite <- Hq. by rewrite !length_app.
Qed.

(** *** The threads finish *)

Definition cost w : nat := match w with Waiting => 1 | Executing _ => 2 | Left_ => 0 end.
Definition measure p : nat := (2 * length (queue p) + sum_list_with cost (_workers p))%nat.

Definition works p p' : Prop := exists i, workerStep i p = Some p'.
Definition idle p : Prop := forall i, workerStep i p = None.

Lemma works_measure p p' : works p p' -> (measure p' < measure p)%nat.
Proof.
  intros [i Hw]. destruct (workerStep_inv _ _ _ Hw) as (a & w & b & w' & m & t & E & E' & Hq & _ & _ & _ & _ & Hc).
  unfold measure. rewrite E, E', Hq, !sum_list_with_app, length_app. cbn.
  destruct w, w'; try done; destruct_and?; subst; cbn; lia.
Qed.

Lemma works_bound n p p' : nsteps works n p p' -> (n + measure p' <= measure p)%nat.
Proof.
  induction 1 as [p | n p q r Hpq _ IH]; [done |]. apply works_measure in Hpq. lia.
Qed.

#[local] Instance idle_dec p : Decision (idle p).
Proof.
  destruct (decide (Forall (fun i => workerStep i p = None) (seq 0 (length (_workers p))))) as [H | H].
  - left. intros i. destruct (decide (i < length (_workers p))%nat) as [Hi | Hi].
    + rewrite Forall_forall in H. apply H, elem_of_seq. lia.
    + unfold workerStep. by rewrite lookup_ge_None_2 by lia.
  - right. intros Hi. apply H, Forall_forall. intros i _. apply Hi.
Defined.

Lemma idle_reached p : exists n p', nsteps works n p p' /\ idle p'.
Proof.
  remember (measure p) as k eqn:Hk. revert p Hk. induction (lt_wf k) as [k _ IH]. intros p ->.
  destruct (decide (idle p)) as [Hi | Hi]; [exists 0%nat, p; by split; [constructor |] |].
  destruct (decide (Exists (fun i => is_Some (workerStep i p)) (seq 0 (length (_workers p))))) as [H | H].
  - apply Exists_exists in H as (i & _ & q & Hq). assert (works p q) as Hw by by exists i.
    destruct (IH _ (works_measure _ _ Hw) q eq_refl) as (n & r & Hn & Hr).
    exists (S n), r. split; [by econstructor | done].
  - destruct Hi. intros i. destruct (workerStep i p) as [q |] eqn:E; [| done].
    destruct H. apply Exists_exists. exists i. split; [| by rewrite E].
    apply elem_of_seq. unfold workerStep in E. destruct (_workers p !! i) eqn:El; [| done].
    apply lookup_lt_Some in El. lia.
Qed.

(** Where no thread can do anything, the pool is done: a stopped pool has no thread left
    inside [run], any other with a thread has executed everything. *)
Lemma idle_done p :
  sound p -> idle p ->
  running p = [] /\
  if stopped p then joined p = true
  else _workers p = [] \/ queue p = [] /\ finished p ≡ₚ enqueued p.
Proof.
  intros Hs Hidle.
  assert (forall w, w ∈ _workers p -> match w with
            | Waiting => stopped p = false /\ queue p = [] | Executing _ => False | Left_ => True end) as Hw.
  { intros w [i Hi]%list_elem_of_lookup. specialize (Hidle i). unfold workerStep in Hidle.
    rewrite Hi in Hidle. cbn in Hidle. destruct w; try done.
    destruct (stopped p); [done |]. by destruct (queue p). }
  assert (running p = []) as Hr.
  { unfold running. clear Hidle Hs. induction (_workers p) as [| w ws IH]; [done |]. cbn.
    rewrite IH by (intros; apply Hw; by right). specialize (Hw w ltac:(by left)). by destruct w. }
  split; [done |]. destruct (stopped p) eqn:Est.
  - unfold joined. apply forallb_forall. intros w Hin%list_elem_of_In. specialize (Hw w Hin).
    by destruct w; [destruct Hw | |].
  - destruct (forallb left (_workers p)) eqn:El; [left; by apply sound_left |]. right.
    apply not_true_iff_false in El. assert (queue p = []) as Hq.
    { destruct (queue p) eqn:Eq; [done |]. destruct El. apply forallb_forall.
      intros w Hin%list_elem_of_In. specialize (Hw w Hin). destruct w; [by destruct Hw | done | done]. }
    split; [done |]. destruct Hs as [Ho Hp _ _]. rewrite Hq, app_nil_r in Ho. rewrite Hr, app_nil_r in Hp.
    by rewrite Hp, Ho.
Qed.



Lemma joined_running p : joined p = true -> running p = [].
Proof.
  unfold joined, running. induction (_workers p) as [| w ws IH]; [done |].
  cbn. intros [Hw Hws]%andb_true_iff. rewrite IH by done. by destruct w.
Qed.

(** Once [stop] has returned to a caller outside the pool nothing is executed any more,
    also what is enqueued later. *)
Theorem stop_is_final (threadName : bytes) (size : nat) p p'
    (Hrun : rtc step (newPool threadName size) p) (Hstop : stopReturns false p = true)
    (Hlater : rtc step p p') :
  running p = [] /\ started p' = started p /\ finished p' = finished p /\ stopReturns false p' = true.
Proof.
  apply andb_true_iff in Hstop as [Hs Hj]. split; [by apply joined_running |].
  apply (rtc_invariant _ (fun q => started q = started p /\ finished q = finished p /\
    stopReturns false q = true) p p') in Hlater; [done | | by unfold stopReturns; rewrite Hs, Hj].
  intros q q' (E1 & E2 & E3) Hq. destruct Hq as [q f | q | q i q' Hw]; try done.
  - split_and!; try done. unfold stopReturns in *. by apply andb_true_iff in E3 as [_ ?].
  - apply andb_true_iff in E3 as [_ E3]. unfold workerStep in Hw. cbn in E3. unfold joined in E3.
    destruct (_workers q !! i) as [w |] eqn:Ew; [| done]. rewrite forallb_forall in E3.
    specialize (E3 w (proj1 (list_elem_of_In _ _) (list_elem_of_lookup_2 _ _ _ Ew))). by destruct w.
Qed.
End Facts.
End ThreadPoolFacts.

(* ------------------------------------------------------------------ *)
(** ** The transaction pool of the tests *)

Module FakeTxPool.
Import ThreadPool.

(** [CommonError::TransactionsMissing] *)
Definition TransactionsMissing : Z := 2000.

Section TxPool.
(** The callbacks of [asyncVerifyBlock]. *)
Context {C : Type}.

(** The function that is enqueued reads the result twice, once to choose its branch and
    once for the argument: [tested] is what its first read gave. *)
Record FakeTxPool : Type := mkTxPool
  { m_verifyResult : bool
  ; m_worker : ThreadPool C
  ; tested : option bool
  ; calls : list (C * option Z * bool) }.

Definition newTxPool : FakeTxPool :=
  mkTxPool true (newPool (list_byte_of_string "txpool") 1) None [].

Definition asyncVerifyBlock (onVerifyFinished : C) (t : FakeTxPool) : FakeTxPool :=
  mkTxPool (m_verifyResult t) (enqueue onVerifyFinished (m_worker t)) (tested t) (calls t).
Definition setVerifyResult (verifyResult : bool) (t : FakeTxPool) : FakeTxPool :=
  mkTxPool verifyResult (m_worker t) (tested t) (calls t).

(** The next step of the thread: it takes a function, tests the result, calls the
    callback. *)
Definition threadStep (t : FakeTxPool) : option FakeTxPool :=
  match _workers (m_worker t), tested t with
  | [Executing f], None => Some (mkTxPool (m_verifyResult t) (m_worker t) (Some (m_verifyResult t)) (calls t))
  | [Executing f], Some b =>
      p ← workerStep 0 (m_worker t);
      Some (mkTxPool (m_verifyResult t) p None
              (calls t ++ [(f, if b then None else Some TransactionsMissing, m_verifyResult t)]))
  | _, _ => p ← workerStep 0 (m_worker t); Some (mkTxPool (m_verifyResult t) p (tested t) (calls t))
  end.

Inductive txStep : FakeTxPool -> FakeTxPool -> Prop :=
| Verifies t f : txStep t (asyncVerifyBlock f t)
| Sets t b : txStep t (setVerifyResult b t)
| Threads t t' : threadStep t = Some t' -> txStep t t'.
End TxPool.
Arguments FakeTxPool : clear implicits.
End FakeTxPool.

(* ------------------------------------------------------------------ *)
(** ** The sealer of the tests *)

Module FakeSealer.

(** The number of the latest block has no initial value. *)
Record FakeSealer : Type := mkSealer
  { m_unSealedTxsSize : Z
  ; m_proposalStartIndex : Z
  ; m_proposalEndIndex : Z
  ; m_maxTxsToSeal : Z
  ; m_blockNumber : option Z }.

Definition newSealer : FakeSealer := mkSealer 0 0 0 0 None.

(** Each returns the calls of the callback it was given. *)
Definition asyncNotifySealProposal (startIndex endIndex maxTxsToSeal : Z) (s : FakeSealer) :
    FakeSealer * nat :=
  (mkSealer (m_unSealedTxsSize s) startIndex endIndex maxTxsToSeal (m_blockNumber s), 0%nat).
Definition asyncNoteUnSealedTxsSize (unSealedTxsSize : Z) (s : FakeSealer) : FakeSealer * nat :=
  (mkSealer unSealedTxsSize (m_proposalStartIndex s) (m_proposalEndIndex s) (m_maxTxsToSeal s)
     (m_blockNumber s), 1%nat).
Definition asyncNoteLatestBlockNumber (blockNumber : Z) (s : FakeSealer) : FakeSealer :=
  mkSealer (m_unSealedTxsSize s) (m_proposalStartIndex s) (m_proposalEndIndex s) (m_maxTxsToSeal s)
    (Some blockNumber).
Definition blockNumber {E} (s : FakeSealer) : outcome E Z :=
  match m_blockNumber s with Some n => Ok n | None => Undefined Uninitialised end.
End FakeSealer.

Module FakeTxPoolFacts.
Import ThreadPool ThreadPoolFacts FakeTxPool.

Section Facts.
Context {C : Type}.
Implicit Types (t : FakeTxPool C).

(** The callbacks that have been called are those of the functions that have returned; the
    result has been tested only while a function is being executed. *)
Record txSound t : Prop := mkTxSound
  { tx_pool : rtc step (newPool (list_byte_of_string "txpool") 1) (m_worker t)
  ; tx_calls : map (fun c => c.1.1) (calls t) = finished (m_worker t)
  ; tx_errors : Forall (fun c => c.1.2 = None \/ c.1.2 = Some TransactionsMissing) (calls t)
  ; tx_tested : is_Some (tested t) -> exists f, _workers (m_worker t) = [Executing f] }.

Lemma txSound_thread t t' : txSound t -> threadStep t = Some t' -> txSound t'.
Proof.
  intros [Hr Hc He Ht] Hs. pose proof (size_reachable _ _ _ Hr) as Hlen. unfold threadStep in Hs.
  destruct (_workers (m_worker t)) as [| w [|]] eqn:Ew; try done.
  assert (forall p, workerStep 0 (m_worker t) = Some p ->
    rtc step (newPool (list_byte_of_string "txpool") 1) p) as Hstep.
  { intros p Hp. eapply rtc_r; [done | by eapply Works]. }
  assert (workerStep 0 (m_worker t) = workerStep 0 (m_worker t)) as Hw by done.
  unfold workerStep at 2 in Hw. rewrite Ew in Hw. cbn in Hw.
  destruct w as [| f |]; [| destruct (tested t) as [b |] eqn:Et |].
  - destruct (workerStep 0 (m_worker t)) as [p |] eqn:E; [| done]. injection Hs as <-.
    split; cbn; [by apply Hstep | | done |].
    + destruct (stopped (m_worker t)); [by injection Hw as -> |].
      destruct (queue (m_worker t)); [done | by injection Hw as ->].
    + intros Hx. destruct (Ht Hx) as [? ?]. done.
  - destruct (workerStep 0 (m_worker t)) as [p |] eqn:E; [| done]. injection Hs as <-.
    injection Hw as Ep. split; cbn; [by apply Hstep | | |].
    + rewrite map_app, Hc, Ep. done.
    + apply Forall_app. split; [done |]. apply Forall_singleton. destruct b; [by left | by right].
    + intros [? ?]. done.
  - injection Hs as <-. split; cbn; try done. intros _. by exists f.
  - rewrite Hw in Hs. done.
Qed.

(** Every callback of [asyncVerifyBlock] is called at most once and in the order of the
    calls, without an error or with the one of missing transactions. *)
Theorem verify_callbacks t (Hrun : rtc txStep newTxPool t) :
  (exists rest, enqueued (m_worker t) = map (fun c => c.1.1) (calls t) ++ rest) /\
  Forall (fun c => c.1.2 = None \/ c.1.2 = Some TransactionsMissing) (calls t).
Proof.
  assert (txSound t) as [Hr Hc He _].
  { revert Hrun. apply rtc_invariant.
    - intros a b Ha Hab. destruct Hab as [a f | a b | a b Hs]; [| | by eapply txSound_thread];
        destruct Ha; split; try done. eapply rtc_r; [done | apply Enqueues].
    - by split; [apply rtc_refl | | constructor | intros [? ?]]. }
  split; [| done]. exists (running (m_worker t) ++ queue (m_worker t)).
  destruct (sound_reachable _ _ _ Hr) as [Ho _ H1 _].
  by rewrite Hc, app_assoc, H1, Ho by (by rewrite (size_reachable _ _ _ Hr)).
Qed.
End Facts.

(** A callback can be told that there is no error and that the block is not valid: the
    result is set between the two reads. *)
Lemma verify_result_torn :
  exists t : FakeTxPool nat, rtc txStep newTxPool t /\ calls t = [(7%nat, None, false)].
Proof.
  eexists. split.
  - eapply rtc_l; [apply (Verifies _ 7%nat) |]. eapply rtc_l; [by apply Threads |].
    eapply rtc_l; [by apply Threads |]. eapply rtc_l; [apply (Sets _ false) |].
    apply rtc_once. by apply Threads.
  - done.
Qed.
End FakeTxPoolFacts.

Module PoolsWitnesses.
Import ThreadPool ThreadPoolFacts FakeTxPool FakeTxPoolFacts.

(** A pool with two threads and three functions, the first of which has been taken. *)
Definition threePosted : ThreadPool nat := enqueue 3%nat (enqueue 2%nat (enqueue 1%nat (newPool [] 2))).
Definition oneTaken : ThreadPool nat := default threePosted (workerStep 1 threePosted).
Definition stoppedPool : ThreadPool nat :=
  default threePosted (workerStep 0 (stopService (newPool [] 1))).

Lemma oneTaken_reachable : rtc step (newPool [] 2) oneTaken.
Proof.
  do 3 (eapply rtc_l; [apply Enqueues |]). apply rtc_once. by apply (Works _ 1).
Qed.
Lemma stoppedPool_reachable : rtc step (newPool [] 1) stoppedPool.
Proof. eapply rtc_l; [apply Stops |]. apply rtc_once. by apply (Works _ 0). Qed.



Lemma stop_is_final_witness :
  running stoppedPool = [] /\ started (enqueue 4%nat stoppedPool) = started stoppedPool /\
  finished (enqueue 4%nat stoppedPool) = finished stoppedPool /\
  stopReturns false (enqueue 4%nat stoppedPool) = true.
Proof.
  apply (stop_is_final [] 1 stoppedPool (enqueue 4%nat stoppedPool) stoppedPool_reachable);
    [reflexivity | apply rtc_once, Enqueues].
Defined.

Lemma verify_callbacks_witness :
  (exists rest, enqueued (m_worker (asyncVerifyBlock 7%nat newTxPool)) =
     map (fun c : nat * option Z * bool => c.1.1) (calls (asyncVerifyBlock 7%nat newTxPool)) ++ rest) /\
  Forall (fun c : nat * option Z * bool => c.1.2 = None \/ c.1.2 = Some TransactionsMissing)
    (calls (asyncVerifyBlock 7%nat newTxPool)).
Proof. apply verify_callbacks. apply rtc_once, Verifies. Defined.
End PoolsWitnesses.
