(* ===== verification/ConcurrentQueue.v ===== *)
(** * The blocking queue

    Model of libutilities/ConcurrentQueue.h: threads that push, pop and try to pop
    over one queue, a mutex and a condition variable.  A section that holds the
    mutex is one event, and so are a notification, a wake-up without one, and the
    end of a timed wait; every interleaving of the events is considered. *)

From Stdlib Require Import ZArith Lia List.
From stdpp Require Import base tactics decidable list option relations.
From S2P Require Import Prelude.

Module ConcurrentQueue.

Section Queue.
Context {A : Type}.

(** Where a call is. *)
Inductive call : Type :=
| Pushing (elem : A)        (** [push], before the mutex *)
| Notifying                 (** [push], before [notify_one] *)
| Entering (timed : bool)   (** [pop] or [tryPop], before the mutex *)
| Waiting (timed : bool)    (** on the condition variable *)
| Awake (timed : bool)      (** woken, before the mutex *)
| Expired                   (** [tryPop], its time over, before the mutex *)
| Pushed
| Popped (item : A)
| Missed                    (** [tryPop] without an element *).

(** The queue and the calls, with what was pushed and popped so far. *)
Record State : Type := mkState
  { m_queue : list A
  ; calls : list call
  ; pushes : list A
  ; pops : list A }.

Inductive event : Type :=
| Run (i : nat)              (** the call goes on *)
| Notify (i j : nat)         (** its notification reaches a waiting call *)
| Spurious (j : nat)         (** a waiting call wakes by itself *)
| Timeout (j : nat).

Definition start (cs : list call) : State := mkState [] cs [] [].

(** A call of the public interface that has not started. *)
Definition fresh (c : call) : bool :=
  match c with Pushing _ | Entering _ => true | _ => false end.

Definition isWaiting (c : call) : bool := match c with Waiting _ => true | _ => false end.

Definition goto (i : nat) (c : call) (s : State) : State :=
  mkState (m_queue s) (<[i := c]> (calls s)) (pushes s) (pops s).

(** The section of [push]. *)
Definition push (elem : A) (s : State) : State :=
  mkState (m_queue s ++ [elem]) (calls s) (pushes s ++ [elem]) (pops s).

Definition empty (s : State) : bool := match m_queue s with [] => true | _ => false end.

(** The predicate of the waits, and the rest of [pop] and [tryPop] when it holds. *)
Definition take (i : nat) (otherwise : call) (s : State) : State :=
  match m_queue s with
  | item :: queue => goto i (Popped item) (mkState queue (calls s) (pushes s) (pops s ++ [item]))
  | [] => goto i otherwise s
  end.

Definition pop (i : nat) : State -> State := take i (Waiting false).
Definition tryPop (i : nat) : State -> State := take i (Waiting true).

Definition next (e : event) (s : State) : option State :=
  match e with
  | Run i =>
      match calls s !! i with
      | Some (Pushing elem) => Some (goto i Notifying (push elem s))
      | Some Notifying => if existsb isWaiting (calls s) then None else Some (goto i Pushed s)
      | Some (Entering timed) | Some (Awake timed) => Some (if timed then tryPop i s else pop i s)
      | Some Expired => Some (take i Missed s)
      | _ => None
      end
  | Notify i j =>
      match calls s !! i, calls s !! j with
      | Some Notifying, Some (Waiting timed) => Some (goto j (Awake timed) (goto i Pushed s))
      | _, _ => None
      end
  | Spurious j =>
      match calls s !! j with Some (Waiting timed) => Some (goto j (Awake timed) s) | _ => None end
  | Timeout j =>
      match calls s !! j with Some (Waiting true) => Some (goto j Expired s) | _ => None end
  end.

Fixpoint run (es : list event) (s : State) : option State :=
  match es with
  | [] => Some s
  | e :: es => s' ← next e s; run es s'
  end.

Definition step (s s' : State) : Prop := exists e, next e s = Some s'.

(** A step that is not a wake-up without cause. *)
Definition caused (e : event) : bool := match e with Spurious _ => false | _ => true end.
Definition progress (s s' : State) : Prop := exists e, caused e = true /\ next e s = Some s'.
End Queue.
Arguments call : clear implicits.
Arguments State : clear implicits.
End ConcurrentQueue.

(* ------------------------------------------------------------------ *)
(** ** Properties *)

Module ConcurrentQueueFacts.
Import ConcurrentQueue.

Section Facts.
Context {A : Type}.
Implicit Types (c : call A) (s : State A).

(** *** Counting calls *)

Abbreviation total := (sum_list_with (A := call A)).

Lemma total_insert (f : call A -> nat) (cs : list (call A)) (i : nat) (c c' : call A) :
  cs !! i = Some c -> (total f (<[i := c']> cs) + f c = total f cs + f c')%nat.
Proof.
  revert i. induction cs as [| x cs IH]; intros [| i] Hi; simpl in *; [done.. | |].
  - injection Hi as ->. lia.
  - specialize (IH i Hi). lia.
Qed.

Definition waits c : nat := if isWaiting c then 1 else 0.
(** Calls that will look at the queue for a waiting one, or have one look. *)
Definition alert c : nat := match c with Notifying | Awake _ => 1 | _ => 0 end.
(** Steps a call may still take. *)
Definition weight c : nat :=
  match c with
  | Pushing _ | Entering _ | Awake _ => 3
  | Notifying | Waiting _ => 2
  | Expired => 1
  | Pushed | Popped _ | Missed => 0
  end.

Lemma no_waits (cs : list (call A)) : existsb isWaiting cs = false -> total waits cs = 0%nat.
Proof.
  unfold waits. induction cs as [| c cs IH]; [done |]. cbn. intros [Hc Hcs]%orb_false_iff.
  rewrite Hc, IH; done.
Qed.

(** *** Invariant *)

(** What was popped and what is queued is what was pushed, in order; and while a
    call waits, each element has a call that is alert to it. *)
Record Inv s : Prop := mkInv
  { inv_order : pops s ++ m_queue s = pushes s
  ; inv_alert : (0 < total waits (calls s) -> length (m_queue s) <= total alert (calls s))%nat }.

Lemma take_order i c s : pops (take i c s) ++ m_queue (take i c s) = pops s ++ m_queue s.
Proof. unfold take. destruct (m_queue s) eqn:E; cbn; rewrite ?E, <- ?app_assoc; done. Qed.

Lemma take_pushes i c s : pushes (take i c s) = pushes s.
Proof. unfold take. by destruct (m_queue s). Qed.

Lemma take_inv i c otherwise s :
  Inv s -> calls s !! i = Some c -> waits c = 0%nat -> waits otherwise = 0%nat \/ otherwise = Waiting false \/ otherwise = Waiting true ->
  Inv (take i otherwise s).
Proof.
  intros [Ho Ha] Hc Hw Hd. split; [by rewrite take_order, take_pushes |].
  unfold take. destruct (m_queue s) as [| x q] eqn:Hq; cbn [m_queue calls goto].
  - rewrite Hq. cbn. lia.
  - pose proof (total_insert waits (calls s) i c (Popped x) Hc) as H1.
    pose proof (total_insert alert (calls s) i c (Popped x) Hc) as H2.
    cbn in H1, H2, Ha. rewrite Hw in H1. destruct c; cbn in *; lia.
Qed.

Lemma step_inv s s' : Inv s -> step s s' -> Inv s'.
Proof.
  intros Hi [[i | i j | j | j] He]; cbn in He; pose proof Hi as [Ho Ha].
  - destruct (calls s !! i) as [[x | | [] | | [] | | | |] |] eqn:Hc; try done; try injection He as <-;
      try (eapply take_inv; eauto; fail).
    + split; cbn; [by rewrite <- Ho, app_assoc |].
      pose proof (total_insert waits (calls s) i _ Notifying Hc). pose proof (total_insert alert (calls s) i _ Notifying Hc).
      rewrite length_app. cbn in *. lia.
    + destruct (existsb isWaiting (calls s)) eqn:Hw; [done |]. injection He as <-. apply no_waits in Hw.
      split; [done |]. cbn. pose proof (total_insert waits (calls s) i _ Pushed Hc). cbn in *. lia.
  - destruct (calls s !! i) as [[] |] eqn:Hc; try done. destruct (calls s !! j) as [[] |] eqn:Hj; try done.
    injection He as <-. split; [done |]. cbn.
    assert (i <> j) by congruence. rewrite <- (list_lookup_insert_ne _ i _ Pushed) in Hj by done.
    pose proof (total_insert waits (calls s) i _ Pushed Hc). pose proof (total_insert alert (calls s) i _ Pushed Hc).
    pose proof (total_insert waits _ j _ (Awake timed) Hj). pose proof (total_insert alert _ j _ (Awake timed) Hj).
    cbn in *. lia.
  - destruct (calls s !! j) as [[] |] eqn:Hj; try done. injection He as <-. split; [done |]. cbn.
    pose proof (total_insert waits _ j _ (Awake timed) Hj). pose proof (total_insert alert _ j _ (Awake timed) Hj).
    cbn in *. lia.
  - destruct (calls s !! j) as [[ | | | [] | | | | |] |] eqn:Hj; try done. injection He as <-. split; [done |]. cbn.
    pose proof (total_insert waits _ j _ Expired Hj). pose proof (total_insert alert _ j _ Expired Hj).
    cbn in *. lia.
Qed.

Lemma start_inv (cs : list (call A)) : Inv (start cs).
Proof. split; [done |]. cbn. lia. Qed.

(** *** Elements *)

(** What a call still has to push, and what it returned. *)
Definition pending c : option A := match c with Pushing x => Some x | _ => None end.
Definition returned c : option A := match c with Popped x => Some x | _ => None end.

Lemma omap_insert (f : call A -> option A) (cs : list (call A)) (i : nat) c c' :
  cs !! i = Some c ->
  option_list (f c) ++ omap f (<[i := c']> cs) ≡ₚ option_list (f c') ++ omap f cs.
Proof.
  revert i. induction cs as [| x cs IH]; intros [| i] Hi; simpl in *; [done.. | |].
  - injection Hi as ->. destruct (f c), (f c'); simpl; done || apply Permutation_swap.
  - specialize (IH i Hi). destruct (f x); [| done]. simpl.
    by rewrite <- !Permutation_middle, IH.
Qed.

(** Each element is with its pusher, or was pushed; what was popped was returned. *)
Definition accounts (cs : list (call A)) s : Prop :=
  pushes s ++ omap pending (calls s) ≡ₚ omap pending cs /\ omap returned (calls s) ≡ₚ pops s.

(** A call moves on without pushing or popping. *)
Lemma goto_accounts (cs : list (call A)) i c c' s :
  accounts cs s -> calls s !! i = Some c ->
  pending c = None -> pending c' = None -> returned c = None -> returned c' = None ->
  accounts cs (goto i c' s).
Proof.
  intros [Hp Hr] Hc E1 E2 E3 E4. unfold accounts, goto. cbn [calls pushes pops].
  pose proof (omap_insert pending _ i c c' Hc) as Hp'. pose proof (omap_insert returned _ i c c' Hc) as Hr'.
  rewrite E1, E2 in Hp'. rewrite E3, E4 in Hr'. cbn in Hp', Hr'. by rewrite Hp', Hr'.
Qed.

Lemma take_accounts (cs : list (call A)) i c otherwise s :
  accounts cs s -> calls s !! i = Some c -> pending c = None -> returned c = None ->
  pending otherwise = None -> returned otherwise = None -> accounts cs (take i otherwise s).
Proof.
  intros Ha Hc E1 E2 E3 E4. unfold take. destruct (m_queue s) as [| x q]; [by eapply goto_accounts |].
  destruct Ha as [Hp Hr]. unfold accounts, goto. cbn [calls pushes pops].
  pose proof (omap_insert pending _ i c (Popped x) Hc) as Hp'.
  pose proof (omap_insert returned _ i c (Popped x) Hc) as Hr'. rewrite E1 in Hp'. rewrite E2 in Hr'.
  cbn in Hp', Hr'. by rewrite Hp', Hr', Hr, Permutation_cons_append.
Qed.

Lemma step_accounts (cs : list (call A)) s s' : accounts cs s -> step s s' -> accounts cs s'.
Proof.
  intros Ha [[i | i j | j | j] He]; cbn in He.
  - destruct (calls s !! i) as [[x | | [] | | [] | | | |] |] eqn:Hc; try done; try injection He as <-;
      try (eapply take_accounts; eauto; fail).
    + destruct Ha as [Hp Hr]. unfold accounts. cbn.
      pose proof (omap_insert pending _ i _ Notifying Hc) as Hp'. pose proof (omap_insert returned _ i _ Notifying Hc) as Hr'.
      cbn in Hp', Hr'. rewrite Hr', <- Hp, <- Hp'. split; [| done]. by rewrite <- app_assoc.
    + destruct (existsb isWaiting (calls s)); [done |]. injection He as <-. by eapply goto_accounts.
  - destruct (calls s !! i) as [[] |] eqn:Hc; try done. destruct (calls s !! j) as [[] |] eqn:Hj; try done.
    injection He as <-. assert (i <> j) by congruence.
    apply (goto_accounts _ _ (Waiting timed)); [by eapply goto_accounts | | done..].
    cbn. by rewrite list_lookup_insert_ne.
  - destruct (calls s !! j) as [[] |] eqn:Hj; try done. injection He as <-. by eapply goto_accounts.
  - destruct (calls s !! j) as [[ | | | [] | | | | |] |] eqn:Hj; try done. injection He as <-. by eapply goto_accounts.
Qed.

Lemma start_accounts (cs : list (call A)) : forallb fresh cs = true -> accounts cs (start cs).
Proof.
  intros Hf. split; [done |]. cbn. induction cs as [| c cs IH]; [done |]. cbn in *.
  apply andb_true_iff in Hf as [Hc Hf]. destruct c; try done; by apply IH.
Qed.

(** *** Progress *)

Lemma take_weight i c otherwise s :
  calls s !! i = Some c -> (weight otherwise < weight c)%nat ->
  (total weight (calls (take i otherwise s)) < total weight (calls s))%nat.
Proof.
  intros Hc Hw. unfold take. destruct (m_queue s) as [| x q]; cbn.
  - pose proof (total_insert weight _ i c otherwise Hc). lia.
  - pose proof (total_insert weight _ i c (Popped x) Hc). cbn in *. lia.
Qed.

Lemma progress_weight s s' : progress s s' -> (total weight (calls s') < total weight (calls s))%nat.
Proof.
  intros ([i | i j | j | j] & Hcaused & He); cbn in He; [| | done |].
  - destruct (calls s !! i) as [[x | | [] | | [] | | | |] |] eqn:Hc; try done; try injection He as <-;
      try (eapply take_weight; eauto; cbn; lia; fail).
    + cbn. pose proof (total_insert weight _ i _ Notifying Hc). cbn in *. lia.
    + destruct (existsb isWaiting (calls s)); [done |]. injection He as <-. cbn.
      pose proof (total_insert weight _ i _ Pushed Hc). cbn in *. lia.
  - destruct (calls s !! i) as [[] |] eqn:Hc; try done. destruct (calls s !! j) as [[] |] eqn:Hj; try done.
    injection He as <-. assert (i <> j) by congruence. cbn.
    rewrite <- (list_lookup_insert_ne _ i _ Pushed) in Hj by done.
    pose proof (total_insert weight _ i _ Pushed Hc). pose proof (total_insert weight _ j _ (Awake timed) Hj).
    cbn in *. lia.
  - destruct (calls s !! j) as [[ | | | [] | | | | |] |] eqn:Hj; try done. injection He as <-. cbn.
    pose proof (total_insert weight _ j _ Expired Hj). cbn in *. lia.
Qed.

Lemma run_progress (es : list event) s s' :
  Forall (fun e => caused e = true) es -> run es s = Some s' ->
  rtc step s s' /\ (length es + total weight (calls s') <= total weight (calls s))%nat.
Proof.
  intros Hes. revert s. induction Hes as [| e es He _ IH]; intros s Hr; cbn in Hr.
  - injection Hr as <-. split; [done |]. cbn. lia.
  - destruct (next e s) as [s1 |] eqn:Hn; [| done]. cbn in Hr. destruct (IH s1 Hr) as [Hs Hl].
    assert (progress s s1) as Hp%progress_weight by (by exists e).
    split; [eapply rtc_l; [by exists e | done] |]. cbn. lia.
Qed.

Lemma fresh_weight (cs : list (call A)) :
  forallb fresh cs = true -> total weight cs = (3 * length cs)%nat.
Proof.
  induction cs as [| c cs IH]; [done |]. cbn. intros [Hc Hcs]%andb_true_iff. rewrite IH by done.
  destruct c; try done; cbn; lia.
Qed.

(** A call that has returned, or waits for an element without a time limit. *)
Definition settled c : Prop :=
  match c with Pushed | Popped _ | Missed | Waiting false => True | _ => False end.

Lemma stuck_settled s :
  (forall e, caused e = true -> next e s = None) -> forall i c, calls s !! i = Some c -> settled c.
Proof.
  intros Hs i c Hc. pose proof (Hs (Run i) eq_refl) as Hr. pose proof (Hs (Timeout i) eq_refl) as Ht.
  cbn in Hr, Ht. rewrite Hc in Hr, Ht. destruct c as [| | | [] | | | | |]; try done.
  destruct (existsb isWaiting (calls s)) eqn:Hw; [| done].
  apply existsb_exists in Hw as (w & Hw & Hwt). apply list_elem_of_In, list_elem_of_lookup in Hw as [j Hj].
  pose proof (Hs (Notify i j) eq_refl) as Hn. cbn in Hn. rewrite Hc, Hj in Hn. by destruct w.
Qed.

Lemma settled_alert (cs : list (call A)) : Forall settled cs -> total alert cs = 0%nat.
Proof. induction 1 as [| c cs Hc _ IH]; [done |]. cbn. rewrite IH. by destruct c. Qed.

Lemma waiting_total (cs : list (call A)) (i : nat) (b : bool) :
  cs !! i = Some (Waiting b) -> (0 < total waits cs)%nat.
Proof. intros Hi. pose proof (total_insert waits cs i _ Pushed Hi). cbn in *. lia. Qed.
End Facts.

(** C21. The queue is first in, first out, and neither loses an element nor delivers one
    twice, whatever the interleaving: the elements popped, followed by those still
    queued, are those pushed in the order of the pushes; the calls returned exactly
    the elements popped, and an element not pushed yet is still with its call. *)
Theorem queue_delivers {A : Type} (cs : list (call A)) (s : State A)
    (Hfresh : forallb fresh cs = true) (Hrun : rtc step (start cs) s) :
  pops s ++ m_queue s = pushes s /\ omap returned (calls s) ≡ₚ pops s /\
  pushes s ++ omap pending (calls s) ≡ₚ omap pending cs.
Proof.
  assert (Inv s /\ accounts cs s) as [[Ho _] [Hp Hr]]; [| done].
  apply (rtc_invariant step (fun s => Inv s /\ accounts cs s) (start cs)); [| | done].
  - intros x y [Hi Ha] Hstep. split; eauto using step_inv, step_accounts.
  - split; [apply start_inv | by apply start_accounts].
Qed.

(** C22. No wake-up is lost: runs without spurious wake-ups end after at most three steps
    for each call, and where they end every push and every timed pop has returned,
    and a pop waits only with the queue empty, everything pushed being popped. *)
Theorem queue_completes {A : Type} (cs : list (call A)) (es : list event) (s : State A)
    (Hfresh : forallb fresh cs = true) (Hes : Forall (fun e => caused e = true) es)
    (Hrun : run es (start cs) = Some s) :
  (length es <= 3 * length cs)%nat /\
  ((forall e, caused e = true -> next e s = None) ->
   Forall settled (calls s) /\
   (forall i, calls s !! i = Some (Waiting false) -> empty s = true /\ pops s = pushes s)).
Proof.
  destruct (run_progress es (start cs) s Hes Hrun) as [Hr Hl]. cbn [start calls] in Hl.
  rewrite (fresh_weight cs) in Hl by done. split; [lia |]. intros Hs.
  assert (Forall settled (calls s)) as Hset by (apply Forall_lookup; by apply stuck_settled).
  split; [done |]. intros i Hi. assert (Inv s) as [Ho Ha]
    by (eapply (rtc_invariant step Inv (start cs)); [apply step_inv | apply start_inv | done]).
  specialize (Ha (waiting_total _ _ _ Hi)). rewrite settled_alert in Ha by done.
  unfold empty. destruct (m_queue s); [| cbn in Ha; lia]. by rewrite app_nil_r in Ho.
Qed.
End ConcurrentQueueFacts.

Module ConcurrentQueueWitnesses.
Import ConcurrentQueue ConcurrentQueueFacts.

(** A pop that waits before the push; then another pop takes the element first. *)
Definition sampleCalls : list (call nat) := [Entering false; Pushing 7%nat; Entering true; Pushing 8%nat].
Definition sampleEvents : list event :=
  [Run 0; Run 1; Run 2; Notify 1 0; Run 0; Run 3; Notify 3 0; Run 0]%nat.
Definition sampleEnd : State nat := from_option id (start []) (run sampleEvents (start sampleCalls)).

Lemma sample_run : rtc step (start sampleCalls) sampleEnd.
Proof. apply (run_progress sampleEvents); [by repeat constructor | vm_compute; reflexivity]. Qed.

Lemma queue_delivers_witness :
  pops sampleEnd = [7; 8]%nat /\ m_queue sampleEnd = [] /\
  pops sampleEnd ++ m_queue sampleEnd = pushes sampleEnd.
Proof.
  split; [vm_compute; reflexivity |]. split; [vm_compute; reflexivity |].
  apply (queue_delivers sampleCalls sampleEnd); [reflexivity | apply sample_run].
Defined.

Lemma queue_completes_witness : (length sampleEvents <= 3 * length sampleCalls)%nat.
Proof.
  apply (queue_completes sampleCalls sampleEvents sampleEnd);
    [reflexivity | by repeat constructor | vm_compute; reflexivity].
Defined.
End ConcurrentQueueWitnesses.
