(* ===== verification/Worker.v ===== *)
(** * Worker threads

    Model of libutilities/Worker.{h,cpp}: a thread that runs the virtual methods
    of a worker, and the threads that start, stop and terminate it.  Every write
    of [m_workerState] happens under the mutex [x_work], so a section that holds
    it is one step; the reads without it ([while] conditions of the worker
    thread) are steps of their own, and the waits on the condition variable, with
    their time-outs, are polls of their condition.

    The worker has finitely many states once the number of its users is fixed;
    the properties quantify over every interleaving, and are decided by exploring
    a set of states closed under the steps. *)

From Stdlib Require Import ZArith Lia List.
From Stdlib Require Import Strings.String Strings.Byte.
From stdpp Require Import base tactics decidable list option relations finite.
From S2P Require Import Prelude.

Module Worker.

Inductive WorkerState : Type := Starting | Started | Stopping | Stopped | Killing.

(** Where the worker thread is in the lambda of [startWorking]. *)
Inductive position : Type :=
| AtTop      (** [while (m_workerState != Killing)] *)
| AtStart    (** about to set [Started] *)
| AtInit     (** [initWorker()] *)
| AtLoop     (** the condition of [workerProcessLoop] *)
| AtExec     (** [executeWorker()] *)
| AtFinish   (** [finishWorker()] *)
| AtStop     (** about to set [Stopped] *)
| AtWait     (** waiting while the state is [Stopped] *)
| Exited.

#[export] Instance state_eq_dec : EqDecision WorkerState.
Proof. solve_decision. Defined.
#[export] Instance position_eq_dec : EqDecision position.
Proof. solve_decision. Defined.

(** The members the threads share: the state, whether [m_workerThread] is set,
    and the thread itself. *)
Record Shared : Type := mkShared
  { m_workerState : WorkerState
  ; m_workerThread : bool
  ; thread : position }.

#[export] Instance shared_eq_dec : EqDecision Shared.
Proof. solve_decision. Defined.

Definition newWorker : Shared := mkShared Starting false Exited.

(** [isWorking] and [shouldStop]. *)
Definition isWorking (s : Shared) : bool := bool_decide (m_workerState s = Started).
Definition shouldStop (s : Shared) : bool := negb (isWorking s).

(** [setName]: not while it works. *)
Definition setName (name : bytes) (s : Shared) (m_threadName : bytes) : bytes :=
  if negb (isWorking s) then name else m_threadName.

(** One step of the worker thread; [throws] tells whether the virtual method it
    is in ends with an exception. *)
Definition threadStep (throws : bool) (s : Shared) : Shared :=
  let st := m_workerState s in
  let at_ := mkShared st (m_workerThread s) in
  match thread s with
  | AtTop => at_ (if bool_decide (st = Killing) then Exited else AtStart)
  | AtStart => mkShared Started (m_workerThread s) AtInit
  | AtInit => at_ (if throws then AtStop else AtLoop)
  | AtLoop => at_ (if bool_decide (st = Started) then AtExec else AtFinish)
  | AtExec => at_ (if throws then AtStop else AtLoop)
  | AtFinish => at_ AtStop
  | AtStop =>
      let ex := st in
      mkShared (match ex with Killing | Starting => ex | _ => Stopped end) (m_workerThread s) AtWait
  | AtWait => at_ (if bool_decide (st = Stopped) then AtWait else AtTop)
  | Exited => s
  end.

(** *** The threads that use the worker *)

Inductive method : Type := StartWorking | StopWorking | Terminate.

#[export] Instance method_eq_dec : EqDecision method.
Proof. solve_decision. Defined.

(** Outside of the worker, with the call that returned last, or in a call. *)
Inductive user : Type :=
| Returned (last : option method)
| StartWait   (** waiting while the state is [Starting] *)
| StopWait    (** waiting until the state is [Stopped] *)
| Joining     (** in [m_workerThread->join()] *)
| Resetting.  (** about to reset [m_workerThread] *)

#[export] Instance user_eq_dec : EqDecision user.
Proof. solve_decision. Defined.

Definition startWait (s : Shared) : user :=
  if bool_decide (m_workerState s = Starting) then StartWait else Returned (Some StartWorking).

(** [startWorking] up to its wait; a new thread begins at the top of its loop. *)
Definition startWorking (s : Shared) : Shared * user :=
  let s' :=
    if m_workerThread s then
      mkShared (if bool_decide (m_workerState s = Stopped) then Starting else m_workerState s)
        true (thread s)
    else mkShared Starting true AtTop in
  (s', startWait s').

Definition stopWait (s : Shared) : user :=
  if bool_decide (m_workerState s = Stopped) then Returned (Some StopWorking) else StopWait.

Definition stopWorking (s : Shared) : Shared * user :=
  if m_workerThread s then
    if bool_decide (m_workerState s = Started) then
      let s' := mkShared Stopping true (thread s) in (s', stopWait s')
    else (s, Returned (Some StopWorking))
  else (s, Returned (Some StopWorking)).

Definition terminate (s : Shared) : Shared * user :=
  if m_workerThread s then
    if bool_decide (m_workerState s = Killing) then (s, Returned (Some Terminate))
    else (mkShared Killing true (thread s), Joining)
  else (s, Returned (Some Terminate)).

Definition call (m : method) : Shared -> Shared * user :=
  match m with
  | StartWorking => startWorking
  | StopWorking => stopWorking
  | Terminate => terminate
  end.

(** The next step of a thread inside a call. *)
Definition resume (s : Shared) (u : user) : Shared * user :=
  match u with
  | StartWait => (s, startWait s)
  | StopWait => (s, stopWait s)
  | Joining => (s, if bool_decide (thread s = Exited) then Resetting else Joining)
  | Resetting => (mkShared (m_workerState s) false (thread s), Returned (Some Terminate))
  | Returned last => (s, Returned last)
  end.

Record World : Type := mkWorld { shared : Shared; users : list user }.

#[export] Instance world_eq_dec : EqDecision World.
Proof. solve_decision. Defined.

Definition newWorld (n : nat) : World := mkWorld newWorker (replicate n (Returned None)).

(** A step of the worker thread or of a call that goes on. *)
Inductive continue : World -> World -> Prop :=
| ThreadSteps w throws : continue w (mkWorld (threadStep throws (shared w)) (users w))
| UserResumes w i u :
    users w !! i = Some u ->
    continue w (mkWorld (resume (shared w) u).1 (<[i := (resume (shared w) u).2]> (users w))).

(** Or a new call. *)
Inductive step : World -> World -> Prop :=
| Continues w w' : continue w w' -> step w w'
| UserCalls w i last m :
    users w !! i = Some (Returned last) ->
    step w (mkWorld (call m (shared w)).1 (<[i := (call m (shared w)).2]> (users w))).

Definition reachable (n : nat) (w : World) : Prop := rtc step (newWorld n) w.
End Worker.

(* ------------------------------------------------------------------ *)
(** ** Exploring finite systems *)

Section Explore.
Context {A : Type} `{EqDecision A} (next : A -> list A).

Definition memb (x : A) (l : list A) : bool := existsb (fun y => bool_decide (x = y)) l.

(** Breadth-first search with at most [fuel] rounds. *)
Fixpoint explore (fuel : nat) (seen frontier : list A) : list A :=
  match fuel with
  | O => seen
  | S fuel =>
      let new := foldr (fun x acc => if memb x seen || memb x acc then acc else x :: acc) []
                   (concat (map next frontier)) in
      match new with
      | [] => seen
      | _ => explore fuel (seen ++ new) new
      end
  end.

Definition closedb (l : list A) : bool := forallb (fun x => forallb (fun y => memb y l) (next x)) l.

Lemma memb_elem (x : A) (l : list A) : memb x l = true <-> x ∈ l.
Proof.
  unfold memb. rewrite existsb_exists. split.
  - intros (y & Hy & Hxy). apply bool_decide_eq_true in Hxy as ->. by apply list_elem_of_In.
  - intros Hx. exists x. split; [by apply list_elem_of_In | by apply bool_decide_eq_true].
Qed.

(** A property that a closed set of states has holds in every reachable one. *)
Lemma closed_invariant (R : A -> A -> Prop) (l : list A) (P : A -> bool) (x y : A) :
  (forall a b, R a b -> b ∈ next a) ->
  memb x l && closedb l && forallb P l = true -> rtc R x y -> P y = true.
Proof.
  intros HR Hl. apply andb_true_iff in Hl as [Hl HP]. apply andb_true_iff in Hl as [Hx Hc].
  assert (rtc R x y -> y ∈ l) as Hin.
  { apply memb_elem in Hx. intros Hr. induction Hr as [| a b c Hab _ IH]; [done |].
    apply IH. apply memb_elem. unfold closedb in Hc. rewrite forallb_forall in Hc.
    assert (In a l) as Ha by (by apply list_elem_of_In). apply Hc in Ha.
    rewrite forallb_forall in Ha. apply Ha, list_elem_of_In, HR, Hab. }
  intros Hr. rewrite forallb_forall in HP. apply HP, list_elem_of_In, Hin, Hr.
Qed.
End Explore.

(* ------------------------------------------------------------------ *)
(** ** Properties *)

Module WorkerFacts.
Import Worker.

(** The successors of a world, as lists. *)
Definition resumed (w : World) (i : nat) : World :=
  match users w !! i with
  | Some u => mkWorld (resume (shared w) u).1 (<[i := (resume (shared w) u).2]> (users w))
  | None => w
  end.

Definition continues (w : World) : list World :=
  map (fun throws => mkWorld (threadStep throws (shared w)) (users w)) [true; false] ++
  map (resumed w) (seq 0 (length (users w))).

Definition called (w : World) (i : nat) : list World :=
  match users w !! i with
  | Some (Returned _) =>
      map (fun m => mkWorld (call m (shared w)).1 (<[i := (call m (shared w)).2]> (users w)))
        [StartWorking; StopWorking; Terminate]
  | _ => []
  end.

Definition steps (w : World) : list World :=
  continues w ++ concat (map (called w) (seq 0 (length (users w)))).

Lemma continue_continues (w w' : World) : continue w w' -> w' ∈ continues w.
Proof.
  intros Hc. apply elem_of_app. destruct Hc as [w throws | w i u Hu].
  - left. destruct throws; set_solver.
  - right. apply list_elem_of_In, in_map_iff. exists i. unfold resumed. rewrite Hu. split; [done |].
    apply in_seq. apply lookup_lt_Some in Hu. lia.
Qed.

Lemma step_steps (w w' : World) : step w w' -> w' ∈ steps w.
Proof.
  intros Hs. apply elem_of_app. destruct Hs as [w w' Hc | w i last m Hu].
  - left. by apply continue_continues.
  - right. apply list_elem_of_In, in_concat. exists (called w i). split.
    + apply in_map, in_seq. apply lookup_lt_Some in Hu. lia.
    + unfold called. rewrite Hu. apply in_map_iff. exists m. split; [done |]. destruct m; simpl; auto.
Qed.

(** The worker thread runs one of the virtual methods. *)
Definition busy (s : Shared) : bool :=
  match thread s with AtInit | AtLoop | AtExec | AtFinish => true | _ => false end.

(** What a returned call promises. *)
Definition promise (w : World) : bool :=
  let s := shared w in
  (m_workerThread s || bool_decide (thread s = Exited)) &&
  forallb (fun u =>
    match u with
    | Returned (Some StartWorking) => m_workerThread s && negb (bool_decide (m_workerState s = Starting))
    | Returned (Some StopWorking) => negb (busy s) && negb (isWorking s)
    | Returned (Some Terminate) => negb (m_workerThread s) && bool_decide (thread s = Exited)
    | Returned None | StartWait | StopWait | Joining | Resetting => true
    end) (users w).

Definition world1 : list World := Eval vm_compute in explore steps 100 [newWorld 1] [newWorld 1].

(** C12. One thread that starts, stops and terminates a worker gets what the calls
    promise, in every interleaving with the worker thread and whatever the
    virtual methods throw: after [startWorking] the thread exists and has started;
    after [stopWorking] no virtual method runs; after [terminate] the thread is
    gone. *)
Theorem worker_calls_keep_promise (w : World) (Hw : reachable 1 w) : promise w = true.
Proof.
  apply (closed_invariant steps step world1 promise (newWorld 1) w step_steps);
    [vm_compute; reflexivity | exact Hw].
Qed.

(** The worker thread left alone, each entry telling whether the method it is in
    throws. *)
Definition runThread (cs : list bool) (s : Shared) : Shared :=
  fold_left (fun s throws => threadStep throws s) cs s.

Fixpoint allChoices (n : nat) : list (list bool) :=
  match n with
  | O => [[]]
  | S n => map (cons true) (allChoices n) ++ map (cons false) (allChoices n)
  end.

Lemma allChoices_complete (cs : list bool) : In cs (allChoices (length cs)).
Proof.
  induction cs as [| c cs IH]; [by left |]. apply in_or_app.
  destruct c; [left | right]; by apply in_map.
Qed.

(** The thread of the call returns: it polls its condition once the worker thread
    has made the given steps, and [terminate] resets the pointer. *)
Definition completes (s : Shared) (u : user) : bool :=
  let '(s1, u1) := resume s u in
  match (resume s1 u1).2 with Returned _ => true | _ => false end.

Definition allComplete (w : World) : bool :=
  forallb (fun cs => forallb (completes (runThread cs (shared w))) (users w)) (allChoices 7).

(** C13. No call of a single user waits for long: seven steps of the worker thread,
    whatever its methods throw, are enough for the call in progress to return. *)
Theorem worker_calls_return (w : World) (u : user) (cs : list bool)
    (Hw : reachable 1 w) (Hu : u ∈ users w) (Hcs : length cs = 7%nat) :
  completes (runThread cs (shared w)) u = true.
Proof.
  assert (allComplete w = true) as Hall.
  { apply (closed_invariant steps step world1 allComplete (newWorld 1) w step_steps);
      [vm_compute; reflexivity | exact Hw]. }
  unfold allComplete in Hall. rewrite forallb_forall in Hall. specialize (Hall cs).
  rewrite <- Hcs in Hall. specialize (Hall (allChoices_complete cs)).
  rewrite forallb_forall in Hall. by apply Hall, list_elem_of_In.
Qed.

(** *** Several users *)

Definition act (w : World) (i : nat) (m : method) : World :=
  mkWorld (call m (shared w)).1 (<[i := (call m (shared w)).2]> (users w)).
Definition thr (w : World) : World := mkWorld (threadStep false (shared w)) (users w).

Lemma act_step w i m last : users w !! i = Some (Returned last) -> step w (act w i m).
Proof. apply UserCalls. Qed.
Lemma thr_step w : step w (thr w).
Proof. apply Continues, (ThreadSteps w false). Qed.
Lemma resumed_step w i : is_Some (users w !! i) -> step w (resumed w i).
Proof. intros [u Hu]. unfold resumed. rewrite Hu. by apply Continues, UserResumes. Qed.

(** [terminate] comes while the new thread is about to report that it has started. *)
Definition lostKill : World := thr (act (thr (act (newWorld 2) 0 StartWorking)) 1 Terminate).
(** The other user, whose [startWorking] has returned, terminates as well. *)
Definition doubleJoin : World := act (resumed lostKill 0) 0 Terminate.
(** [terminate] comes while another thread waits for the worker to stop. *)
Definition started : World :=
  resumed (thr (thr (act (newWorld 2) 0 StartWorking))) 0.
Definition lostStop : World := act (act started 0 StopWorking) 1 Terminate.

Lemma lostKill_reachable : reachable 2 lostKill.
Proof.
  eapply rtc_l; [by apply (act_step _ 0 StartWorking None) |].
  eapply rtc_l; [apply thr_step |]. eapply rtc_l; [by apply (act_step _ 1 Terminate None) |].
  apply rtc_once, thr_step.
Qed.

Lemma doubleJoin_reachable : reachable 2 doubleJoin.
Proof.
  unfold reachable. transitivity lostKill; [exact lostKill_reachable |].
  eapply rtc_l; [by apply (resumed_step _ 0); eexists |].
  by apply rtc_once, (act_step _ 0 Terminate (Some StartWorking)).
Qed.

Lemma lostStop_reachable : reachable 2 lostStop.
Proof.
  eapply rtc_l; [by apply (act_step _ 0 StartWorking None) |].
  eapply rtc_l; [apply thr_step |]. eapply rtc_l; [apply thr_step |].
  eapply rtc_l; [by apply (resumed_step _ 0); eexists |].
  eapply rtc_l; [by apply (act_step _ 0 StopWorking (Some StartWorking)) |].
  by apply rtc_once, (act_step _ 1 Terminate None).
Qed.

Definition stays (i : nat) (u : user) (w : World) : bool := bool_decide (users w !! i = Some u).

(** Users in several threads can hang or worse: a [terminate] that comes while a
    new thread is starting is overwritten, and its caller waits for ever unless
    another call is made; a [stopWorking] overtaken by a [terminate] waits for ever;
    and two threads can end up joining the same thread. *)
Theorem concurrent_calls_hang :
  (exists w, reachable 2 w /\
     forall w', rtc continue w w' -> stays 1 Joining w' = true /\ thread (shared w') ≠ Exited) /\
  (exists w, reachable 2 w /\ forall w', rtc continue w w' -> stays 0 StopWait w' = true) /\
  (exists w, reachable 2 w /\ users w = [Joining; Joining]).
Proof.
  split_and!.
  - exists lostKill. split; [exact lostKill_reachable |]. intros w' Hr.
    assert (stays 1 Joining w' && negb (bool_decide (thread (shared w') = Exited)) = true) as Hs.
    { apply (closed_invariant continues continue (explore continues 50 [lostKill] [lostKill])
        (fun w => stays 1 Joining w && negb (bool_decide (thread (shared w) = Exited))) lostKill w'
        continue_continues); [vm_compute; reflexivity | exact Hr]. }
    apply andb_true_iff in Hs as [Hs Ht]. split; [done |]. by case_bool_decide.
  - exists lostStop. split; [exact lostStop_reachable |]. intros w' Hr.
    apply (closed_invariant continues continue (explore continues 50 [lostStop] [lostStop])
      (stays 0 StopWait) lostStop w' continue_continues); [vm_compute; reflexivity | exact Hr].
  - exists doubleJoin. split; [exact doubleJoin_reachable | vm_compute; reflexivity].
Qed.
End WorkerFacts.

(* ------------------------------------------------------------------ *)
(** ** The hypotheses can be met *)

Module WorkerWitnesses.
Import Worker WorkerFacts.

(** A worker that is being stopped. *)
Definition stopping : World := act (resumed (thr (thr (act (newWorld 1) 0 StartWorking))) 0) 0 StopWorking.

Lemma stopping_reachable : reachable 1 stopping.
Proof.
  eapply rtc_l; [by apply (act_step _ 0 StartWorking None) |].
  eapply rtc_l; [apply thr_step |]. eapply rtc_l; [apply thr_step |].
  eapply rtc_l; [by apply (resumed_step _ 0); eexists |].
  by apply rtc_once, (act_step _ 0 StopWorking (Some StartWorking)).
Qed.

Lemma worker_calls_keep_promise_witness : promise stopping = true.
Proof. apply (worker_calls_keep_promise stopping stopping_reachable). Defined.

Lemma worker_calls_return_witness :
  completes (runThread (replicate 7 false) (shared stopping)) StopWait = true.
Proof.
  apply (worker_calls_return stopping StopWait (replicate 7 false) stopping_reachable);
    [by apply list_elem_of_In; left | done].
Defined.
End WorkerWitnesses.
