(* ===== verification/Timer.v ===== *)
(** * Timers

    Model of libutilities/Timer.{h,cpp}.  The timer of boost::asio is the
    environment, with its documented behaviour: setting an expiry time or
    cancelling takes back the wait in flight, whose handler is then called with
    [operation_aborted]; a wait that has expired has its handler queued, and a
    queued handler can no longer be taken back.  Calls of the timer's methods and
    the handlers that its thread runs are events in any order; the clock is read
    when a timer is started, when a wait expires and when a handler runs. *)

From Stdlib Require Import ZArith Lia List.
From Stdlib Require Import Strings.String Strings.Byte.
From stdpp Require Import base tactics decidable list option.
From S2P Require Import Prelude.

Module Timer.

(** A handler in the queue of the service: whether its wait was aborted, and the
    expiry time of the wait. *)
Record handler : Type := mkHandler { aborted : bool; expiry : Z }.

Record Timer : Type := mkTimer
  { m_timeout : Z
  ; m_running : bool
  ; m_working : bool
  ; m_worker : bool             (** the thread exists *)
  ; m_timeoutHandler : bool     (** a handler is registered *)
  ; waiting : option Z          (** the expiry time of the wait in flight *)
  ; queued : list handler
  ; stopped : bool              (** the service has been stopped *)
  ; runs : list (Z * Z) }.      (** calls of the registered handler: expiry and time *)

Definition newTimer (timeout : Z) : Timer :=
  mkTimer timeout false true true false None [] false [].

(** The wait in flight is taken back. *)
Definition cancelWait (t : Timer) : Timer :=
  mkTimer (m_timeout t) (m_running t) (m_working t) (m_worker t) (m_timeoutHandler t) None
    (match waiting t with Some e => queued t ++ [mkHandler true e] | None => queued t end)
    (stopped t) (runs t).

Definition setRunning (b : bool) (t : Timer) : Timer :=
  mkTimer (m_timeout t) b (m_working t) (m_worker t) (m_timeoutHandler t) (waiting t) (queued t)
    (stopped t) (runs t).
Definition setWaiting (e : Z) (t : Timer) : Timer :=
  mkTimer (m_timeout t) (m_running t) (m_working t) (m_worker t) (m_timeoutHandler t) (Some e)
    (queued t) (stopped t) (runs t).
Definition setTimeout (v : Z) (t : Timer) : Timer :=
  mkTimer v (m_running t) (m_working t) (m_worker t) (m_timeoutHandler t) (waiting t) (queued t)
    (stopped t) (runs t).

Definition adjustTimeout (t : Timer) : Z := m_timeout t.

(** [startTimer]: the milliseconds are a signed number. *)
Definition startTimer (now : Z) (t : Timer) : Timer :=
  if m_running t then t
  else setRunning true (setWaiting (now + swrap 64 (adjustTimeout t)) (cancelWait t)).

Definition start (now : Z) (t : Timer) : Timer :=
  if negb (m_working t) then t else startTimer now t.

Definition stop (t : Timer) : Timer :=
  if negb (m_working t) then t
  else if negb (m_running t) then t
  else cancelWait (setRunning false t).

Definition restart (now : Z) (t : Timer) : Timer :=
  if negb (m_working t) then t else start now (stop t).

Definition reset (now timeout : Z) (t : Timer) : Timer := restart now (setTimeout timeout t).

Definition registerTimeoutHandler (t : Timer) : Timer :=
  mkTimer (m_timeout t) (m_running t) (m_working t) (m_worker t) true (waiting t) (queued t)
    (stopped t) (runs t).

(** [destroy] from a thread that is not the timer's own, which it joins. *)
Definition destroy (t : Timer) : Timer :=
  if negb (m_working t) || negb (m_worker t) then t
  else
    let t := mkTimer (m_timeout t) (m_running t) false (m_worker t) (m_timeoutHandler t) (waiting t)
               (queued t) (stopped t) (runs t) in
    let t := stop t in
    mkTimer (m_timeout t) (m_running t) (m_working t) false (m_timeoutHandler t) (waiting t)
      (queued t) true (runs t).

(** *** What the environment does *)

(** The wait in flight expires, once its time has come. *)
Definition expire (now : Z) (t : Timer) : Timer :=
  match waiting t with
  | Some e =>
      if now <? e then t
      else mkTimer (m_timeout t) (m_running t) (m_working t) (m_worker t) (m_timeoutHandler t) None
             (queued t ++ [mkHandler false e]) (stopped t) (runs t)
  | None => t
  end.

(** The thread runs the first handler of the queue, unless the service is stopped:
    the callback of [startTimer], and [run]. *)
Definition runNext (now : Z) (t : Timer) : Timer :=
  if stopped t then t
  else
    match queued t with
    | [] => t
    | h :: hs =>
        mkTimer (m_timeout t) (m_running t) (m_working t) (m_worker t) (m_timeoutHandler t)
          (waiting t) hs (stopped t)
          (if negb (aborted h) && m_timeoutHandler t then runs t ++ [(expiry h, now)] else runs t)
    end.

Inductive event : Type :=
| Start (now : Z) | Stop | Restart (now : Z) | Reset_ (now timeout : Z) | Register_ | Destroy
| Expire (now : Z) | RunNext (now : Z).

Definition apply (e : event) : Timer -> Timer :=
  match e with
  | Start now => start now
  | Stop => stop
  | Restart now => restart now
  | Reset_ now timeout => reset now timeout
  | Register_ => registerTimeoutHandler
  | Destroy => destroy
  | Expire now => expire now
  | RunNext now => runNext now
  end.

Definition applyAll (es : list event) (t : Timer) : Timer := fold_left (fun t e => apply e t) es t.

(** The clock does not go back. *)
Definition timeOf (e : event) : option Z :=
  match e with
  | Start now | Restart now | Reset_ now _ | Expire now | RunNext now => Some now
  | _ => None
  end.

Fixpoint monotonic (now : Z) (es : list event) : bool :=
  match es with
  | [] => true
  | e :: es =>
      match timeOf e with
      | Some now' => (now <=? now') && monotonic now' es
      | None => monotonic now es
      end
  end.
End Timer.

(* ------------------------------------------------------------------ *)
(** ** Properties *)

Module TimerFacts.
Import Timer.

(** A call that starts the timer anew. *)
Definition starts (e : event) (t : Timer) : bool :=
  match e with
  | Start _ => m_working t && negb (m_running t)
  | Restart _ | Reset_ _ _ => m_working t
  | _ => false
  end.

Fixpoint countStarts (es : list event) (t : Timer) : nat :=
  match es with
  | [] => 0
  | e :: es => (if starts e t then 1 else 0) + countStarts es (apply e t)
  end.

(** The runs that have happened and that can still happen without a new start. *)
Definition live (h : handler) : bool := negb (aborted h).
Definition budget (t : Timer) : nat :=
  (length (runs t) + length (List.filter live (queued t)) +
   match waiting t with Some _ => 1 | None => 0 end)%nat.

Lemma budget_cancel t : (budget (cancelWait t) <= budget t)%nat /\ waiting (cancelWait t) = None.
Proof.
  split; [| done]. unfold budget, cancelWait. cbn. destruct (waiting t); [| lia].
  rewrite List.filter_app, length_app. cbn. lia.
Qed.

Lemma budget_startTimer now t :
  (budget (startTimer now t) <= (if m_running t then 0 else 1) + budget t)%nat.
Proof.
  unfold startTimer. destruct (m_running t); [lia |]. pose proof (budget_cancel t) as [Hb Hw].
  unfold budget in *. rewrite Hw in Hb. cbn in *. lia.
Qed.

Lemma budget_stop t : (budget (stop t) <= budget t)%nat.
Proof.
  unfold stop. destruct (negb (m_working t)), (negb (m_running t)); try lia.
  apply (budget_cancel (setRunning false t)).
Qed.

Lemma budget_start now t :
  (budget (start now t) <= (if m_working t && negb (m_running t) then 1 else 0) + budget t)%nat.
Proof.
  unfold start. destruct (m_working t); cbn; [| lia]. pose proof (budget_startTimer now t).
  destruct (m_running t); cbn; lia.
Qed.

Lemma budget_restart now t :
  (budget (restart now t) <= (if m_working t then 1 else 0) + budget t)%nat.
Proof.
  unfold restart. destruct (m_working t); cbn [negb]; [| lia].
  pose proof (budget_start now (stop t)). pose proof (budget_stop t).
  destruct (m_working (stop t) && negb (m_running (stop t))); lia.
Qed.

Lemma budget_apply e t : (budget (apply e t) <= (if starts e t then 1 else 0) + budget t)%nat.
Proof.
  destruct e as [now | | now | now v | | | now | now]; cbn [apply starts].
  - apply budget_start.
  - apply budget_stop.
  - apply budget_restart.
  - apply (budget_restart now (setTimeout v t)).
  - done.
  - unfold destroy. destruct (negb (m_working t) || negb (m_worker t)); [lia |].
    unfold stop, budget. cbn. lia.
  - unfold expire, budget. destruct (waiting t) as [x |] eqn:E; [| rewrite E; lia].
    destruct (now <? x); [rewrite E; lia |]. cbn. rewrite List.filter_app, length_app. cbn. lia.
  - unfold runNext, budget. destruct (stopped t); [lia |].
    destruct (queued t) as [| h hs] eqn:E; [rewrite E; cbn; lia |]. cbn. unfold live.
    destruct (negb (aborted h)), (m_timeoutHandler t); cbn; rewrite ?length_app; cbn; lia.
Qed.

(** The handler runs at most once for every call that starts the timer. *)
Theorem runs_at_most_starts (es : list event) (timeout : Z) :
  (length (runs (applyAll es (newTimer timeout))) <= countStarts es (newTimer timeout))%nat.
Proof.
  assert (forall t, budget (applyAll es t) <= countStarts es t + budget t)%nat as Hgen.
  { induction es as [| e es IH]; intros t; [cbn; lia |]. cbn [applyAll fold_left countStarts].
    specialize (IH (apply e t)). pose proof (budget_apply e t). unfold applyAll in IH. lia. }
  specialize (Hgen (newTimer timeout)). unfold budget in Hgen. cbn in Hgen. lia.
Qed.

(** *** Never too early *)

Definition onTime (now : Z) (t : Timer) : Prop :=
  Forall (fun h => live h = true -> expiry h <= now) (queued t) /\
  Forall (fun r => r.1 <= r.2) (runs t).

Lemma onTime_mono now now' t : now <= now' -> onTime now t -> onTime now' t.
Proof.
  intros Hn [Hq Hr]. split; [| done]. eapply List.Forall_impl; [| exact Hq]. intros h Hh Hl.
  specialize (Hh Hl). lia.
Qed.

Lemma onTime_cancel now t : onTime now t -> onTime now (cancelWait t).
Proof.
  intros [Hq Hr]. split; [| done]. cbn. destruct (waiting t); [| done].
  apply Forall_app. split; [done |]. by apply Forall_singleton.
Qed.

Lemma onTime_stop now t : onTime now t -> onTime now (stop t).
Proof.
  intros Ht. unfold stop. destruct (negb (m_working t)), (negb (m_running t)); try done.
  by apply (onTime_cancel now (setRunning false t)).
Qed.

Lemma onTime_start now' now t : onTime now t -> onTime now (start now' t).
Proof.
  intros Ht. unfold start, startTimer. destruct (negb (m_working t)), (m_running t); try done.
  by apply (onTime_cancel now t).
Qed.

Lemma onTime_apply now e t :
  (forall now', timeOf e = Some now' -> now = now') -> onTime now t -> onTime now (apply e t).
Proof.
  intros He Ht. destruct e as [n | | n | n v | | | n | n]; cbn [apply] in *.
  - by apply onTime_start.
  - by apply onTime_stop.
  - unfold restart. destruct (negb _); [done |]. by apply onTime_start, onTime_stop.
  - unfold reset, restart. destruct (negb _); [done |]. by apply onTime_start, onTime_stop.
  - done.
  - unfold destroy. by destruct (_ || _).
  - specialize (He n eq_refl) as <-. unfold expire. destruct (waiting t); [| done].
    destruct (Z.ltb_spec now z); [done |]. destruct Ht as [Hq Hr]. split; [| done]. cbn.
    apply Forall_app. split; [done |]. apply Forall_singleton. cbn. lia.
  - specialize (He n eq_refl) as <-. unfold runNext. destruct (stopped t); [done |].
    destruct Ht as [Hq Hr]. destruct (queued t) as [| h hs] eqn:E; [by split; rewrite ?E |].
    inversion Hq as [| ? ? Hh Hhs]; subst. split; [done |]. cbn.
    destruct (negb (aborted h)) eqn:Hl, (m_timeoutHandler t); cbn; try done.
    apply Forall_app. split; [done |]. apply Forall_singleton. cbn. by apply Hh.
Qed.

(** The handler never runs before the expiry time of the wait it belongs to. *)
Theorem never_too_early (es : list event) (timeout now : Z) (Hclock : monotonic now es = true) :
  Forall (fun r => r.1 <= r.2) (runs (applyAll es (newTimer timeout))).
Proof.
  assert (forall t now, monotonic now es = true -> onTime now t ->
            exists now', onTime now' (applyAll es t)) as Hgen.
  { clear. induction es as [| e es IH]; intros t now Hm Ht; [by exists now |].
    cbn [applyAll fold_left monotonic] in *. destruct (timeOf e) as [n |] eqn:He.
    - apply andb_true_iff in Hm as [Hn Hm]. apply Z.leb_le in Hn. apply (IH _ n Hm).
      apply onTime_apply; [congruence | by apply (onTime_mono now)].
    - apply (IH _ now Hm). apply onTime_apply; [congruence | done]. }
  by destruct (Hgen (newTimer timeout) now Hclock) as (now' & _ & Hr); [by split |].
Qed.

(** *** Stopping *)

(** A handler that was queued before [stop] still runs after it. *)
Theorem handler_after_stop :
  exists t, let t' := stop t in m_running t' = false /\ runs t' = [] /\
    length (runs (runNext 10 t')) = 1%nat.
Proof.
  exists (applyAll [Register_; Start 0; Expire 10] (newTimer 10)). by cbn.
Qed.

(** After it has fired, the timer counts as running: [start] does nothing, and the
    handler does not run again until the timer is stopped or restarted. *)
Theorem fired_timer_does_not_start (es : list event) (t : Timer)
    (Hfired : m_running t = true /\ waiting t = None /\ queued t = [])
    (Hes : Forall (fun e => match e with Stop | Restart _ | Reset_ _ _ => False | _ => True end) es) :
  runs (applyAll es t) = runs t.
Proof.
  revert t Hfired. induction Hes as [| e es He _ IH]; intros t (Hr & Hw & Hq); [done |].
  cbn [applyAll fold_left]. fold (applyAll es (apply e t)).
  assert (m_running (apply e t) = true /\ waiting (apply e t) = None /\ queued (apply e t) = [] /\
          runs (apply e t) = runs t) as (H1 & H2 & H3 & H4).
  { destruct e as [n | | n | n v | | | n | n]; try done; cbn [apply].
    - unfold start, startTimer. rewrite Hr. by destruct (negb _).
    - unfold destroy. destruct (_ || _); [done |]. by cbn.
    - unfold expire. by rewrite Hw.
    - unfold runNext. destruct (stopped t); [done |]. by rewrite Hq. }
  by rewrite IH.
Qed.

(** A destroyed timer never runs its handler again, whatever is called. *)
Theorem destroyed_timer_silent (es : list event) (t : Timer)
    (Ht : m_working t = true /\ m_worker t = true) :
  runs (applyAll es (destroy t)) = runs t.
Proof.
  assert (forall es t, m_working t = false /\ stopped t = true -> runs (applyAll es t) = runs t) as Hgen.
  { clear. induction es as [| e es IH]; intros t [Hw Hs]; [done |].
    cbn [applyAll fold_left]. fold (applyAll es (apply e t)).
    assert (m_working (apply e t) = false /\ stopped (apply e t) = true /\ runs (apply e t) = runs t)
      as (H1 & H2 & H3).
    { destruct e as [n | | n | n v | | | n | n]; cbn [apply];
        unfold start, stop, reset, restart, destroy, runNext; cbn; rewrite ?Hw, ?Hs; try done.
      unfold expire. destruct (waiting t); [| done]. by destruct (n <? z). }
    by rewrite IH. }
  destruct Ht as [Hw Hwk]. rewrite Hgen; unfold destroy, stop; rewrite Hw, Hwk; by cbn.
Qed.
End TimerFacts.

(* ------------------------------------------------------------------ *)
(** ** The hypotheses can be met *)

Module TimerWitnesses.
Import Timer TimerFacts.

Definition firing : list event := [Register_; Start 5; Expire 15; RunNext 16].

Lemma never_too_early_witness :
  Forall (fun r => r.1 <= r.2) (runs (applyAll firing (newTimer 10))).
Proof. apply (never_too_early firing 10 5). reflexivity. Defined.

Lemma fired_timer_does_not_start_witness :
  runs (applyAll [Start 20; Expire 40; RunNext 40] (applyAll firing (newTimer 10))) = [(15, 16)].
Proof.
  apply (fired_timer_does_not_start [Start 20; Expire 40; RunNext 40] (applyAll firing (newTimer 10)));
    [by cbn | repeat constructor].
Defined.

Lemma destroyed_timer_silent_witness :
  runs (applyAll [Expire 40; RunNext 40] (destroy (applyAll [Register_; Start 5] (newTimer 10)))) = [].
Proof.
  apply (destroyed_timer_silent [Expire 40; RunNext 40] (applyAll [Register_; Start 5] (newTimer 10))).
  by cbn.
Defined.
End TimerWitnesses.
