(* ===== verification/Sealer.v ===== *)
(** * Sealer

    Model of libsealer/SealingManager.{h,cpp} and libsealer/Sealer.cpp: the
    manager's queues of fetched transactions, the range of blocks the consensus
    module asks for, the generation of proposals and the worker that drives them.
    Each method is one step on the manager's state; the transaction pool, the
    consensus module and the clock are its environment. *)

From Stdlib Require Import ZArith Lia List.
From Stdlib Require Import Strings.String Strings.Byte.
From stdpp Require Import base tactics decidable list option relations.
From S2P Require Import Prelude.

Module SealingManager.

(** What the sealer reads of a [TransactionMetaData] is its hash. *)
Record TransactionMetaData : Type := mkMetaData { hash : bytes }.

#[export] Instance metadata_eq_dec : EqDecision TransactionMetaData.
Proof. solve_decision. Defined.

(** A proposal: its header's number and timestamp, and the transactions listed. *)
Record Proposal : Type := mkProposal
  { number : Z
  ; timestamp : Z
  ; metaData : list TransactionMetaData }.

(** The members of the manager, the configured [minSealTime], and the tasks
    waiting in the worker's thread pool, each a list of hashes to give back. *)
Record SealingManager : Type := mkManager
  { m_pendingTxs : list TransactionMetaData
  ; m_pendingSysTxs : list TransactionMetaData
  ; m_worker : list (list bytes)
  ; m_lastSealTime : Z
  ; m_sealingNumber : Z
  ; m_unsealedTxsSize : Z
  ; m_startSealingNumber : Z
  ; m_endSealingNumber : Z
  ; m_maxTxsPerBlock : Z
  ; m_waitUntil : Z
  ; m_fetchingTxs : bool
  ; m_currentNumber : Z
  ; m_minSealTime : Z }.

Definition newSealingManager : SealingManager :=
  mkManager [] [] [] 0 (-1) 0 0 0 0 0 false 0 500.

(** Signed 64-bit arithmetic. *)
Definition ssize (z : Z) : outcome Empty_set Z :=
  if (- 2 ^ 63 <=? z) && (z <? 2 ^ 63) then Ok z else Undefined SignedOverflow.

Definition pendingTxsSize (s : SealingManager) : Z :=
  u64 (len (m_pendingSysTxs s) + len (m_pendingTxs s)).

(** [setUnsealedTxsSize]; the consensus module is told as well. *)
Definition setUnsealedTxsSize (n : Z) (s : SealingManager) : SealingManager :=
  let '(mkManager p q w t k _ a e m u f c d) := s in mkManager p q w t k n a e m u f c d.

Definition resetCurrentNumber (n : Z) (s : SealingManager) : SealingManager :=
  let '(mkManager p q w t k z a e m u f _ d) := s in mkManager p q w t k z a e m u f n d.

Definition clearPendingTxs (s : SealingManager) : SealingManager :=
  if u64 (len (m_pendingTxs s) + len (m_pendingSysTxs s)) =? 0 then s
  else
    let unHandledTxs := map hash (m_pendingTxs s) ++ map hash (m_pendingSysTxs s) in
    let '(mkManager p q w t k z a e m u f c d) := s in
    mkManager [] [] (w ++ [unHandledTxs]) t k z a e m u f c d.

Definition setSealingNumber (n : Z) (s : SealingManager) : SealingManager :=
  let '(mkManager p q w t _ z a e m u f c d) := s in mkManager p q w t n z a e m u f c d.

Definition resetSealing (s : SealingManager) : outcome Empty_set SealingManager :=
  next ← ssize (m_endSealingNumber s + 1);
  Ok (clearPendingTxs (setSealingNumber next s)).

(** The assignments of a non-continuous sealing request. *)
Definition restart (start now : Z) (s : SealingManager) : SealingManager :=
  let '(mkManager p q w _ _ z _ e m u f c d) := s in mkManager p q w now start z start e m u f c d.

Definition setRange (last max : Z) (s : SealingManager) : SealingManager :=
  let '(mkManager p q w t k z a _ _ u f c d) := s in mkManager p q w t k z a last max u f c d.

Definition resetSealingInfo (start last max now : Z) (s : SealingManager) :
    outcome Empty_set SealingManager :=
  if last <? start then Ok s
  else if m_endSealingNumber s <? m_sealingNumber s
  then Ok (setRange last max (restart start now (clearPendingTxs s)))
  else
    next ← ssize (m_endSealingNumber s + 1);
    if start =? next then Ok (setRange last max s)
    else Ok (setRange last max (restart start now (clearPendingTxs s))).

(** [appendTransactions] on the queue of ordinary or of system transactions. *)
Definition appendTransactions (sys : bool) (fetched : list TransactionMetaData)
    (s : SealingManager) : SealingManager :=
  let '(mkManager p q w t k z a e m u f c d) := s in
  if sys then mkManager p (q ++ fetched) w t k z a e m u f c d
  else mkManager (p ++ fetched) q w t k z a e m u f c d.

(** [utcSteadyTime() - m_lastSealTime] is computed on [uint64_t]. *)
Definition reachMinSealTimeCondition (now : Z) (s : SealingManager) : bool :=
  if pendingTxsSize s =? 0 then false
  else if u64 (now - m_lastSealTime s) <? m_minSealTime s then false
  else true.

Definition outOfRange (s : SealingManager) : bool :=
  (m_sealingNumber s <? m_startSealingNumber s) || (m_endSealingNumber s <? m_sealingNumber s).

Definition shouldGenerateProposal (now : Z) (s : SealingManager) : bool * SealingManager :=
  if outOfRange s then (false, clearPendingTxs s)
  else if m_currentNumber s <? m_waitUntil s then (false, s)
  else if (m_maxTxsPerBlock s <=? pendingTxsSize s) || reachMinSealTimeCondition now s
  then (true, s)
  else (false, s).

(** What [generateProposal] does once a proposal is due: the clocks read are
    [utcTime] for the header and [utcSteadyTime] for the manager. *)
Definition sealProposal (now utc : Z) (s : SealingManager) :
    outcome Empty_set ((bool * Proposal) * SealingManager) :=
  next ← ssize (m_currentNumber s + 1);
  let sealing := Z.max (m_sealingNumber s) next in
  let txsSize := Z.min (m_maxTxsPerBlock s) (u64 (len (m_pendingTxs s) + len (m_pendingSysTxs s))) in
  let systemTxsSize := Z.min txsSize (len (m_pendingSysTxs s)) in
  let nSys := Z.to_nat systemTxsSize in
  let nTxs := Z.to_nat (txsSize - systemTxsSize) in
  let waitUntil := if 0 <? len (m_pendingSysTxs s) then sealing else m_waitUntil s in
  let block := mkProposal sealing utc (take nSys (m_pendingSysTxs s) ++ take nTxs (m_pendingTxs s)) in
  Ok ((0 <? systemTxsSize, block),
      mkManager (drop nTxs (m_pendingTxs s)) (drop nSys (m_pendingSysTxs s)) (m_worker s) now
        (swrap 64 (sealing + 1)) (m_unsealedTxsSize s) (m_startSealingNumber s)
        (m_endSealingNumber s) (m_maxTxsPerBlock s) waitUntil (m_fetchingTxs s)
        (m_currentNumber s) (m_minSealTime s)).

(** [generateProposal]: whether the block holds system transactions, and the
    block, a null pointer when no proposal is due. *)
Definition generateProposal (now utc : Z) (s : SealingManager) :
    outcome Empty_set ((bool * option Proposal) * SealingManager) :=
  let '(due, s1) := shouldGenerateProposal now s in
  if due then
    '((sys, block), s2) ← sealProposal now utc s1;
    Ok ((sys, Some block), s2)
  else Ok ((false, None), s1).

Definition shouldFetchTransaction (s : SealingManager) : bool :=
  if m_fetchingTxs s || (m_unsealedTxsSize s =? 0) then false
  else negb (outOfRange s).

(** The product mixes [ssize_t] and [size_t]: it is computed on [size_t]; the
    result is returned as [int64_t]. *)
Definition txsSizeExpectedToFetch (s : SealingManager) : outcome Empty_set Z :=
  diff ← ssize (m_endSealingNumber s - m_sealingNumber s);
  blocks ← ssize (diff + 1);
  let txsSizeToFetch := u64 (u64 blocks * m_maxTxsPerBlock s) in
  let txsSize := pendingTxsSize s in
  if txsSizeToFetch <=? txsSize then Ok 0
  else Ok (swrap 64 (u64 (txsSizeToFetch - txsSize))).

Definition setFetching (b : bool) (s : SealingManager) : SealingManager :=
  let '(mkManager p q w t k z a e m u _ c d) := s in mkManager p q w t k z a e m u b c d.

(** [fetchTransactions]: the limit of the [asyncSealTxs] request it sends, if any. *)
Definition fetchTransactions (s : SealingManager) :
    outcome Empty_set (option Z * SealingManager) :=
  if shouldFetchTransaction s then
    txsToFetch ← txsSizeExpectedToFetch s;
    if txsToFetch =? 0 then Ok (None, s)
    else Ok (Some (u64 txsToFetch), setFetching true s)
  else Ok (None, s).

(** The callback of that request: an error, or the ordinary and the system
    transactions the pool has marked as sealed. *)
Definition onSealTxs (error : bool) (txs sysTxs : list TransactionMetaData) (s : SealingManager) :
    SealingManager :=
  if error then setFetching false s
  else setFetching false (appendTransactions true sysTxs (appendTransactions false txs s)).

(** The transaction pool's [asyncMarkTxs]: whether it failed, and its state. *)
Class TxPool (T : Type) : Type :=
  asyncMarkTxs : list bytes -> bool -> T -> bool * T.

(** [notifyResetTxsFlag] with the retries still allowed. *)
Fixpoint notifyFrom {T} `{TxPool T} (retries : nat) (txs : list bytes) (flag : bool) (pool : T) : T :=
  let '(failed, pool') := asyncMarkTxs txs flag pool in
  if failed then
    match retries with
    | O => pool'
    | S retries => notifyFrom retries txs flag pool'
    end
  else pool'.
Definition notifyResetTxsFlag {T} `{TxPool T} (txs : list bytes) (flag : bool) (retryTime : nat)
    (pool : T) : T :=
  notifyFrom (3 - retryTime) txs flag pool.

Definition notifyResetProposal {T} `{TxPool T} (block : Proposal) (pool : T) : T :=
  notifyResetTxsFlag (map hash (metaData block)) false 0 pool.

(** The worker thread takes its next task. *)
Definition runTask (s : SealingManager) : option (list bytes * SealingManager) :=
  match s with
  | mkManager p q (task :: w) t k z a e m u f c d =>
      Some (task, mkManager p q w t k z a e m u f c d)
  | _ => None
  end.
End SealingManager.

(* ------------------------------------------------------------------ *)
(** ** Sealer *)

Module Sealer.
Import SealingManager.

(** [asyncNotifySealProposal] converts its [size_t] arguments to [ssize_t]. *)
Definition asyncNotifySealProposal (start last max now : Z) (s : SealingManager) :
    outcome Empty_set SealingManager :=
  resetSealingInfo (swrap 64 start) (swrap 64 last) max now s.

Definition asyncNoteLatestBlockNumber (n : Z) (s : SealingManager) : SealingManager :=
  resetCurrentNumber n s.

Definition asyncNoteUnSealedTxsSize (n : Z) (s : SealingManager) : SealingManager :=
  setUnsealedTxsSize n s.

Definition asyncResetSealing (s : SealingManager) : outcome Empty_set SealingManager :=
  resetSealing s.

(** What [submitProposal] does with a block. *)
Inductive submission : Type :=
| PutBack (txs : list bytes)                    (** [notifyResetProposal] *)
| Submit (containSysTxs : bool) (block : Proposal)
    (sealerList : list bytes) (weightList : list Z) (sealer : Z).

(** [submitProposal]: the consensus nodes (identifier and weight) and this
    node's index come from the consensus module. *)
Definition submitProposal (nodes : list (bytes * Z)) (nodeIndex : Z) (containSysTxs : bool)
    (block : option Proposal) (s : SealingManager) : outcome Empty_set submission :=
  match block with
  | None => Undefined NullDeref
  | Some b =>
      if number b <=? m_currentNumber s then Ok (PutBack (map hash (metaData b)))
      else Ok (Submit containSysTxs b (map fst nodes) (map snd nodes) (swrap 64 nodeIndex))
  end.

(** [executeWorker]: between its calls the handlers of other threads may run,
    [other i] is what they do to the manager before the [i]-th call, which is
    made at time [now i]. *)
Definition executeWorker (nodes : list (bytes * Z)) (nodeIndex : Z)
    (other : nat -> SealingManager -> SealingManager) (now : nat -> Z) (utc : Z)
    (s : SealingManager) : outcome Empty_set (option submission * option Z * SealingManager) :=
  let '(_, s) := shouldGenerateProposal (now 0%nat) s in
  let s := other 0%nat s in
  let '(due, s) := shouldGenerateProposal (now 1%nat) s in
  let s := other 1%nat s in
  '(sub, s) ←
    (if due then
       '((sys, proposal), s) ← generateProposal (now 2%nat) utc s;
       let s := other 2%nat s in
       sub ← submitProposal nodes nodeIndex sys proposal s;
       Ok (Some sub, s)
     else Ok (None, s));
  let s := other 3%nat s in
  if shouldFetchTransaction s then
    '(request, s) ← fetchTransactions (other 4%nat s);
    Ok (sub, request, s)
  else Ok (sub, None, s).
End Sealer.

(* ------------------------------------------------------------------ *)
(** ** The sealer as a state machine *)

Module SealerMachine.
Import SealingManager Sealer.

(** A generated proposal, whether it holds system transactions, and the latest
    block number known when it was generated. *)
Record generation : Type := mkGeneration
  { holdsSys : bool
  ; proposal : Proposal
  ; currentThen : Z }.

(** The manager and its history: the transactions the pool has handed over, the
    proposals generated (the latest first) and the hashes given back. *)
Record World : Type := mkWorld
  { mgr : SealingManager
  ; fetched : list TransactionMetaData
  ; generated : list generation
  ; returned : list bytes }.

Definition newWorld : World := mkWorld newSealingManager [] [] [].

(** One call of a handler, by whichever thread. *)
Inductive step : World -> World -> Prop :=
| step_notify s s' h g r start last max now :
    asyncNotifySealProposal start last max now s = Ok s' ->
    step (mkWorld s h g r) (mkWorld s' h g r)
| step_reset s s' h g r :
    asyncResetSealing s = Ok s' -> step (mkWorld s h g r) (mkWorld s' h g r)
| step_number s h g r n :
    step (mkWorld s h g r) (mkWorld (asyncNoteLatestBlockNumber n s) h g r)
| step_unsealed s h g r n :
    step (mkWorld s h g r) (mkWorld (asyncNoteUnSealedTxsSize n s) h g r)
| step_should s h g r now :
    step (mkWorld s h g r) (mkWorld (shouldGenerateProposal now s).2 h g r)
| step_generate s s' h g r now utc sys p :
    generateProposal now utc s = Ok ((sys, Some p), s') ->
    step (mkWorld s h g r) (mkWorld s' h (mkGeneration sys p (m_currentNumber s) :: g) r)
| step_generate_null s s' h g r now utc sys :
    generateProposal now utc s = Ok ((sys, None), s') ->
    step (mkWorld s h g r) (mkWorld s' h g r)
| step_fetch s s' h g r request :
    fetchTransactions s = Ok (request, s') -> step (mkWorld s h g r) (mkWorld s' h g r)
| step_fetched s h g r txs sysTxs :
    m_fetchingTxs s = true ->
    step (mkWorld s h g r) (mkWorld (onSealTxs false txs sysTxs s) (h ++ txs ++ sysTxs) g r)
| step_fetch_failed s h g r :
    m_fetchingTxs s = true -> step (mkWorld s h g r) (mkWorld (onSealTxs true [] [] s) h g r)
| step_task s s' h g r task :
    runTask s = Some (task, s') -> step (mkWorld s h g r) (mkWorld s' h g (r ++ task)).

Definition reachable (w : World) : Prop := rtc step newWorld w.

(** The hashes the manager is responsible for: queued, or about to be given back. *)
Definition held (s : SealingManager) : list bytes :=
  map hash (m_pendingTxs s) ++ map hash (m_pendingSysTxs s) ++ concat (m_worker s).

Definition sealed (g : list generation) : list bytes :=
  concat (map (fun x => map hash (metaData (proposal x))) g).

(** Every transaction the pool handed over is accounted for, once. *)
Definition conserved (w : World) : Prop :=
  map hash (fetched w) ≡ₚ held (mgr w) ++ sealed (generated w) ++ returned w.

Lemma held_clear (s : SealingManager) : held (clearPendingTxs s) ≡ₚ held s.
Proof.
  unfold clearPendingTxs. destruct (_ =? 0); [done |]. destruct s; unfold held; cbn.
  rewrite concat_app. cbn. rewrite app_nil_r. solve_Permutation.
Qed.

Lemma held_should (now : Z) (s : SealingManager) : held (shouldGenerateProposal now s).2 ≡ₚ held s.
Proof.
  unfold shouldGenerateProposal.
  repeat match goal with |- context [if ?c then _ else _] => destruct c end;
    first [apply held_clear | reflexivity].
Qed.

Lemma held_seal (now utc : Z) (s s' : SealingManager) (sys : bool) (p : Proposal) :
  sealProposal now utc s = Ok ((sys, p), s') -> held s ≡ₚ map hash (metaData p) ++ held s'.
Proof.
  intros Hs. apply bind_ok_inv in Hs as (next & _ & Hs). cbv zeta in Hs.
  apply (inj Ok) in Hs. injection Hs as _ <- <-. unfold held; cbn [metaData m_pendingTxs m_pendingSysTxs m_worker].
  match goal with |- context [take ?n (m_pendingTxs s)] => generalize n; intros n1 end.
  match goal with |- context [take ?n (m_pendingSysTxs s)] => generalize n; intros n2 end.
  rewrite <- (take_drop n1 (m_pendingTxs s)) at 1.
  rewrite <- (take_drop n2 (m_pendingSysTxs s)) at 1.
  rewrite !map_app. solve_Permutation.
Qed.

Lemma held_reset_info (start last max now : Z) (s s' : SealingManager) :
  resetSealingInfo start last max now s = Ok s' -> held s' ≡ₚ held s.
Proof.
  assert (Hrange : forall t, held (setRange last max t) = held t) by (by intros []).
  assert (Hrestart : forall t, held (restart start now t) = held t) by (by intros []).
  unfold resetSealingInfo. destruct (last <? start); [by intros [= <-] |].
  destruct (_ <? _).
  - intros Hs. apply (inj Ok) in Hs as <-. rewrite Hrange, Hrestart. apply held_clear.
  - intros (next & _ & Hs)%bind_ok_inv. destruct (start =? next); apply (inj Ok) in Hs as <-;
      rewrite Hrange; [done |]. rewrite Hrestart. apply held_clear.
Qed.

Lemma generate_cases (now utc : Z) (s s' : SealingManager) (sys : bool) (b : option Proposal) :
  generateProposal now utc s = Ok ((sys, b), s') ->
  match b with
  | None => sys = false /\ s' = (shouldGenerateProposal now s).2
  | Some p => shouldGenerateProposal now s = (true, s) /\ sealProposal now utc s = Ok ((sys, p), s')
  end.
Proof.
  unfold generateProposal. destruct (shouldGenerateProposal now s) as [[] s1] eqn:Hs.
  - assert (s1 = s) as ->.
    { revert Hs. unfold shouldGenerateProposal.
      repeat match goal with |- context [if ?c then _ else _] => destruct c end; congruence. }
    intros (([sys' p] & s2) & Hseal & Heq)%bind_ok_inv. apply (inj Ok) in Heq.
    by injection Heq as <- <- <-.
  - intros Heq. apply (inj Ok) in Heq. by injection Heq as <- <- <-.
Qed.

Lemma conserved_held (s s' : SealingManager) h g r :
  held s' ≡ₚ held s -> conserved (mkWorld s h g r) -> conserved (mkWorld s' h g r).
Proof. unfold conserved; cbn. by intros ->. Qed.

Lemma held_fetch (s s' : SealingManager) (request : option Z) :
  fetchTransactions s = Ok (request, s') -> held s' = held s.
Proof.
  unfold fetchTransactions. destruct (shouldFetchTransaction s);
    [intros (n & _ & Heq)%bind_ok_inv; destruct (n =? 0) |intros Heq];
    apply (inj Ok) in Heq; injection Heq as _ <-; [done | by destruct s | done].
Qed.

Lemma step_conserves (w w' : World) : step w w' -> conserved w -> conserved w'.
Proof.
  destruct 1 as [s s' h g r ???? Hs | s s' h g r Hs | | | | s s' h g r now utc sys p Hg
    | s s' h g r now utc sys Hg | s s' h g r q Hf | s h g r txs sysTxs _ | | s s' h g r task Ht];
    intros Hc.
  - revert Hc. apply conserved_held. by eapply held_reset_info.
  - revert Hc. apply conserved_held.
    apply bind_ok_inv in Hs as (next & _ & Hs). apply (inj Ok) in Hs as <-.
    rewrite held_clear. by destruct s.
  - revert Hc. apply conserved_held. by destruct s.
  - revert Hc. apply conserved_held. by destruct s.
  - revert Hc. apply conserved_held, held_should.
  - apply generate_cases in Hg as [_ Hg]. apply held_seal in Hg.
    unfold conserved in *; cbn [fetched mgr generated returned] in *. rewrite Hc, Hg.
    unfold sealed; cbn [map concat proposal]. solve_Permutation.
  - apply generate_cases in Hg as [_ ->]. revert Hc. apply conserved_held, held_should.
  - revert Hc. apply conserved_held. by rewrite (held_fetch s s' q).
  - unfold conserved in *; cbn [fetched mgr generated returned] in *. rewrite !map_app, Hc.
    destruct s; unfold held; cbn. rewrite !map_app. solve_Permutation.
  - revert Hc. apply conserved_held. by destruct s.
  - unfold conserved in *; cbn [fetched mgr generated returned] in *. rewrite Hc.
    destruct s as [p q [| t w] ?????????? ]; [done |]. cbn in Ht. injection Ht as <- <-.
    unfold held; cbn. solve_Permutation.
Qed.


(* ------------------------------------------------------------------ *)
(** ** The barrier behind system transactions *)

(** No block is sealed on top of an uncommitted block of system transactions. *)
Definition barrier (w : World) : Prop :=
  Forall (fun q => holdsSys q = true -> number (proposal q) <= m_waitUntil (mgr w)) (generated w) /\
  forall l1 p l2 q l3, generated w = l1 ++ p :: l2 ++ q :: l3 -> holdsSys q = true ->
    number (proposal q) <= currentThen p < number (proposal p).

Lemma waitUntil_clear (s : SealingManager) : m_waitUntil (clearPendingTxs s) = m_waitUntil s.
Proof. unfold clearPendingTxs. destruct (_ =? 0); by destruct s. Qed.

Lemma waitUntil_should (now : Z) (s : SealingManager) :
  m_waitUntil (shouldGenerateProposal now s).2 = m_waitUntil s.
Proof.
  unfold shouldGenerateProposal.
  repeat match goal with |- context [if ?c then _ else _] => destruct c end;
    first [apply waitUntil_clear | reflexivity].
Qed.

Lemma waitUntil_reset_info (start last max now : Z) (s s' : SealingManager) :
  resetSealingInfo start last max now s = Ok s' -> m_waitUntil s' = m_waitUntil s.
Proof.
  assert (Hrange : forall t, m_waitUntil (setRange last max t) = m_waitUntil t) by (by intros []).
  assert (Hrestart : forall t, m_waitUntil (restart start now t) = m_waitUntil t) by (by intros []).
  unfold resetSealingInfo. destruct (last <? start); [by intros [= <-] |].
  destruct (_ <? _).
  - intros Hs. apply (inj Ok) in Hs as <-. rewrite Hrange, Hrestart. apply waitUntil_clear.
  - intros (next & _ & Hs)%bind_ok_inv. destruct (start =? next); apply (inj Ok) in Hs as <-;
      rewrite Hrange; [done |]. rewrite Hrestart. apply waitUntil_clear.
Qed.

Lemma waitUntil_reset (s s' : SealingManager) : resetSealing s = Ok s' -> m_waitUntil s' = m_waitUntil s.
Proof.
  intros (next & _ & Hs)%bind_ok_inv. apply (inj Ok) in Hs as <-.
  rewrite waitUntil_clear. by destruct s.
Qed.

Lemma waitUntil_fetch (s s' : SealingManager) (request : option Z) :
  fetchTransactions s = Ok (request, s') -> m_waitUntil s' = m_waitUntil s.
Proof.
  unfold fetchTransactions. destruct (shouldFetchTransaction s);
    [intros (n & _ & Heq)%bind_ok_inv; destruct (n =? 0) |intros Heq];
    apply (inj Ok) in Heq; injection Heq as _ <-; [done | by destruct s | done].
Qed.

Lemma barrier_keeps (s s' : SealingManager) h h' g r r' :
  m_waitUntil s' = m_waitUntil s -> barrier (mkWorld s h g r) -> barrier (mkWorld s' h' g r').
Proof. intros Heq [Ha Hb]. split; [| exact Hb]. cbn in *. by rewrite Heq. Qed.

(** What sealing a block guarantees about its number and the barrier. *)
Lemma seal_barrier (now utc : Z) (s s' : SealingManager) (sys : bool) (p : Proposal) :
  shouldGenerateProposal now s = (true, s) -> sealProposal now utc s = Ok ((sys, p), s') ->
  m_waitUntil s <= m_currentNumber s < number p /\ m_waitUntil s <= m_waitUntil s' /\
  (sys = true -> m_waitUntil s' = number p).
Proof.
  intros Hdue Hs. unfold shouldGenerateProposal in Hdue.
  destruct (outOfRange s); [done |].
  destruct (Z.ltb_spec (m_currentNumber s) (m_waitUntil s)) as [Hlt | Hge]; [done |].
  apply bind_ok_inv in Hs as (next & Hn & Hs). cbv zeta in Hs. apply (inj Ok) in Hs.
  assert (next = m_currentNumber s + 1) as ->.
  { unfold ssize in Hn. destruct (_ && _); congruence. }
  injection Hs as Hsys <- <-. cbn [number m_waitUntil].
  split; [lia | split].
  - destruct (0 <? len (m_pendingSysTxs s)); lia.
  - intros ->. apply Z.ltb_lt in Hsys. rewrite (proj2 (Z.ltb_lt 0 _)); [done | lia].
Qed.

Lemma step_barrier (w w' : World) : step w w' -> barrier w -> barrier w'.
Proof.
  destruct 1 as [s s' h g r ???? Hs | s s' h g r Hs | | | | s s' h g r now utc sys p Hg
    | s s' h g r now utc sys Hg | s s' h g r q Hf | s h g r txs sysTxs _ | | s s' h g r task Ht].
  - apply barrier_keeps. by eapply waitUntil_reset_info.
  - apply barrier_keeps. by apply waitUntil_reset.
  - apply barrier_keeps. by destruct s.
  - apply barrier_keeps. by destruct s.
  - apply barrier_keeps, waitUntil_should.
  - apply generate_cases in Hg as [Hdue Hg].
    destruct (seal_barrier now utc s s' sys p Hdue Hg) as (Hcur & Hmono & Hsys).
    intros [Ha Hb]. cbn in *. split.
    + cbn. constructor; [cbn; intros Ht; by rewrite Hsys |].
      apply (Forall_impl _ _ _ Ha). intros q Hq Ht. specialize (Hq Ht). lia.
    + intros [| x l1] p' l2 q l3 Heq Hq; cbn in Heq; injection Heq as Hx Heq; [| by eapply Hb].
      subst p'. cbn. rewrite Heq in Ha. apply Forall_app in Ha as [_ Ha].
      apply Forall_cons in Ha as [Ha _]. specialize (Ha Hq). lia.
  - apply generate_cases in Hg as [_ ->]. apply barrier_keeps, waitUntil_should.
  - apply barrier_keeps. by eapply waitUntil_fetch.
  - apply barrier_keeps. by destruct s.
  - apply barrier_keeps. by destruct s.
  - apply barrier_keeps. destruct s as [p q [| t w] ?????????? ]; [done |].
    cbn in Ht. by injection Ht as <- <-.
Qed.

(** C7. In every reachable state, a proposal generated after one with system
    transactions was generated when that block had been committed, and has a
    higher number. *)
Theorem system_transactions_barrier (w : World) (l1 l2 l3 : list generation) (p q : generation)
    (Hw : reachable w) (Hg : generated w = l1 ++ p :: l2 ++ q :: l3) (Hq : holdsSys q = true) :
  number (proposal q) <= currentThen p < number (proposal p).
Proof.
  assert (Hgen : forall a b, rtc step a b -> barrier a -> barrier b).
  { intros a b. induction 1; eauto using step_barrier. }
  destruct (Hgen newWorld w Hw) as [_ Hb]; [| by eapply Hb].
  split; [constructor |]. by intros [].
Qed.

(* ------------------------------------------------------------------ *)
(** ** Proposals *)

Lemma should_same (now : Z) (s : SealingManager) :
  (shouldGenerateProposal now s).1 = true -> shouldGenerateProposal now s = (true, s).
Proof.
  unfold shouldGenerateProposal.
  repeat match goal with |- context [if ?c then _ else _] => destruct c end; by intros.
Qed.

(** When a proposal is due one is generated: it takes as many transactions
    as the block may hold and the queues have, from the front of each queue,
    ordinary ones only when no system transaction is left behind, and its number
    lies above the latest block and not below the range asked for. *)
Theorem generate_proposal_spec (now utc : Z) (s : SealingManager)
    (Hmax : 0 <= m_maxTxsPerBlock s)
    (Hsize : len (m_pendingTxs s) + len (m_pendingSysTxs s) < 2 ^ 64)
    (Hcurrent : - 2 ^ 63 <= m_currentNumber s < 2 ^ 63 - 1)
    (Hdue : (shouldGenerateProposal now s).1 = true) :
  exists sys p s' a b, generateProposal now utc s = Ok ((sys, Some p), s') /\
    len (metaData p) =
      Z.min (m_maxTxsPerBlock s) (len (m_pendingTxs s) + len (m_pendingSysTxs s)) /\
    metaData p = a ++ b /\ m_pendingSysTxs s = a ++ m_pendingSysTxs s' /\
    m_pendingTxs s = b ++ m_pendingTxs s' /\ (b ≠ [] -> m_pendingSysTxs s' = []) /\
    (sys = true <-> a ≠ []) /\
    m_currentNumber s < number p /\ m_startSealingNumber s <= number p.
Proof.
  apply should_same in Hdue. unfold generateProposal. rewrite Hdue. unfold sealProposal, ssize.
  rewrite (proj2 (Z.leb_le _ _)), (proj2 (Z.ltb_lt _ (2 ^ 63))) by lia. cbn [andb].
  pose proof (len_nonneg (m_pendingTxs s)). pose proof (len_nonneg (m_pendingSysTxs s)).
  rewrite uwrap_small by lia. rewrite !bind_ok. cbv zeta.
  set (n := Z.min (m_maxTxsPerBlock s) (len (m_pendingTxs s) + len (m_pendingSysTxs s))).
  set (k := Z.min n (len (m_pendingSysTxs s))).
  exists (0 <? k). do 2 eexists.
  exists (take (Z.to_nat k) (m_pendingSysTxs s)), (take (Z.to_nat (n - k)) (m_pendingTxs s)).
  split; [reflexivity |]. cbn [metaData number m_pendingSysTxs m_pendingTxs].
  rewrite !take_drop. unfold len in *. rewrite length_app, !length_take.
  split; [lia |]. split_and!; [done | done | done | | | lia |].
  - intros Hb. apply drop_ge. destruct (decide (n - k <= 0)) as [Hle | Hgt]; [| lia].
    by rewrite Z2Nat.nonpos in Hb by done.
  - rewrite Z.ltb_lt. split.
    + intros Hk Hnil. apply (f_equal length) in Hnil. rewrite length_take in Hnil. simpl in Hnil. lia.
    + intros Ha. destruct (decide (k <= 0)) as [Hle | Hgt]; [| lia].
      by rewrite Z2Nat.nonpos in Ha by done.
  - unfold shouldGenerateProposal, outOfRange in Hdue.
    destruct (Z.ltb_spec (m_sealingNumber s) (m_startSealingNumber s)); [done | lia].
Qed.

(** The barrier outlives a reset: after a proposal with system transactions
    has been given up by [asyncResetSealing], a request to seal the same block
    again yields no proposal at any time, as long as the block number known
    stays below it. *)
Theorem reset_keeps_barrier (now utc n last max now1 now2 : Z) (s s1 s2 s3 : SealingManager)
    (p : Proposal)
    (Hgen : generateProposal now utc s = Ok ((true, Some p), s1))
    (Hreset : asyncResetSealing s1 = Ok s2)
    (Hagain : asyncNotifySealProposal (number p) last max now1 s2 = Ok s3)
    (Hn : n < number p) :
  (shouldGenerateProposal now2 (asyncNoteLatestBlockNumber n s3)).1 = false.
Proof.
  apply generate_cases in Hgen as [Hdue Hgen].
  destruct (seal_barrier now utc s s1 true p Hdue Hgen) as (_ & _ & Hw).
  apply waitUntil_reset in Hreset. apply waitUntil_reset_info in Hagain.
  assert (Hwait : m_waitUntil s3 = number p) by (rewrite Hagain, Hreset; auto).
  unfold shouldGenerateProposal. destruct (outOfRange _); [done |].
  destruct s3; cbn in *. rewrite Hwait. by rewrite (proj2 (Z.ltb_lt n (number p)) Hn).
Qed.

(** A new manager takes the first request of a new chain, which starts at
    block 1, for the continuation of a request it never had: it neither fetches
    transactions nor generates a proposal for it, at any time. *)
Theorem first_request_ignored (last max now now2 unsealed : Z) (Hlast : 1 <= last < 2 ^ 63) :
  exists s, asyncNotifySealProposal 1 last max now newSealingManager = Ok s /\
    (shouldGenerateProposal now2 (asyncNoteUnSealedTxsSize unsealed s)).1 = false /\
    shouldFetchTransaction (asyncNoteUnSealedTxsSize unsealed s) = false.
Proof.
  unfold asyncNotifySealProposal, resetSealingInfo. rewrite (swrap_small 64 1), swrap_small by lia.
  destruct (Z.ltb_spec last 1); [lia |]. eexists. split; [reflexivity |].
  split; [reflexivity |]. unfold shouldFetchTransaction. by destruct (_ || _).
Qed.

(* ------------------------------------------------------------------ *)
(** ** The worker *)

(** The block numbers are far from the ends of their type. *)
Definition moderate (s : SealingManager) : Prop :=
  - 2 ^ 61 <= m_sealingNumber s < 2 ^ 61 /\ - 2 ^ 61 <= m_endSealingNumber s < 2 ^ 61 /\
  - 2 ^ 61 <= m_currentNumber s < 2 ^ 61.

Lemma ssize_ok (z : Z) : - 2 ^ 63 <= z < 2 ^ 63 -> ssize z = Ok z.
Proof.
  intros Hz. unfold ssize. by rewrite (proj2 (Z.leb_le _ z)), (proj2 (Z.ltb_lt z _)) by lia.
Qed.

Lemma should_in_range (now : Z) (s : SealingManager) :
  outOfRange s = false -> (shouldGenerateProposal now s).2 = s.
Proof.
  intros Hr. unfold shouldGenerateProposal. rewrite Hr.
  repeat match goal with |- context [if ?c then _ else _] => destruct c end; done.
Qed.

Lemma should_later (now1 now2 : Z) (s : SealingManager) :
  0 <= m_lastSealTime s <= now1 -> now1 <= now2 < 2 ^ 64 ->
  (shouldGenerateProposal now1 s).1 = true -> (shouldGenerateProposal now2 s).1 = true.
Proof.
  intros Hlast Hnow. unfold shouldGenerateProposal, reachMinSealTimeCondition.
  destruct (outOfRange s), (m_currentNumber s <? m_waitUntil s),
    (m_maxTxsPerBlock s <=? pendingTxsSize s), (pendingTxsSize s =? 0);
    try done; cbn [orb]. rewrite !uwrap_small by lia.
  destruct (Z.ltb_spec (now1 - m_lastSealTime s) (m_minSealTime s)); [done |].
  destruct (Z.ltb_spec (now2 - m_lastSealTime s) (m_minSealTime s)); [lia | done].
Qed.

Lemma fetch_ok (s : SealingManager) :
  - 2 ^ 62 <= m_sealingNumber s < 2 ^ 62 -> - 2 ^ 62 <= m_endSealingNumber s < 2 ^ 62 - 1 ->
  exists r, fetchTransactions s = Ok r.
Proof.
  intros Hs He. unfold fetchTransactions. destruct (shouldFetchTransaction s); [| eauto].
  unfold txsSizeExpectedToFetch. rewrite !ssize_ok, !bind_ok by lia.
  rewrite ssize_ok by lia. rewrite bind_ok. cbv zeta.
  destruct (_ <=? _); rewrite bind_ok; destruct (_ =? 0); eauto.
Qed.

Lemma clear_numbers (s : SealingManager) :
  m_sealingNumber (clearPendingTxs s) = m_sealingNumber s /\
  m_endSealingNumber (clearPendingTxs s) = m_endSealingNumber s.
Proof. unfold clearPendingTxs. destruct (_ =? 0); by destruct s. Qed.

Lemma should_numbers (now : Z) (s : SealingManager) :
  m_sealingNumber (shouldGenerateProposal now s).2 = m_sealingNumber s /\
  m_endSealingNumber (shouldGenerateProposal now s).2 = m_endSealingNumber s.
Proof.
  unfold shouldGenerateProposal. destruct (outOfRange s); [apply clear_numbers |].
  repeat match goal with |- context [if ?c then _ else _] => destruct c end; done.
Qed.

Lemma seal_ok (now utc : Z) (s : SealingManager) :
  moderate s -> exists sys p s', sealProposal now utc s = Ok ((sys, p), s') /\
    - 2 ^ 62 <= m_sealingNumber s' < 2 ^ 62 /\ m_endSealingNumber s' = m_endSealingNumber s.
Proof.
  intros (Hs & He & Hc). unfold sealProposal. rewrite ssize_ok, bind_ok by lia.
  do 3 eexists. split; [reflexivity |]. cbn [m_sealingNumber m_endSealingNumber].
  rewrite swrap_small by lia. split; [lia | done].
Qed.

(** Left alone, the worker always completes a turn: it hands a block to
    [submitProposal] exactly when its second check found a proposal due. *)
Theorem worker_alone_completes (nodes : list (bytes * Z)) (nodeIndex : Z) (now : nat -> Z) (utc : Z)
    (s : SealingManager) (Hs : moderate s)
    (Hlast : 0 <= m_lastSealTime s <= now 1%nat) (Hnow : now 1%nat <= now 2%nat < 2 ^ 64) :
  exists sub request s',
    executeWorker nodes nodeIndex (fun _ s => s) now utc s = Ok (sub, request, s') /\
    (sub ≠ None <->
     (shouldGenerateProposal (now 1%nat) (shouldGenerateProposal (now 0%nat) s).2).1 = true).
Proof.
  pose proof Hs as (H1 & H2 & _). unfold executeWorker. cbv zeta.
  destruct (shouldGenerateProposal (now 0%nat) s) as [d0 s0] eqn:E0.
  cbn [snd]. destruct (shouldGenerateProposal (now 1%nat) s0) as [d1 s1] eqn:E1. cbn [fst].
  destruct d1.
  - assert (Hin : outOfRange s = false).
    { destruct (outOfRange s) eqn:Hr; [| done]. unfold shouldGenerateProposal in E0. rewrite Hr in E0.
      injection E0 as <- <-. unfold shouldGenerateProposal, outOfRange in *.
      destruct (clear_numbers s) as [Hk He].
      assert (m_startSealingNumber (clearPendingTxs s) = m_startSealingNumber s) as Ha
        by (unfold clearPendingTxs; destruct (_ =? 0); by destruct s).
      rewrite Hk, He, Ha, Hr in E1. done. }
    assert (s0 = s) as -> by (rewrite <- (should_in_range (now 0%nat) s Hin), E0; done).
    assert (s1 = s) as -> by (rewrite <- (should_in_range (now 1%nat) s Hin), E1; done).
    assert (Hd : (shouldGenerateProposal (now 2%nat) s).1 = true).
    { apply (should_later (now 1%nat)); [done | done |]. by rewrite E1. }
    unfold generateProposal. rewrite (should_same _ _ Hd).
    destruct (seal_ok (now 2%nat) utc s Hs) as (sys & p & s2 & -> & Hk & He).
    rewrite !bind_ok. cbv beta iota. unfold submitProposal.
    destruct (number p <=? m_currentNumber s2); rewrite !bind_ok;
      (destruct (fetch_ok s2) as [[r s3] Hf]; [lia | lia |]; rewrite Hf);
      destruct (shouldFetchTransaction s2); do 3 eexists; (split; [reflexivity | by split]).
  - rewrite bind_ok. destruct (should_numbers (now 0%nat) s) as [K0 L0].
    destruct (should_numbers (now 1%nat) s0) as [K1 L1]. rewrite E0 in *. rewrite E1 in *. cbn in *.
    destruct (fetch_ok s1) as [[r s3] Hf]; [lia | lia |]. rewrite Hf.
    destruct (shouldFetchTransaction s1); do 3 eexists; (split; [reflexivity | by split]).
Qed.

(** Another thread resets the sealing after the worker has found a proposal due. *)
Definition resetBeforeGenerate (i : nat) (s : SealingManager) : SealingManager :=
  if (i =? 1)%nat then match asyncResetSealing s with Ok s' => s' | _ => s end else s.

(** The check and the generation are not one step: when the consensus module
    resets the sealing between them, the worker dereferences a null block. *)
Theorem worker_reset_race (nodes : list (bytes * Z)) (nodeIndex : Z) (now : nat -> Z) (utc : Z)
    (s : SealingManager) (Hs : moderate s)
    (Hdue : (shouldGenerateProposal (now 1%nat) s).1 = true) :
  executeWorker nodes nodeIndex resetBeforeGenerate now utc s = Undefined NullDeref.
Proof.
  destruct Hs as (_ & He & _). apply should_same in Hdue.
  assert (Hin : outOfRange s = false).
  { unfold shouldGenerateProposal in Hdue. by destruct (outOfRange s). }
  unfold executeWorker. cbv zeta. pose proof (should_in_range (now 0%nat) s Hin) as E0.
  destruct (shouldGenerateProposal (now 0%nat) s) as [d0 s0]. cbn in E0. subst s0.
  change (resetBeforeGenerate 0 s) with s. rewrite Hdue.
  set (s1 := clearPendingTxs (setSealingNumber (m_endSealingNumber s + 1) s)).
  assert (resetBeforeGenerate 1 s = s1) as ->.
  { unfold resetBeforeGenerate, asyncResetSealing, resetSealing. simpl Nat.eqb.
    by rewrite ssize_ok, bind_ok by lia. }
  assert (Hout : outOfRange s1 = true).
  { destruct (clear_numbers (setSealingNumber (m_endSealingNumber s + 1) s)) as [Hk Hl].
    unfold outOfRange. subst s1. rewrite Hk, Hl. destruct s; cbn.
    rewrite (proj2 (Z.ltb_lt m_endSealingNumber0 _)) by lia. apply orb_true_r. }
  unfold generateProposal, shouldGenerateProposal. by rewrite Hout.
Qed.
End SealerMachine.

(* ------------------------------------------------------------------ *)
(** ** The hypotheses can be met *)

Module SealerWitnesses.
Import SealingManager Sealer SealerMachine.

Definition tx (b : byte) : TransactionMetaData := mkMetaData [b].
Definition ordinary : list TransactionMetaData := [tx Byte.x01; tx Byte.x02].
Definition system : list TransactionMetaData := [tx Byte.x03].

(** Blocks 1 to 4 are asked for, and three transactions are fetched. *)
Definition ready : SealingManager :=
  mkManager ordinary system [] 10 1 3 1 4 2 0 false 0 500.

(** What is left once block 1 has been sealed with the system transaction. *)
Definition afterFirst : SealingManager :=
  mkManager [tx Byte.x02] [] [] 600 2 3 1 4 2 1 false 0 500.
Definition first : Proposal := mkProposal 1 900 [tx Byte.x03; tx Byte.x01].

(** Block 1 is committed and block 2 takes the rest. *)
Definition afterSecond : SealingManager :=
  mkManager [] [] [] 1200 3 3 1 4 2 1 false 1 500.
Definition second : Proposal := mkProposal 2 1500 [tx Byte.x02].

Definition history : list generation :=
  [mkGeneration false second 1; mkGeneration true first 0].
Definition sampleWorld : World := mkWorld afterSecond (ordinary ++ system) history [].

Lemma sample_reachable : reachable sampleWorld.
Proof.
  unfold reachable.
  eapply rtc_l; [apply (step_unsealed _ _ _ _ 3) |].
  eapply rtc_l; [eapply step_reset; reflexivity |].
  eapply rtc_l; [eapply (step_notify _ _ _ _ _ 1 4 2 10); reflexivity |].
  eapply rtc_l; [eapply step_fetch; reflexivity |].
  eapply rtc_l; [apply (step_fetched _ _ _ _ ordinary system); reflexivity |].
  eapply rtc_l; [eapply (step_generate _ _ _ _ _ 600 900); reflexivity |].
  eapply rtc_l; [apply (step_number _ _ _ _ 1) |].
  eapply rtc_l; [eapply (step_generate _ _ _ _ _ 1200 1500); reflexivity |].
  apply rtc_refl.
Qed.


Lemma system_transactions_barrier_witness : 1 <= 1 < 2.
Proof.
  exact (system_transactions_barrier sampleWorld [] [] [] (mkGeneration false second 1)
    (mkGeneration true first 0) sample_reachable eq_refl eq_refl).
Defined.

Lemma generate_proposal_spec_witness :
  exists sys p s' a b, generateProposal 600 900 ready = Ok ((sys, Some p), s') /\
    len (metaData p) = 2 /\ metaData p = a ++ b /\ system = a ++ m_pendingSysTxs s' /\
    ordinary = b ++ m_pendingTxs s' /\ (b ≠ [] -> m_pendingSysTxs s' = []) /\
    (sys = true <-> a ≠ []) /\ 0 < number p /\ 1 <= number p.
Proof.
  apply (generate_proposal_spec 600 900 ready);
    [vm_compute; congruence | vm_compute; reflexivity | vm_compute; split; congruence | reflexivity].
Defined.

Definition resetState : SealingManager :=
  mkManager [] [] [[[Byte.x02]]] 600 5 3 1 4 2 1 false 0 500.
Definition askedAgain : SealingManager :=
  mkManager [] [] [[[Byte.x02]]] 700 1 3 1 4 2 1 false 0 500.

Lemma reset_keeps_barrier_witness :
  (shouldGenerateProposal 5000 (asyncNoteLatestBlockNumber 0 askedAgain)).1 = false.
Proof.
  apply (reset_keeps_barrier 600 900 0 4 2 700 5000 ready afterFirst resetState askedAgain first);
    vm_compute; reflexivity.
Defined.

Lemma first_request_ignored_witness :
  exists s, asyncNotifySealProposal 1 4 2 10 newSealingManager = Ok s /\
    (shouldGenerateProposal 5000 (asyncNoteUnSealedTxsSize 3 s)).1 = false /\
    shouldFetchTransaction (asyncNoteUnSealedTxsSize 3 s) = false.
Proof. apply (first_request_ignored 4 2 10 5000 3). lia. Defined.

Definition clock (i : nat) : Z := 600 + Z.of_nat i.

Lemma worker_alone_completes_witness :
  exists sub request s',
    executeWorker [] 0 (fun _ s => s) clock 900 ready = Ok (sub, request, s') /\
    (sub ≠ None <->
     (shouldGenerateProposal (clock 1) (shouldGenerateProposal (clock 0) ready).2).1 = true).
Proof.
  apply (worker_alone_completes [] 0 clock 900 ready); vm_compute; intuition congruence.
Defined.

Lemma worker_reset_race_witness :
  executeWorker [] 0 resetBeforeGenerate clock 900 ready = Undefined NullDeref.
Proof.
  apply (worker_reset_race [] 0 clock 900 ready); [vm_compute; intuition congruence | reflexivity].
Defined.
End SealerWitnesses.
