(* ===== verification/SealerLifecycle.v ===== *)
(** * Starting and stopping the sealer

    Model of [Sealer::start] and [Sealer::stop] (libsealer/Sealer.cpp) over the worker
    thread the sealer inherits (file Worker): one thread that controls the sealer, in
    every interleaving with the worker thread, whose methods may throw.  Each read or
    write of [m_running] and each section of the worker's mutex is a step.  The thread
    pool of the sealing manager, which [stop] stops as well, is boost's; [finishWorker],
    which the sealer does not override, does nothing. *)

From Stdlib Require Import ZArith Lia List.
From stdpp Require Import base tactics decidable list option relations.
From S2P Require Import Prelude Worker.

Module SealerLifecycle.
Import Worker.

Inductive operation : Type := Start | Stop.

(** Where the controlling thread is. *)
Inductive control : Type :=
| Idle (last : option operation)  (** outside, with the call that returned last *)
| InStart (u : user)              (** [start], in [startWorking] *)
| StopCheck                       (** [stop], before [isWorking] *)
| InStop (u : user)               (** [stop], in [stopWorking] *)
| InTerminate (u : user).         (** [stop], in [terminate] *)

#[export] Instance operation_eq_dec : EqDecision operation.
Proof. solve_decision. Defined.
#[export] Instance control_eq_dec : EqDecision control.
Proof. solve_decision. Defined.

(** [thrown] tells whether a method of the worker has thrown, for the properties. *)
Record Sealer : Type := mkSealer
  { m_running : bool
  ; worker : Shared
  ; caller : control
  ; thrown : bool }.

#[export] Instance sealer_eq_dec : EqDecision Sealer.
Proof. solve_decision. Defined.

Definition newSealer : Sealer := mkSealer false newWorker (Idle None) false.

(** The start of a call: [start] up to the wait of [startWorking], [stop] up to
    [finishWorker]. *)
Definition start (s : Sealer) : Sealer :=
  if m_running s then mkSealer true (worker s) (Idle (Some Start)) (thrown s)
  else let '(w, u) := startWorking (worker s) in mkSealer false w (InStart u) (thrown s).

Definition stop (s : Sealer) : Sealer :=
  if m_running s then mkSealer false (worker s) StopCheck (thrown s)
  else mkSealer false (worker s) (Idle (Some Stop)) (thrown s).

(** The next step of the call in progress. *)
Definition proceed (s : Sealer) : Sealer :=
  let again (inCall : user -> control) (u : user) :=
    let '(w, u) := resume (worker s) u in mkSealer (m_running s) w (inCall u) (thrown s) in
  let enter (inCall : user -> control) (m : method) :=
    let '(w, u) := call m (worker s) in mkSealer (m_running s) w (inCall u) (thrown s) in
  match caller s with
  | Idle _ => s
  | InStart (Returned _) => mkSealer true (worker s) (Idle (Some Start)) (thrown s)
  | InStart u => again InStart u
  | StopCheck =>
      if isWorking (worker s) then enter InStop StopWorking
      else mkSealer (m_running s) (worker s) (Idle (Some Stop)) (thrown s)
  | InStop (Returned _) => enter InTerminate Terminate
  | InStop u => again InStop u
  | InTerminate (Returned _) => mkSealer (m_running s) (worker s) (Idle (Some Stop)) (thrown s)
  | InTerminate u => again InTerminate u
  end.

(** A step of the worker thread: only [initWorker] and [executeWorker] can throw. *)
Definition work (throws : bool) (s : Sealer) : Sealer :=
  let virtual := match thread (worker s) with AtInit | AtExec => true | _ => false end in
  mkSealer (m_running s) (threadStep throws (worker s)) (caller s) (thrown s || (virtual && throws)).

Inductive step : Sealer -> Sealer -> Prop :=
| Works s throws : step s (work throws s)
| Proceeds s : step s (proceed s)
| Calls s last op :
    caller s = Idle last -> step s (match op with Start => start s | Stop => stop s end).

Definition reachable (s : Sealer) : Prop := rtc step newSealer s.
End SealerLifecycle.

Module SealerLifecycleFacts.
Import Worker WorkerFacts SealerLifecycle.

(** The successors of a state. *)
Definition successors (s : Sealer) : list Sealer :=
  [work true s; work false s; proceed s] ++
  match caller s with Idle _ => [start s; stop s] | _ => [] end.

Lemma step_successors (s s' : Sealer) : step s s' -> s' ∈ successors s.
Proof.
  intros [t throws | t | t last op Hc]; unfold successors.
  - destruct throws; set_solver.
  - set_solver.
  - rewrite Hc. destruct op; set_solver.
Qed.

Definition states : list Sealer := Eval vm_compute in explore successors 200 [newSealer] [newSealer].

Lemma sealer_invariant (P : Sealer -> bool) (s : Sealer) :
  forallb P states = true -> reachable s -> P s = true.
Proof.
  intros HP Hs. apply (closed_invariant successors step states P newSealer s step_successors); [| exact Hs].
  rewrite HP. vm_compute. reflexivity.
Qed.

(** What a returned call promises. *)
Definition promise (s : Sealer) : bool :=
  let w := worker s in
  match caller s with
  | Idle (Some Start) =>
      m_running s && m_workerThread w && (isWorking w || thrown s)
  | Idle (Some Stop) =>
      negb (m_running s) && negb (busy w) && negb (isWorking w) &&
      (thrown s || (negb (m_workerThread w) && bool_decide (thread w = Exited)))
  | _ => true
  end.

(** C32. The sealer's calls keep what they promise, in every order and interleaving: after
    [start] it runs and its thread exists and works, unless a method has thrown; after
    [stop] it does not run, no method of the worker is executed and, unless a method has
    thrown before, its thread is gone. *)
Theorem sealer_start_stop (s : Sealer) (Hs : reachable s) : promise s = true.
Proof. apply (sealer_invariant promise); [vm_compute; reflexivity | exact Hs]. Qed.

(** *** The calls return *)

(** Steps of the worker thread, each entry telling whether the method it is in throws,
    and then three of the call in progress. *)
Definition round (s : Sealer) (cs : list bool) : Sealer :=
  proceed (proceed (proceed (fold_left (fun s throws => work throws s) cs s))).

(** The rounds a call still needs. *)
Definition needs (s : Sealer) : nat :=
  match caller s with
  | Idle _ => 0
  | InStart _ | InTerminate _ => 1
  | InStop _ => 2
  | StopCheck => 3
  end.

Lemma round_reachable (s : Sealer) (cs : list bool) : reachable s -> reachable (round s cs).
Proof.
  intros Hs. assert (reachable (fold_left (fun s throws => work throws s) cs s)) as Hw.
  { revert s Hs. induction cs as [| c cs IH]; intros s Hs; [done |]. cbn [fold_left].
    apply IH. eapply rtc_r; [exact Hs | apply Works]. }
  unfold round. do 3 (eapply rtc_r; [| apply Proceeds]). exact Hw.
Qed.

Lemma round_needs (s : Sealer) (cs : list bool) :
  reachable s -> length cs = 7%nat -> (needs (round s cs) <= pred (needs s))%nat.
Proof.
  intros Hs Hcs.
  assert (forallb (fun cs => (needs (round s cs) <=? pred (needs s))%nat) (allChoices 7) = true) as Hall
    by (apply (sealer_invariant (fun s => forallb (fun cs => (needs (round s cs) <=? pred (needs s))%nat)
          (allChoices 7))); [vm_compute; reflexivity | exact Hs]).
  rewrite forallb_forall in Hall. apply Nat.leb_le, Hall. rewrite <- Hcs. apply allChoices_complete.
Qed.

(** No call of the controlling thread waits for long: three times seven steps of the
    worker thread, whatever its methods throw, and three steps of the call after each,
    are enough for it to return. *)
Theorem sealer_calls_return (s : Sealer) (cs1 cs2 cs3 : list bool)
    (Hs : reachable s) (H1 : length cs1 = 7%nat) (H2 : length cs2 = 7%nat) (H3 : length cs3 = 7%nat) :
  exists last, caller (round (round (round s cs1) cs2) cs3) = Idle last.
Proof.
  pose proof (round_needs s cs1 Hs H1) as N1.
  pose proof (round_needs _ cs2 (round_reachable s cs1 Hs) H2) as N2.
  pose proof (round_needs _ cs3 (round_reachable _ cs2 (round_reachable s cs1 Hs)) H3) as N3.
  assert (needs s <= 3)%nat by (unfold needs; destruct (caller s); lia).
  assert (needs (round (round (round s cs1) cs2) cs3) = 0)%nat as N by lia.
  unfold needs in N. destruct (caller _); try done. by eexists.
Qed.

(** *** An exception *)

(** A step other than a call of [stop]. *)
Inductive unstopped : Sealer -> Sealer -> Prop :=
| UWorks s throws : unstopped s (work throws s)
| UProceeds s : unstopped s (proceed s)
| UStarts s last : caller s = Idle last -> unstopped s (start s).

Definition unstoppedSuccessors (s : Sealer) : list Sealer :=
  [work true s; work false s; proceed s] ++ match caller s with Idle _ => [start s] | _ => [] end.

Lemma unstopped_successors (s s' : Sealer) : unstopped s s' -> s' ∈ unstoppedSuccessors s.
Proof.
  intros [t throws | t | t last Hc]; unfold unstoppedSuccessors.
  - destruct throws; set_solver.
  - set_solver.
  - rewrite Hc. set_solver.
Qed.

(** The sealer was started, and its first turn threw. *)
Definition failed : Sealer :=
  fold_left (fun s throws => work throws s) [false; true; false]
    (proceed (proceed (fold_left (fun s throws => work throws s) [false; false; false] (start newSealer)))).

Lemma failed_reachable : reachable failed.
Proof.
  unfold reachable, failed. cbn [fold_left].
  do 3 (eapply rtc_r; [| apply Works]). do 2 (eapply rtc_r; [| apply Proceeds]).
  do 3 (eapply rtc_r; [| apply Works]). by apply rtc_once, (Calls newSealer None Start).
Qed.

(** An exception in a turn of the worker ends the sealing for good: the sealer counts as
    running, so that [start] does nothing, and no method of the worker is executed again
    until [stop] is called. *)
Theorem exception_ends_sealing :
  exists s, reachable s /\ m_running s = true /\
    forall s', rtc unstopped s s' -> m_running s' = true /\ busy (worker s') = false.
Proof.
  exists failed. split; [exact failed_reachable |]. split; [vm_compute; reflexivity |]. intros s' Hr.
  assert (m_running s' && negb (busy (worker s')) = true) as Hs; [| by destruct (m_running s'), (busy (worker s'))].
  apply (closed_invariant unstoppedSuccessors unstopped (explore unstoppedSuccessors 50 [failed] [failed])
    (fun s => m_running s && negb (busy (worker s))) failed s' unstopped_successors);
    [vm_compute; reflexivity | exact Hr].
Qed.
End SealerLifecycleFacts.

(** ** The hypotheses can be met *)

Module SealerLifecycleWitnesses.
Import Worker WorkerFacts SealerLifecycle SealerLifecycleFacts.

(** A sealer that was started and is being stopped. *)
Definition startedSealer : Sealer :=
  proceed (proceed (fold_left (fun s throws => work throws s) [false; false; false] (start newSealer))).
Definition stoppingSealer : Sealer := stop startedSealer.

Lemma startedSealer_reachable : reachable startedSealer.
Proof.
  unfold reachable, startedSealer. cbn [fold_left]. do 2 (eapply rtc_r; [| apply Proceeds]).
  do 3 (eapply rtc_r; [| apply Works]). by apply rtc_once, (Calls newSealer None Start).
Qed.

Lemma stoppingSealer_reachable : reachable stoppingSealer.
Proof. eapply rtc_r; [exact startedSealer_reachable | by apply (Calls _ (Some Start) Stop)]. Qed.

Lemma sealer_start_stop_witness :
  caller startedSealer = Idle (Some Start) /\ promise startedSealer = true.
Proof. split; [reflexivity | apply (sealer_start_stop startedSealer startedSealer_reachable)]. Defined.

Lemma sealer_calls_return_witness :
  needs stoppingSealer = 3%nat /\
  exists last, caller (round (round (round stoppingSealer (replicate 7 false)) (replicate 7 false))
                        (replicate 7 false)) = Idle last.
Proof.
  split; [reflexivity |].
  apply (sealer_calls_return stoppingSealer (replicate 7 false) (replicate 7 false) (replicate 7 false)
           stoppingSealer_reachable); reflexivity.
Defined.
End SealerLifecycleWitnesses.
