(* ===== verification/Abi.v ===== *)
(** * Contract ABI

    Model of libcodec/abi/ContractABICodec.{h,cpp}: the encoding of C++ values in
    the Solidity ABI and its decoding.  The types a template instance of the
    codec handles are a type of codes, and the values of each code a Rocq type;
    the overloads of [serialise] and [deserialize] are the branches of one
    function on codes. *)

From Stdlib Require Import ZArith Lia List.
From Stdlib Require Import Strings.String Strings.Byte.
From stdpp Require Import base tactics decidable list option.
From S2P Require Import Prelude DataConvert ScaleTypes.

Module Abi.

(** The C++ types: [s256], [u256], [bool], [Address], [string32], [std::string],
    [bytes], [std::array<T, N>], [std::vector<T>], [std::tuple<T...>]; and the
    argument packs. *)
Inductive ty : Type :=
| TInt256 | TUint256 | TBool | TAddress | TString32 | TString | TBytes
| TArray (t : ty) (n : nat)
| TVector (t : ty)
| TTuple (ts : tys)
with tys : Type :=
| TNil
| TCons (t : ty) (ts : tys).

Fixpoint val (t : ty) : Type :=
  match t with
  | TInt256 | TUint256 => Z
  | TBool => bool
  | TAddress | TString32 | TString | TBytes => bytes
  | TArray t _ | TVector t => list (val t)
  | TTuple ts => vals ts
  end
with vals (ts : tys) : Type :=
  match ts with
  | TNil => unit
  | TCons t ts => (val t * vals ts)%type
  end.

(** Exceptions of the standard library the decoder raises. *)
Inductive abi_exn : Type := LengthError | BadAlloc.

Definition MAX_BYTE_LENGTH : Z := 32.

(** [ABIDynamicType]. *)
Fixpoint ABIDynamicType (t : ty) : bool :=
  match t with
  | TString | TBytes | TVector _ | TTuple _ => true
  | TArray t _ => ABIDynamicType t
  | _ => false
  end.

(** [Length<T>], in words. *)
Fixpoint Length (t : ty) : Z :=
  match t with
  | TArray t n => if ABIDynamicType t then 1 else Z.of_nat n * Length t
  | _ => 1
  end.

(** [Offset<T...>], in words. *)
Fixpoint Offset (ts : tys) : Z :=
  match ts with
  | TNil => 0
  | TCons t ts => Length t + Offset ts
  end.

Fixpoint tuple_size (ts : tys) : Z :=
  match ts with
  | TNil => 0
  | TCons _ ts => 1 + tuple_size ts
  end.

(** [h256(u).asBytes()]. *)
Definition word (u : Z) : bytes := BigEndian.toBigEndian 32 u.

(** The result of [resize] and [populate] for a string of bytes: its length,
    its bytes and zeroes up to a multiple of 32. *)
Definition serialiseBytes (bs : bytes) : bytes :=
  let ret := word (len bs) in
  let size := u64 (len ret + u64 (u64 (len bs + 31) / MAX_BYTE_LENGTH * MAX_BYTE_LENGTH)) in
  let ret := resize (Z.to_nat size) Byte.x00 ret in
  take 32 ret ++ take (length ret - 32) bs ++ drop (32 + length bs) ret.

(** The heads of a sequence of encoded items, with their dynamic flag: the item
    itself, or its position, counted from [length] on; and the items put behind. *)
Fixpoint heads (items : list (bool * bytes)) (length : Z) : bytes :=
  match items with
  | [] => []
  | (true, out) :: items => word length ++ heads items (u64 (length + len out))
  | (false, out) :: items => out ++ heads items length
  end.
Fixpoint tails (items : list (bool * bytes)) : bytes :=
  match items with
  | [] => []
  | (true, out) :: items => out ++ tails items
  | (false, _) :: items => tails items
  end.

(** The overloads for [u256], [bool], [Address] and [string32]. *)
Definition serialiseUint (v : Z) : bytes := word v.
Definition serialiseBool (v : bool) : bytes := word (if v then 1 else 0).
Definition serialiseAddress (v : bytes) : bytes := replicate 12 Byte.x00 ++ v.
Definition serialiseString32 (v : bytes) : bytes := take 32 (v ++ replicate 32 Byte.x00).

Section Encode.
(** boost's [convert_to<u256>] of an [s256]. *)
Variable convert_to_u256 : Z -> Z.

(** The overloads for [s256] and [int]. *)
Definition serialiseInt (v : Z) : bytes := word (convert_to_u256 v).
Definition serialise_int (v : Z) : bytes := serialiseInt v.

Fixpoint serialise (t : ty) : val t -> bytes :=
  match t return val t -> bytes with
  | TInt256 => serialiseInt
  | TUint256 => serialiseUint
  | TBool => serialiseBool
  | TAddress => serialiseAddress
  | TString32 => serialiseString32
  | TString => serialiseBytes
  | TBytes => serialiseBytes
  | TArray t n => fun l =>
      let items := map (fun e => (ABIDynamicType t, serialise t e)) l in
      heads items (u64 (Z.of_nat n * MAX_BYTE_LENGTH)) ++ tails items
  | TVector t => fun l =>
      let items := map (fun e => (ABIDynamicType t, serialise t e)) l in
      word (len l) ++ heads items (u64 (len l * MAX_BYTE_LENGTH)) ++ tails items
  | TTuple ts => fun v =>
      let items := serialiseItems ts v in
      heads items (u64 (tuple_size ts * MAX_BYTE_LENGTH)) ++ tails items
  end
with serialiseItems (ts : tys) : vals ts -> list (bool * bytes) :=
  match ts return vals ts -> list (bool * bytes) with
  | TNil => fun _ => []
  | TCons t ts => fun v => (ABIDynamicType t, serialise t v.1) :: serialiseItems ts v.2
  end.

(** [abiIn]: the members [fixed] and [dynamic] it returns, after the selector. *)
Definition abiIn (hash : bytes -> bytes) (sig : bytes) (ts : tys) (v : vals ts) : bytes :=
  let items := serialiseItems ts v in
  let fixed := heads items (u64 (Offset ts * MAX_BYTE_LENGTH)) in
  let dynamic := tails items in
  match sig with
  | [] => fixed ++ dynamic
  | _ => take 4 (hash sig) ++ fixed ++ dynamic
  end.
End Encode.

Section Decode.
Context `{Platform}.
(** The bytes being decoded, and the offset conversions of the platform. *)
Variable data : bytes.

(** [data.getCroppedData(_startIndex, _count)]. *)
Definition getCroppedData (startIndex count : Z) : bytes :=
  if negb (len data =? 0) && (startIndex <=? len data) && (count <=? len data) &&
     (u64 (startIndex + count) <=? len data)
  then take (Z.to_nat count) (drop (Z.to_nat startIndex) data)
  else [].

Definition validOffset (offset : Z) : outcome abi_exn () :=
  if len data <=? offset then Throw LengthError else Ok ().

(** [deserialize] of a [u256]. *)
Definition readWord (offset : Z) : outcome abi_exn Z :=
  _ ← validOffset (u64 (u64 (offset + MAX_BYTE_LENGTH) - 1));
  Ok (BigEndian.fromBigEndian 256 (getCroppedData offset MAX_BYTE_LENGTH)).

(** The largest value [deserialize] of an [s256] takes for a positive number. *)
Definition threshold : Z := 9 * 2 ^ 252 - 1.

Definition readInt (offset : Z) : outcome abi_exn Z :=
  u ← readWord offset;
  if threshold <? u then Ok (- (2 ^ 256 - 1 - u + 1)) else Ok u.

(** [deserialize] of [std::string] and [bytes]. *)
Definition readBytes (offset : Z) : outcome abi_exn bytes :=
  n ← readWord offset;
  let size := convert_to_size n in
  _ ← validOffset (u64 (u64 (u64 (offset + MAX_BYTE_LENGTH) + size) - 1));
  Ok (getCroppedData (u64 (offset + MAX_BYTE_LENGTH)) size).

(** Where element [u] of an array or vector is, its heads starting at [offset]. *)
Definition elementOffset (t : ty) (offset u : Z) : outcome abi_exn Z :=
  let head := u64 (offset + u64 (u64 (u * Length t) * MAX_BYTE_LENGTH)) in
  if ABIDynamicType t then
    w ← readWord head; Ok (u64 (offset + convert_to_size w))
  else Ok head.

(** The loop over the elements from [u] on, [n] of them. *)
Fixpoint elements {A} (t : ty) (dec : Z -> outcome abi_exn A) (offset : Z) (n : nat) (u : Z) :
    outcome abi_exn (list A) :=
  match n with
  | O => Ok []
  | S n =>
      o ← elementOffset t offset u;
      x ← dec o;
      l ← elements t dec offset n (u64 (u + 1));
      Ok (x :: l)
  end.

Definition readBool (offset : Z) : outcome abi_exn bool :=
  ret ← readWord offset; Ok (0 <? ret).

Definition readAddress (offset : Z) : outcome abi_exn bytes :=
  _ ← validOffset (u64 (u64 (offset + MAX_BYTE_LENGTH) - 1));
  Ok (resize 20 Byte.x00 (getCroppedData (u64 (u64 (offset + MAX_BYTE_LENGTH) - 20)) 20)).

Definition readString32 (offset : Z) : outcome abi_exn bytes :=
  _ ← validOffset (u64 (u64 (offset + MAX_BYTE_LENGTH) - 1));
  Ok (resize 32 Byte.x00 (getCroppedData offset MAX_BYTE_LENGTH)).

Fixpoint deserialize (t : ty) : Z -> outcome abi_exn (val t) :=
  match t return Z -> outcome abi_exn (val t) with
  | TInt256 => readInt
  | TUint256 => readWord
  | TBool => readBool
  | TAddress => readAddress
  | TString32 => readString32
  | TString => readBytes
  | TBytes => readBytes
  | TArray t n => fun o => elements t (deserialize t) o n 0
  | TVector t => fun o =>
      w ← readWord o;
      let size := convert_to_size w in
      if max_size (val t) <? size then Throw LengthError
      else if alloc_max (val t) <? size then Throw BadAlloc
      else elements t (deserialize t) (u64 (o + MAX_BYTE_LENGTH)) (Z.to_nat size) 0
  | TTuple ts => fun o => deserializeItems ts o 0
  end
with deserializeItems (ts : tys) : Z -> Z -> outcome abi_exn (vals ts) :=
  match ts return Z -> Z -> outcome abi_exn (vals ts) with
  | TNil => fun _ _ => Ok tt
  | TCons t ts => fun offset tupleOffset =>
      x ← (if ABIDynamicType t then
             w ← readWord (u64 (offset + tupleOffset));
             deserialize t (u64 (offset + convert_to_size w))
           else deserialize t (u64 (offset + tupleOffset)));
      l ← deserializeItems ts offset (u64 (tupleOffset + Length t * MAX_BYTE_LENGTH));
      Ok (x, l)
  end.

(** [abiOutAux], the member [offset] an argument. *)
Fixpoint abiOutAux (ts : tys) : Z -> outcome abi_exn (vals ts) :=
  match ts return Z -> outcome abi_exn (vals ts) with
  | TNil => fun _ => Ok tt
  | TCons t ts => fun offset =>
      _offset ← (if ABIDynamicType t then w ← readWord offset; Ok (convert_to_size w)
                 else Ok offset);
      x ← deserialize t _offset;
      l ← abiOutAux ts (u64 (offset + Length t * MAX_BYTE_LENGTH));
      Ok (x, l)
  end.

(** [abiOut]: the values, or false when an exception was caught. *)
Definition abiOut (ts : tys) : outcome abi_exn (option (vals ts)) :=
  match abiOutAux ts 0 with
  | Ok v => Ok (Some v)
  | Throw _ => Ok None
  | Undefined f => Undefined f
  end.

(** One turn of [abiOutByFuncSelector]: the printed value of the type named, or
    none for a name it does not know.  [toString] prints boost integers. *)
Definition selectOne (toString : Z -> bytes) (type : string) (offset : Z) :
    outcome abi_exn (option bytes) :=
  if String.eqb "int" type || String.eqb "int256" type then
    s ← readInt offset; Ok (Some (toString s))
  else if String.eqb "uint" type || String.eqb "uint256" type then
    u ← readWord offset; Ok (Some (toString u))
  else if String.eqb "address" type then
    addr ← readAddress offset; Ok (Some (Hex.toHexString addr []))
  else if String.eqb "string" type then
    stringOffset ← readWord offset;
    str ← readBytes (convert_to_size stringOffset); Ok (Some str)
  else Ok None.

Fixpoint selectFrom (toString : Z -> bytes) (types : list string) (offset : Z) (out : list bytes) :
    outcome abi_exn (bool * list bytes) :=
  match types with
  | [] => Ok (true, out)
  | type :: types =>
      o ← selectOne toString type offset;
      match o with
      | Some text => selectFrom toString types (u64 (offset + MAX_BYTE_LENGTH)) (out ++ [text])
      | None => Ok (false, out)
      end
  end.

Definition abiOutByFuncSelector (toString : Z -> bytes) (types : list string) (out : list bytes) :
    outcome abi_exn (bool * list bytes) :=
  selectFrom toString types 0 out.
End Decode.
End Abi.

(* ------------------------------------------------------------------ *)
(** ** Positions in the data *)

Module AbiLayout.
Import Abi.

(** [bs] is found in [data] at offset [o]. *)
Definition at_ (data : bytes) (o : Z) (bs : bytes) : Prop :=
  exists pre post, data = pre ++ bs ++ post /\ len pre = o.

Lemma at_app (data : bytes) (o : Z) (a b : bytes) :
  at_ data o (a ++ b) -> at_ data o a /\ at_ data (o + len a) b.
Proof.
  intros (pre & post & -> & <-). split.
  - exists pre, (b ++ post). by rewrite <- app_assoc.
  - exists (pre ++ a), post. rewrite len_app, <- !app_assoc. done.
Qed.

Lemma at_bounds (data : bytes) (o : Z) (bs : bytes) :
  at_ data o bs -> 0 <= o /\ o + len bs <= len data.
Proof.
  intros (pre & post & -> & <-). rewrite !len_app.
  pose proof (len_nonneg pre). pose proof (len_nonneg post). lia.
Qed.

Lemma at_take_drop (data : bytes) (o : Z) (bs : bytes) :
  at_ data o bs -> take (length bs) (drop (Z.to_nat o) data) = bs.
Proof.
  intros (pre & post & -> & <-). unfold len. rewrite Nat2Z.id, drop_app_length.
  by rewrite take_app_length.
Qed.

Section Data.
Context `{PlatformLaw}.
Variable data : bytes.
Hypothesis Hdata : len data < 2 ^ 63.

Lemma cropped_at (o : Z) (bs : bytes) :
  at_ data o bs -> getCroppedData data o (len bs) = bs.
Proof.
  intros Ha. pose proof (at_bounds _ _ _ Ha) as [Ho Hb]. pose proof (len_nonneg bs).
  destruct bs as [| b bs].
  - unfold getCroppedData. destruct (_ && _); [| done]. by rewrite len_nil, take_0.
  - unfold getCroppedData. rewrite len_cons in *. pose proof (len_nonneg bs).
    rewrite (proj2 (Z.eqb_neq (len data) 0)) by lia. rewrite !(proj2 (Z.leb_le _ _)) by lia.
    rewrite uwrap_small by lia. rewrite (proj2 (Z.leb_le _ _)) by lia. cbn [negb andb].
    replace (Z.to_nat (1 + len bs)) with (length (b :: bs)) by (unfold len; simpl; lia).
    by apply at_take_drop.
Qed.

Lemma len_word (z : Z) : len (word z) = 32.
Proof. unfold word, len. by rewrite BigEndian.length_toBigEndian. Qed.

Lemma validOffset_at (o n : Z) (bs : bytes) :
  at_ data o bs -> 1 <= n <= len bs -> validOffset data (u64 (u64 (o + n) - 1)) = Ok ().
Proof.
  intros Ha Hn. apply at_bounds in Ha as [Ho Hb]. unfold validOffset.
  rewrite (uwrap_small 64 (o + n)) by lia. rewrite uwrap_small by lia.
  by rewrite (proj2 (Z.leb_gt _ _)) by lia.
Qed.

Lemma word_value (z : Z) : 0 <= z < 2 ^ 256 -> BigEndian.fromBigEndian 256 (word z) = z.
Proof.
  intros Hz. unfold word. rewrite BigEndian.toBigEndian_be_bytes, BigEndian.fromBigEndian_be_value.
  - rewrite be_value_be_bytes, pow256_pow2 by lia. by apply Z.mod_small.
  - unfold len. by rewrite length_be_bytes.
Qed.

Lemma readWord_at (o z : Z) :
  at_ data o (word z) -> 0 <= z < 2 ^ 256 -> readWord data o = Ok z.
Proof.
  intros Ha Hz. unfold readWord, MAX_BYTE_LENGTH.
  rewrite (validOffset_at o 32 (word z)), bind_ok by (by rewrite ?len_word).
  rewrite <- (len_word z), cropped_at by done. by rewrite word_value.
Qed.
End Data.
End AbiLayout.

(* ------------------------------------------------------------------ *)
(** ** Round trip *)

Module AbiFacts.
Import Abi AbiLayout.

#[local] Opaque word.

Scheme ty_mut := Induction for ty Sort Prop
with tys_mut := Induction for tys Sort Prop.
Combined Scheme ty_tys_ind from ty_mut, tys_mut.

(** Every member of the pack is encoded in place. *)
Fixpoint allStatic (ts : tys) : bool :=
  match ts with TNil => true | TCons t ts => negb (ABIDynamicType t) && allStatic ts end.

(** The values the codec carries: integers of their width, the negative ones
    down to [-7 * 2^252]; arrays of their size; arrays and vectors whose size in
    bytes is a [size_t]; vectors that can be allocated;
    tuples whose heads take one word each, unless nothing lies behind them. *)
Fixpoint ok `{Platform} (t : ty) : val t -> Prop :=
  match t return val t -> Prop with
  | TInt256 => fun v => - (7 * 2 ^ 252) <= v < 2 ^ 255
  | TUint256 => fun v => 0 <= v < 2 ^ 256
  | TBool => fun _ => True
  | TAddress => fun v => length v = 20%nat
  | TString32 => fun v => length v = 32%nat
  | TString | TBytes => fun v => len v < 2 ^ 62
  | TArray t n => fun l => length l = n /\ Forall (ok t) l /\ len l < 2 ^ 59
  | TVector t => fun l =>
      Forall (ok t) l /\ len l < 2 ^ 59 /\ len l <= max_size (val t) /\ len l <= alloc_max (val t)
  | TTuple ts => fun v => okItems ts v /\ (tuple_size ts = Offset ts \/ allStatic ts = true)
  end
with okItems `{Platform} (ts : tys) : vals ts -> Prop :=
  match ts return vals ts -> Prop with
  | TNil => fun _ => True
  | TCons t ts => fun v => ok t v.1 /\ okItems ts v.2
  end.

Definition hasDynamic (items : list (bool * bytes)) : bool := existsb fst items.

(** The items lie in the data, their heads from [base + hp] on and what is put
    behind from [base + l] on. *)
Definition laid (data : bytes) (base hp l : Z) (items : list (bool * bytes)) : Prop :=
  0 <= base /\ 0 <= hp /\ 0 <= l /\ at_ data (base + hp) (heads items l) /\
  (hasDynamic items = true -> at_ data (base + l) (tails items)).

Lemma laid_static (data : bytes) (base hp l : Z) (out : bytes) (items : list (bool * bytes)) :
  laid data base hp l ((false, out) :: items) ->
  at_ data (base + hp) out /\ laid data base (hp + len out) l items.
Proof.
  intros (Hb & Hh & Hl & Ha & Ht). cbn [heads] in Ha. apply at_app in Ha as [Ha1 Ha2].
  split; [done |]. pose proof (len_nonneg out). split_and!; [lia | lia | lia | | exact Ht].
  by rewrite Z.add_assoc.
Qed.

Lemma laid_dynamic (data : bytes) (base hp l : Z) (out : bytes) (items : list (bool * bytes)) :
  len data < 2 ^ 63 ->
  laid data base hp l ((true, out) :: items) ->
  at_ data (base + hp) (word l) /\ at_ data (base + l) out /\
  laid data base (hp + 32) (l + len out) items.
Proof.
  intros Hd (Hb & Hh & Hl & Ha & Ht). specialize (Ht eq_refl). cbn [heads tails] in *.
  apply at_app in Ht as [Ht1 Ht2]. apply at_app in Ha as [Ha1 Ha2]. rewrite len_word in Ha2.
  apply at_bounds in Ht1 as Hbound. pose proof (len_nonneg out).
  rewrite uwrap_small in Ha2 by lia.
  split; [done | split; [done |]]. split_and!; [lia | lia | lia | |]; rewrite ?Z.add_assoc; auto.
Qed.

Lemma laid_array (data : bytes) (base l : Z) (items : list (bool * bytes)) :
  0 <= l < 2 ^ 64 -> (hasDynamic items = true -> len (heads items l) = l) ->
  at_ data base (heads items l ++ tails items) -> laid data base 0 l items.
Proof.
  intros Hl Hlen Ha. apply at_bounds in Ha as Hb. apply at_app in Ha as [Ha1 Ha2].
  split_and!; [lia | lia | lia | by rewrite Z.add_0_r |].
  intros Hdyn. by rewrite (Hlen Hdyn) in Ha2.
Qed.

Lemma hasDynamic_map {A} (b : bool) (f : A -> bytes) (l : list A) :
  hasDynamic (map (fun e => (b, f e)) l) = true -> b = true.
Proof. induction l as [| x l IH]; [done |]. cbn. by destruct b. Qed.

Lemma len_heads_dynamic {A} (f : A -> bytes) (xs : list A) (l : Z) :
  len (heads (map (fun e => (true, f e)) xs) l) = len xs * 32.
Proof.
  revert l. induction xs as [| x xs IH]; intros l; [done |]. cbn [map heads].
  rewrite len_app, len_word, IH, len_cons. lia.
Qed.

Lemma len_heads_static {A} (f : A -> bytes) (xs : list A) (l n : Z) :
  Forall (fun x => len (f x) = n) xs -> len (heads (map (fun e => (false, f e)) xs) l) = len xs * n.
Proof.
  induction 1 as [| x xs Hx _ IH]; [done |]. cbn [map heads]. rewrite len_app, IH, len_cons, Hx. lia.
Qed.

Lemma tails_static {A} (f : A -> bytes) (xs : list A) : tails (map (fun e => (false, f e)) xs) = [].
Proof. by induction xs. Qed.

Section RoundTrip.
Context `{PlatformLaw}.
Variable convert_to_u256 : Z -> Z.
(** Conversion to an unsigned type keeps the value modulo its range. *)
Hypothesis Hconvert : forall z, - 2 ^ 256 < z < 2 ^ 256 -> convert_to_u256 z = z mod 2 ^ 256.

Abbreviation ser := (serialise convert_to_u256).

Lemma len_static (t : ty) (v : val t) :
  ABIDynamicType t = false -> ok t v -> len (ser t v) = 32 * Length t.
Proof.
  induction t as [| | | | | | | t IH n | |]; cbn [serialise ABIDynamicType Length ok val] in *;
    intros Hdyn Hok; try discriminate Hdyn;
    unfold serialiseInt, serialiseUint, serialiseBool, serialiseAddress, serialiseString32;
    lazymatch goal with |- len (word _) = _ => by rewrite len_word | _ => idtac end.
  - rewrite len_app. unfold len. rewrite length_replicate, Hok. done.
  - unfold len. by rewrite length_take, length_app, length_replicate, Hok.
  - destruct Hok as (Hn & Hall & _). rewrite Hdyn, tails_static, app_nil_r.
    assert (Hl : len v = Z.of_nat n) by (unfold len; f_equal; exact Hn).
    rewrite (len_heads_static _ _ _ (32 * Length t)); [rewrite Hl; lia |].
    eapply Forall_impl; [| exact Hall]. intros a Ha. by apply IH.
Qed.

Lemma serialiseBytes_eq (bs : bytes) :
  len bs < 2 ^ 62 -> exists pad, serialiseBytes bs = word (len bs) ++ bs ++ pad.
Proof.
  intros Hn. pose proof (len_nonneg bs) as H0'. unfold serialiseBytes, MAX_BYTE_LENGTH.
  rewrite len_word. rewrite (uwrap_small 64 (len bs + 31)) by lia.
  assert (Hp : len bs <= (len bs + 31) / 32 * 32 <= len bs + 31).
  { pose proof (Z.div_mod (len bs + 31) 32). pose proof (Z.mod_pos_bound (len bs + 31) 32). lia. }
  set (p := (len bs + 31) / 32 * 32) in *.
  rewrite (uwrap_small 64 p) by lia. rewrite uwrap_small by lia.
  assert (Hw : length (word (len bs)) = 32%nat) by (apply Nat2Z.inj; exact (len_word (len bs))).
  rewrite resize_ge by lia. rewrite Hw.
  rewrite take_app_le, take_ge by lia.
  rewrite length_app, length_replicate, Hw. rewrite (take_ge bs) by (unfold len in *; lia).
  eauto.
Qed.

Section Data.
Variable data : bytes.
Hypothesis Hdata : len data < 2 ^ 62.

Lemma readBytes_at (o : Z) (bs : bytes) :
  at_ data o (serialiseBytes bs) -> len bs < 2 ^ 62 -> readBytes data o = Ok bs.
Proof.
  intros Ha Hn. destruct (serialiseBytes_eq bs Hn) as [pad Heq]. rewrite Heq in Ha.
  apply at_bounds in Ha as Hb. pose proof (len_nonneg bs) as Hl. pose proof (len_nonneg pad).
  rewrite !len_app, len_word in Hb.
  pose proof (at_app _ _ _ _ Ha) as [Hw Hrest]. rewrite len_word in Hrest.
  pose proof (at_app _ _ _ _ Hrest) as [Hbs _].
  unfold readBytes, MAX_BYTE_LENGTH. rewrite (readWord_at data ltac:(lia) o (len bs)), bind_ok by (done || lia).
  cbv zeta. rewrite convert_exact by lia. rewrite (uwrap_small 64 (o + 32)) by lia.
  replace (o + 32 + len bs) with (o + (32 + len bs)) by lia.
  rewrite (validOffset_at data ltac:(lia) o (32 + len bs) (word (len bs) ++ bs ++ pad)), bind_ok
    by (rewrite ?len_app, ?len_word; done || lia).
  by rewrite cropped_at by (done || lia).
Qed.

(** The loop over the elements reads what the layout holds. *)
Lemma elements_laid (t : ty) (dec : Z -> outcome abi_exn (val t)) (base l u : Z) (xs : list (val t)) :
  (forall o v, at_ data o (ser t v) -> ok t v -> dec o = Ok v) ->
  Forall (ok t) xs -> 0 <= u -> u + len xs < 2 ^ 59 ->
  laid data base (u * Length t * 32) l (map (fun e => (ABIDynamicType t, ser t e)) xs) ->
  elements data t dec base (length xs) u = Ok xs.
Proof.
  intros Hdec Hok. revert l u. induction Hok as [| x xs Hx _ IH]; intros l u Hu Hn Hlaid; [done |].
  rewrite len_cons in Hn. pose proof (len_nonneg xs). cbn [elements length].
  pose proof Hlaid as (Hb & Hh & Hl & Ha & _). apply at_bounds in Ha as Hab.
  pose proof (len_nonneg (heads (map (fun e => (ABIDynamicType t, ser t e)) (x :: xs)) l)).
  unfold elementOffset, MAX_BYTE_LENGTH.
  rewrite (uwrap_small 64 (u * Length t)) by lia.
  rewrite (uwrap_small 64 (u * Length t * 32)) by lia. rewrite (uwrap_small 64 (base + _)) by lia.
  rewrite (uwrap_small 64 (u + 1)) by lia.
  cbn [map] in Hlaid. destruct (ABIDynamicType t) eqn:Hdyn.
  - apply laid_dynamic in Hlaid as (Hw & Hx' & Hrest); [| lia].
    apply at_bounds in Hx' as Hxb. pose proof (len_nonneg (ser t x)).
    rewrite (readWord_at data ltac:(lia) _ l), bind_ok by (done || lia).
    rewrite convert_exact by lia. rewrite uwrap_small by lia. rewrite bind_ok.
    rewrite (Hdec _ x) by done. rewrite bind_ok.
    assert (Length t = 1) as HL by (destruct t; cbn in *; try done; by rewrite Hdyn).
    rewrite (IH (l + len (ser t x))); [done | lia | lia |].
    rewrite HL in *. by replace ((u + 1) * 1 * 32) with (u * 1 * 32 + 32) by lia.
  - apply laid_static in Hlaid as (Hx' & Hrest). rewrite bind_ok, (Hdec _ x), bind_ok by done.
    rewrite (len_static t x) in Hrest by done. rewrite (IH l); [done | lia | lia |].
    by replace ((u + 1) * Length t * 32) with (u * Length t * 32 + 32 * Length t) by lia.
Qed.

Lemma readInt_at (o v : Z) :
  at_ data o (word (convert_to_u256 v)) -> - (7 * 2 ^ 252) <= v < 2 ^ 255 -> readInt data o = Ok v.
Proof.
  intros Ha Hv. assert (2 ^ 255 = 8 * 2 ^ 252) by reflexivity.
  assert (2 ^ 256 = 16 * 2 ^ 252) by reflexivity. rewrite Hconvert in Ha by lia.
  unfold readInt, threshold. pose proof (Z.mod_pos_bound v (2 ^ 256)).
  rewrite (readWord_at data ltac:(lia) o (v mod 2 ^ 256)), bind_ok by (done || lia).
  destruct (decide (0 <= v)) as [Hpos | Hneg].
  - rewrite Z.mod_small by lia. by rewrite (proj2 (Z.ltb_ge _ v)) by lia.
  - rewrite (Z.mod_eq v) by lia. replace (v / 2 ^ 256) with (-1)
      by (apply (Z.div_unique v (2 ^ 256) (-1) (v + 2 ^ 256)); lia).
    rewrite (proj2 (Z.ltb_lt _ _)) by lia. f_equal. lia.
Qed.

Lemma readAddress_at (o : Z) (v : bytes) :
  at_ data o (serialiseAddress v) -> length v = 20%nat -> readAddress data o = Ok v.
Proof.
  unfold serialiseAddress. intros Ha Hv. assert (Hl : len v = 20) by (unfold len; by rewrite Hv).
  apply at_bounds in Ha as Hb. pose proof (at_app _ _ _ _ Ha) as [_ Hv'].
  rewrite len_app in Hb. change (len (replicate 12 Byte.x00)) with 12 in *.
  unfold readAddress, MAX_BYTE_LENGTH.
  rewrite (validOffset_at data ltac:(lia) o 32 (replicate 12 Byte.x00 ++ v)), bind_ok
    by (try done; rewrite len_app; change (len (replicate 12 Byte.x00)) with 12; lia).
  rewrite (uwrap_small 64 (o + 32)) by lia. rewrite uwrap_small by lia.
  replace (o + 32 - 20) with (o + 12) by lia. rewrite <- Hl, cropped_at by (done || lia).
  f_equal. by rewrite resize_all_alt.
Qed.

Lemma readString32_at (o : Z) (v : bytes) :
  at_ data o (serialiseString32 v) -> length v = 32%nat -> readString32 data o = Ok v.
Proof.
  unfold serialiseString32. intros Ha Hv. rewrite take_app_le, take_ge in Ha by lia.
  assert (Hl : len v = 32) by (unfold len; by rewrite Hv).
  unfold readString32, MAX_BYTE_LENGTH.
  rewrite (validOffset_at data ltac:(lia) o 32 v), bind_ok by (done || lia).
  rewrite <- Hl, cropped_at by (done || lia). f_equal. by rewrite resize_all_alt.
Qed.

Lemma Length_dynamic (t : ty) : ABIDynamicType t = true -> Length t = 1.
Proof. destruct t; cbn; try done. by intros ->. Qed.

Lemma len_heads_items (ts : tys) (v : vals ts) (l : Z) :
  okItems ts v -> len (heads (serialiseItems convert_to_u256 ts v) l) = Offset ts * 32.
Proof.
  revert v l. induction ts as [| t ts IH]; intros v l Hok; [done |].
  destruct Hok as [Ht Hts]. cbn [serialiseItems Offset].
  destruct (ABIDynamicType t) eqn:Hdyn; cbn [heads]; rewrite len_app, IH by done.
  - rewrite len_word, (Length_dynamic t) by done. lia.
  - rewrite len_static by done. lia.
Qed.

Lemma allStatic_items (ts : tys) (v : vals ts) :
  allStatic ts = true -> hasDynamic (serialiseItems convert_to_u256 ts v) = false.
Proof.
  revert v. induction ts as [| t ts IH]; intros v Hs; [done |].
  cbn in *. destruct (ABIDynamicType t); [done |]. cbn in *. by apply IH.
Qed.

Definition decodes (t : ty) : Prop :=
  forall v o, at_ data o (ser t v) -> ok t v -> deserialize data t o = Ok v.
Definition decodesItems (ts : tys) : Prop :=
  forall v base hp l, laid data base hp l (serialiseItems convert_to_u256 ts v) -> okItems ts v ->
    deserializeItems data ts base hp = Ok v.

(** The branches for arrays and vectors, stated on lists. *)
Definition listItems (t : ty) (l : list (val t)) : list (bool * bytes) :=
  map (fun e => (ABIDynamicType t, ser t e)) l.

Lemma ser_array (t : ty) (n : nat) (l : list (val t)) :
  ser (TArray t n) l = heads (listItems t l) (u64 (Z.of_nat n * 32)) ++ tails (listItems t l).
Proof. reflexivity. Qed.

Lemma ser_vector (t : ty) (l : list (val t)) :
  ser (TVector t) l = word (len l) ++ heads (listItems t l) (u64 (len l * 32)) ++ tails (listItems t l).
Proof. reflexivity. Qed.

Lemma ok_array (t : ty) (n : nat) (l : list (val t)) :
  ok (TArray t n) l = (length l = n /\ Forall (ok t) l /\ len l < 2 ^ 59).
Proof. reflexivity. Qed.

Lemma ok_vector (t : ty) (l : list (val t)) :
  ok (TVector t) l =
  (Forall (ok t) l /\ len l < 2 ^ 59 /\ len l <= max_size (val t) /\ len l <= alloc_max (val t)).
Proof. reflexivity. Qed.

Lemma laid_list (t : ty) (l : list (val t)) (o : Z) :
  len l < 2 ^ 59 -> at_ data o (heads (listItems t l) (len l * 32) ++ tails (listItems t l)) ->
  laid data o 0 (len l * 32) (listItems t l).
Proof.
  intros Hl Ha. pose proof (len_nonneg l). apply laid_array; [lia | | done].
  unfold listItems. intros ->%hasDynamic_map. by rewrite len_heads_dynamic.
Qed.

Lemma decodes_array (t : ty) (n : nat) : decodes t -> decodes (TArray t n).
Proof.
  intros IH v. change (list (val t)) in v. intros o Ha Hok. rewrite ser_array in Ha. rewrite ok_array in Hok.
  destruct Hok as (Hn & Hall & Hsize). subst n. change (Z.of_nat (length v)) with (len v) in Ha.
  pose proof (len_nonneg v). rewrite uwrap_small in Ha by lia.
  apply (elements_laid t (deserialize data t) o (len v * 32));
    [intros; by apply IH | exact Hall | lia | lia | by apply laid_list].
Qed.

Lemma decodes_vector (t : ty) : decodes t -> decodes (TVector t).
Proof.
  intros IH v. change (list (val t)) in v. intros o Ha Hok. rewrite ser_vector in Ha. rewrite ok_vector in Hok.
  destruct Hok as (Hall & Hsize & Hmax & Halloc). pose proof (len_nonneg v).
  apply at_bounds in Ha as Hb. rewrite len_app, len_word in Hb.
  match type of Hb with context [32 + len ?x] => pose proof (len_nonneg x) end.
  apply at_app in Ha as [Hw Ha]. rewrite len_word in Ha. rewrite uwrap_small in Ha by lia.
  cbn [deserialize]. unfold MAX_BYTE_LENGTH.
  rewrite (readWord_at data ltac:(lia) o (len v)), bind_ok by (done || lia).
  cbv zeta. rewrite convert_exact by lia. rewrite (uwrap_small 64 (o + 32)) by lia.
  rewrite !(proj2 (Z.ltb_ge _ _)) by done. unfold len at 1. rewrite Nat2Z.id.
  apply (elements_laid t (deserialize data t) (o + 32) (len v * 32));
    [intros; by apply IH | exact Hall | lia | lia | by apply laid_list].
Qed.

Lemma decodes_tuple (ts : tys) : decodesItems ts -> decodes (TTuple ts).
Proof.
  intros IH v o Ha [Hok Hfit]. cbn [serialise deserialize] in *. unfold MAX_BYTE_LENGTH in *.
  pose proof (uwrap_range 64 (tuple_size ts * 32) ltac:(lia)) as Hr.
  apply (IH v o 0 (u64 (tuple_size ts * 32))); [| done].
  apply laid_array; [done | | done]. intros Hdyn.
  destruct Hfit as [Hfit | Hfit]; [| by rewrite allStatic_items in Hdyn].
  apply at_bounds in Ha. rewrite len_app in Ha. rewrite len_heads_items in Ha |- * by done.
  match type of Ha with context [len ?x] => pose proof (len_nonneg x) end.
  assert (0 <= Offset ts * 32).
  { rewrite <- (len_heads_items ts v 0) by done. apply len_nonneg. }
  rewrite Hfit, uwrap_small by lia. done.
Qed.

Lemma decodes_cons (t : ty) (ts : tys) : decodes t -> decodesItems ts -> decodesItems (TCons t ts).
Proof.
  intros IH IHs [x v] base hp l Hlaid [Hx Hv]. cbn [serialiseItems deserializeItems fst snd] in *.
  unfold MAX_BYTE_LENGTH. pose proof Hlaid as (Hb & Hh & Hl & Ha & _).
  apply at_bounds in Ha as Hab. destruct (ABIDynamicType t) eqn:Hdyn.
  - cbn [heads] in Hab. rewrite len_app, len_word in Hab.
    match type of Hab with context [32 + len ?y] => pose proof (len_nonneg y) end.
    apply laid_dynamic in Hlaid as (Hw & Hx' & Hrest); [| lia].
    apply at_bounds in Hx' as Hxb. pose proof (len_nonneg (ser t x)).
    rewrite (uwrap_small 64 (base + hp)) by lia.
    rewrite (readWord_at data ltac:(lia) _ l), bind_ok by (done || lia).
    rewrite convert_exact by lia. rewrite (uwrap_small 64 (base + l)) by lia.
    rewrite (IH x), bind_ok by done. rewrite (Length_dynamic t) by done.
    rewrite uwrap_small by lia. by rewrite (IHs v base (hp + 1 * 32) (l + len (ser t x))).
  - cbn [heads] in Hab. rewrite len_app, len_static in Hab by done.
    match type of Hab with context [_ * Length t + len ?y] => pose proof (len_nonneg y) end.
    apply laid_static in Hlaid as (Hx' & Hrest). rewrite len_static in Hrest by done.
    pose proof (len_nonneg (ser t x)) as Hlx. rewrite len_static in Hlx by done.
    rewrite (uwrap_small 64 (base + hp)) by lia. rewrite (IH x), bind_ok by done.
    rewrite uwrap_small by lia. rewrite (Z.mul_comm (Length t)). by rewrite (IHs v base _ l).
Qed.

Lemma decodes_all : (forall t, decodes t) /\ (forall ts, decodesItems ts).
Proof.
  apply ty_tys_ind; auto using decodes_array, decodes_vector, decodes_tuple, decodes_cons.
  - intros v o Ha Hok. by apply readInt_at.
  - intros v o Ha Hok. by apply readWord_at; [lia | |].
  - intros v o Ha _. cbn [deserialize]. unfold readBool. cbn [serialise] in Ha.
    rewrite (readWord_at data ltac:(lia) o (if v then 1 else 0)), bind_ok by (done || destruct v; lia).
    by destruct v.
  - intros v o Ha Hok. by apply readAddress_at.
  - intros v o Ha Hok. by apply readString32_at.
  - intros v o Ha Hok. by apply readBytes_at.
  - intros v o Ha Hok. by apply readBytes_at.
  - intros [] base hp l _ _. done.
Qed.

(** [abiOutAux] reads a pack as [deserialize] reads the items of a tuple at 0. *)
Lemma abiOutAux_items (ts : tys) (v : vals ts) (hp l : Z) :
  laid data 0 hp l (serialiseItems convert_to_u256 ts v) -> okItems ts v ->
  abiOutAux data ts hp = Ok v.
Proof.
  revert v hp l. induction ts as [| t ts IH]; intros v hp l Hlaid Hok; [by destruct v |].
  destruct v as [x v], Hok as [Hx Hv]. cbn [serialiseItems abiOutAux fst snd] in *.
  unfold MAX_BYTE_LENGTH. pose proof Hlaid as (_ & Hh & Hl & Ha & _).
  apply at_bounds in Ha as Hab. destruct (ABIDynamicType t) eqn:Hdyn.
  - cbn [heads] in Hab. rewrite len_app, len_word in Hab.
    match type of Hab with context [32 + len ?y] => pose proof (len_nonneg y) end.
    apply laid_dynamic in Hlaid as (Hw & Hx' & Hrest); [| lia]. rewrite Z.add_0_l in *.
    apply at_bounds in Hx' as Hxb. pose proof (len_nonneg (ser t x)).
    rewrite (readWord_at data ltac:(lia) _ l), bind_ok by (done || lia).
    rewrite convert_exact, bind_ok by lia. rewrite (proj1 decodes_all t x), bind_ok by done.
    rewrite (Length_dynamic t) by done. rewrite uwrap_small by lia.
    by rewrite (IH v (hp + 1 * 32) (l + len (ser t x))).
  - cbn [heads] in Hab. rewrite len_app, len_static in Hab by done.
    match type of Hab with context [_ * Length t + len ?y] => pose proof (len_nonneg y) end.
    apply laid_static in Hlaid as (Hx' & Hrest). rewrite len_static in Hrest by done.
    rewrite Z.add_0_l in Hx'. pose proof (len_nonneg (ser t x)) as Hlx. rewrite len_static in Hlx by done.
    rewrite bind_ok, (proj1 decodes_all t x), bind_ok by done.
    rewrite uwrap_small by lia. rewrite (Z.mul_comm (Length t)). by rewrite (IH v _ l).
Qed.
End Data.
End RoundTrip.

(** The bytes a call puts before the arguments. *)
Definition selectorSize (sig : bytes) : nat := match sig with [] => 0 | _ => 4 end.

Lemma drop_selector (hash : bytes -> bytes) (sig body : bytes) :
  length (hash sig) = 32%nat ->
  drop (selectorSize sig) (match sig with [] => body | _ => take 4 (hash sig) ++ body end) = body.
Proof.
  intros Hh. destruct sig; [done |]. cbn [selectorSize].
  apply drop_app_length'. by rewrite length_take, Hh.
Qed.


(** The smallest negative numbers do not survive: an [int256] below
    [-7 * 2^252] comes back as the positive number [2^256] above it. *)
Theorem abi_int_misread `{PlatformLaw} (convert_to_u256 : Z -> Z) (hash : bytes -> bytes) (v : Z)
    (Hconvert : forall z, - 2 ^ 256 < z < 2 ^ 256 -> convert_to_u256 z = z mod 2 ^ 256)
    (Hv : - 2 ^ 255 <= v < - (7 * 2 ^ 252)) :
  let ts := TCons TInt256 TNil in
  abiOut (abiIn convert_to_u256 hash [] ts (v, tt)) ts = Ok (Some (v + 2 ^ 256, tt)).
Proof.
  assert (2 ^ 255 = 8 * 2 ^ 252) by reflexivity. assert (2 ^ 256 = 16 * 2 ^ 252) by reflexivity.
  cbv zeta. unfold abiIn. cbn [serialiseItems ABIDynamicType serialise heads tails fst snd].
  unfold serialiseInt. rewrite !app_nil_r, Hconvert by lia.
  replace (v mod 2 ^ 256) with (v + 2 ^ 256)
    by (apply (Z.mod_unique_pos v (2 ^ 256) (-1)); lia).
  unfold abiOut. cbn [abiOutAux ABIDynamicType]. rewrite bind_ok. cbn [deserialize].
  unfold readInt. rewrite (readWord_at _ ltac:(by rewrite len_word) 0 (v + 2 ^ 256)), bind_ok.
  - unfold threshold. rewrite (proj2 (Z.ltb_ge _ _)) by lia. by rewrite !bind_ok.
  - exists [], []. by rewrite app_nil_r.
  - lia.
Qed.
End AbiFacts.

(* ------------------------------------------------------------------ *)
(** ** Concrete calls *)

Module AbiWitnesses.
Import Abi AbiFacts.

Definition toUnsigned (z : Z) : Z := z mod 2 ^ 256.
Definition sampleDigest (x : bytes) : bytes := resize 32 Byte.x00 x.

(** [f(string, int256, uint256[2], bytes[], (bool, address))]. *)
Definition sampleTypes : tys :=
  TCons TString (TCons TInt256 (TCons (TArray TUint256 2) (TCons (TVector TBytes)
    (TCons (TTuple (TCons TBool (TCons TAddress TNil))) TNil)))).
Definition sampleValues : vals sampleTypes :=
  (list_byte_of_string "bcos", (-5, ([1; 2 ^ 255], ([[Byte.x01]; []],
    ((true, (replicate 20 Byte.xee, tt)), tt))))).


Lemma abi_int_misread_witness :
  let ts := TCons TInt256 TNil in
  abiOut (abiIn toUnsigned sampleDigest [] ts (- 2 ^ 255, tt)) ts = Ok (Some (- 2 ^ 255 + 2 ^ 256, tt)).
Proof.
  apply (abi_int_misread toUnsigned sampleDigest (- 2 ^ 255)); [reflexivity |].
  vm_compute. split; congruence.
Defined.

(** A tuple of [uint256[2]] and [string]: two items, three words of heads. *)
Definition tupleTypes : tys := TCons (TTuple (TCons (TArray TUint256 2) (TCons TString TNil))) TNil.
Definition tupleValues (text : bytes) : vals tupleTypes := (([1; 2], (text, tt)), tt).

(** A tuple with a static array in front of a dynamic member is encoded with
    positions counted for one word per member: its own decoder rejects the
    encoding, or returns other text than was encoded. *)
Theorem abi_tuple_misplaced :
  abiOut (abiIn toUnsigned sampleDigest [] tupleTypes (tupleValues [])) tupleTypes = Ok None /\
  let text := replicate 64 Byte.x61 in
  exists text', text' ≠ text /\
    abiOut (abiIn toUnsigned sampleDigest [] tupleTypes (tupleValues text)) tupleTypes =
      Ok (Some (tupleValues text')).
Proof.
  split; [vm_compute; reflexivity |]. cbv zeta.
  exists (word 64 ++ replicate 32 Byte.x61). split; [vm_compute; congruence | vm_compute; reflexivity].
Qed.

(** Offsets are not checked for wrap-around: a position just below [2^64]
    passes [validOffset] and the argument is decoded as an empty string. *)
Theorem abi_offset_wraps `{PlatformLaw} :
  abiOut (word (2 ^ 64 - 31)) (TCons TString TNil) = Ok (Some ([], tt)).
Proof.
  unfold abiOut. cbn [abiOutAux ABIDynamicType].
  rewrite (AbiLayout.readWord_at _ ltac:(by rewrite AbiLayout.len_word) 0 (2 ^ 64 - 31));
    [| by exists [], []; rewrite app_nil_r | lia].
  rewrite !bind_ok, convert_exact by lia. cbn [deserialize]. unfold readBytes.
  assert (Hw : readWord (word (2 ^ 64 - 31)) (2 ^ 64 - 31) = Ok 0) by (vm_compute; reflexivity).
  rewrite Hw, bind_ok. cbv zeta. rewrite convert_exact by lia. vm_compute. reflexivity.
Qed.

Lemma abi_offset_wraps_witness :
  abiOut (word (2 ^ 64 - 31)) (TCons TString TNil) = Ok (Some ([], tt)).
Proof. exact (abi_offset_wraps (H0 := lp64_law)). Defined.
End AbiWitnesses.
