(* ===== verification/AbiType.v ===== *)
(** * ABI type names

    Model of libcodec/abi/ContractABIType.{h,cpp}: the parser of type names such
    as [uint256[2][]] and of function signatures such as
    [transfer(string,uint256)].  Strings are lists of bytes; [boost::split] is a
    parameter. *)

From Stdlib Require Import ZArith Lia List.
From Stdlib Require Import Strings.String Strings.Byte.
From stdpp Require Import base tactics decidable list option sets.
From S2P Require Import Prelude.

Module AbiType.

Inductive ABI_ELEMENTARY_TYPE : Type :=
| INVALID | BOOL | INT | UINT | BYTESN | ADDR | BYTES | STRING | FIXED | UNFIXED.

#[export] Instance elementary_eq_dec : EqDecision ABI_ELEMENTARY_TYPE.
Proof. solve_decision. Defined.

Definition setUint : list string :=
["uint"; "uint8"; "uint16"; "uint24"; "uint32"; "uint40"; "uint48"; "uint56"; "uint64";
   "uint72"; "uint80"; "uint88"; "uint96"; "uint104"; "uint112"; "uint120"; "uint128";
   "uint136"; "uint144"; "uint152"; "uint160"; "uint168"; "uint176"; "uint184"; "uint192";
   "uint200"; "uint208"; "uint216"; "uint224"; "uint232"; "uint240"; "uint248"; "uint256"]%string.

Definition setInt : list string :=
  ["int"; "int8"; "int16"; "int24"; "int32"; "int40"; "int48"; "int56"; "int64"; "int72";
   "int80"; "int88"; "int96"; "int104"; "int112"; "int120"; "int128"; "int136"; "int144";
   "int152"; "int160"; "int168"; "int176"; "int184"; "int192"; "int200"; "int208";
   "int216"; "int224"; "int232"; "int240"; "int248"; "int256"]%string.

Definition setByteN : list string :=
  ["bytes1"; "bytes2"; "bytes3"; "bytes4"; "bytes5"; "bytes6"; "bytes7"; "bytes8";
   "bytes9"; "bytes10"; "bytes11"; "bytes12"; "bytes13"; "bytes14"; "bytes15"; "bytes16";
   "bytes17"; "bytes18"; "bytes19"; "bytes20"; "bytes21"; "bytes22"; "bytes23"; "bytes24";
   "bytes25"; "bytes26"; "bytes27"; "bytes28"; "bytes29"; "bytes30"; "bytes31"; "bytes32"]%string.

Definition strBool : bytes := list_byte_of_string "bool".
Definition strBytes : bytes := list_byte_of_string "bytes".
Definition strString : bytes := list_byte_of_string "string".
Definition strAddr : bytes := list_byte_of_string "address".

(** [find] of a character, [npos] as [None]. *)
Fixpoint find (c : byte) (s : bytes) : option nat :=
  match s with
  | [] => None
  | x :: s => if bool_decide (x = c) then Some 0%nat else option_map S (find c s)
  end.

(** [trim]: the blanks on both sides go. *)
Fixpoint trimLeft (s : bytes) : bytes :=
  match s with
  | [] => []
  | x :: s' => if bool_decide (x = " "%byte) then trimLeft s' else s
  end.
Definition trim (s : bytes) : bytes := rev (trimLeft (rev (trimLeft s))).

Definition member (s : bytes) (l : list string) : bool :=
  existsb (fun x => bool_decide (list_byte_of_string x = s)) l.

Definition getEnumType (s : bytes) : ABI_ELEMENTARY_TYPE :=
  if bool_decide (s = strBool) then BOOL
  else if bool_decide (s = strAddr) then ADDR
  else if bool_decide (s = strString) then STRING
  else if bool_decide (s = strBytes) then BYTES
  else if member s setUint then UINT
  else if member s setInt then INT
  else if member s setByteN then BYTESN
  else INVALID.

Record ABIInType : Type := mkType
  { aet : ABI_ELEMENTARY_TYPE
  ; strEleType : bytes
  ; strType : bytes
  ; extents : list Z }.

Definition clear : ABIInType := mkType INVALID [] [] [].

Definition isDigit (c : byte) : bool := (48 <=? b2z c) && (b2z c <=? 57).

(** [strtoul] of a string of digits: values beyond [ULONG_MAX] give it. *)
Definition strtoul (digits : bytes) : Z :=
  fold_left (fun n c => Z.min (2 ^ 64 - 1) (10 * n + (b2z c - 48))) digits 0.

(** The loop of [reset] over what remains of the type name from [leftBracket]
    on; none when the format is invalid. *)
Fixpoint brackets (fuel : nat) (rest : bytes) (r : list Z) : outcome Empty_set (option (list Z)) :=
  match rest with
  | [] => Ok (Some r)
  | _ =>
      match fuel with
      | O => Undefined OutOfFuel
      | S fuel =>
          match find "["%byte rest, find "]"%byte rest with
          | Some lb, Some rb =>
              if (rb <=? lb)%nat then Ok None
              else
                let digit := trim (take (rb - lb - 1) (drop (lb + 1) rest)) in
                if forallb isDigit digit then
                  let size := match digit with [] => 0 | _ => strtoul digit end in
                  brackets fuel (drop (rb + 1) rest) (r ++ [size])
                else Ok None
          | _, _ => Ok None
          end
      end
  end.

(** [reset]: success, and the object afterwards. *)
Definition reset (s : bytes) : outcome Empty_set (bool * ABIInType) :=
  let type := trim s in
  let first := find "["%byte type in
  let ele := trim (match first with Some n => take n type | None => type end) in
  let t := getEnumType ele in
  if bool_decide (t = INVALID) then Ok (false, clear)
  else
    let rest := match first with Some n => drop n type | None => [] end in
    r ← brackets (length rest) rest [];
    match r with
    | Some extents => Ok (true, mkType t ele type extents)
    | None => Ok (false, clear)
    end.

Definition rank (t : ABIInType) : Z := len (extents t).

Definition extent (t : ABIInType) (index : Z) : outcome Empty_set Z :=
  if rank t <? index then Ok 0
  else match extents t !! Z.to_nat (u64 (index - 1)) with
       | Some n => Ok n
       | None => Undefined OutOfRange
       end.

(** The loop of [dynamic] over the dimensions from [i] on, [n] of them. *)
Fixpoint anyDynamic (t : ABIInType) (n : nat) (i : Z) : outcome Empty_set bool :=
  match n with
  | O => Ok false
  | S n => e ← extent t (i + 1); if e =? 0 then Ok true else anyDynamic t n (i + 1)
  end.

Definition dynamic (t : ABIInType) : outcome Empty_set bool :=
  if bool_decide (aet t = STRING) || bool_decide (aet t = BYTES) then Ok true
  else anyDynamic t (length (extents t)) 0.

Definition removeExtent (t : ABIInType) : bool * ABIInType :=
  if 0 <? rank t
  then (true, mkType (aet t) (strEleType t) (strType t) (take (length (extents t) - 1) (extents t)))
  else (false, t).

Definition valid (t : ABIInType) : bool := negb (bool_decide (aet t = INVALID)).

Record ABIFunc : Type := mkFunc
  { strFuncName : bytes
  ; strFuncSignature : bytes
  ; allParamsType : list ABIInType }.

Definition getParamsType (f : ABIFunc) : list bytes := map strType (allParamsType f).

Section Parser.
(** [boost::split] at any comma. *)
Variable split : bytes -> list bytes.

(** The loop of [parser] over the types: whether all are valid, the signature
    and the list of parameters. *)
Fixpoint parseTypes (types : list bytes) (sig : bytes) (params : list ABIInType) :
    outcome Empty_set (bool * bytes * list ABIInType) :=
  match types with
  | [] => Ok (true, sig, params)
  | type :: types =>
      let type := trim type in
      match type with
      | [] => parseTypes types sig params
      | _ =>
          let sig := sig ++ type ++ [","%byte] in
          '(ok, at_) ← reset type;
          if (ok : bool) then parseTypes types sig (params ++ [at_])
          else Ok (false, sig, params)
      end
  end.

Definition parser (s : bytes) (f : ABIFunc) : outcome Empty_set (bool * ABIFunc) :=
  match find "("%byte s, find ")"%byte s with
  | Some i0, Some i1 =>
      if (i1 <=? i0)%nat then Ok (false, f)
      else
        let name := trim (take i0 s) in
        let types := split (take (i1 - i0 - 1) (drop (i0 + 1) s)) in
        '(ok, sig, params) ← parseTypes types (name ++ ["("%byte]) (allParamsType f);
        if (ok : bool) then
          let sig := if bool_decide (head (rev sig) = Some ","%byte)
                     then take (length sig - 1) sig ++ [")"%byte]
                     else sig ++ [")"%byte] in
          Ok (true, mkFunc name sig params)
        else Ok (false, mkFunc (strFuncName f) (strFuncSignature f) params)
  | _, _ => Ok (false, f)
  end.
End Parser.
End AbiType.

(* ------------------------------------------------------------------ *)
(** ** Properties *)

Module AbiTypeFacts.
Import AbiType.

(** The elementary names, and one dimension in brackets. *)
Definition elementary : list bytes :=
  [strBool; strAddr; strString; strBytes] ++ map list_byte_of_string (setUint ++ setInt ++ setByteN).
Definition bracket (digits : bytes) : bytes := "["%byte :: digits ++ ["]"%byte].
Definition typeName (name : bytes) (dims : list bytes) : bytes := name ++ concat (map bracket dims).

Definition dimension (digits : bytes) : Z := match digits with [] => 0 | _ => strtoul digits end.

Definition plain (c : byte) : bool :=
  negb (bool_decide (c = " "%byte) || bool_decide (c = "["%byte) || bool_decide (c = "]"%byte)
        || bool_decide (c = ","%byte) || bool_decide (c = "("%byte) || bool_decide (c = ")"%byte)).

Lemma elementary_plain : forallb (fun n => forallb plain n && negb (bool_decide (n = []))) elementary = true.
Proof. vm_compute. reflexivity. Qed.

Lemma elementary_known : forallb (fun n => negb (bool_decide (getEnumType n = INVALID))) elementary = true.
Proof. vm_compute. reflexivity. Qed.

Lemma plain_not (c d : byte) :
  plain c = true -> d ∈ [" "; "["; "]"; ","; "("; ")"]%byte -> c ≠ d.
Proof.
  intros Hc Hd ->. unfold plain in Hc.
  repeat (apply elem_of_cons in Hd as [-> | Hd]; [done |]). by apply elem_of_nil in Hd.
Qed.

Lemma digit_plain (c : byte) : isDigit c = true -> plain c = true.
Proof. by destruct c. Qed.

Lemma find_app (c : byte) (s t : bytes) :
  Forall (fun x => x ≠ c) s -> find c (s ++ t) = option_map (Nat.add (length s)) (find c t).
Proof.
  induction 1 as [| x s Hx _ IH]; cbn; [by destruct (find c t) |].
  rewrite bool_decide_eq_false_2, IH by done. by destruct (find c t).
Qed.

Lemma find_none (c : byte) (s : bytes) : Forall (fun x => x ≠ c) s -> find c s = None.
Proof. intros Hs. rewrite <- (app_nil_r s), find_app by done. done. Qed.

Lemma trimLeft_keep (s : bytes) : head s ≠ Some " "%byte -> trimLeft s = s.
Proof. destruct s as [| x s]; [done |]. cbn. intros Hx. by rewrite bool_decide_eq_false_2 by congruence. Qed.

Lemma trim_keep (s : bytes) : head s ≠ Some " "%byte -> head (rev s) ≠ Some " "%byte -> trim s = s.
Proof.
  intros Hh Hl. unfold trim. rewrite !trimLeft_keep by (rewrite ?trimLeft_keep; done).
  apply rev_involutive.
Qed.

Lemma head_elem (s : bytes) (c : byte) : head s = Some c -> c ∈ s.
Proof. destruct s; [done |]. intros [= ->]. by left. Qed.

Lemma trim_plain (s : bytes) : forallb plain s = true -> trim s = s.
Proof.
  intros Hs. assert (Hall : forall c, c ∈ s -> c ≠ " "%byte).
  { intros c Hc. rewrite forallb_forall in Hs. apply plain_not; [by apply Hs, list_elem_of_In |].
    by left. }
  apply trim_keep; intros Hh%head_elem; [by apply (Hall " "%byte) |].
  apply (Hall " "%byte); [| done]. by apply list_elem_of_In, in_rev, list_elem_of_In.
Qed.

Lemma plain_forall (s : bytes) (d : byte) :
  forallb plain s = true -> d ∈ [" "; "["; "]"; ","; "("; ")"]%byte -> Forall (fun x => x ≠ d) s.
Proof.
  intros Hs Hd. apply Forall_forall. intros c Hc. rewrite forallb_forall in Hs.
  apply plain_not; [by apply Hs, list_elem_of_In | done].
Qed.

Lemma digits_plain (s : bytes) : forallb isDigit s = true -> forallb plain s = true.
Proof. rewrite !forallb_forall. auto using digit_plain. Qed.

Lemma brackets_dims (dims : list bytes) (fuel : nat) (r : list Z) :
  Forall (fun d => forallb isDigit d = true) dims ->
  (length (concat (map bracket dims)) <= fuel)%nat ->
  brackets fuel (concat (map bracket dims)) r = Ok (Some (r ++ map dimension dims)).
Proof.
  intros Hd. revert fuel r. induction Hd as [| d dims Hd _ IH]; intros fuel r Hf.
  - cbn. rewrite app_nil_r. by destruct fuel.
  - cbn [map concat bracket app] in *. destruct fuel as [| fuel]; [cbn in Hf; lia |].
    set (more := concat (map bracket dims)) in *.
    assert (Hp : forallb plain d = true) by (by apply digits_plain).
    rewrite <- app_assoc. cbn [brackets find]. rewrite bool_decide_eq_true_2 by done.
    rewrite bool_decide_eq_false_2 by done.
    rewrite find_app by (by apply plain_forall; [| set_solver]). cbn [app find].
    rewrite bool_decide_eq_true_2 by done. cbn [option_map].
    rewrite Nat.add_0_r. cbn [Nat.leb]. cbn [Nat.sub Nat.add drop].
    rewrite Nat.sub_0_r, drop_0, take_app_length.
    rewrite trim_plain, Hd by done. replace (length d + 1)%nat with (S (length d)) by lia.
    rewrite drop_app_ge by lia. replace (S (length d) - length d)%nat with 1%nat by lia.
    cbn [drop app]. cbv zeta. fold (dimension d).
    rewrite IH; [by rewrite <- app_assoc |].
    cbn [length] in Hf. rewrite !length_app in Hf. cbn [length] in Hf. lia.
Qed.

Lemma typeName_trim (name : bytes) (dims : list bytes) :
  forallb plain name = true -> name ≠ [] -> trim (typeName name dims) = typeName name dims.
Proof.
  intros Hp Hn. apply trim_keep.
  - unfold typeName. destruct name as [| c name]; [done |]. cbn in *.
    apply andb_true_iff in Hp as [Hc _]. intros [= ->]. done.
  - unfold typeName. destruct dims as [| d dims _] using rev_ind.
    + cbn. rewrite app_nil_r. intros Hh%head_elem%list_elem_of_In%in_rev%list_elem_of_In.
      pose proof (plain_forall name " "%byte Hp) as Hall. rewrite Forall_forall in Hall.
      by apply (Hall ltac:(set_solver) " "%byte).
    + rewrite map_app, concat_app, !rev_app_distr. cbn. rewrite app_nil_r, !rev_app_distr. done.
Qed.

Lemma elementary_facts (name : bytes) :
  name ∈ elementary -> forallb plain name = true /\ name ≠ [] /\ getEnumType name ≠ INVALID.
Proof.
  intros Hn%list_elem_of_In.
  pose proof (proj1 (forallb_forall _ _) elementary_plain name Hn) as [Hp Hne]%andb_true_iff.
  pose proof (proj1 (forallb_forall _ _) elementary_known name Hn) as Hk.
  apply negb_true_iff, bool_decide_eq_false in Hne, Hk. done.
Qed.

Lemma reset_typeName (name : bytes) (dims : list bytes) :
  name ∈ elementary -> Forall (fun d => forallb isDigit d = true) dims ->
  reset (typeName name dims) =
    Ok (true, mkType (getEnumType name) name (typeName name dims) (map dimension dims)).
Proof.
  intros (Hp & Hne & Hk)%elementary_facts Hd. unfold reset. rewrite typeName_trim by done.
  assert (Hbr : Forall (fun x => x ≠ "["%byte) name) by (apply plain_forall; [done | set_solver]).
  assert (Hfirst : find "["%byte (typeName name dims) =
    match dims with [] => None | _ => Some (length name) end).
  { unfold typeName. rewrite find_app by done. destruct dims; [done |]. cbn [map concat bracket app find].
    rewrite bool_decide_eq_true_2 by done. cbn [option_map]. by rewrite Nat.add_0_r. }
  rewrite Hfirst. destruct dims as [| d dims].
  - unfold typeName. cbn [map concat]. rewrite app_nil_r, trim_plain by done.
    by rewrite bool_decide_eq_false_2 by done.
  - assert (Ht : take (length name) (typeName name (d :: dims)) = name) by apply take_app_length.
    assert (Hr : drop (length name) (typeName name (d :: dims)) = concat (map bracket (d :: dims)))
      by apply drop_app_length.
    rewrite Ht, Hr, trim_plain by done. rewrite bool_decide_eq_false_2 by done.
    cbv zeta. by rewrite brackets_dims by done.
Qed.

Lemma anyDynamic_spec (t : ABIInType) (n : nat) (i : nat) :
  (i + n = length (extents t))%nat -> len (extents t) < 2 ^ 63 ->
  anyDynamic t n (Z.of_nat i) = Ok (bool_decide (0 ∈ drop i (extents t))).
Proof.
  revert i. induction n as [| n IH]; intros i Hi Hl; cbn [anyDynamic].
  - rewrite drop_ge by lia. by rewrite bool_decide_eq_false_2 by (by intros ?%elem_of_nil).
  - destruct (extents t !! i) as [e|] eqn:He; [| apply lookup_ge_None in He; lia].
    unfold extent, rank. unfold len in *. rewrite (proj2 (Z.ltb_ge _ _)) by lia.
    rewrite uwrap_small by lia. replace (Z.to_nat (Z.of_nat i + 1 - 1)) with i by lia.
    rewrite He, bind_ok, (drop_S _ e i) by done. destruct (Z.eqb_spec e 0) as [-> | Hne].
    + by rewrite bool_decide_eq_true_2 by left.
    + replace (Z.of_nat i + 1) with (Z.of_nat (S i)) by lia. rewrite IH by (unfold len; lia).
      f_equal. apply bool_decide_ext. rewrite elem_of_cons. naive_solver.
Qed.

(** A type name built from an elementary name and dimensions in brackets is
    accepted with exactly those dimensions, an empty one being 0, and the type
    is dynamic when it is [string], [bytes] or has a dimension 0. *)
Theorem type_name_parsed (name : bytes) (dims : list bytes)
    (Hname : name ∈ elementary) (Hdims : Forall (fun d => forallb isDigit d = true) dims)
    (Hlen : len dims < 2 ^ 63) :
  exists t, reset (typeName name dims) = Ok (true, t) /\
    aet t = getEnumType name /\ strEleType t = name /\ strType t = typeName name dims /\
    extents t = map dimension dims /\
    dynamic t = Ok (bool_decide (name = strString \/ name = strBytes \/ 0 ∈ map dimension dims)).
Proof.
  eexists. split; [by apply reset_typeName |]. split_and!; [done.. |].
  unfold dynamic; cbn [aet extents].
  assert (Hs : getEnumType name = STRING <-> name = strString).
  { split; [| by intros ->]. unfold getEnumType. repeat case_bool_decide; try done.
    by destruct (member name setUint), (member name setInt), (member name setByteN). }
  assert (Hb : getEnumType name = BYTES <-> name = strBytes).
  { split; [| by intros ->]. unfold getEnumType. repeat case_bool_decide; try done.
    by destruct (member name setUint), (member name setInt), (member name setByteN). }
  rewrite (bool_decide_ext _ _ Hs), (bool_decide_ext _ _ Hb).
  destruct (bool_decide (name = strString)) eqn:E1;
    [apply bool_decide_eq_true in E1; cbn; f_equal; symmetry; apply bool_decide_eq_true_2; by left |].
  destruct (bool_decide (name = strBytes)) eqn:E2;
    [apply bool_decide_eq_true in E2; cbn; f_equal; symmetry; apply bool_decide_eq_true_2; by right; left |].
  cbn [orb]. apply bool_decide_eq_false in E1, E2.
  rewrite (anyDynamic_spec _ _ 0); [| done | cbn [extents]; unfold len in *; by rewrite length_map].
  f_equal. apply bool_decide_ext. cbn [extents]. rewrite drop_0. naive_solver.
Qed.

(** The pieces joined by commas. *)
Fixpoint join (l : list bytes) : bytes :=
  match l with
  | [] => []
  | [x] => x
  | x :: l => x ++ ","%byte :: join l
  end.

(** A parameter as the test for validity sees it: a name and its dimensions. *)
Definition wellFormed (p : bytes * list bytes) : Prop :=
  p.1 ∈ elementary /\ Forall (fun d => forallb isDigit d = true) p.2.
Definition nameOf (p : bytes * list bytes) : bytes := typeName p.1 p.2.
Definition typeOf (p : bytes * list bytes) : ABIInType :=
  mkType (getEnumType p.1) p.1 (nameOf p) (map dimension p.2).

Lemma typeName_avoids (p : bytes * list bytes) (c : byte) :
  wellFormed p -> c ∈ [","; "("; ")"]%byte -> Forall (fun x => x ≠ c) (nameOf p).
Proof.
  intros [(Hp & _ & _)%elementary_facts Hd] Hc. unfold nameOf, typeName.
  apply Forall_app. split; [apply plain_forall; [done | set_solver] |].
  induction Hd as [| d dims Hd _ IH]; [constructor |]. cbn [map concat bracket app].
  constructor; [set_solver |]. rewrite !Forall_app. split_and!; [| | exact IH].
  - apply plain_forall; [by apply digits_plain | set_solver].
  - constructor; [set_solver | constructor].
Qed.

Lemma join_avoids (ps : list (bytes * list bytes)) (c : byte) :
  Forall wellFormed ps -> c ∈ ["("; ")"]%byte -> Forall (fun x => x ≠ c) (join (map nameOf ps)).
Proof.
  intros Hps Hc. induction Hps as [| p ps Hp Hps IH]; [constructor |].
  cbn [map join]. assert (Hn : Forall (fun x => x ≠ c) (nameOf p)) by (apply typeName_avoids; [done | set_solver]).
  destruct (map nameOf ps) eqn:Hm; [done |]. apply Forall_app. split; [done |].
  constructor; [set_solver | exact IH].
Qed.

Lemma trim_nameOf (p : bytes * list bytes) : wellFormed p -> trim (nameOf p) = nameOf p.
Proof. intros [(Hp & Hne & _)%elementary_facts _]. by apply typeName_trim. Qed.

Lemma reset_nameOf (p : bytes * list bytes) : wellFormed p -> reset (nameOf p) = Ok (true, typeOf p).
Proof. intros [Hn Hd]. by apply reset_typeName. Qed.

Lemma nameOf_nonempty (p : bytes * list bytes) : wellFormed p -> exists c n, nameOf p = c :: n.
Proof.
  intros [(_ & Hne & _)%elementary_facts _]. unfold nameOf, typeName.
  destruct p.1; [done |]. cbn. eauto.
Qed.

Lemma parseTypes_names (ps : list (bytes * list bytes)) (sig : bytes) (params : list ABIInType) :
  Forall wellFormed ps ->
  parseTypes (map nameOf ps) sig params =
    Ok (true, sig ++ concat (map (fun p => nameOf p ++ [","%byte]) ps), params ++ map typeOf ps).
Proof.
  intros Hps. revert sig params. induction Hps as [| p ps Hp _ IH]; intros sig params.
  - cbn. by rewrite !app_nil_r.
  - cbn [map parseTypes]. rewrite trim_nameOf by done.
    destruct (nameOf_nonempty p Hp) as (c & n & Hnp). rewrite Hnp, <- Hnp.
    cbv zeta. rewrite reset_nameOf by done.
    rewrite bind_ok. cbv iota beta. rewrite IH. cbn [concat]. by rewrite <- !app_assoc.
Qed.

Lemma concat_commas (ps : list (bytes * list bytes)) :
  ps ≠ [] -> concat (map (fun p => nameOf p ++ [","%byte]) ps) = join (map nameOf ps) ++ [","%byte].
Proof.
  induction ps as [| p ps IH]; [done |]. intros _. cbn [map concat join].
  destruct ps as [| q ps]; [cbn; by rewrite app_nil_r |]. rewrite IH by done. cbn [map].
  by rewrite <- !app_assoc.
Qed.

(** A signature of a function name and well-formed types is accepted,
    whatever follows the closing bracket: the canonical signature is the
    signature itself and the parameters are appended to those the object has. *)
Theorem signature_parsed (split : bytes -> list bytes) (name tail : bytes)
    (ps : list (bytes * list bytes)) (f : ABIFunc)
    (Hsplit : forall l, l ≠ [] -> Forall (Forall (fun x => x ≠ ","%byte)) l -> split (join l) = l)
    (Hname : forallb plain name = true) (Hps : Forall wellFormed ps) :
  let sig := name ++ "("%byte :: join (map nameOf ps) ++ [")"%byte] in
  parser split (sig ++ tail) f = Ok (true, mkFunc name sig (allParamsType f ++ map typeOf ps)).
Proof.
  cbv zeta. unfold parser. set (body := join (map nameOf ps)).
  assert (H0 : Forall (fun x => x ≠ "("%byte) name) by (apply plain_forall; [done | set_solver]).
  assert (H1 : Forall (fun x => x ≠ ")"%byte) name) by (apply plain_forall; [done | set_solver]).
  assert (H2 : Forall (fun x => x ≠ ")"%byte) body) by (apply join_avoids; [done | set_solver]).
  rewrite <- app_assoc. cbn [app]. rewrite <- app_assoc. cbn [app].
  assert (F0 : find "("%byte (name ++ "("%byte :: body ++ ")"%byte :: tail) = Some (length name)).
  { rewrite find_app by done. cbn [find]. rewrite bool_decide_eq_true_2 by done. cbn. by rewrite Nat.add_0_r. }
  assert (F1 : find ")"%byte (name ++ "("%byte :: body ++ ")"%byte :: tail)
               = Some (length name + S (length body))%nat).
  { rewrite find_app by done. cbn [find]. rewrite bool_decide_eq_false_2 by done.
    rewrite find_app by done. cbn [find]. rewrite bool_decide_eq_true_2 by done. cbn. by rewrite Nat.add_0_r. }
  rewrite F0, F1. clear F0 F1.
  rewrite (proj2 (Nat.leb_gt _ _)) by lia. rewrite take_app_length, trim_plain by done.
  rewrite drop_app_ge by lia. replace (length name + 1 - length name)%nat with 1%nat by lia.
  cbn [drop]. replace (length name + S (length body) - length name - 1)%nat with (length body) by lia.
  rewrite drop_0, take_app_length. destruct (decide (ps = [])) as [-> | Hne].
  - assert (Hs : split body = [[]]) by (apply (Hsplit [[]]); [done | by repeat constructor]).
    rewrite Hs. cbn [parseTypes trim trimLeft rev app].
    rewrite bind_ok. cbv iota beta zeta. rewrite rev_app_distr.
    rewrite bool_decide_eq_false_2 by done. cbn. by rewrite <- app_assoc, app_nil_r.
  - subst body. rewrite Hsplit; [| by destruct ps |].
    2: { apply Forall_map. eapply Forall_impl; [exact Hps |]. intros p Hp.
         apply typeName_avoids; [done | set_solver]. }
    rewrite parseTypes_names, bind_ok by done. cbv iota beta zeta. rewrite concat_commas by done.
    rewrite !rev_app_distr. rewrite bool_decide_eq_true_2 by done.
    rewrite !app_assoc, length_app. cbn [length].
    rewrite Nat.add_sub, take_app_length. by rewrite <- !app_assoc.
Qed.
End AbiTypeFacts.

(* ------------------------------------------------------------------ *)
(** ** The hypotheses can be met *)

Module AbiTypeWitnesses.
Import AbiType AbiTypeFacts.

(** A split at commas. *)
Fixpoint splitCommas (s : bytes) : list bytes :=
  match s with
  | [] => [[]]
  | c :: s =>
      if bool_decide (c = ","%byte) then [] :: splitCommas s
      else match splitCommas s with [] => [[c]] | p :: ps => (c :: p) :: ps end
  end.

Lemma splitCommas_prefix (x s : bytes) :
  Forall (fun c => c ≠ ","%byte) x ->
  splitCommas (x ++ s) = match splitCommas s with [] => [x] | p :: ps => (x ++ p) :: ps end.
Proof.
  induction 1 as [| c x Hc _ IH]; cbn [app splitCommas].
  - destruct s as [| c s]; [done |]. cbn [splitCommas]. case_bool_decide; [done |]. by destruct (splitCommas s).
  - rewrite bool_decide_eq_false_2, IH by done. by destruct (splitCommas s).
Qed.

Lemma splitCommas_join (l : list bytes) :
  l ≠ [] -> Forall (Forall (fun x => x ≠ ","%byte)) l -> splitCommas (join l) = l.
Proof.
  intros Hne Hl. induction Hl as [| x l Hx _ IH]; [done |]. destruct l as [| y l].
  - cbn [join]. rewrite <- (app_nil_r x) at 1. rewrite splitCommas_prefix by done.
    cbn. by rewrite app_nil_r.
  - change (join (x :: y :: l)) with (x ++ ","%byte :: join (y :: l)).
    rewrite splitCommas_prefix by done. cbn [splitCommas]. rewrite bool_decide_eq_true_2 by done.
    rewrite IH, app_nil_r by done. done.
Qed.

Definition uint256 : bytes := list_byte_of_string "uint256".
Definition sampleParams : list (bytes * list bytes) := [(strString, []); (uint256, [["2"%byte]; []])].

Lemma elementary_check (n : bytes) : bool_decide (n ∈ elementary) = true -> n ∈ elementary.
Proof. by rewrite bool_decide_eq_true. Qed.

Lemma uint256_elementary : uint256 ∈ elementary.
Proof. apply elementary_check. vm_compute. reflexivity. Qed.

Lemma sample_wellFormed : Forall wellFormed sampleParams.
Proof.
  repeat constructor; cbn; apply elementary_check; vm_compute; reflexivity.
Qed.

Lemma type_name_parsed_witness :
  exists t, reset (typeName uint256 [["2"%byte]; []]) = Ok (true, t) /\
    aet t = getEnumType uint256 /\ strEleType t = uint256 /\
    strType t = typeName uint256 [["2"%byte]; []] /\ extents t = [2; 0] /\
    dynamic t = Ok (bool_decide (uint256 = strString \/ uint256 = strBytes \/ 0 ∈ [2; 0])).
Proof.
  apply (type_name_parsed uint256 [["2"%byte]; []]);
    [exact uint256_elementary | repeat constructor | vm_compute; reflexivity].
Defined.

Definition transferName : bytes := list_byte_of_string "transfer".
Definition emptyFunc : ABIFunc := mkFunc [] [] [].

Lemma signature_parsed_witness :
  let sig := transferName ++ "("%byte :: join (map nameOf sampleParams) ++ [")"%byte] in
  parser splitCommas (sig ++ []) emptyFunc = Ok (true, mkFunc transferName sig (map typeOf sampleParams)).
Proof.
  apply (signature_parsed splitCommas transferName [] sampleParams emptyFunc splitCommas_join);
    [vm_compute; reflexivity | exact sample_wellFormed].
Defined.
End AbiTypeWitnesses.
